(* ===== verification/_CoqProject ===== *)
-Q . S2P
Prelude.v
Json.v
Scan.v
Retry.v
Derive.v
Template.v
Topo.v
Node.v
Validate.v
Loader.v
Engine.v
Events.v
Executor.v
Stream.v
Charts.v
JsonText.v
Helpers.v
Agent.v
Idt.v
Chat.v
Turn.v
Payloads.v
Bridge.v
Journey.v
Walk.v
Search.v
Queries.v
Models.v
Bedrock.v
Fetch.v
Inference.v
Dynamo.v
Memory.v
Prompts.v
Assistant.v
Errand.v
Tools.v
Uploads.v
Sessions.v
Wiring.v
Specs.v
Updates.v
Builtin.v
Service.v
