(* ===== verification/Prelude.v ===== *)
(** * Verification of the AI agent service

    The program (src/) is a library of two halves joined by the NATS bus. The agent half
    loads workflow documents into graphs of typed nodes and runs them on requests from the
    bus: a trigger checks and decodes the request, the executor finds the agent node, and
    the agent alternates model calls and tool calls, streams what happens to the client and
    stores the turn. The web half turns a browser's WebSocket into such requests and shows
    the stream; the RS assistant does the same for agents of an agent mesh. Around them
    stand the model providers with their updater, the conversation memories, the prompt
    store and its administration, the built-in tools, and the routes for files and charts.

    ** Files and the code they model (paths below src/)

    - Prelude.v: results of fallible functions, 64-bit wrap-around, strings, lists,
      automation. Json.v: decoded documents, [json.Marshal], base64. JsonText.v: JSON as
      text, read and written (builtin/internal/toolresult). Scan.v: regular expressions as
      matchers. Helpers.v: node/llmtiming.go, node/attachment.go, engine/safego, pkg/utils. Walk.v: searches through documents, text helpers.
    - Workflow documents. Derive.v: [MergeDerived] (pkg/workflow/engine/loader/derive.go).
      Template.v: loader/envsubst.go and render/render.go. Topo.v: [TopoOrder]. Validate.v:
      sensitive.go, schema.go. Loader.v: overrides.go, validate.go, loader.go up to
      [LoadOne]. Node.v: roles, ports, registry (pkg/workflow/node).
    - Engine.v: [LoadAll], registration, index access, prompt updates, shutdown
      (pkg/workflow/engine: engine.go, source.go, indexaccess.go). Executor.v: one run
      (engine/executor). Retry.v: policies, classes and the driver (engine/retry).
      Events.v: stream events and sinks.
    - Stream.v: session, client, and the race of closing it (pkg/transport/natsstream).
    - Agent.v, Charts.v: the agent loop (builtin/agent). Turn.v: the loop on a session.
      Payloads.v: what the agent sends as data is JSON.
    - Idt.v: token validation (pkg/idt). Chat.v: the chat trigger (builtin/natschat).
    - Bridge.v: the WebSocket half of webbridge. Uploads.v: its HTTP half and
      pkg/aws/s3files. Sessions.v: the browsers of one bridge process. Journey.v: a turn
      from the browser to the agent and back. Assistant.v: pkg/rsassistant.
      Errand.v: a consult from the agent mesh to the workflow and back.
    - Search.v (builtin/opensearch), Queries.v (postgresquery, mongoquery), Fetch.v
      (webfetch), Tools.v (quickchart, rabbitmqmanagement, serpapi, clientui,
      natsstream/toolresult.go).
    - Models.v: the model updater and its state. Bedrock.v: the Bedrock provider.
      Updates.v: the updater in a running node.
      Inference.v: the inference-gateway provider.
    - Dynamo.v: the table interface both stores use, table start-up. Memory.v:
      dynamomemory, pgmemory. Prompts.v: pkg/promptstore, pkg/promptadmin, promptrewrite.
    - The whole. Node.v also holds the environment of a node (engine/nodeenv.go,
      pkg/secret). Wiring.v: the start of the database tools and the Mongo driver adapter.
      Specs.v: what the tools offer the model. Builtin.v: the built-in node types, what
      each asks of its environment when it starts, and the registry (builtin/register.go,
      the factory.go files). Service.v: options, settings and [Run] (agent/, pkg/config),
      the workflow list (pkg/workflowlist).

    A Go function keeps its name; a record keeps the names of the fields the code uses. A
    handler is a function from its inputs and the state to the results, the state after and
    what it did on the way (requests, calls, events, in order); a loop over a changing
    world takes the world as a state with its operations. An error is a value of a sum
    type, one constructor per failing return; a panic that the code can reach is a result
    of its own. Interfaces between components are classes or records: the sink an agent
    writes to (Turn.v), the table of the stores (Dynamo.v), the storage behind an upload
    (Uploads.v).

    ** What the theorems show

    - A turn: it is closed exactly once, after everything else, and a completed one was
      stored before (Agent.v); every model call gets a well-formed conversation within the
      caps (the calls of an answer that ended the turn excepted); the answer of a completed
      one is what the agent said, with its charts (Agent.v, Charts.v); the executor logs how
      it ended (Executor.v); on a healthy connection a turn is one well-formed stream on the wire (Turn.v).
    - The stream: whatever the network loses, repeats or delays, the clients in the
      transport, the bridge and the assistant see a gap-free prefix of the session
      (Stream.v, Bridge.v, Assistant.v).
    - Who may ask: requests, tokens and conversations are checked before anything is
      served, an index is bound to the function its policy peers name (a lookup that fails
      with an empty text excepted), publication fails closed, and the chain from the policy
      peer to the request on the bus is composed (Idt.v, Engine.v, Chat.v, Bridge.v,
      Assistant.v). These hold of a validator that is enabled and does not fail open; the
      default is a disabled one. A message of the bridge carries the identity its socket's
      token was given for and a credential of its own browser session (Sessions.v).
    - A conversation: what a browser asks is what the agent gets and what the agent streams,
      error events excepted, is what the browser is shown, under one session per conversation; a refusal does not
      end it, and an error in the middle of an answer never arrives (Journey.v); the same
      way round for the assistant, where errors do arrive (Errand.v). A payload that is no
      JSON text cuts the answer off at the bridge; if model, tools and browser write JSON
      there is none (Payloads.v, Journey.v).
    - Text: JSON that is printed is read back as it was, and the reader always ends
      (JsonText.v).
    - Loading: a workflow that loads is sound and typed (the rule on secrets is one on the
      names of fields, and a reference may bring one in), failures stay with their own
      document, execution order exists exactly for acyclic graphs (Loader.v, Topo.v,
      Engine.v, Derive.v).
    - Tools stay in scope: search, Mongo, Postgres, web fetch, RabbitMQ, charts (Search.v,
      Queries.v, Fetch.v, Tools.v), and a chart's link leads to the chart (Uploads.v).
    - Models: the model in use was configured, or proposed and tested (Models.v,
      Updates.v); requests and responses survive their wire formats, and the two providers
      tell a response of text and tool calls alike (Bedrock.v, Inference.v).
    - The whole: built-in factories make nodes of the type and role they are registered
      under; in a workflow that loads, agents have the peers their ports ask for and no
      search tool is without a policy (Builtin.v); database tools open exactly what is
      configured (Wiring.v); tools read only what they document (Specs.v); the service
      starts and stops its parts in order, and what may fail without stopping it is said
      exactly (Service.v).
    - Stores: the DynamoDB memory refines a log of turns, a saved prompt is what later
      reads, instances that see it and restarts take (Memory.v, Prompts.v): for ids without
      the separator of the keys, clocks that go up, and reads that see the write; uploads are private and
      the janitor removes exactly what is due (Uploads.v).

    ** Bounds and fuel

    [kahn] has one round per node. The agent loop runs [maxIterations] rounds, the web
    fetch at most five requests, saving and appending five attempts, table polling 31
    rounds (two seconds apart within its minute), expiry 16; so are the 50 pages of the catalog; each is the code's own bound,
    and a theorem of the file says that the result does not depend on it or that the loop
    ends. The walk of the janitor takes the depth of the tree, which covers every
    directory ([walk_complete]). The reader of JSON text has twice the length of the text,
    and no more fuel changes its answer ([parse_complete]). Recursion on documents is
    structural.

    ** Limits of the model

    Field names are matched exactly, where encoding/json also accepts another case (the
    scan of chart data in Tools.v does as the code does); a
    document is its decoded value, numbers in it are integers, and maps are enumerated in
    one order (the theorems that depend on an order take it as an argument). [TrimSpace]
    and case folding are those of ASCII, except in the check for overriding phrases.
    [marshal] copies text beyond ASCII as it is, and [parse] reads integers only. Where a
    file takes the decoding of a text as a parameter [raw], [Text.parse] of JsonText.v is
    one; Turn.v and Journey.v are also stated for it. Retry jitter is a fraction with
    denominator 2^54. Overflow is modelled where the code multiplies configured numbers
    (retry delays, timeouts, windows), not on clock readings. Time zones, URL parsing, name
    resolution, servers, databases, AWS, the bus, the agent library, the HTTP framework,
    SHA-256, identifiers and clocks are parameters with what is documented of them as named
    hypotheses. Concurrency is modelled where the code shares state between goroutines
    without a lock of its own: [ClientRace] in Stream.v, [Reader] in Sessions.v,
    [CloseRace] and the schedules of [Consult] in Assistant.v, the wait for a browser's answer in Tools.v; elsewhere an
    operation under its mutex is one step. Model events of one call are read before the
    agent sends its own. A disabled ("observe-only") token check leaves no trace. Results of
    the query and web tools are records, not their text. The line a model call logs is
    modelled as text (Helpers.v); when each provider takes its times is left out.

    ** Not modelled

    Logging, tracing and metrics (engine/metrics.go and engine/trace.go only have
    implementations that do nothing), the command (cmd/), the texts of the endpoint
    documentation, and the embedded user interface. Tests and vendored packages.

    ** Next

    Cancellation of a running tool call, and the interleaving of prompt updates with
    running turns. *)

From stdpp Require Import base tactics list strings gmap option relations.
From Stdlib Require Import ZArith Lia Ascii String.

#[global] Set Default Proof Using "Type".

(** ** Results of fallible Go functions

    A Go function returning [(T, error)] becomes a [res E T]: [Ok v] for a nil
    error, [Err e] otherwise; [e] names the failing return statement. *)
Inductive res (E A : Type) : Type :=
| Ok (a : A)
| Err (e : E).
Arguments Ok {E A} _.
Arguments Err {E A} _.

Declare Scope go_scope.
Delimit Scope go_scope with go.

Definition res_bind {E A B} (m : res E A) (k : A -> res E B) : res E B :=
  match m with
  | Ok a => k a
  | Err e => Err e
  end.

Notation "'let!' x ':=' m 'in' k" := (res_bind m (fun x => k))
  (at level 10, x pattern, m at level 100, k at level 200) : go_scope.

(** An optional value as a result. *)
Definition ok_or {E A} (e : E) (o : option A) : res E A :=
  match o with Some a => Ok a | None => Err e end.

Definition is_ok {E A} (m : res E A) : bool :=
  match m with Ok _ => true | Err _ => false end.

(** Sequencing a fallible step over a list, stopping at the first error (the
    [for ... { if err != nil { return err } }] idiom). *)
Section fold_res.
Context {E A B : Type}.

Fixpoint fold_res (f : A -> B -> res E A) (acc : A) (l : list B) : res E A :=
  match l with
  | [] => Ok acc
  | x :: l => match f acc x with
              | Ok acc' => fold_res f acc' l
              | Err e => Err e
              end
  end.

Lemma fold_res_app f acc l1 l2 :
  fold_res f acc (l1 ++ l2) = res_bind (fold_res f acc l1) (fun a => fold_res f a l2).
Proof. revert acc. induction l1 as [|x l1 IH]; intros acc; simpl; [done|]. destruct (f acc x); [apply IH|done]. Qed.

(** An invariant of the accumulator carried through a successful fold; [P] sees
    the elements already consumed. *)
Lemma fold_res_ind (P : list B -> A -> Prop) f acc l a :
  P [] acc ->
  (forall pre x a1 a2, P pre a1 -> f a1 x = Ok a2 -> P (pre ++ [x]) a2) ->
  fold_res f acc l = Ok a -> P l a.
Proof.
  intros H0 Hs. enough (forall pre acc, P pre acc -> fold_res f acc l = Ok a -> P (pre ++ l) a) as G
    by (intros; by apply (G [] acc)).
  clear acc H0. induction l as [|x l IH]; intros pre acc HP Hf; simpl in Hf.
  - simplify_eq. by rewrite app_nil_r.
  - destruct (f acc x) as [a'|] eqn:E1; [|done].
    rewrite cons_middle, app_assoc. eapply IH; eauto.
Qed.

Lemma fold_res_total f acc l :
  (forall a x, x ∈ l -> exists a', f a x = Ok a') -> exists a, fold_res f acc l = Ok a.
Proof.
  revert acc. induction l as [|x l IH]; intros acc H; simpl; [by eexists|].
  destruct (H acc x (list_elem_of_here _ _)) as [a' ->]. apply IH. intros a y Hy. apply H. by right.
Qed.
End fold_res.

(** A checking loop, stopping at the first error. *)
Fixpoint first_error {A E} (f : A -> option E) (l : list A) : res E unit :=
  match l with
  | [] => Ok tt
  | x :: l => match f x with Some e => Err e | None => first_error f l end
  end.
Lemma first_error_ok {A E} (f : A -> option E) l :
  first_error f l = Ok tt <-> forall x, x ∈ l -> f x = None.
Proof.
  induction l as [|x l IH]; simpl; [split; [intros _ x Hx; by apply elem_of_nil in Hx|done]|].
  destruct (f x) eqn:Ef; [split; [done|]; intros H; specialize (H x (list_elem_of_here _ _)); congruence|].
  rewrite IH. split; [intros H y [->|Hy]%elem_of_cons; auto|intros H y Hy; apply H; by right].
Qed.

(** ** Machine integers: Go's [int]/[int64]/[time.Duration] are 64-bit two's complement *)
Definition wrap64 (z : Z) : Z := (z + 2 ^ 63) mod 2 ^ 64 - 2 ^ 63.
Definition int64_range (z : Z) : Prop := (- 2 ^ 63 <= z < 2 ^ 63)%Z.
#[export] Instance int64_range_dec z : Decision (int64_range z).
Proof. unfold int64_range. apply _. Defined.

Lemma wrap64_id z : int64_range z -> wrap64 z = z.
Proof. unfold wrap64, int64_range. intros H. rewrite Z.mod_small; lia. Qed.

Lemma wrap64_range z : int64_range (wrap64 z).
Proof. unfold wrap64, int64_range. pose proof (Z.mod_pos_bound (z + 2 ^ 63) (2 ^ 64)). lia. Qed.

(** ** Strings: Go strings are byte strings, [string] is a list of 8-bit characters *)
Section strings.
Local Open Scope string_scope.

Definition str_empty (s : string) : bool := match s with EmptyString => true | _ => false end.

(** [strings.HasPrefix], [strings.TrimPrefix] *)
Definition has_prefix (p s : string) : bool := String.prefix p s.

Fixpoint str_drop (n : nat) (s : string) : string :=
  match n, s with
  | S n, String _ s => str_drop n s
  | _, _ => s
  end.

(** [strings.Contains] *)
Fixpoint str_contains (sub s : string) : bool :=
  has_prefix sub s || match s with
                      | EmptyString => false
                      | String _ s' => str_contains sub s'
                      end.

(** [strings.HasSuffix] *)
Fixpoint has_suffix (suf s : string) : bool :=
  String.eqb suf s || match s with
                      | EmptyString => false
                      | String _ s' => has_suffix suf s'
                      end.

(** ASCII classes used by the regular expressions and by [strings.TrimSpace]. *)
Definition in_range (lo hi : nat) (c : ascii) : bool :=
  (lo <=? nat_of_ascii c)%nat && (nat_of_ascii c <=? hi)%nat.
Definition is_digit (c : ascii) : bool := in_range 48 57 c.
Definition is_upper (c : ascii) : bool := in_range 65 90 c.
Definition is_lower (c : ascii) : bool := in_range 97 122 c.
Definition is_hex (c : ascii) : bool := is_digit c || in_range 65 70 c || in_range 97 102 c.
Definition is_word (c : ascii) : bool :=
  is_digit c || is_upper c || is_lower c || (nat_of_ascii c =? 95)%nat.
Definition is_space (c : ascii) : bool := in_range 9 13 c || (nat_of_ascii c =? 32)%nat.

Definition to_lower_ascii (c : ascii) : ascii :=
  if is_upper c then ascii_of_nat (nat_of_ascii c + 32) else c.
Fixpoint to_lower (s : string) : string :=
  match s with
  | EmptyString => EmptyString
  | String c s => String (to_lower_ascii c) (to_lower s)
  end.

(** [strings.TrimSpace], on ASCII white space. *)
Fixpoint trim_left (s : string) : string :=
  match s with
  | String c s' => if is_space c then trim_left s' else s
  | EmptyString => EmptyString
  end.
Fixpoint trim_right (s : string) : string :=
  match s with
  | EmptyString => EmptyString
  | String c s' =>
      match trim_right s' with
      | EmptyString => if is_space c then EmptyString else String c EmptyString
      | r => String c r
      end
  end.
Definition trim_space (s : string) : string := trim_right (trim_left s).

Fixpoint str_all (f : ascii -> bool) (s : string) : bool :=
  match s with
  | EmptyString => true
  | String c s => f c && str_all f s
  end.

Lemma str_empty_true s : str_empty s = true <-> s = "".
Proof. by destruct s. Qed.
Lemma str_empty_false s : str_empty s = false <-> s <> "".
Proof. by destruct s. Qed.

#[global] Arguments str_empty : simpl never.
#[global] Arguments has_prefix : simpl never.
#[global] Arguments trim_space : simpl never.

Lemma trim_right_blank s : trim_right s = "" <-> str_all is_space s = true.
Proof.
  induction s as [|c s IH]; simpl; [done|].
  destruct (trim_right s); destruct (is_space c); simpl; split; intros H; try done.
  - by apply IH.
  - apply IH in H. done.
Qed.

Lemma trim_left_blank s : str_all is_space (trim_left s) = str_all is_space s.
Proof. induction s as [|c s IH]; simpl; [done|]. destruct (is_space c) eqn:E; simpl; [done|by rewrite E]. Qed.

(** A string trims to nothing exactly when it is white space only. *)
Lemma trim_space_blank s : trim_space s = "" <-> str_all is_space s = true.
Proof. unfold trim_space. by rewrite trim_right_blank, trim_left_blank. Qed.

Lemma str_app_assoc (a b c : string) : (a +:+ b) +:+ c = a +:+ (b +:+ c).
Proof. induction a as [|x a IH]; simpl; [done|]. unfold String.app in *. f_equal. apply IH. Qed.

Lemma str_app_nil_r (a : string) : a +:+ "" = a.
Proof. induction a as [|x a IH]; simpl; [done|]. unfold String.app in *. f_equal. apply IH. Qed.

Lemma str_all_app f a b : str_all f (a +:+ b) = str_all f a && str_all f b.
Proof. induction a as [|c a IH]; [done|]. change (f c && str_all f (a +:+ b) = f c && str_all f a && str_all f b). by rewrite IH, andb_assoc. Qed.

Lemma has_prefix_app p s : has_prefix p (p +:+ s) = true.
Proof. unfold has_prefix. induction p as [|c p IH]; simpl; [by destruct s|]. destruct (ascii_dec c c); done. Qed.

Lemma str_contains_app_r sub a b : str_contains sub b = true -> str_contains sub (a +:+ b) = true.
Proof. intros H. induction a as [|c a IH]; simpl; [done|]. rewrite IH. by rewrite orb_true_r. Qed.

Lemma str_contains_prefix sub b : str_contains sub (sub +:+ b) = true.
Proof.
  pose proof (has_prefix_app sub b) as H. revert H. generalize (sub +:+ b).
  intros s H. destruct s; unfold str_contains; by rewrite H.
Qed.
End strings.

(** ** Lists *)
Section lists.
Context {A : Type}.

(** First index and element satisfying a test. *)
Fixpoint find_first (f : A -> bool) (l : list A) : option A :=
  match l with
  | [] => None
  | x :: l => if f x then Some x else find_first f l
  end.

Lemma find_first_Some f l x : find_first f l = Some x -> x ∈ l /\ f x = true.
Proof.
  induction l as [|y l IH]; simpl; [done|]. destruct (f y) eqn:E; intros H; simplify_eq.
  - split; [set_solver|done].
  - destruct (IH H). split; [set_solver|done].
Qed.

Lemma find_first_split f l x :
  find_first f l = Some x -> exists l1 l2, l = l1 ++ x :: l2 /\ f x = true /\ Forall (fun y => f y = false) l1.
Proof.
  induction l as [|y l IH]; simpl; [done|]. destruct (f y) eqn:Ef; intros H; simplify_eq.
  - exists [], l. split_and!; [done|done|constructor].
  - destruct (IH H) as (l1 & l2 & -> & ? & ?). exists (y :: l1), l2. split_and!; [done|done|by constructor].
Qed.

Lemma find_first_app f l1 l2 :
  find_first f (l1 ++ l2) =
    match find_first f l1 with Some x => Some x | None => find_first f l2 end.
Proof. induction l1 as [|y l1 IH]; simpl; [done|]. by destruct (f y). Qed.

Lemma find_first_None f l : find_first f l = None <-> forall x, x ∈ l -> f x = false.
Proof.
  induction l as [|y l IH]; simpl.
  - split; [intros _ x Hx; by apply elem_of_nil in Hx|done].
  - destruct (f y) eqn:E; split; intros H.
    + done.
    + specialize (H y). rewrite E in H. discriminate H. set_solver.
    + intros x Hx. apply elem_of_cons in Hx as [->|Hx]; [done|]. by apply IH.
    + apply IH. intros x Hx. apply H. set_solver.
Qed.
End lists.

(** Membership test used by the [for _, v := range xs { if v == x {...} }] loops. *)
Definition mem_str (x : string) (xs : list string) : bool := existsb (String.eqb x) xs.

Arguments mem_str : simpl never.

Lemma mem_str_spec x xs : mem_str x xs = true <-> x ∈ xs.
Proof.
  unfold mem_str. rewrite existsb_exists. split.
  - intros (y & Hy & E). apply String.eqb_eq in E. subst. by apply list_elem_of_In.
  - intros H. exists x. split; [by apply list_elem_of_In|apply String.eqb_refl].
Qed.

Lemma mem_str_false x xs : mem_str x xs = false <-> x ∉ xs.
Proof. rewrite <- mem_str_spec. by destruct (mem_str x xs). Qed.

(** [sort.Strings] *)
Fixpoint insert_str (x : string) (l : list string) : list string :=
  match l with
  | [] => [x]
  | y :: l' => if String.leb x y then x :: l else y :: insert_str x l'
  end.
Definition sort_strings (l : list string) : list string := foldr insert_str [] l.

Lemma insert_str_perm x l : insert_str x l ≡ₚ x :: l.
Proof.
  induction l as [|y l IH]; simpl; [done|]. destruct (String.leb x y); [done|]. rewrite IH. by constructor.
Qed.
Lemma sort_strings_perm l : sort_strings l ≡ₚ l.
Proof. induction l as [|x l IH]; simpl; [done|]. by rewrite insert_str_perm, IH. Qed.

(** ** Automation *)
Create HintDb go discriminated.
Create Rewrite HintDb go.
#[export] Hint Rewrite @fold_res_app str_app_assoc str_app_nil_r : go.
#[export] Hint Resolve wrap64_range has_prefix_app str_contains_prefix : go.

(** Case analysis on every [match]/[if] a Go function body makes on the way to
    a given result, keeping the equations. *)
Ltac go_step :=
  match goal with
  | H : Ok _ = Ok _ |- _ => injection H as H
  | H : Err _ = Err _ |- _ => injection H as H
  | H : Some _ = Some _ |- _ => injection H as H
  | H : (_, _) = (_, _) |- _ => injection H as ?H ?H
  | H : Ok _ = Err _ |- _ => discriminate H
  | H : Err _ = Ok _ |- _ => discriminate H
  | H : Some _ = None |- _ => discriminate H
  | H : None = Some _ |- _ => discriminate H
  | H : res_bind ?m _ = _ |- _ => let E := fresh "E" in destruct m eqn:E; simpl in H
  | H : match ?x with _ => _ end = _ |- _ =>
      lazymatch x with
      | context [match _ with _ => _ end] => fail
      | _ => let E := fresh "E" in destruct x eqn:E
      end
  end.
Ltac go_inv := repeat (go_step; subst; try done).

(** Turn the boolean tests of the code into propositions. *)
Ltac to_prop :=
  repeat match goal with
  | H : (_ && _)%bool = true |- _ => apply andb_true_iff in H as [? ?]
  | H : (_ || _)%bool = false |- _ => apply orb_false_iff in H as [? ?]
  | H : negb _ = true |- _ => apply negb_true_iff in H
  | H : negb _ = false |- _ => apply negb_false_iff in H
  | H : String.eqb _ _ = true |- _ => apply String.eqb_eq in H
  | H : String.eqb _ _ = false |- _ => apply String.eqb_neq in H
  | H : Z.ltb _ _ = true |- _ => apply Z.ltb_lt in H
  | H : Z.ltb _ _ = false |- _ => apply Z.ltb_ge in H
  | H : Z.leb _ _ = true |- _ => apply Z.leb_le in H
  | H : Z.leb _ _ = false |- _ => apply Z.leb_gt in H
  | H : Z.eqb _ _ = true |- _ => apply Z.eqb_eq in H
  | H : Z.eqb _ _ = false |- _ => apply Z.eqb_neq in H
  | H : Nat.eqb _ _ = true |- _ => apply Nat.eqb_eq in H
  | H : Nat.eqb _ _ = false |- _ => apply Nat.eqb_neq in H
  | H : str_empty _ = true |- _ => apply str_empty_true in H
  | H : str_empty _ = false |- _ => apply str_empty_false in H
  | H : mem_str _ _ = true |- _ => apply mem_str_spec in H
  | H : mem_str _ _ = false |- _ => apply mem_str_false in H
  end.

(** Two results of the same call are the same result. *)
Ltac same_calls :=
  repeat match goal with
  | H1 : ?a = ?x, H2 : ?a = ?y |- _ =>
      lazymatch x with y => fail | _ => rewrite H1 in H2; simplify_eq end
  end.

(** Case analysis on an integer comparison of the goal. *)
Ltac case_cmp :=
  match goal with
  | |- context [Z.ltb ?x ?y] => destruct (Z.ltb_spec x y)
  | |- context [Z.leb ?x ?y] => destruct (Z.leb_spec x y)
  | |- context [Z.eqb ?x ?y] => destruct (Z.eqb_spec x y)
  | |- context [Nat.ltb ?x ?y] => destruct (Nat.ltb_spec x y)
  | |- context [Nat.leb ?x ?y] => destruct (Nat.leb_spec x y)
  | |- context [Nat.eqb ?x ?y] => destruct (Nat.eqb_spec x y)
  end; simpl.
