(* ===== verification/Json.v ===== *)
(** * JSON documents

    [json] is what [encoding/json] decodes into [any]: maps are finite maps
    (Go's [map[string]any], key order irrelevant), arrays are lists.  The file
    holds the type assertions and map operations the service applies to decoded
    documents, and [json.Marshal].  Numbers are integers: the service only reads
    integer-valued numbers and carries the others through unchanged. *)

From S2P Require Import Prelude.
From stdpp Require Import base tactics list strings gmap option sorting.
From Stdlib Require Import ZArith Lia Ascii String DecimalString DecimalZ.

#[warnings="-register-all"]
Inductive json : Type :=
| JNull
| JBool (b : bool)
| JNum (n : Z)
| JStr (s : string)
| JArr (l : list json)
| JObj (m : gmap string json).

Fixpoint jsize (v : json) : nat :=
  match v with
  | JArr l => S (foldr (fun x acc => jsize x + acc) 0 l)
  | JObj m => S (map_fold (fun _ x acc => jsize x + acc) 0 m)
  | _ => 1
  end.

Lemma jsize_arr l x : x ∈ l -> jsize x < jsize (JArr l).
Proof.
  simpl. induction l as [|y l IH]; intros Hx; [by apply elem_of_nil in Hx|].
  simpl. apply elem_of_cons in Hx as [->|Hx]; [lia|]. specialize (IH Hx). lia.
Qed.

Lemma jsize_obj m k x : m !! k = Some x -> jsize x < jsize (JObj m).
Proof.
  simpl. revert k x. induction m as [|i y m Hi Hf IH] using map_first_key_ind; intros k x Hx.
  - done.
  - rewrite map_fold_insert_first_key by done.
    destruct (decide (i = k)) as [->|Hn].
    + rewrite lookup_insert_eq in Hx. simplify_eq. lia.
    + rewrite lookup_insert_ne in Hx by done. specialize (IH _ _ Hx). lia.
Qed.

(** Induction through the arrays and objects of a document. *)
Lemma json_ind' (P : json -> Prop) :
  P JNull -> (forall b, P (JBool b)) -> (forall n, P (JNum n)) -> (forall s, P (JStr s)) ->
  (forall l, Forall P l -> P (JArr l)) ->
  (forall m, map_Forall (fun _ => P) m -> P (JObj m)) ->
  forall v, P v.
Proof.
  intros H1 H2 H3 H4 Harr Hobj v.
  induction v as [v IH] using (induction_ltof1 _ jsize).
  unfold ltof in IH. destruct v as [| | | |l|m]; auto.
  - apply Harr, Forall_forall. intros x Hx. by apply IH, jsize_arr.
  - apply Hobj. intros k x Hx. by eapply IH, jsize_obj.
Qed.

(** ** Type assertions on decoded values: [s, _ := v.(string)] and the like, the
    zero value on failure; [None] is an absent key. *)
Definition as_str (v : option json) : string :=
  match v with Some (JStr s) => s | _ => "" end.
Definition as_bool (v : option json) : bool :=
  match v with Some (JBool b) => b | _ => false end.
Definition as_arr (v : option json) : list json :=
  match v with Some (JArr l) => l | _ => [] end.
(** [m, ok := v.(map[string]any)]; a failed assertion leaves a nil map, which
    reads as empty. *)
Definition is_obj (v : option json) : option (gmap string json) :=
  match v with Some (JObj m) => Some m | _ => None end.
Definition as_obj (v : option json) : gmap string json := default ∅ (is_obj v).

(** ** Typed decoding of a struct field: an absent or [null] value leaves the zero
    value, a value of another kind is an unmarshal error ([None]). *)
Definition dec_int (v : option json) : option (option Z) :=
  match v with
  | None | Some JNull => Some None
  | Some (JNum n) => if decide (int64_range n) then Some (Some n) else None
  | _ => None
  end.
Definition dec_bool (v : option json) : option (option bool) :=
  match v with
  | None | Some JNull => Some None
  | Some (JBool b) => Some (Some b)
  | _ => None
  end.
Definition dec_str (v : option json) : option string :=
  match v with
  | None | Some JNull => Some EmptyString
  | Some (JStr s) => Some s
  | _ => None
  end.
Definition dec_list {A} (f : json -> option A) (v : option json) : option (option (list A)) :=
  match v with
  | None | Some JNull => Some None
  | Some (JArr l) => option_map Some (mapM f l)
  | _ => None
  end.
(** A struct decodes from an object; [null] leaves its zero value. *)
Definition dec_struct (v : option json) : option (gmap string json) :=
  match v with
  | None | Some JNull => Some ∅
  | Some (JObj m) => Some m
  | _ => None
  end.

(** ** [json.Marshal]: sorted keys; [html] is the encoder's HTML escaping, on in
    [json.Marshal] *)
Section marshal.
Variable html : bool.
Local Open Scope string_scope.

Definition hex_digit (n : nat) : ascii :=
  ascii_of_nat (if (n <? 10)%nat then 48 + n else 87 + n).

Definition escape_u (n : nat) : string :=
  "\u00" +:+ String (hex_digit (n / 16)) (String (hex_digit (n mod 16)) "").

(** One byte of a JSON string literal; bytes of multi-byte UTF-8 sequences are
    copied. *)
Definition escape_char (c : ascii) : string :=
  let n := nat_of_ascii c in
  if (n =? 34)%nat then String "\" (String c "")
  else if (n =? 92)%nat then String "\" (String c "")
  else if (n =? 8)%nat then "\b"
  else if (n =? 12)%nat then "\f"
  else if (n =? 10)%nat then "\n"
  else if (n =? 13)%nat then "\r"
  else if (n =? 9)%nat then "\t"
  else if (n <? 32)%nat || html && ((n =? 60)%nat || (n =? 62)%nat || (n =? 38)%nat) then escape_u n
  else String c "".

(** The line and paragraph separators U+2028 and U+2029, escaped in both modes. *)
Definition separator (a b c : ascii) : option ascii :=
  if (nat_of_ascii a =? 226)%nat && (nat_of_ascii b =? 128)%nat then
    if (nat_of_ascii c =? 168)%nat then Some "8"%char
    else if (nat_of_ascii c =? 169)%nat then Some "9"%char else None
  else None.

Fixpoint escape (s : string) : string :=
  match s with
  | EmptyString => ""
  | String a s1 =>
      match s1 with
      | String b (String c s3) =>
          match separator a b c with
          | Some d => "\u202" +:+ String d (escape s3)
          | None => escape_char a +:+ escape s1
          end
      | _ => escape_char a +:+ escape s1
      end
  end.

Definition dquote : string := String (ascii_of_nat 34) "".
Definition quote_with (s : string) : string := dquote +:+ escape s +:+ dquote.

Definition print_Z (n : Z) : string := NilZero.string_of_int (Z.to_int n).

(** Insertion sort by key: map keys are marshalled in sorted order. *)
Fixpoint insert_key (x : string * string) (l : list (string * string)) : list (string * string) :=
  match l with
  | [] => [x]
  | y :: l' => if String.leb x.1 y.1 then x :: l else y :: insert_key x l'
  end.
Definition sort_keys (l : list (string * string)) : list (string * string) :=
  foldr insert_key [] l.

Lemma insert_key_perm x l : insert_key x l ≡ₚ x :: l.
Proof.
  induction l as [|y l IH]; cbn [insert_key]; [done|]. destruct (String.leb _ _); [done|]. rewrite IH. by constructor.
Qed.
Lemma sort_keys_perm l : sort_keys l ≡ₚ l.
Proof. induction l as [|x l IH]; [done|]. cbn [sort_keys foldr]. rewrite insert_key_perm. by constructor. Qed.

Fixpoint marshal_with (v : json) : string :=
  match v with
  | JNull => "null"
  | JBool b => if b then "true" else "false"
  | JNum n => print_Z n
  | JStr s => quote_with s
  | JArr l => "[" +:+ String.concat "," (List.map marshal_with l) +:+ "]"
  | JObj m =>
      let fields := map_to_list (fmap (M := gmap string) marshal_with m) in
      "{" +:+ String.concat "," (List.map (fun kv => quote_with kv.1 +:+ ":" +:+ kv.2) (sort_keys fields)) +:+ "}"
  end.
End marshal.
Abbreviation quote_json := (quote_with true).
Abbreviation marshal := (marshal_with true).

(** Objects literals of the source: [map[string]any{"k": v, ...}]. *)
Definition jobj (kvs : list (string * json)) : json := JObj (list_to_map kvs).

Example marshal_ex :
  marshal (jobj [("b"%string, JStr "x&y"); ("a"%string, JArr [JNum 3; JBool true; JNull])])
  = ("{" +:+ dquote +:+ "a" +:+ dquote +:+ ":[3,true,null]," +:+ dquote +:+ "b" +:+ dquote +:+ ":"
     +:+ dquote +:+ "x\u0026y" +:+ dquote +:+ "}")%string.
Proof. vm_compute. reflexivity. Qed.

(** ** Integers as text *)
Section integers.
Local Open Scope string_scope.

(** [strconv.Atoi] on a 64-bit int: optional sign, decimal digits, in range. *)
Definition Atoi (s : string) : option Z :=
  n ← match s with
      | String "+"%char s' => if has_prefix "-" s' then None else Z.of_int <$> NilZero.int_of_string s'
      | _ => Z.of_int <$> NilZero.int_of_string s
      end;
  if bool_decide (int64_range n) then Some n else None.

#[export] Instance int_eq_dec : EqDecision Decimal.int.
Proof. unfold EqDecision, Decision. decide equality; decide equality. Defined.

Lemma print_Z_plus n s : print_Z n <> String "+" s.
Proof.
  unfold print_Z. destruct (Z.to_int n) as [u|u]; simpl; [|done].
  destruct u; simpl; try done.
Qed.

Lemma int_of_print n : Z.of_int <$> NilZero.int_of_string (print_Z n) = Some n.
Proof.
  rewrite <- (DecimalZ.of_to n) at 2. unfold print_Z.
  destruct (decide (Z.to_int n = Decimal.Pos Decimal.Nil)) as [->|H1]; [done|].
  destruct (decide (Z.to_int n = Decimal.Neg Decimal.Nil)) as [->|H2]; [done|].
  by rewrite NilZero.isi.
Qed.

Lemma Atoi_print n : int64_range n -> Atoi (print_Z n) = Some n.
Proof.
  intros Hn. unfold Atoi. pose proof (int_of_print n) as H.
  pose proof (print_Z_plus n) as Hp. destruct (print_Z n) as [|c s] eqn:E; [done|].
  destruct (ascii_dec c "+") as [->|Hc]; [by destruct (Hp s)|].
  assert (forall A (x y : A), match c with "+"%char => x | _ => y end = y) as Hm.
  { intros A x y. destruct c as [[] [] [] [] [] [] [] []]; done. }
  rewrite Hm, H. simpl. by rewrite bool_decide_eq_true_2.
Qed.
End integers.

(** ** [[]byte] fields: base64 text (padded, line breaks ignored) *)
Section base64.
Local Open Scope nat_scope.

Definition b64_value (c : ascii) : option nat :=
  let n := nat_of_ascii c in
  if is_upper c then Some (n - 65)
  else if is_lower c then Some (n - 71)
  else if is_digit c then Some (n + 4)
  else if n =? 43 then Some 62
  else if n =? 47 then Some 63
  else None.

Definition pad : ascii := "="%char.

(** The bytes of a sequence of groups of four characters. *)
Fixpoint b64_groups (l : list ascii) : option (list ascii) :=
  match l with
  | [] => Some []
  | a :: b :: c :: d :: l =>
      va ← b64_value a; vb ← b64_value b;
      let b1 := ascii_of_nat (va * 4 + vb / 16) in
      if Ascii.eqb c pad then
        match l with [] => if Ascii.eqb d pad then Some [b1] else None | _ => None end
      else
        vc ← b64_value c;
        let b2 := ascii_of_nat (vb mod 16 * 16 + vc / 4) in
        if Ascii.eqb d pad then match l with [] => Some [b1; b2] | _ => None end
        else
          vd ← b64_value d; rest ← b64_groups l;
          Some (b1 :: b2 :: ascii_of_nat (vc mod 4 * 64 + vd) :: rest)
  | _ => None
  end.

Definition base64_decode (s : string) : option string :=
  let l := List.filter (fun c => negb ((nat_of_ascii c =? 10) || (nat_of_ascii c =? 13))) (list_ascii_of_string s) in
  string_of_list_ascii <$> b64_groups l.

Definition b64_char (v : nat) : ascii :=
  ascii_of_nat (if v <? 26 then v + 65 else if v <? 52 then v + 71 else if v <? 62 then v - 4
                else if v =? 62 then 43 else 47).

Fixpoint b64_encode_list (l : list ascii) : list ascii :=
  match l with
  | [] => []
  | [x] => let a := nat_of_ascii x in [b64_char (a / 4); b64_char (a mod 4 * 16); pad; pad]
  | [x; y] => let a := nat_of_ascii x in let b := nat_of_ascii y in
      [b64_char (a / 4); b64_char (a mod 4 * 16 + b / 16); b64_char (b mod 16 * 4); pad]
  | x :: y :: z :: l => let a := nat_of_ascii x in let b := nat_of_ascii y in let c := nat_of_ascii z in
      b64_char (a / 4) :: b64_char (a mod 4 * 16 + b / 16) :: b64_char (b mod 16 * 4 + c / 64)
        :: b64_char (c mod 64) :: b64_encode_list l
  end.
Definition base64_encode (s : string) : string := string_of_list_ascii (b64_encode_list (list_ascii_of_string s)).

(** Encoding is undone by decoding. *)
Definition plain_char (c : ascii) : bool :=
  negb (Ascii.eqb c pad) && negb ((nat_of_ascii c =? 10) || (nat_of_ascii c =? 13)).
Definition line_break (c : ascii) : bool := (nat_of_ascii c =? 10) || (nat_of_ascii c =? 13).

Lemma b64_digit v : v < 64 -> b64_value (b64_char v) = Some v /\ plain_char (b64_char v) = true.
Proof.
  assert (forallb (fun v => bool_decide (b64_value (b64_char v) = Some v) && plain_char (b64_char v)) (seq 0 64) = true) as H
    by (vm_compute; reflexivity).
  rewrite forallb_forall in H. intros Hv. specialize (H v (proj2 (in_seq 64 0 v) ltac:(lia))).
  apply andb_true_iff in H as [H1 H2]. by apply bool_decide_eq_true in H1.
Qed.
Lemma b64_not_pad v : v < 64 -> Ascii.eqb (b64_char v) pad = false.
Proof. intros Hv. apply b64_digit in Hv as [_ Hp]. unfold plain_char in Hp. by apply andb_true_iff in Hp as [?%negb_true_iff _]. Qed.
Lemma b64_value_char v : v < 64 -> b64_value (b64_char v) = Some v.
Proof. intros Hv. by apply b64_digit. Qed.
Lemma byte_back c n : n = nat_of_ascii c -> ascii_of_nat n = c.
Proof. intros ->. apply ascii_nat_embedding. Qed.

(** The three sextet splits of a byte. *)
Lemma sextets a b c : a < 256 -> b < 256 -> c < 256 ->
  a / 4 < 64 /\ a mod 4 * 16 + b / 16 < 64 /\ a mod 4 * 16 < 64 /\ b mod 16 * 4 + c / 64 < 64 /\ b mod 16 * 4 < 64 /\ c mod 64 < 64
  /\ a / 4 * 4 + (a mod 4 * 16 + b / 16) / 16 = a /\ a / 4 * 4 + a mod 4 * 16 / 16 = a
  /\ (a mod 4 * 16 + b / 16) mod 16 * 16 + (b mod 16 * 4 + c / 64) / 4 = b
  /\ (a mod 4 * 16 + b / 16) mod 16 * 16 + b mod 16 * 4 / 4 = b
  /\ (b mod 16 * 4 + c / 64) mod 4 * 64 + c mod 64 = c.
Proof.
  intros. pose proof (Nat.div_mod_eq a 4). pose proof (Nat.div_mod_eq b 16). pose proof (Nat.div_mod_eq c 64).
  pose proof (Nat.mod_upper_bound a 4 ltac:(lia)). pose proof (Nat.mod_upper_bound b 16 ltac:(lia)).
  pose proof (Nat.mod_upper_bound c 64 ltac:(lia)).
  assert (forall x y d, d <> 0 -> y < d -> (x * d + y) / d = x /\ (x * d + y) mod d = y) as Hd.
  { intros x y d Hd Hy. split; [by rewrite Nat.div_add_l, Nat.div_small, Nat.add_0_r|].
    rewrite Nat.add_comm, Nat.Div0.mod_add. by apply Nat.mod_small. }
  destruct (Hd (a mod 4) (b / 16) 16) as [-> ->]; [lia|lia|].
  destruct (Hd (b mod 16) (c / 64) 4) as [-> ->]; [lia|lia|]. rewrite !Nat.div_mul by lia. lia.
Qed.

Lemma b64_groups_encode l : b64_groups (b64_encode_list l) = Some l.
Proof.
  remember (List.length l) as n eqn:Hn. revert l Hn. induction (lt_wf n) as [n _ IH]. intros l ->.
  destruct l as [|x [|y [|z l]]]; [done| | |].
  - destruct (sextets (nat_of_ascii x) 0 0 (nat_ascii_bounded x) ltac:(lia) ltac:(lia)) as (H1 & _ & H2 & _ & _ & _ & _ & H3 & _).
    cbn [b64_encode_list b64_groups]. rewrite !b64_value_char by done. simpl. f_equal. f_equal. by apply byte_back.
  - destruct (sextets (nat_of_ascii x) (nat_of_ascii y) 0 (nat_ascii_bounded x) (nat_ascii_bounded y) ltac:(lia))
      as (H1 & H2 & _ & _ & H4 & _ & H6 & _ & _ & H7 & _).
    cbn [b64_encode_list b64_groups]. rewrite b64_not_pad by done. rewrite !b64_value_char by done.
    simpl. f_equal. f_equal; [by apply byte_back|]. f_equal. by apply byte_back.
  - destruct (sextets (nat_of_ascii x) (nat_of_ascii y) (nat_of_ascii z) (nat_ascii_bounded x) (nat_ascii_bounded y) (nat_ascii_bounded z))
      as (H1 & H2 & _ & H3 & _ & H4 & H5 & _ & H6 & _ & H7).
    cbn [b64_encode_list b64_groups]. rewrite !b64_not_pad by done. rewrite !b64_value_char by done. cbn [mbind option_bind].
    rewrite (IH (List.length l)) by (simpl; lia || done). cbn [mbind option_bind].
    rewrite (byte_back x) by done. rewrite (byte_back y) by done. by rewrite (byte_back z).
Qed.

Lemma encoded_plain l : Forall (fun c => line_break c = false) (b64_encode_list l).
Proof.
  assert (forall v, v < 64 -> line_break (b64_char v) = false) as H.
  { intros v Hv. apply b64_digit in Hv as [_ Hp]. unfold plain_char in Hp. by apply andb_true_iff in Hp as [_ ?%negb_true_iff]. }
  remember (List.length l) as n eqn:Hn. revert l Hn. induction (lt_wf n) as [n _ IH]. intros l ->.
  destruct l as [|x [|y [|z l]]]; [by constructor| | |]; cbn [b64_encode_list].
  - destruct (sextets (nat_of_ascii x) 0 0 (nat_ascii_bounded x) ltac:(lia) ltac:(lia)) as (? & _ & ? & _).
    repeat constructor; by apply H.
  - destruct (sextets (nat_of_ascii x) (nat_of_ascii y) 0 (nat_ascii_bounded x) (nat_ascii_bounded y) ltac:(lia))
      as (? & ? & _ & _ & ? & _). repeat constructor; by apply H.
  - destruct (sextets (nat_of_ascii x) (nat_of_ascii y) (nat_of_ascii z) (nat_ascii_bounded x) (nat_ascii_bounded y) (nat_ascii_bounded z))
      as (? & ? & _ & ? & _ & ? & _). do 4 (constructor; [by apply H|]). apply (IH (List.length l)); simpl; (lia || done).
Qed.

Lemma base64_roundtrip s : base64_decode (base64_encode s) = Some s.
Proof.
  unfold base64_decode, base64_encode. rewrite list_ascii_of_string_of_list_ascii.
  pose proof (encoded_plain (list_ascii_of_string s)) as Hp.
  assert (forall l, Forall (fun c => line_break c = false) l -> List.filter (fun c => negb (line_break c)) l = l) as Hf.
  { intros l Hl. induction Hl as [|c l Hc _ IH]; [done|]. simpl. rewrite Hc. simpl. by rewrite IH. }
  unfold line_break in Hf. rewrite Hf by exact Hp. rewrite b64_groups_encode. simpl. by rewrite string_of_list_ascii_of_string.
Qed.
End base64.

Example base64_ex :
  List.map base64_decode ["aGVsbG8="; "aGk="; "YWJj"; "YWJ"; "@@@@"]%string = [Some "hello"; Some "hi"; Some "abc"; None; None]%string
  /\ List.map base64_encode ["hello"; "hi"; "abc"; ""]%string = ["aGVsbG8="; "aGk="; "YWJj"; ""]%string.
Proof. vm_compute. split; reflexivity. Qed.
