(* ===== verification/Scan.v ===== *)
(** * Scanning for regular-expression matches

    The service's regular expressions are used through [ReplaceAllStringFunc] and
    [FindAllStringSubmatch]: leftmost, non-overlapping matches.  Each pattern is a
    matcher [string -> option (M * nat)] giving the groups and the (positive) length
    of the match that starts at the head of the string; the file turns a matcher
    into the token stream of a text and proves the facts the clients share. *)

From S2P Require Import Prelude.
From stdpp Require Import base tactics list strings option.
From Stdlib Require Import Lia Ascii String.
Local Open Scope string_scope.
Local Open Scope list_scope.

Inductive token (M : Type) : Type :=
| TChar (c : ascii)
| TMatch (m : M) (text : string).
Arguments TChar {M} _.
Arguments TMatch {M} _ _.

Fixpoint str_take (n : nat) (s : string) : string :=
  match n, s with
  | S n, String c s => String c (str_take n s)
  | _, _ => EmptyString
  end.

Section scan.
Context {M : Type} (match_at : string -> option (M * nat)).

(** [skip] counts the characters of the current match still to pass over. *)
Fixpoint scan_from (skip : nat) (s : string) : list (token M) :=
  match s with
  | EmptyString => []
  | String c s' =>
      match skip with
      | S k => scan_from k s'
      | O => match match_at s with
             | Some (m, S n) => TMatch m (str_take (S n) s) :: scan_from n s'
             | _ => TChar c :: scan_from 0 s'
             end
      end
  end.
Definition scan (s : string) : list (token M) := scan_from 0 s.

(** [FindAllStringSubmatch] *)
Definition find_all (s : string) : list M :=
  omap (fun t => match t with TMatch m _ => Some m | TChar _ => None end) (scan s).

(** [ReplaceAllStringFunc], the replacement computed from the groups. *)
Definition render_token (f : M -> string -> string) (t : token M) : string :=
  match t with TChar c => String c EmptyString | TMatch m x => f m x end.
Definition replace_all (f : M -> string -> string) (s : string) : string :=
  String.concat "" (List.map (render_token f) (scan s)).

(** A matcher that only fires on a fixed first character. *)
Definition starts_with (c0 : ascii) : Prop :=
  forall s r, match_at s = Some r -> exists s', s = String c0 s'.

Fixpoint str_lacks (c0 : ascii) (s : string) : bool :=
  match s with
  | EmptyString => true
  | String c s => negb (Ascii.eqb c c0) && str_lacks c0 s
  end.

Lemma scan_from_skip a s : scan_from (String.length a) (a +:+ s) = scan s.
Proof. induction a as [|c a IH]; simpl; [by destruct s|]. apply IH. Qed.

Fixpoint chars (s : string) : list (token M) :=
  match s with
  | EmptyString => []
  | String c s => TChar c :: chars s
  end.

Lemma scan_literal c0 a s :
  starts_with c0 -> str_lacks c0 a = true -> scan (a +:+ s) = chars a ++ scan s.
Proof.
  intros Hs. induction a as [|c a IH]; simpl; intros Hl; [done|].
  apply andb_true_iff in Hl as [Hc Ha]. unfold scan in *. simpl.
  destruct (match_at _) as [[m [|n]]|] eqn:E; [| |].
  - by rewrite IH.
  - destruct (Hs _ _ E) as [s' [= -> _]]. by rewrite Ascii.eqb_refl in Hc.
  - by rewrite IH.
Qed.

Lemma str_take_app a s : str_take (String.length a) (a +:+ s) = a.
Proof. induction a as [|c a IH]; simpl; [by destruct s|]. f_equal. apply IH. Qed.

Lemma scan_match m x s :
  x <> EmptyString -> match_at (x +:+ s) = Some (m, String.length x) ->
  scan (x +:+ s) = TMatch m x :: scan s.
Proof.
  destruct x as [|c x]; [done|]. intros _ Hm. change (String c x +:+ s) with (String c (x +:+ s)) in *.
  unfold scan at 1. simpl. rewrite Hm. simpl.
  f_equal.
  - by rewrite str_take_app.
  - apply scan_from_skip.
Qed.

Lemma concat_chars f a :
  String.concat "" (List.map (render_token f) (chars a)) = a.
Proof.
  induction a as [|c a IH]; simpl; [done|].
  destruct (List.map (render_token f) (chars a)) eqn:E.
  - destruct a; [done|]. discriminate E.
  - simpl. f_equal. exact IH.
Qed.
End scan.

Lemma concat_nil_cons x l : String.concat "" (x :: l) = x +:+ String.concat "" l.
Proof. destruct l; simpl; [by rewrite str_app_nil_r|done]. Qed.

Lemma concat_nil_app l1 l2 :
  String.concat "" (l1 ++ l2) = String.concat "" l1 +:+ String.concat "" l2.
Proof.
  induction l1 as [|x l1 IH]; [done|]. rewrite <- app_comm_cons, !concat_nil_cons, IH.
  by rewrite str_app_assoc.
Qed.

(** ** Replacement, one character of the text at a time *)
Section replace.
Context {M : Type} (match_at : string -> option (M * nat)) (f : M -> string -> string).

Lemma scan_from_drop n s : scan_from match_at n s = scan match_at (str_drop n s).
Proof. revert s. induction n as [|n IH]; intros [|c s]; try done. apply IH. Qed.

Lemma replace_all_cons c s :
  replace_all match_at f (String c s)
  = match match_at (String c s) with
    | Some (m, S n) => f m (str_take (S n) (String c s)) +:+ replace_all match_at f (str_drop n s)
    | _ => String c (replace_all match_at f s)
    end.
Proof.
  unfold replace_all, scan. simpl. destruct (match_at (String c s)) as [[m [|n]]|]; cbn [List.map render_token];
    rewrite concat_nil_cons; try done. by rewrite scan_from_drop.
Qed.

(** No match starts anywhere in the text. *)
Fixpoint no_match (s : string) : Prop :=
  match s with
  | EmptyString => True
  | String _ s' => match_at s = None /\ no_match s'
  end.
Lemma no_match_id s : no_match s -> replace_all match_at f s = s.
Proof. induction s as [|c s IH]; [done|]. intros [Hm Hs]. rewrite replace_all_cons, Hm. by rewrite IH. Qed.
Lemma no_match_suffix s : match_at "" = None -> no_match s <-> forall a t, s = a +:+ t -> match_at t = None.
Proof.
  intros H0. induction s as [|c s IH]; simpl.
  - split; [intros _ [|? a] [|? t] H; done|done].
  - rewrite IH. split.
    + intros [Hc Hs] [|c' a] t H; [by rewrite <- (H : _ = t)|]. injection H as _ H. by apply (Hs a t).
    + intros H. split; [by apply (H "")|]. intros a t ->. by apply (H (String c a)).
Qed.
Lemma no_match_drop n s : no_match s -> no_match (str_drop n s).
Proof. revert n. induction s as [|c s IH]; intros [|n] H; try done. apply IH, H. Qed.
End replace.

(** ** Reading a maximal run of characters of a class *)
Fixpoint span (f : ascii -> bool) (s : string) : string * string :=
  match s with
  | EmptyString => (EmptyString, EmptyString)
  | String c s' =>
      if f c then let '(a, b) := span f s' in (String c a, b) else (EmptyString, s)
  end.

Definition head_sat (f : ascii -> bool) (s : string) : bool :=
  match s with String c _ => f c | EmptyString => false end.

Lemma span_app f a s :
  str_all f a = true -> head_sat f s = false -> span f (a +:+ s) = (a, s).
Proof.
  intros Ha Hs. induction a as [|c a IH].
  - change ("" +:+ s) with s. destruct s as [|c s]; [done|]. simpl in *. by rewrite Hs.
  - simpl in Ha. apply andb_true_iff in Ha as [Hc Ha].
    change (String c a +:+ s) with (String c (a +:+ s)). simpl. by rewrite Hc, IH.
Qed.

Lemma str_length_app a b : String.length (a +:+ b) = String.length a + String.length b.
Proof. induction a as [|c a IH]; simpl; [done|]. f_equal. apply IH. Qed.

Lemma span_inv f s a b : span f s = (a, b) -> s = a +:+ b /\ str_all f a = true /\ head_sat f b = false.
Proof.
  revert a b. induction s as [|c s IH]; intros a b; simpl; [by intros [= <- <-]|].
  destruct (f c) eqn:Ec; [|intros [= <- <-]; simpl; by rewrite Ec].
  destruct (span f s) as [a' b'] eqn:E. intros [= <- <-]. destruct (IH _ _ eq_refl) as (-> & Ha & Hb). simpl. by rewrite Ec, Ha.
Qed.
Lemma str_drop_app a s : str_drop (String.length a) (a +:+ s) = s.
Proof. induction a as [|c a IH]; [by destruct s|]. exact IH. Qed.
Lemma str_drop_length n s : (String.length (str_drop n s) <= String.length s)%nat.
Proof. revert n. induction s as [|c s IH]; intros [|n]; simpl; try lia. specialize (IH n). lia. Qed.
Lemma prefix_split p s : has_prefix p s = true -> s = p +:+ str_drop (String.length p) s.
Proof.
  unfold has_prefix. revert s. induction p as [|c p IH]; intros s; [done|].
  destruct s as [|d s]; [done|]. simpl. destruct (ascii_dec c d) as [->|]; [|done]. intros H.
  change (String d s = String d (p +:+ str_drop (String.length p) s)). by rewrite <- IH.
Qed.
