(* ===== verification/Retry.v ===== *)
(** * Bounded retries (pkg/workflow/engine/retry)

    Policies and their parsing, the error classifier, the delay schedule and the
    retry driver [doWithClockAndLogger].  The driver is written against an
    environment record: the operation, the clock, the timer/cancellation select
    and the random source, all acting on an abstract world. *)

From S2P Require Import Prelude Json.
From stdpp Require Import base tactics list strings gmap option relations.
From Stdlib Require Import ZArith Lia Ascii String.
Local Open Scope string_scope.
Local Open Scope Z_scope.
Local Open Scope go_scope.

(** ** Data (types.go) *)

(** Go's [Backoff] and [Class] are string types; [Class] also takes the value [""]
    (no class). *)
Definition BackoffFixed : string := "fixed".
Definition BackoffExponential : string := "exponential".

Definition ClassTransient : string := "transient".
Definition ClassTimeout : string := "timeout".
Definition ClassUpstream : string := "upstream".
Definition ClassValidation : string := "validation".
Definition ClassPermission : string := "permission".
Definition ClassStreamEmitted : string := "stream-already-emitted".

Definition AllClasses : list string :=
  [ClassTransient; ClassTimeout; ClassUpstream; ClassValidation; ClassPermission].

(** The six constants the [switch] statements of classify.go and policy.go list. *)
Definition known_classes : list string := AllClasses ++ [ClassStreamEmitted].

(** Durations are nanoseconds in a signed 64-bit integer. *)
Record Policy := mkPolicy {
  MaxAttempts : Z;
  Backoff : string;
  InitialDelay : Z;
  MaxDelay : Z;
  Jitter : bool;
  RetryOn : list string;
  PerAttemptTimeout : Z;
  TotalBudget : Z;
}.

Inductive Decision :=
| DecisionSucceeded
| DecisionExhaustedRetries
| DecisionNotRetryable
| DecisionBudgetExpired
| DecisionCancelled.

#[export] Instance Decision_eq_dec : EqDecision Decision.
Proof. solve_decision. Defined.

(** ** Errors

    The error values the classifier tells apart.  [EWrap] is
    [fmt.Errorf("<msg>%w", err)]; [ETool] is [*node.ToolError], whose [Cause] may be
    nil; [EPolicyDenied] is [*node.PolicyDeniedError]. *)
#[warnings="-register-all"]
Inductive error :=
| EPlain (msg : string)
| EWrap (msg : string) (inner : error)
| ETool (code : string) (cause : option error) (retryable : bool)
| EPolicyDenied (reason : string) (allowed : list string)
| EDeadlineExceeded
| ECanceled.

(** [err.Error()] *)
Fixpoint Error (e : error) : string :=
  match e with
  | EPlain m => m
  | EWrap m i => m +:+ Error i
  | ETool _ None _ => ""
  | ETool _ (Some c) _ => Error c
  | EPolicyDenied r l =>
      "policy denied: " +:+ r +:+ " (allowed indices: [" +:+ String.concat " " l +:+ "])"
  | EDeadlineExceeded => "context deadline exceeded"
  | ECanceled => "context canceled"
  end.

(** The chain [errors.As]/[errors.Is] walk: the error and everything it unwraps to. *)
Fixpoint chain (e : error) : list error :=
  e :: match e with
       | EWrap _ i => chain i
       | ETool _ (Some c) _ => chain c
       | _ => []
       end.

(** [errors.As(err, &te)]: the outermost [*node.ToolError] of the chain. *)
Fixpoint as_tool (l : list error) : option (string * bool) :=
  match l with
  | [] => None
  | ETool c _ r :: _ => Some (c, r)
  | _ :: l => as_tool l
  end.

Fixpoint as_policy_denied (l : list error) : option (list string) :=
  match l with
  | [] => None
  | EPolicyDenied _ a :: _ => Some a
  | _ :: l => as_policy_denied l
  end.

Definition is_deadline (e : error) : bool :=
  existsb (fun e => match e with EDeadlineExceeded => true | _ => false end) (chain e).
Definition is_canceled (e : error) : bool :=
  existsb (fun e => match e with ECanceled => true | _ => false end) (chain e).

(** ** httpTransientPattern: [\b(408|429|5\d{2})\b|connection reset|unexpected EOF] *)

(** [code_at prev s]: the status-code branch matches at the start of [s], the
    preceding character being [prev]. *)
Definition code_at (prev : option ascii) (s : string) : bool :=
  match s with
  | String a (String b (String c rest)) =>
      negb (match prev with Some p => is_word p | None => false end)
      && (has_prefix "408" s || has_prefix "429" s
          || ((nat_of_ascii a =? 53)%nat && is_digit b && is_digit c))
      && negb (match rest with String d _ => is_word d | EmptyString => false end)
  | _ => false
  end.

Fixpoint code_in (prev : option ascii) (s : string) : bool :=
  code_at prev s || match s with
                    | EmptyString => false
                    | String c s' => code_in (Some c) s'
                    end.

Definition httpTransientPattern (s : string) : bool :=
  code_in None s || str_contains "connection reset" s || str_contains "unexpected EOF" s.

(** [Classify] on a non-nil error. *)
Definition Classify (e : error) : string :=
  match as_tool (chain e) with
  | Some (code, true) => if mem_str code known_classes then code else ClassUpstream
  | Some (_, false) => ClassValidation
  | None =>
      if is_deadline e then ClassTimeout
      else if is_canceled e then ClassValidation
      else match as_policy_denied (chain e) with
           | Some _ => ClassPermission
           | None => if httpTransientPattern (Error e) then ClassTransient else ClassValidation
           end
  end.

(** ** Policy parsing (policy.go) *)

Definition Millisecond : Z := 1000000.
Definition Second : Z := 1000000000.

(** [rawPolicy]: the decoded JSON block; [None] is an absent (nil) field. *)
Record rawPolicy := mkRawPolicy {
  r_MaxAttempts : option Z;
  r_Backoff : string;
  r_InitialDelayMs : option Z;
  r_MaxDelayMs : option Z;
  r_Jitter : option bool;
  r_RetryOn : option (list string);
  r_PerAttemptTimeoutSeconds : option Z;
  r_TotalBudgetSeconds : option Z;
}.

Inductive policy_error :=
| PE_parse
| PE_maxAttempts (n : Z)
| PE_backoff (b : string)
| PE_initialDelay (n : Z)
| PE_maxDelay (n : Z)
| PE_class (s : string)
| PE_perAttempt (n : Z)
| PE_budget (n : Z).

(** The list loop of [parseClasses] after the ["all"] scan. *)
Fixpoint parseClasses_loop (l : list string) : res policy_error (list string) :=
  match l with
  | [] => Ok []
  | s :: l => if mem_str s known_classes
              then let! out := parseClasses_loop l in Ok (s :: out)
              else Err (PE_class s)
  end.

Definition parseClasses (l : list string) : res policy_error (list string) :=
  if mem_str "all" l then Ok AllClasses else parseClasses_loop l.

(** Optional bounded duration field: range check, then the unit product in
    64-bit arithmetic. *)
Definition duration_field (v : option Z) (unit : Z) (mk : Z -> policy_error) (def : Z)
    : res policy_error Z :=
  match v with
  | None => Ok def
  | Some n => if n <? 0 then Err (mk n) else Ok (wrap64 (n * unit))
  end.

Definition resolvePolicy (r : rawPolicy) : res policy_error Policy :=
  let! maxAttempts := match r_MaxAttempts r with
                      | None => Ok 3
                      | Some n => if (n <? 1) || (10 <? n) then Err (PE_maxAttempts n) else Ok n
                      end in
  let! backoff := (if str_empty (r_Backoff r) then Ok BackoffExponential
                   else if mem_str (r_Backoff r) [BackoffFixed; BackoffExponential]
                        then Ok (r_Backoff r) else Err (PE_backoff (r_Backoff r))) in
  let! initial := duration_field (r_InitialDelayMs r) Millisecond PE_initialDelay (500 * Millisecond) in
  let! maxd := duration_field (r_MaxDelayMs r) Millisecond PE_maxDelay (5 * Second) in
  let jitter := default true (r_Jitter r) in
  let! retryOn := match r_RetryOn r with
                  | None => Ok [ClassTransient; ClassTimeout]
                  | Some l => parseClasses l
                  end in
  let! per := duration_field (r_PerAttemptTimeoutSeconds r) Second PE_perAttempt 0 in
  let! budget := duration_field (r_TotalBudgetSeconds r) Second PE_budget 0 in
  Ok (mkPolicy maxAttempts backoff initial maxd jitter retryOn per budget).

(** [json.Unmarshal] into [rawPolicy]. *)
Definition dec_rawPolicy (v : json) : option rawPolicy :=
  match v with
  | JObj m =>
      a ← dec_int (m !! "maxAttempts");
      b ← dec_str (m !! "backoff");
      c ← dec_int (m !! "initialDelayMs");
      d ← dec_int (m !! "maxDelayMs");
      e ← dec_bool (m !! "jitter");
      f ← dec_list (fun v => dec_str (Some v)) (m !! "retryOn");
      g ← dec_int (m !! "perAttemptTimeoutSeconds");
      h ← dec_int (m !! "totalBudgetSeconds");
      Some (mkRawPolicy a b c d e f g h)
  | _ => None
  end.
Definition unmarshal_rawPolicy (v : json) : res policy_error rawPolicy := ok_or PE_parse (dec_rawPolicy v).

(** [ParsePolicy]: [None] is an absent block, [Some JNull] the literal [null]; both
    mean "run once". *)
Definition ParsePolicy (raw : option json) : res policy_error (option Policy) :=
  match raw with
  | None | Some JNull => Ok None
  | Some v =>
      let! r := unmarshal_rawPolicy v in
      let! p := resolvePolicy r in
      Ok (Some p)
  end.

Definition InRetryOn (p : option Policy) (c : string) : bool :=
  match p with None => false | Some p => mem_str c (RetryOn p) end.

Definition IsRetryEnabled (p : option Policy) : bool :=
  match p with None => false | Some p => 1 <? MaxAttempts p end.

(** ** Delay schedule (nextDelay) *)

(** The jitter factor [0.5 + rng.Float64()*0.5] is [k / 2^54] for a numerator
    [2^53 <= k <= 2^54]; the product is truncated toward zero. *)
Definition jittered (d k : Z) : Z := Z.quot (d * k) (2 ^ 54).

(** The delay before jitter: fixed or doubling, capped by [MaxDelay] when set. *)
Definition baseDelay (p : Policy) (attempt : Z) : Z :=
  let d := if String.eqb (Backoff p) BackoffFixed then InitialDelay p
           else wrap64 (InitialDelay p * wrap64 (Z.shiftl 1 (attempt - 1))) in
  if (0 <? MaxDelay p) && (MaxDelay p <? d) then MaxDelay p else d.

(** [time.Time.Sub]: saturates at the ends of the duration range. *)
Definition time_sub (a b : Z) : Z := Z.max (- 2 ^ 63) (Z.min (2 ^ 63 - 1) (a - b)).

(** ** The retry driver (retry.go) *)

(** Outcome of the [select] between the delay timer and [ctx.Done()]. *)
Inductive wait_outcome := TimerFired | CtxDone (err : error).

(** What the driver runs against.  [op] gets the per-attempt timeout ([None] when
    the policy sets none) and the 1-based attempt number; [rng] draws a jitter
    numerator. *)
Record Env (W V : Type) := mkEnv {
  now : W -> Z;
  op : option Z -> Z -> W -> (V * option error) * W;
  rng : W -> Z * W;
  wait : Z -> W -> wait_outcome * W;
}.
Arguments now {W V} _ _.
Arguments op {W V} _ _ _ _.
Arguments rng {W V} _ _.
Arguments wait {W V} _ _ _.

Record Result (V : Type) := mkResult {
  Value : V;
  Err_ : option error;
  Attempts : Z;
  LastClass : string;    (* "" when no error was classified *)
  Decision_ : Decision;
  Elapsed : Z;
}.
Arguments mkResult {V} _ _ _ _ _ _.
Arguments Value {V} _.
Arguments Err_ {V} _.
Arguments Attempts {V} _.
Arguments LastClass {V} _.
Arguments Decision_ {V} _.
Arguments Elapsed {V} _.

Section Do.
Context {W V : Type} (E : Env W V).

(** One pass of the loop body: either the run ends with a result, or the driver
    goes on to the next attempt in a new world. *)
Inductive step_outcome := Finished (r : Result V) (w : W) | Continue (w : W) | Exhausted (v : V) (e : error) (c : string) (w : W).

(** [nextDelay]: a random number is drawn only for a positive delay. *)
Definition nextDelay (p : Policy) (attempt : Z) (w : W) : Z * W :=
  let d := baseDelay p attempt in
  if Jitter p && (0 <? d) then let '(k, w) := rng E w in (jittered d k, w) else (d, w).

Definition per_attempt (p : Policy) : option Z :=
  if 0 <? PerAttemptTimeout p then Some (PerAttemptTimeout p) else None.

Definition over_budget (p : Policy) (start delay : Z) (w : W) : bool :=
  (0 <? TotalBudget p) && (TotalBudget p <? time_sub (now E w + delay) start).

Definition attempt_step (p : Policy) (start attempt : Z) (w : W) : step_outcome :=
  let '((v, err), w) := op E (per_attempt p) attempt w in
  match err with
  | None => Finished (mkResult v None attempt "" DecisionSucceeded (time_sub (now E w) start)) w
  | Some err =>
      let lastClass := Classify err in
      if negb (InRetryOn (Some p) lastClass) then
        Finished (mkResult v (Some err) attempt lastClass DecisionNotRetryable (time_sub (now E w) start)) w
      else if attempt =? MaxAttempts p then Exhausted v err lastClass w
      else
        let '(delay, w) := nextDelay p attempt w in
        if over_budget p start delay w then
          Finished (mkResult v (Some err) attempt lastClass DecisionBudgetExpired (time_sub (now E w) start)) w
        else
          match wait E delay w with
          | (TimerFired, w) => Continue w
          | (CtxDone ce, w) =>
              Finished (mkResult v (Some ce) attempt lastClass DecisionCancelled (time_sub (now E w) start)) w
          end
  end.

(** The [for attempt := ...; attempt <= p.MaxAttempts; attempt++] loop; [fuel]
    counts the attempts left. *)
Fixpoint retry_loop (p : Policy) (start : Z) (fuel : nat) (attempt : Z) (w : W) : option (Result V * W) :=
  match fuel with
  | O => None
  | S fuel =>
      match attempt_step p start attempt w with
      | Finished r w => Some (r, w)
      | Exhausted v e c w =>
          Some (mkResult v (Some e) (MaxAttempts p) c DecisionExhaustedRetries (time_sub (now E w) start), w)
      | Continue w => retry_loop p start fuel (attempt + 1) w
      end
  end.

Definition run_once (start : Z) (w : W) : Result V * W :=
  let '((v, err), w) := op E None 1 w in
  match err with
  | None => (mkResult v None 1 "" DecisionSucceeded (time_sub (now E w) start), w)
  | Some err => (mkResult v (Some err) 1 (Classify err) DecisionNotRetryable (time_sub (now E w) start), w)
  end.

(** [doWithClockAndLogger], the loop given as many passes as attempts. *)
Definition Do (p : option Policy) (w : W) : option (Result V * W) :=
  let start := now E w in
  match p with
  | None => Some (run_once start w)
  | Some p =>
      if MaxAttempts p <=? 1 then Some (run_once start w)
      else retry_loop p start (Z.to_nat (MaxAttempts p)) 1 w
  end.
End Do.
Arguments Finished {W V} _ _.
Arguments Continue {W V} _.
Arguments Exhausted {W V} _ _ _ _.

(** ** Specification of the driver

    [again] is one failed attempt that the policy retries; [final] the attempt a
    run ends with, by decision. *)
Section Spec.
Context {W V : Type} (E : Env W V) (p : Policy) (start : Z).

Inductive again : Z * W -> Z * W -> Prop :=
| again_intro a w v err w1 delay w2 w3 :
    op E (per_attempt p) a w = ((v, Some err), w1) ->
    Classify err ∈ RetryOn p ->
    a <> MaxAttempts p ->
    nextDelay E p a w1 = (delay, w2) ->
    over_budget E p start delay w2 = false ->
    wait E delay w2 = (TimerFired, w3) ->
    again (a, w) (a + 1, w3).

Inductive final (a : Z) (w : W) : Result V -> W -> Prop :=
| final_success v w1 :
    op E (per_attempt p) a w = ((v, None), w1) ->
    final a w (mkResult v None a "" DecisionSucceeded (time_sub (now E w1) start)) w1
| final_not_retryable v err w1 :
    op E (per_attempt p) a w = ((v, Some err), w1) ->
    Classify err ∉ RetryOn p ->
    final a w (mkResult v (Some err) a (Classify err) DecisionNotRetryable (time_sub (now E w1) start)) w1
| final_exhausted v err w1 :
    op E (per_attempt p) a w = ((v, Some err), w1) ->
    Classify err ∈ RetryOn p ->
    a = MaxAttempts p ->
    final a w (mkResult v (Some err) a (Classify err) DecisionExhaustedRetries (time_sub (now E w1) start)) w1
| final_budget v err w1 delay w2 :
    op E (per_attempt p) a w = ((v, Some err), w1) ->
    Classify err ∈ RetryOn p ->
    a <> MaxAttempts p ->
    nextDelay E p a w1 = (delay, w2) ->
    over_budget E p start delay w2 = true ->
    final a w (mkResult v (Some err) a (Classify err) DecisionBudgetExpired (time_sub (now E w2) start)) w2
| final_cancelled v err w1 delay w2 cerr w3 :
    op E (per_attempt p) a w = ((v, Some err), w1) ->
    Classify err ∈ RetryOn p ->
    a <> MaxAttempts p ->
    nextDelay E p a w1 = (delay, w2) ->
    over_budget E p start delay w2 = false ->
    wait E delay w2 = (CtxDone cerr, w3) ->
    final a w (mkResult v (Some cerr) a (Classify err) DecisionCancelled (time_sub (now E w3) start)) w3.

Lemma attempt_step_spec a w :
  match attempt_step E p start a w with
  | Finished r w' => final a w r w'
  | Continue w' => again (a, w) (a + 1, w')
  | Exhausted v e c w' =>
      a = MaxAttempts p /\ c = Classify e /\ Classify e ∈ RetryOn p
      /\ op E (per_attempt p) a w = ((v, Some e), w')
  end.
Proof.
  unfold attempt_step, InRetryOn. destruct (op E (per_attempt p) a w) as [[v [err|]] w1] eqn:Eop;
    [|by constructor].
  destruct (mem_str (Classify err) (RetryOn p)) eqn:Em; to_prop; simpl; [|by constructor].
  destruct (Z.eqb_spec a (MaxAttempts p)) as [Hm|Hm]; [done|].
  destruct (nextDelay E p a w1) as [delay w2] eqn:Ed.
  destruct (over_budget E p start delay w2) eqn:Eb; [by econstructor|].
  destruct (wait E delay w2) as [[|ce] w3] eqn:Ew; by econstructor.
Qed.

(** The loop follows a chain of retried attempts and stops at a final one. *)
Lemma retry_loop_spec fuel a w :
  a + Z.of_nat fuel = MaxAttempts p + 1 -> fuel <> O ->
  exists r w' a' w1, retry_loop E p start fuel a w = Some (r, w')
    /\ rtc again (a, w) (a', w1) /\ final a' w1 r w' /\ a <= a' <= MaxAttempts p.
Proof.
  revert a w. induction fuel as [|fuel IH]; intros a w Ha Hf; [done|]. simpl.
  pose proof (attempt_step_spec a w) as Hs.
  destruct (attempt_step E p start a w) as [r w'|w'|v e c w'].
  - exists r, w', a, w. split_and!; [done|apply rtc_refl|done|lia|lia].
  - assert (fuel <> O) as Hf'.
    { intros ->. inversion Hs. lia. }
    destruct (IH (a + 1) w') as (r & w2 & a' & w1 & H1 & H2 & H3 & H4); [lia|done|].
    exists r, w2, a', w1. split_and!; [done|by eapply rtc_l|done|lia|lia].
  - destruct Hs as (-> & -> & Hc & Hop). eexists _, _, (MaxAttempts p), w.
    split_and!; [done|apply rtc_refl|by apply final_exhausted|lia|lia].
Qed.

Lemma again_det c c1 c2 : again c c1 -> again c c2 -> c1 = c2.
Proof. intros H1 H2. inversion H1; subst. inversion H2; subst. by same_calls. Qed.

Lemma final_irreducible a w r w' c : final a w r w' -> again (a, w) c -> False.
Proof. intros Hf Ha. inversion Ha; subst. inversion Hf; subst; by same_calls. Qed.

Lemma final_det a w r1 w1 r2 w2 : final a w r1 w1 -> final a w r2 w2 -> r1 = r2 /\ w1 = w2.
Proof. intros H1 H2. inversion H1; subst; inversion H2; subst; same_calls; done. Qed.

Lemma runs_det c a1 w1 r1 v1 a2 w2 r2 v2 :
  rtc again c (a1, w1) -> final a1 w1 r1 v1 ->
  rtc again c (a2, w2) -> final a2 w2 r2 v2 -> r1 = r2 /\ v1 = v2.
Proof.
  intros Hc1 Hf1 Hc2 Hf2. remember (a1, w1) as c1 eqn:Ec1. revert Hc2.
  induction Hc1 as [c|c c' c1 Hs Hc1 IH]; subst; intros Hc2.
  - inversion Hc2 as [|? y ? Hs]; subst; [by eapply final_det|].
    exfalso. exact (final_irreducible _ _ _ _ _ Hf1 Hs).
  - inversion Hc2 as [|? y ? Hs']; subst.
    + exfalso. exact (final_irreducible _ _ _ _ _ Hf2 Hs).
    + apply IH; [done|]. by rewrite (again_det _ _ _ Hs Hs').
Qed.

Lemma final_attempts a w r w' : final a w r w' -> Attempts r = a.
Proof. by intros []. Qed.

Lemma final_err a w r w' : final a w r w' -> Err_ r = None <-> Decision_ r = DecisionSucceeded.
Proof. by intros []. Qed.
End Spec.

(** ** Parsing: what an accepted block guarantees *)

(** The shape every policy produced by [ParsePolicy] has. *)
Definition policy_wf (p : Policy) : Prop :=
  1 <= MaxAttempts p <= 10
  /\ Backoff p ∈ [BackoffFixed; BackoffExponential]
  /\ Forall (fun c => c ∈ known_classes) (RetryOn p)
  /\ int64_range (InitialDelay p) /\ int64_range (MaxDelay p)
  /\ int64_range (PerAttemptTimeout p) /\ int64_range (TotalBudget p).

Lemma parseClasses_loop_known l out :
  parseClasses_loop l = Ok out -> out = l /\ Forall (fun c => c ∈ known_classes) out.
Proof.
  revert out. induction l as [|s l IH]; intros out; simpl; intros H; [simplify_eq; split; [done|constructor]|].
  destruct (mem_str s known_classes) eqn:Em; [|done]. to_prop.
  go_inv. destruct (IH _ eq_refl) as [-> ?]. split; [done|]. by constructor.
Qed.

Lemma parseClasses_known l out :
  parseClasses l = Ok out -> Forall (fun c => c ∈ known_classes) out.
Proof.
  unfold parseClasses. destruct (mem_str "all" l); intros H.
  - simplify_eq. apply Forall_forall. unfold known_classes. set_solver.
  - by apply parseClasses_loop_known in H as [_ ?].
Qed.

Lemma duration_field_ok v unit mk def d :
  int64_range def -> duration_field v unit mk def = Ok d ->
  int64_range d /\ (v = None -> d = def)
  /\ forall n, v = Some n -> 0 <= n /\ d = wrap64 (n * unit).
Proof.
  unfold duration_field. intros Hdef H. destruct v as [n|]; simplify_eq.
  - destruct (Z.ltb_spec n 0); simplify_eq. split_and!; [apply wrap64_range|done|].
    intros m Hm. by simplify_eq.
  - done.
Qed.

Lemma resolvePolicy_wf r p : resolvePolicy r = Ok p -> policy_wf p.
Proof.
  unfold resolvePolicy. intros H.
  assert (forall n, 0 <= n < 2 ^ 63 -> int64_range n) as Hr by (unfold int64_range; lia).
  repeat match type of H with
  | res_bind ?m _ = _ => let E := fresh "E" in destruct m eqn:E; simpl in H; [|done]
  end.
  simplify_eq. unfold policy_wf; simpl.
  repeat match goal with
  | Hd : duration_field _ _ _ _ = Ok _ |- _ =>
      apply duration_field_ok in Hd as (? & _ & _); [|apply Hr; unfold Millisecond, Second; lia]
  end.
  split_and!; try done.
  - destruct (r_MaxAttempts r) as [n|]; [|simplify_eq; lia].
    destruct (Z.ltb_spec n 1), (Z.ltb_spec 10 n); simpl in *; simplify_eq; lia.
  - destruct (r_MaxAttempts r) as [n|]; [|simplify_eq; lia].
    destruct (Z.ltb_spec n 1), (Z.ltb_spec 10 n); simpl in *; simplify_eq; lia.
  - destruct (str_empty (r_Backoff r)); [simplify_eq; set_solver|].
    destruct (mem_str _ _) eqn:Em; simplify_eq. by to_prop.
  - destruct (r_RetryOn r); [by eapply parseClasses_known|]. simplify_eq.
    apply Forall_forall. unfold known_classes, AllClasses. set_solver.
Qed.

(** ** Properties *)

Lemma parse_policy_wf raw p : ParsePolicy raw = Ok (Some p) -> policy_wf p.
Proof.
  unfold ParsePolicy. intros H. destruct raw as [[]|]; try done;
  (destruct (unmarshal_rawPolicy _); [|done]; simpl in H;
   destruct (resolvePolicy _) eqn:Er; [|done]; simplify_eq/=; by eapply resolvePolicy_wf).
Qed.

(** Every accepted retry block is within the documented ranges. *)
Theorem ParsePolicy_wf raw p : ParsePolicy raw = Ok (Some p) -> policy_wf p.
Proof. apply parse_policy_wf. Qed.

Lemma do_total {W V} (E : Env W V) p w :
  exists r w', Do E p w = Some (r, w')
    /\ 1 <= Attempts r <= Z.max 1 (from_option MaxAttempts 1 p)
    /\ (Err_ r = None <-> Decision_ r = DecisionSucceeded).
Proof.
  assert (forall s, exists r w', run_once E s w = (r, w') /\ Attempts r = 1
            /\ (Err_ r = None <-> Decision_ r = DecisionSucceeded)) as Honce.
  { intros s. unfold run_once. destruct (op E None 1 w) as [[v [e|]] w1]; eexists _, _; done. }
  destruct p as [p|]; simpl.
  - destruct (Z.leb_spec (MaxAttempts p) 1).
    + destruct (Honce (now E w)) as (r & w' & -> & Ha & Hd). exists r, w'. split_and!; [done|lia|lia|apply Hd..].
    + destruct (retry_loop_spec E p (now E w) (Z.to_nat (MaxAttempts p)) 1 w)
        as (r & w' & a & w1 & Hl & _ & Hf & Ha); [lia|lia|].
      exists r, w'. split_and!; [done| | |eapply final_err; eauto..].
      all: rewrite (final_attempts _ _ _ _ _ _ _ Hf); lia.
  - destruct (Honce (now E w)) as (r & w' & -> & Ha & Hd). exists r, w'. split_and!; [done|lia|lia|apply Hd..].
Qed.

(** A property of the world that every operation of the environment keeps is kept by
    a whole run. *)
Lemma Do_preserves {W V} (E : Env W V) (R : W -> Prop) p w r w' :
  (forall d a w, R w -> R (op E d a w).2) ->
  (forall w, R w -> R (rng E w).2) ->
  (forall d w, R w -> R (wait E d w).2) ->
  R w -> Do E p w = Some (r, w') -> R w'.
Proof.
  intros Hop Hrng Hwait Hw.
  assert (forall start, R (run_once E start w).2) as Honce.
  { intros start. unfold run_once. specialize (Hop None 1 w Hw).
    destruct (op E None 1 w) as [[v [e|]] w1]; done. }
  destruct p as [p|]; simpl; [|intros H; injection H as H; specialize (Honce (now E w)); by rewrite H in Honce].
  destruct (MaxAttempts p <=? 1); [intros H; injection H as H; specialize (Honce (now E w)); by rewrite H in Honce|].
  generalize (now E w). intros start. clear Honce. generalize 1. revert w Hw.
  induction (Z.to_nat (MaxAttempts p)) as [|fuel IH]; intros w Hw a H; simpl in H; [done|].
  unfold attempt_step in H. specialize (Hop (per_attempt p) a w Hw).
  destruct (op E (per_attempt p) a w) as [[v [e|]] w1]; cbn [fst snd] in H, Hop; [|by injection H as <- <-].
  destruct (negb (InRetryOn (Some p) (Classify e))); [by injection H as <- <-|].
  destruct (a =? MaxAttempts p); [by injection H as <- <-|].
  assert (R (nextDelay E p a w1).2) as Hd.
  { unfold nextDelay. destruct (Jitter p && (0 <? baseDelay p a)); [|done].
    specialize (Hrng w1 Hop). by destruct (rng E w1). }
  destruct (nextDelay E p a w1) as [delay w2]. simpl in Hd.
  cbn [snd] in Hd. destruct (over_budget E p start delay w2); [by injection H as <- <-|].
  specialize (Hwait delay w2 Hd). destruct (wait E delay w2) as [[|ce] w3]; cbn [snd] in Hwait;
    [exact (IH w3 Hwait (a + 1) H)|by injection H as <- <-].
Qed.

(** What every call of the operation satisfies, a successful run returns. *)
Lemma Do_outcome {W V} (E : Env W V) (Q : V -> Prop) p w r w' :
  (forall d a w, let '((v, e), _) := op E d a w in e = None -> Q v) ->
  Do E p w = Some (r, w') -> Err_ r = None -> Q (Value r).
Proof.
  intros Hop.
  assert (forall start, Err_ (run_once E start w).1 = None -> Q (Value (run_once E start w).1)) as Honce.
  { intros start. unfold run_once. specialize (Hop None 1 w).
    destruct (op E None 1 w) as [[v [e|]] w1]; [done|]. intros _. by apply Hop. }
  destruct p as [p|]; simpl; [|intros H; injection H as H; specialize (Honce (now E w)); by rewrite H in Honce].
  destruct (MaxAttempts p <=? 1); [intros H; injection H as H; specialize (Honce (now E w)); by rewrite H in Honce|].
  generalize (now E w). intros start. clear Honce. generalize 1. revert w.
  induction (Z.to_nat (MaxAttempts p)) as [|fuel IH]; intros w a H He; simpl in H; [done|].
  unfold attempt_step in H. specialize (Hop (per_attempt p) a w) as Ho.
  destruct (op E (per_attempt p) a w) as [[v [e|]] w1]; cbn [fst snd] in H; [|injection H as <- <-; by apply Ho].
  destruct (negb (InRetryOn (Some p) (Classify e))); [by injection H as <- <-|].
  destruct (a =? MaxAttempts p); [by injection H as <- <-|].
  destruct (nextDelay E p a w1) as [delay w2].
  destruct (over_budget E p start delay w2); [by injection H as <- <-|].
  destruct (wait E delay w2) as [[|ce] w3]; [exact (IH w3 (a + 1) H He)|by injection H as <- <-].
Qed.

(** The retry driver always returns, after between 1 and MaxAttempts attempts, with a nil error exactly on success. *)
Theorem Do_total {W V} (E : Env W V) p w :
  exists r w', Do E p w = Some (r, w')
    /\ 1 <= Attempts r <= Z.max 1 (from_option MaxAttempts 1 p)
    /\ (Err_ r = None <-> Decision_ r = DecisionSucceeded).
Proof. apply do_total. Qed.

(** C31: The retry driver returns exactly the outcome of the specification: a chain of failed, retryable, in-budget attempts followed by one final attempt. *)
Theorem Do_refines {W V} (E : Env W V) p w r w' :
  1 < MaxAttempts p ->
  (Do E (Some p) w = Some (r, w')
   <-> exists a w1, rtc (again E p (now E w)) (1, w) (a, w1) /\ final E p (now E w) a w1 r w').
Proof.
  intros Hm. set (start := now E w).
  assert (Do E (Some p) w = retry_loop E p start (Z.to_nat (MaxAttempts p)) 1 w) as ->.
  { unfold Do. destruct (Z.leb_spec (MaxAttempts p) 1); [lia|done]. }
  destruct (retry_loop_spec E p start (Z.to_nat (MaxAttempts p)) 1 w)
    as (r0 & w0 & a0 & w1 & -> & Hc & Hf & _); [lia|lia|].
  split.
  - intros [= <- <-]. eauto.
  - intros (a & w2 & Hc2 & Hf2).
    destruct (runs_det E p start _ _ _ _ _ _ _ _ _ Hc Hf Hc2 Hf2) as [-> ->]. done.
Qed.

Lemma baseDelay_exact p a :
  1 <= a -> 0 <= InitialDelay p -> InitialDelay p * 2 ^ (a - 1) < 2 ^ 63 -> a <= 63 ->
  0 < MaxDelay p ->
  baseDelay p a = Z.min (MaxDelay p)
    (if String.eqb (Backoff p) BackoffFixed then InitialDelay p else InitialDelay p * 2 ^ (a - 1)).
Proof.
  intros Ha Hi Ho Hb Hm. unfold baseDelay.
  assert (wrap64 (InitialDelay p * wrap64 (Z.shiftl 1 (a - 1))) = InitialDelay p * 2 ^ (a - 1)) as ->.
  { rewrite Z.shiftl_1_l.
    assert (0 < 2 ^ (a - 1)) by (apply Z.pow_pos_nonneg; lia).
    assert (2 ^ (a - 1) <= 2 ^ 62) by (apply Z.pow_le_mono_r; lia).
    rewrite (wrap64_id (2 ^ (a - 1))) by (unfold int64_range; lia).
    apply wrap64_id. unfold int64_range. nia. }
  destruct (String.eqb _ _); repeat case_cmp; lia.
Qed.

Lemma jittered_bounds d k : 0 < d -> 2 ^ 53 <= k <= 2 ^ 54 -> d / 2 <= jittered d k <= d.
Proof.
  intros Hd Hk. unfold jittered. rewrite Z.quot_div_nonneg by nia. split.
  - apply Z.div_le_lower_bound; [lia|]. pose proof (Z.mul_div_le d 2). nia.
  - apply Z.div_le_upper_bound; nia.
Qed.

(** The waiting time before attempt [a + 1]: the capped schedule, and at least
    half of it under jitter. *)
Theorem nextDelay_bounds {W V} (E : Env W V) p a w delay w' :
  1 <= a <= 63 -> 0 <= InitialDelay p -> InitialDelay p * 2 ^ (a - 1) < 2 ^ 63 ->
  0 < MaxDelay p -> 2 ^ 53 <= (rng E w).1 <= 2 ^ 54 ->
  nextDelay E p a w = (delay, w') ->
  let d := Z.min (MaxDelay p)
    (if String.eqb (Backoff p) BackoffFixed then InitialDelay p else InitialDelay p * 2 ^ (a - 1)) in
  d / 2 <= delay <= d /\ (Jitter p = false -> delay = d /\ w' = w).
Proof.
  intros [Ha Hb] Hi Ho Hm Hk H. unfold nextDelay in H.
  rewrite baseDelay_exact in H by done. cbv zeta.
  set (d := Z.min _ _) in *.
  assert (0 <= d). { unfold d. destruct (String.eqb _ _); [lia|]. assert (0 < 2 ^ (a - 1)) by (apply Z.pow_pos_nonneg; lia). nia. }
  destruct (Jitter p); simpl in H; [destruct (Z.ltb_spec 0 d)|].
  - destruct (rng E w) as [k w1]. injection H as <- <-. split; [by apply jittered_bounds|done].
  - injection H as <- <-. split; [|done]. assert (d = 0) as -> by lia. done.
  - injection H as <- <-. split; [|done]. split; [|lia]. apply Z.div_le_upper_bound; lia.
Qed.

(** A negative schedule slips through the range checks: the millisecond product
    wraps around. *)
Definition overflow_block : json := jobj [("initialDelayMs", JNum 9223372036855)].
Theorem ParsePolicy_delay_overflow :
  exists p, ParsePolicy (Some overflow_block) = Ok (Some p) /\ InitialDelay p < 0.
Proof. eexists. split; [vm_compute; reflexivity|]. vm_compute. done. Qed.

Lemma as_tool_cons_other e l :
  (forall c i r, e <> ETool c i r) -> as_tool (e :: l) = as_tool l.
Proof. intros H. destruct e; try done. by destruct (H code cause retryable). Qed.

(** The classifier only returns the six known classes, and reports an emitted
    stream only for an error a tool itself declared retryable with that code. *)
Theorem Classify_known e :
  Classify e ∈ known_classes
  /\ (Classify e = ClassStreamEmitted -> as_tool (chain e) = Some (ClassStreamEmitted, true)).
Proof.
  unfold Classify. destruct (as_tool (chain e)) as [[code [|]]|].
  - destruct (mem_str code known_classes) eqn:Em; to_prop; [split; [done|by intros ->]|].
    split; [by apply mem_str_spec|discriminate].
  - split; [by apply mem_str_spec|discriminate].
  - destruct (is_deadline e); [split; [by apply mem_str_spec|discriminate]|].
    destruct (is_canceled e); [split; [by apply mem_str_spec|discriminate]|].
    destruct (as_policy_denied _); [split; [by apply mem_str_spec|discriminate]|].
    destruct (httpTransientPattern _); (split; [by apply mem_str_spec|discriminate]).
Qed.

Lemma is_deadline_wrap m e : is_deadline (EWrap m e) = is_deadline e.
Proof. done. Qed.
Lemma is_canceled_wrap m e : is_canceled (EWrap m e) = is_canceled e.
Proof. done. Qed.

(** Wrapping with [%w] never changes the class of a typed error. *)
Theorem Classify_wrap m e :
  as_tool (chain e) <> None \/ is_deadline e = true \/ is_canceled e = true
    \/ as_policy_denied (chain e) <> None ->
  Classify (EWrap m e) = Classify e.
Proof.
  intros H. unfold Classify. rewrite is_deadline_wrap, is_canceled_wrap. simpl.
  destruct (as_tool (chain e)) as [[? []]|]; [done..|].
  destruct (is_deadline e); [done|]. destruct (is_canceled e); [done|].
  destruct (as_policy_denied (chain e)); [done|].
  exfalso. destruct H as [H|[H|[H|H]]]; congruence.
Qed.

(** An error that ended a stream after output was shown carries
    [stream-already-emitted] with [Retryable:false]; the classifier turns it into
    [validation], so a policy with [retryOn: ["all"]] retries it. *)
Theorem emitted_retried_under_all cause p :
  RetryOn p = AllClasses ->
  InRetryOn (Some p) (Classify (ETool ClassStreamEmitted (Some cause) false)) = true.
Proof. intros H. simpl. by rewrite H. Qed.

(** ** Concrete runs *)

(** Three failing attempts with the default policy, in a world that counts calls
    and time. *)
Definition demo_env (outcomes : list (option error)) : Env (nat * Z) nat :=
  mkEnv _ _ (fun w => w.2)
    (fun _ a w => ((w.1, default None (outcomes !! w.1)), (S w.1, w.2 + 1)))
    (fun w => (2 ^ 53, w))
    (fun d w => (TimerFired, (w.1, w.2 + d))).

Definition default_policy : Policy :=
  mkPolicy 3 BackoffExponential (500 * Millisecond) (5 * Second) true
    [ClassTransient; ClassTimeout] 0 0.

Example ParsePolicy_default : ParsePolicy (Some (JObj ∅)) = Ok (Some default_policy).
Proof. vm_compute. reflexivity. Qed.
Example ParsePolicy_all :
  ParsePolicy (Some (jobj [("retryOn", JArr [JStr "timeout"; JStr "all"]); ("maxAttempts", JNum 1)]))
  = Ok (Some (mkPolicy 1 BackoffExponential (500 * Millisecond) (5 * Second) true AllClasses 0 0)).
Proof. vm_compute. reflexivity. Qed.
Example ParsePolicy_zero :
  ParsePolicy (Some (jobj [("maxAttempts", JNum 0)])) = Err (PE_maxAttempts 0).
Proof. vm_compute. reflexivity. Qed.
Example httpTransient_ex :
  List.map httpTransientPattern ["got 503"; "id 15031"; "read: connection reset by peer"; "x429"; "429!"]
  = [true; false; true; false; true].
Proof. vm_compute. reflexivity. Qed.
Example Do_ex :
  Do (demo_env [Some EDeadlineExceeded; Some (EPlain "HTTP 502")]) (Some default_policy) (0%nat, 0)
  = Some (mkResult 2%nat None 3 "" DecisionSucceeded 750000003, (3%nat, 750000003)).
Proof. vm_compute. reflexivity. Qed.

Lemma Do_refines_witness :
  1 < MaxAttempts default_policy
  /\ (Do (demo_env [Some (EPlain "bad")]) (Some default_policy) (0%nat, 0)
       = Some (mkResult 0%nat (Some (EPlain "bad")) 1 ClassValidation DecisionNotRetryable 1, (1%nat, 1))
      <-> exists a w1,
            rtc (again (demo_env [Some (EPlain "bad")]) default_policy 0) (1, (0%nat, 0)) (a, w1)
            /\ final (demo_env [Some (EPlain "bad")]) default_policy 0 a w1
                 (mkResult 0%nat (Some (EPlain "bad")) 1 ClassValidation DecisionNotRetryable 1) (1%nat, 1)).
Proof.
  split; [vm_compute; reflexivity|].
  apply (Do_refines (demo_env [Some (EPlain "bad")]) default_policy (0%nat, 0)). vm_compute. reflexivity.
Defined.

Lemma ParsePolicy_wf_witness :
  ParsePolicy (Some (JObj ∅)) = Ok (Some default_policy) /\ policy_wf default_policy.
Proof.
  split; [vm_compute; reflexivity|]. apply (ParsePolicy_wf (Some (JObj ∅))). vm_compute. reflexivity.
Defined.

Lemma nextDelay_bounds_witness :
  nextDelay (demo_env []) default_policy 2 (0%nat, 0) = (500000000, (0%nat, 0))
  /\ 1000000000 / 2 <= 500000000 <= 1000000000.
Proof.
  split; [vm_compute; reflexivity|].
  refine (proj1 (nextDelay_bounds (demo_env []) default_policy 2 (0%nat, 0) 500000000 (0%nat, 0) _ _ _ _ _ _));
    try (vm_compute; split; discriminate); vm_compute; try reflexivity; discriminate.
Defined.

Lemma Classify_wrap_witness :
  Classify (EWrap "llm: " EDeadlineExceeded) = Classify EDeadlineExceeded.
Proof. apply (Classify_wrap "llm: " EDeadlineExceeded). right. left. reflexivity. Defined.

Lemma emitted_retried_under_all_witness :
  InRetryOn (Some (mkPolicy 3 BackoffFixed 0 0 false AllClasses 0 0))
    (Classify (ETool ClassStreamEmitted (Some (EPlain "eof")) false)) = true.
Proof. apply (emitted_retried_under_all (EPlain "eof") (mkPolicy 3 BackoffFixed 0 0 false AllClasses 0 0)). reflexivity. Defined.
