(* ===== verification/Derive.v ===== *)
(** * Derived workflows (pkg/workflow/engine/loader/derive.go)

    [ExtendsTarget], [deepMerge] and [MergeDerived] on decoded documents.  A raw
    document is an [option json]: [None] is malformed JSON.  Values are immutable
    here, which is what [copyValue] achieves in the source. *)

From S2P Require Import Prelude Json.
From stdpp Require Import base tactics list strings gmap option fin_maps.
From Stdlib Require Import ZArith Lia Ascii String.
Local Open Scope string_scope.
Local Open Scope list_scope.
Local Open Scope go_scope.

Definition rawdoc : Type := option json.

Inductive derive_error :=
| DE_invalid_extends
| DE_parse_base
| DE_parse_overlay
| DE_no_id
| DE_node_missing_id (wf : string)
| DE_remove_unknown (wf id : string)
| DE_conn_unknown (wf id : string)
| DE_prompt_ownership (wf id : string).

(** Decoding into a Go map: an object, or [null] for the nil map. *)
Definition unmarshal_map (raw : rawdoc) : option (gmap string json) :=
  match raw with
  | Some (JObj m) => Some m
  | Some JNull => Some ∅
  | _ => None
  end.

(** [ExtendsTarget]: [Ok None] is "not derived". *)
Definition ExtendsTarget (raw : rawdoc) : res derive_error (option string) :=
  match unmarshal_map raw with
  | None => Ok None
  | Some peek =>
      match peek !! "extends" with
      | None => Ok None
      | Some (JStr s) => if str_empty s then Err DE_invalid_extends else Ok (Some s)
      | Some _ => Err DE_invalid_extends
      end
  end.

(** [deepMerge]'s treatment of one key; [rec] merges two objects. *)
Definition merge_value (rec : gmap string json -> gmap string json)
    (bv : option json) (ov : json) : option json :=
  match ov with
  | JNull => None
  | JObj om =>
      match bv with
      | Some (JObj bm) => Some (JObj (rec bm))
      | _ => Some (JObj om)
      end
  | v => Some v
  end.

(** Merging an overlay value over a base value.  The recursion is on the overlay. *)
Fixpoint merge_over (ov : json) (bv : option json) {struct ov} : option json :=
  match ov with
  | JObj om =>
      match bv with
      | Some (JObj bm) =>
          Some (JObj (merge (fun b f => match f with Some f => f b | None => b end) bm
                        (fmap (M := gmap string) merge_over om)))
      | _ => Some (JObj om)
      end
  | JNull => None
  | v => Some v
  end.

Definition deepMerge (base overlay : gmap string json) : gmap string json :=
  merge (fun b f => match f with Some f => f b | None => b end) base
    (fmap (M := gmap string) merge_over overlay).

Lemma deepMerge_lookup base overlay k :
  deepMerge base overlay !! k =
    match overlay !! k with
    | None => base !! k
    | Some ov => merge_over ov (base !! k)
    end.
Proof.
  unfold deepMerge. rewrite lookup_merge, lookup_fmap.
  destruct (base !! k), (overlay !! k); done.
Qed.

Lemma merge_over_obj om bm :
  merge_over (JObj om) (Some (JObj bm)) = Some (JObj (deepMerge bm om)).
Proof. done. Qed.

(** The equation of the source: one loop over the overlay's keys. *)
Lemma merge_over_value ov bv :
  merge_over ov bv = merge_value (fun bm => deepMerge bm (as_obj (Some ov))) bv ov.
Proof. by destruct ov, bv as [[]|]. Qed.

(** ** Lists of objects *)

Abbreviation obj := (gmap string json) (only parsing).

Definition asObjectList (v : option json) : list obj :=
  omap (fun e => is_obj (Some e)) (as_arr v).

Definition shallowCopyWithout (m : obj) (drop : list string) : obj :=
  foldr (fun k m => delete k m) m drop.

Arguments shallowCopyWithout : simpl never.

Definition node_id (n : obj) : string := as_str (n !! "id").

(** ** mergeNodes *)

(** [byID]: the position of the last base entry with a given id. *)
Fixpoint byID_from (i : nat) (base : list obj) (m : gmap string nat) : gmap string nat :=
  match base with
  | [] => m
  | n :: base => byID_from (S i) base (<[node_id n := i]> m)
  end.
Definition byID (base : list obj) : gmap string nat := byID_from 0 base ∅.

Record merge_state := mkMergeState {
  ms_merged : list obj;
  ms_removed : gset string;
  ms_appended : list obj;
}.

(** The body of the loop over overlay nodes. *)
Definition mergeNodes_step (derivedID : string) (ids : gmap string nat)
    (st : merge_state) (on : obj) : res derive_error merge_state :=
  let id := node_id on in
  if str_empty id then Err (DE_node_missing_id derivedID)
  else if as_bool (on !! "$remove") then
    match ids !! id with
    | None => Err (DE_remove_unknown derivedID id)
    | Some _ => Ok (mkMergeState (ms_merged st) ({[id]} ∪ ms_removed st) (ms_appended st))
    end
  else
    let on := delete "$remove" on in
    match ids !! id with
    | None => Ok (mkMergeState (ms_merged st) (ms_removed st) (ms_appended st ++ [on]))
    | Some idx =>
        Ok (mkMergeState (alter (fun b => deepMerge b on) idx (ms_merged st))
              (ms_removed st) (ms_appended st))
    end.

(** [overlayPrompts]: the accumulated overlay config of each node id. *)
Definition add_prompts (acc : gmap string obj) (on : obj) : gmap string obj :=
  let id := node_id on in
  let cfg := as_obj (on !! "config") in
  match acc !! id with
  | Some prev => <[id := deepMerge prev cfg]> acc
  | None => <[id := cfg]> acc
  end.
Definition overlayPrompts (overlay : list obj) : gmap string obj := foldl add_prompts ∅ overlay.

Definition agentType : string := "ai/agent".

(** The check on one merged node. *)
Definition prompts_ok (prompts : gmap string obj) (n : obj) : bool :=
  if String.eqb (as_str (n !! "type")) agentType then
    let cfg := default ∅ (prompts !! node_id n) in
    negb (str_empty (as_str (cfg !! "systemMessageFixed"))
          || str_empty (as_str (cfg !! "systemMessageFlexible")))
  else true.

Definition enforcePromptOwnership (derivedID : string) (merged overlay : list obj)
    : res derive_error unit :=
  let prompts := overlayPrompts overlay in
  match find_first (fun n => negb (prompts_ok prompts n)) merged with
  | Some n => Err (DE_prompt_ownership derivedID (node_id n))
  | None => Ok tt
  end.

Definition kept (removed : gset string) (n : obj) : Prop := node_id n ∉ removed.
#[export] Instance kept_dec removed n : Decision (kept removed n).
Proof. unfold kept. apply _. Defined.

Definition mergeNodes (derivedID : string) (base overlay : list obj)
    : res derive_error (list obj * gset string) :=
  let! st := fold_res (mergeNodes_step derivedID (byID base)) (mkMergeState base ∅ []) overlay in
  let out := filter (kept (ms_removed st)) (ms_merged st) ++ ms_appended st in
  let! _ := enforcePromptOwnership derivedID out overlay in
  Ok (out, ms_removed st).

(** ** mergeConnections *)

Definition endpoint_field (c : obj) (side field : string) : string :=
  as_str (as_obj (c !! side) !! field).

Definition NUL : string := String (ascii_of_nat 0) EmptyString.

Definition connKey (c : obj) : string :=
  endpoint_field c "from" "node" +:+ NUL +:+ endpoint_field c "from" "port" +:+ NUL
  +:+ endpoint_field c "to" "node" +:+ NUL +:+ endpoint_field c "to" "port".

(** [touchesRemoved]: the first endpoint naming a removed or unknown node. *)
Definition touchesRemoved (exists_ removed : gset string) (c : obj) : option string :=
  find_first (fun n => bool_decide (n ∈ removed) || negb (bool_decide (n ∈ exists_)))
    [endpoint_field c "from" "node"; endpoint_field c "to" "node"].

Definition conn_state : Type := list obj * gset string.

Definition add_base_conn (ex rm : gset string) (st : conn_state) (c : obj) : conn_state :=
  match touchesRemoved ex rm c with
  | Some _ => st
  | None => (st.1 ++ [c], {[connKey c]} ∪ st.2)
  end.

Definition add_overlay_conn (derivedID : string) (ex rm : gset string) (st : conn_state) (c : obj)
    : res derive_error conn_state :=
  match touchesRemoved ex rm c with
  | Some n => Err (DE_conn_unknown derivedID n)
  | None => if decide (connKey c ∈ st.2) then Ok st
            else Ok (st.1 ++ [c], {[connKey c]} ∪ st.2)
  end.

Definition node_ids (nodes : list obj) : gset string := list_to_set (List.map node_id nodes).

Definition mergeConnections (derivedID : string) (base overlay nodes : list obj)
    (removed : gset string) : res derive_error (list obj) :=
  let ex := node_ids nodes in
  let st := foldl (add_base_conn ex removed) ([], ∅) base in
  let! st := fold_res (add_overlay_conn derivedID ex removed) st overlay in
  Ok st.1.

(** ** MergeDerived *)

(** A nil slice marshals as [null], an allocated one as an array. *)
Definition slice_json (l : list obj) : json :=
  match l with [] => JNull | _ => JArr (List.map JObj l) end.

Definition MergeDerived (baseRaw overlayRaw : rawdoc) : res derive_error rawdoc :=
  match unmarshal_map baseRaw with
  | None => Err DE_parse_base
  | Some base =>
  match unmarshal_map overlayRaw with
  | None => Err DE_parse_overlay
  | Some overlay =>
      let derivedID := as_str (overlay !! "id") in
      if str_empty derivedID then Err DE_no_id
      else
        let baseNodes := asObjectList (base !! "nodes") in
        let overlayNodes := asObjectList (overlay !! "nodes") in
        let baseConns := asObjectList (base !! "connections") in
        let overlayConns := asObjectList (overlay !! "connections") in
        let! (mergedNodes, removed) := mergeNodes derivedID baseNodes overlayNodes in
        let! mergedConns := mergeConnections derivedID baseConns overlayConns mergedNodes removed in
        let topBase := shallowCopyWithout base ["nodes"; "connections"] in
        let topOverlay := shallowCopyWithout overlay ["nodes"; "connections"; "extends"] in
        let merged := deepMerge topBase topOverlay in
        let merged := <["nodes" := JArr (List.map JObj mergedNodes)]> merged in
        let merged := <["connections" := slice_json mergedConns]> merged in
        Ok (Some (JObj merged))
  end end.

(** ** Paths through documents *)

Fixpoint at_path (p : list string) (v : json) : option json :=
  match p with
  | [] => Some v
  | k :: p => match v with
              | JObj m => match m !! k with Some v => at_path p v | None => None end
              | _ => None
              end
  end.

(** The overlay says nothing about path [p]: it is absent from it, below objects only. *)
Fixpoint untouched (p : list string) (o : gmap string json) : Prop :=
  match p with
  | [] => False
  | k :: p => match o !! k with
              | None => True
              | Some (JObj om) => untouched p om
              | Some _ => False
              end
  end.

Definition is_leaf (v : json) : bool :=
  match v with JNull | JObj _ => false | _ => true end.

Lemma at_path_overlay p b o v :
  at_path p (JObj o) = Some v -> is_leaf v = true -> at_path p (JObj (deepMerge b o)) = Some v.
Proof.
  intros Hp Hl. revert b o Hp. induction p as [|k p IH]; intros b o Hp; simpl in *; [by simplify_eq|].
  rewrite deepMerge_lookup. destruct (o !! k) as [ov|] eqn:Eo; [|done].
  destruct ov as [| | | | |om].
  - destruct p; simplify_eq/=; done.
  - destruct p; simplify_eq/=; done.
  - destruct p; simplify_eq/=; done.
  - destruct p; simplify_eq/=; done.
  - destruct p; simplify_eq/=; done.
  - destruct (b !! k) as [[| | | | |bm]|]; simpl; try done. by apply IH.
Qed.

Lemma at_path_untouched_None p o : untouched p o -> at_path p (JObj o) = None.
Proof.
  revert o. induction p as [|k p IH]; intros o H; simpl in *; [done|].
  destruct (o !! k) as [[]|]; try done. by apply IH.
Qed.

Lemma at_path_untouched p b o :
  untouched p o -> at_path p (JObj (deepMerge b o)) = at_path p (JObj b).
Proof.
  revert b o. induction p as [|k p IH]; intros b o H; [done|]. simpl in *.
  rewrite deepMerge_lookup. destruct (o !! k) as [[| | | | |om]|] eqn:Eo; try done.
  destruct p as [|k' p]; [done|].
  destruct (b !! k) as [[| | | | |bm]|] eqn:Eb; [by apply at_path_untouched_None..| |].
  - rewrite merge_over_obj. by apply IH.
  - by apply at_path_untouched_None.
Qed.

Lemma at_path_deleted p k b o bm :
  at_path (p ++ [k]) (JObj o) = Some JNull -> at_path p (JObj b) = Some (JObj bm) ->
  at_path (p ++ [k]) (JObj (deepMerge b o)) = None.
Proof.
  revert b o. induction p as [|k' p IH]; intros b o Ho Hb; simpl in *.
  - rewrite deepMerge_lookup. destruct (o !! k) as [ov|]; [|done]. by simplify_eq/=.
  - rewrite deepMerge_lookup. destruct (o !! k') as [ov|] eqn:Eo; [|done].
    destruct (b !! k') as [bv|] eqn:Eb; [|done].
    destruct ov as [| | | | |om]; [by destruct (p ++ [k]) eqn:E; [destruct p|]..|].
    destruct bv as [| | | | |bm']; [by destruct p..|].
    rewrite merge_over_obj. by eapply IH.
Qed.

(** A value the overlay sets at any depth is the value of the merged document,
    a [null] of the overlay deletes the base's key, and every path the overlay does
    not mention keeps the base's value. *)
Theorem deepMerge_paths base overlay p :
  (forall v, at_path p (JObj overlay) = Some v -> is_leaf v = true ->
     at_path p (JObj (deepMerge base overlay)) = Some v)
  /\ (forall q k m, p = q ++ [k] -> at_path p (JObj overlay) = Some JNull ->
        at_path q (JObj base) = Some (JObj m) ->
        at_path p (JObj (deepMerge base overlay)) = None)
  /\ (untouched p overlay ->
        at_path p (JObj (deepMerge base overlay)) = at_path p (JObj base)).
Proof.
  split_and!.
  - intros v. apply at_path_overlay.
  - intros q k m ->. apply at_path_deleted.
  - apply at_path_untouched.
Qed.

(** ** What mergeNodes computes *)

Definition removes (on : gmap string json) : bool := as_bool (on !! "$remove").

(** The overlay entry for a base node, if any. *)
Definition overlay_for (overlay : list (gmap string json)) (b : gmap string json) :=
  find_first (fun on => String.eqb (node_id on) (node_id b)) overlay.

Definition derive_node (overlay : list (gmap string json)) (b : gmap string json) :=
  match overlay_for overlay b with
  | None => Some b
  | Some on => if removes on then None else Some (deepMerge b (delete "$remove" on))
  end.

(** The specification: base nodes in order, each dropped, patched or kept by its
    overlay entry, then the overlay's new nodes in order. *)
Definition derived_nodes (base overlay : list (gmap string json)) : list (gmap string json) :=
  omap (derive_node overlay) base
  ++ (delete "$remove" <$> filter (fun on => node_id on ∉ node_id <$> base) overlay).

Lemma byID_from_spec base i m id :
  NoDup (node_id <$> base) ->
  byID_from i base m !! id =
    match list_find (fun b => node_id b = id) base with
    | Some (j, _) => Some (i + j)%nat
    | None => m !! id
    end.
Proof.
  revert i m. induction base as [|b base IH]; intros i m Hnd; simpl; [done|].
  inversion Hnd as [|? ? Hni Hnd']; subst. rewrite IH by done.
  case_decide as Hb.
  - subst. destruct (list_find _ base) as [[j b']|] eqn:Ef.
    + apply list_find_Some in Ef as (Hj & Hid & _). exfalso. apply Hni.
      rewrite <- Hid. apply list_elem_of_fmap. exists b'. split; [done|]. by eapply list_elem_of_lookup_2.
    + rewrite lookup_insert_eq. f_equal. lia.
  - destruct (list_find _ base) as [[j b']|]; simpl; [f_equal; lia|]. by rewrite lookup_insert_ne.
Qed.

Lemma byID_Some base id i :
  NoDup (node_id <$> base) -> byID base !! id = Some i ->
  exists b, base !! i = Some b /\ node_id b = id.
Proof.
  intros Hnd. unfold byID. rewrite byID_from_spec by done.
  destruct (list_find _ base) as [[j b]|] eqn:Ef; [|by rewrite lookup_empty].
  apply list_find_Some in Ef as (Hj & Hid & _). intros [= <-]. eauto.
Qed.

Lemma byID_None base id :
  NoDup (node_id <$> base) -> byID base !! id = None -> id ∉ node_id <$> base.
Proof.
  intros Hnd. unfold byID. rewrite byID_from_spec by done.
  destruct (list_find _ base) as [[j b]|] eqn:Ef; [done|].
  apply list_find_None in Ef. intros _ (b & -> & Hb)%list_elem_of_fmap.
  rewrite Forall_forall in Ef. by apply (Ef b).
Qed.

(** The state of the overlay loop after the entries [pre]. *)
Definition patched (pre : list (gmap string json)) (b : gmap string json) : gmap string json :=
  match overlay_for pre b with
  | Some on => if removes on then b else deepMerge b (delete "$remove" on)
  | None => b
  end.

Definition merge_inv (base pre : list (gmap string json)) (st : merge_state) : Prop :=
  NoDup (node_id <$> pre) ->
  ms_merged st = patched pre <$> base
  /\ ms_removed st = list_to_set (node_id <$> filter (fun on => removes on = true) pre)
  /\ ms_appended st = delete "$remove" <$> filter (fun on => node_id on ∉ node_id <$> base) pre
  /\ Forall (fun on => removes on = true -> node_id on ∈ node_id <$> base) pre.

Lemma overlay_for_None pre id :
  id ∉ node_id <$> pre -> forall b, node_id b = id -> overlay_for pre b = None.
Proof.
  intros Hni b Hb. apply find_first_None. intros on Hon. apply String.eqb_neq. intros E.
  apply Hni. apply list_elem_of_fmap. exists on. by rewrite E.
Qed.

Lemma patched_app pre on b :
  node_id on ∉ node_id <$> pre ->
  patched (pre ++ [on]) b =
    (if String.eqb (node_id on) (node_id b)
     then if removes on then b else deepMerge b (delete "$remove" on)
     else patched pre b).
Proof.
  intros Hni. unfold patched, overlay_for. rewrite find_first_app. simpl.
  destruct (String.eqb_spec (node_id on) (node_id b)) as [E|E].
  - pose proof (overlay_for_None pre (node_id on) Hni b (eq_sym E)) as H.
    unfold overlay_for in H. by rewrite H.
  - by destruct (find_first _ pre).
Qed.

Lemma filter_snoc {A} (P : A -> Prop) `{!forall y, Decision (P y)} (pre : list A) (y : A) :
  filter P (pre ++ [y]) = if decide (P y) then filter P pre ++ [y] else filter P pre.
Proof. rewrite filter_app, filter_cons, filter_nil. case_decide; [done|apply app_nil_r]. Qed.

Lemma node_id_no_remove on : node_id (delete "$remove" on) = node_id on.
Proof. unfold node_id. by rewrite lookup_delete_ne. Qed.

Lemma mergeNodes_step_inv d base pre st on st' :
  NoDup (node_id <$> base) ->
  merge_inv base pre st -> mergeNodes_step d (byID base) st on = Ok st' ->
  merge_inv base (pre ++ [on]) st'.
Proof.
  intros Hb Hinv Hs Hnd.
  assert (NoDup (node_id <$> pre) /\ node_id on ∉ node_id <$> pre) as [Hnd' Hni].
  { rewrite fmap_app in Hnd. apply NoDup_app in Hnd as (? & H & _). split; [done|].
    intros Hin. apply (H _ Hin). set_solver. }
  destruct (Hinv Hnd') as (Hm & Hr & Ha & Hf). clear Hinv Hnd.
  unfold mergeNodes_step in Hs. destruct (str_empty (node_id on)); [done|].
  rewrite !filter_snoc. fold (removes on) in Hs.
  destruct (removes on) eqn:Erm; destruct (byID base !! node_id on) as [idx|] eqn:Ei; simplify_eq/=;
    rewrite ?(decide_True (P := true = true)) by done.
  - destruct (byID_Some _ _ _ Hb Ei) as (b & Hbi & Hid).
    assert (node_id on ∈ node_id <$> base) as Hin.
    { rewrite <- Hid. apply list_elem_of_fmap. exists b. split; [done|]. by eapply list_elem_of_lookup_2. }
    rewrite decide_False by (by intros ?). simpl. split_and!.
    + rewrite Hm. apply list_fmap_ext. intros i x _. rewrite patched_app by done.
      destruct (String.eqb_spec (node_id on) (node_id x)) as [E|E]; [|done].
      rewrite Erm. unfold patched. by rewrite (overlay_for_None _ _ Hni) by done.
    + rewrite Hr. set_solver.
    + done.
    + apply Forall_app. split; [done|]. by repeat constructor.
  - destruct (byID_Some _ _ _ Hb Ei) as (b & Hbi & Hid).
    assert (node_id on ∈ node_id <$> base) as Hin.
    { rewrite <- Hid. apply list_elem_of_fmap. exists b. split; [done|]. by eapply list_elem_of_lookup_2. }
    rewrite decide_False by (by intros ?). simpl. split_and!; try done.
    + rewrite Hm. apply list_eq. intros i. rewrite list_lookup_fmap.
      destruct (decide (i = idx)) as [->|Hne].
      * rewrite list_lookup_alter_eq, list_lookup_fmap, Hbi. simpl.
        rewrite patched_app by done. rewrite Hid, String.eqb_refl, Erm. f_equal.
        unfold patched. by rewrite (overlay_for_None _ _ Hni).
      * rewrite list_lookup_alter_ne, list_lookup_fmap by done.
        destruct (base !! i) as [x|] eqn:Ex; [simpl|done]. f_equal.
        rewrite patched_app by done.
        destruct (String.eqb_spec (node_id on) (node_id x)) as [E|E]; [|done].
        exfalso. apply Hne. eapply (NoDup_lookup (node_id <$> base)); [done| |];
          rewrite list_lookup_fmap; [by rewrite Ex|]. rewrite Hbi. simpl. by rewrite Hid, E.
    + apply Forall_app. split; [done|]. by repeat constructor; rewrite Erm.
  - apply byID_None in Ei; [|done]. rewrite decide_True by done. simpl.
    split_and!.
    + rewrite Hm. apply list_fmap_ext. intros i x Hx. rewrite patched_app by done.
      destruct (String.eqb_spec (node_id on) (node_id x)) as [E|E]; [|done].
      exfalso. apply Ei. rewrite E. apply list_elem_of_fmap. exists x. split; [done|]. by eapply list_elem_of_lookup_2.
    + done.
    + by rewrite Ha, fmap_app.
    + apply Forall_app. split; [done|]. by repeat constructor; rewrite Erm.
Qed.

Lemma node_id_deepMerge b on :
  node_id on <> "" -> node_id (deepMerge b (delete "$remove" on)) = node_id on.
Proof.
  unfold node_id. intros H. rewrite deepMerge_lookup, lookup_delete_ne by done.
  destruct (on !! "id") as [[]|]; done.
Qed.

Lemma overlay_for_Some overlay b on :
  overlay_for overlay b = Some on -> on ∈ overlay /\ node_id on = node_id b.
Proof. intros H. apply find_first_Some in H as [? ?]. to_prop. done. Qed.

Lemma overlay_for_absent overlay b on :
  overlay_for overlay b = None -> on ∈ overlay -> node_id on <> node_id b.
Proof. intros E Hin. apply String.eqb_neq. exact (proj1 (find_first_None _ _) E _ Hin). Qed.

Lemma overlay_for_unique overlay b on :
  NoDup (node_id <$> overlay) -> on ∈ overlay -> node_id on = node_id b ->
  overlay_for overlay b = Some on.
Proof.
  intros Hnd Hin Hid. destruct (overlay_for overlay b) as [on'|] eqn:E.
  - apply overlay_for_Some in E as [Hin' Hid']. f_equal.
    apply list_elem_of_lookup in Hin as [i Hi]. apply list_elem_of_lookup in Hin' as [j Hj].
    assert (i = j) as ->; [|congruence].
    eapply (NoDup_lookup (node_id <$> overlay)); [done| |]; rewrite list_lookup_fmap.
    + by rewrite Hi.
    + rewrite Hj. simpl. by rewrite Hid', Hid.
  - by destruct (overlay_for_absent _ _ _ E Hin).
Qed.

Lemma mergeNodes_ids_nonempty d ids st overlay st' :
  fold_res (mergeNodes_step d ids) st overlay = Ok st' ->
  Forall (fun on => node_id on <> "") overlay.
Proof.
  revert st. induction overlay as [|on overlay IH]; intros st H; simpl in H; [constructor|].
  destruct (mergeNodes_step d ids st on) eqn:E; [|done]. constructor; [|by eapply IH].
  unfold mergeNodes_step in E. by destruct (node_id on).
Qed.

Lemma filter_patched (base overlay : list (gmap string json)) :
  NoDup (node_id <$> overlay) -> Forall (fun on => node_id on <> "") overlay ->
  filter (kept (list_to_set (node_id <$> filter (fun on => removes on = true) overlay)))
    (patched overlay <$> base) = omap (derive_node overlay) base.
Proof.
  intros Hnd Hne. induction base as [|b base IH]; [done|].
  rewrite fmap_cons, filter_cons. simpl. rewrite IH. clear IH.
  unfold derive_node, patched, kept.
  destruct (overlay_for overlay b) as [on|] eqn:Eo.
  - apply overlay_for_Some in Eo as [Hin Hid]. rewrite Forall_forall in Hne.
    destruct (removes on) eqn:Er.
    + rewrite decide_False; [done|]. intros Hk. apply Hk. apply elem_of_list_to_set, list_elem_of_fmap.
      exists on. by rewrite list_elem_of_filter.
    + rewrite decide_True; [done|]. rewrite node_id_deepMerge by auto.
      intros Hk. apply elem_of_list_to_set, list_elem_of_fmap in Hk as (on' & Hid' & Hf).
      apply list_elem_of_filter in Hf as [Hr' Hin'].
      pose proof (overlay_for_unique _ _ _ Hnd Hin Hid).
      pose proof (overlay_for_unique overlay b on' Hnd Hin' ltac:(congruence)). congruence.
  - rewrite decide_True; [done|]. intros Hk.
    apply elem_of_list_to_set, list_elem_of_fmap in Hk as (on' & Hid' & Hf).
    apply list_elem_of_filter in Hf as [Hr' Hin'].
    by destruct (overlay_for_absent _ _ _ Eo Hin').
Qed.

(** On documents whose node ids are distinct, the node merge computes the
    specification: every base node is kept, patched or dropped by its own overlay
    entry, new nodes follow, and the removed set is the ids marked [$remove], all of
    them ids of base nodes. *)
Theorem mergeNodes_refines derivedID base overlay out removed :
  NoDup (node_id <$> base) -> NoDup (node_id <$> overlay) ->
  mergeNodes derivedID base overlay = Ok (out, removed) ->
  out = derived_nodes base overlay
  /\ (forall id, id ∈ removed <-> exists on, on ∈ overlay /\ removes on = true /\ node_id on = id)
  /\ (forall id, id ∈ removed -> id ∈ node_id <$> base).
Proof.
  intros Hb Ho H. unfold mergeNodes in H. go_inv.
  pose proof (mergeNodes_ids_nonempty _ _ _ _ _ E) as Hne.
  assert (merge_inv base overlay a) as Hinv.
  { eapply (fold_res_ind (merge_inv base)); [|intros; by eapply mergeNodes_step_inv|exact E].
    intros _. split_and!; [|done..]. simpl.
    rewrite <- (list_fmap_id base) at 1. apply list_fmap_ext. intros; done. }
  destruct (Hinv Ho) as (Hm & Hr & Ha & Hf). rewrite Hm, Hr, Ha. split_and!.
  - unfold derived_nodes. by rewrite filter_patched.
  - intros id. rewrite elem_of_list_to_set, list_elem_of_fmap. split.
    + intros (on & -> & Hon). apply list_elem_of_filter in Hon as [? ?]. eauto.
    + intros (on & Hin & Hrm & <-). exists on. by rewrite list_elem_of_filter.
  - intros id Hid. apply elem_of_list_to_set, list_elem_of_fmap in Hid as (on & -> & Hon).
    apply list_elem_of_filter in Hon as [Hrm Hin]. rewrite Forall_forall in Hf. auto.
Qed.

(** ** Prompt ownership *)

Lemma overlayPrompts_step acc overlay id :
  id ∉ node_id <$> overlay -> foldl add_prompts acc overlay !! id = acc !! id.
Proof.
  revert acc. induction overlay as [|on overlay IH]; intros acc Hni; simpl; [done|].
  rewrite IH by set_solver. unfold add_prompts.
  assert (node_id on <> id) by set_solver.
  destruct (acc !! node_id on); by rewrite lookup_insert_ne.
Qed.

Lemma overlayPrompts_lookup acc overlay id :
  NoDup (node_id <$> overlay) -> (forall on, on ∈ overlay -> acc !! node_id on = None) ->
  foldl add_prompts acc overlay !! id =
    match find_first (fun on => String.eqb (node_id on) id) overlay with
    | Some on => Some (as_obj (on !! "config"))
    | None => acc !! id
    end.
Proof.
  revert acc. induction overlay as [|on overlay IH]; intros acc Hnd Hacc; simpl; [done|].
  inversion Hnd as [|? ? Hni Hnd']; subst.
  assert (add_prompts acc on = <[node_id on := as_obj (on !! "config")]> acc) as ->.
  { unfold add_prompts. by rewrite Hacc by set_solver. }
  destruct (String.eqb_spec (node_id on) id) as [<-|Hn].
  - rewrite overlayPrompts_step by done. by rewrite lookup_insert_eq.
  - rewrite IH; [|done|].
    + by rewrite lookup_insert_ne.
    + intros on' Hin'. rewrite lookup_insert_ne; [apply Hacc; set_solver|].
      intros E. apply Hni. rewrite E. by apply list_elem_of_fmap_2.
Qed.

(** A field of a node's config. *)
Definition config_str (n : gmap string json) (f : string) : string :=
  as_str (as_obj (n !! "config") !! f).

Lemma config_str_deepMerge b on f :
  config_str on f <> "" -> config_str (deepMerge b (delete "$remove" on)) f = config_str on f.
Proof.
  unfold config_str. intros H. rewrite deepMerge_lookup, lookup_delete_ne by done.
  destruct (on !! "config") as [[| | | | |oc]|]; try done.
  destruct (b !! "config") as [[| | | | |bc]|]; try done.
  rewrite merge_over_obj. simpl in *. unfold as_obj in *; simpl in *.
  rewrite deepMerge_lookup. by destruct (oc !! f) as [[]|].
Qed.

Lemma config_str_no_remove on f : config_str (delete "$remove" on) f = config_str on f.
Proof. unfold config_str. by rewrite lookup_delete_ne. Qed.

Definition prompt_fields : list string := ["systemMessageFixed"; "systemMessageFlexible"].

(** Prompts are never inherited: in a successfully merged document every
    [ai/agent] node takes both its prompts from an overlay entry of its own id,
    where they are non-empty, whatever the base's prompts are. *)
Theorem mergeNodes_prompts_owned derivedID base overlay out removed n f :
  NoDup (node_id <$> base) -> NoDup (node_id <$> overlay) ->
  mergeNodes derivedID base overlay = Ok (out, removed) ->
  n ∈ out -> as_str (n !! "type") = agentType -> f ∈ prompt_fields ->
  exists on, on ∈ overlay /\ node_id on = node_id n
    /\ config_str n f = config_str on f /\ config_str on f <> "".
Proof.
  intros Hb Ho H Hn Ht Hf.
  pose proof (mergeNodes_refines _ _ _ _ _ Hb Ho H) as (Hout & _).
  unfold mergeNodes in H. go_inv.
  pose proof (mergeNodes_ids_nonempty _ _ _ _ _ E) as Hne. rewrite Forall_forall in Hne.
  unfold enforcePromptOwnership in E0. go_inv. rewrite H in E1.
  pose proof (proj1 (find_first_None _ _) E1 n Hn) as Hok. to_prop.
  unfold prompts_ok in Hok. rewrite Ht, String.eqb_refl in Hok. to_prop.
  unfold overlayPrompts in *. rewrite (overlayPrompts_lookup _ _ _ Ho) in * by (intros; apply lookup_empty).
  destruct (find_first _ overlay) as [on|] eqn:Eon; [|rewrite lookup_empty in *; done].
  apply find_first_Some in Eon as [Hin Hid]. to_prop. simpl in *.
  assert (config_str on f <> "") as Hcf.
  { unfold config_str. unfold prompt_fields in Hf.
    apply elem_of_cons in Hf as [->|Hf]; [done|].
    apply elem_of_cons in Hf as [->|Hf]; [done|]. by apply elem_of_nil in Hf. }
  exists on. split_and!; [done..| |done].
  apply elem_of_app in Hn as [Hn|Hn].
  - apply list_elem_of_omap in Hn as (b & Hbin & Hd). unfold derive_node in Hd.
    destruct (overlay_for overlay b) as [on'|] eqn:Eo.
    + apply overlay_for_Some in Eo as [Hin' Hid'].
      destruct (removes on'); [done|]. simplify_eq. rewrite node_id_deepMerge in Hid by auto.
      pose proof (overlay_for_unique overlay b on Ho Hin ltac:(congruence)).
      pose proof (overlay_for_unique overlay b on' Ho Hin' ltac:(congruence)). simplify_eq.
      by apply config_str_deepMerge.
    + simplify_eq. by destruct (overlay_for_absent _ _ _ Eo Hin).
  - apply list_elem_of_fmap in Hn as (on' & -> & Hf'). apply list_elem_of_filter in Hf' as [_ Hin'].
    rewrite node_id_no_remove in Hid. rewrite config_str_no_remove.
    pose proof (overlay_for_unique overlay on' on Ho Hin Hid).
    pose proof (overlay_for_unique overlay on' on' Ho Hin' eq_refl). congruence.
Qed.

(** ** Connections *)

(** Both endpoints name nodes of the merged document that were not removed. *)
Definition conn_ok (ex rm : gset string) (c : gmap string json) : Prop :=
  forall side, side ∈ ["from"; "to"] ->
    endpoint_field c side "node" ∈ ex /\ endpoint_field c side "node" ∉ rm.
Lemma touchesRemoved_None ex rm c : touchesRemoved ex rm c = None <-> conn_ok ex rm c.
Proof.
  unfold touchesRemoved, conn_ok. rewrite find_first_None. split.
  - intros H side Hs.
    specialize (H (endpoint_field c side "node")).
    assert (endpoint_field c side "node" ∈ [endpoint_field c "from" "node"; endpoint_field c "to" "node"]) as Hin
      by (apply elem_of_cons in Hs as [->|Hs]; [set_solver|]; apply list_elem_of_singleton in Hs as ->; set_solver).
    specialize (H Hin). to_prop. rewrite bool_decide_eq_false in H. rewrite bool_decide_eq_true in H0. done.
  - intros H n Hn. assert (n ∈ ex /\ n ∉ rm) as [? ?].
    { apply elem_of_cons in Hn as [->|Hn]; [apply H; set_solver|].
      apply list_elem_of_singleton in Hn as ->. apply H. set_solver. }
    rewrite bool_decide_eq_false_2, bool_decide_eq_true_2; done.
Qed.

#[export] Instance conn_ok_dec ex rm c : Decision (conn_ok ex rm c).
Proof.
  refine (cast_if (decide (touchesRemoved ex rm c = None))); by rewrite <- touchesRemoved_None.
Defined.

Lemma base_conns_spec ex rm base st :
  let st' := foldl (add_base_conn ex rm) st base in
  st'.1 = st.1 ++ filter (conn_ok ex rm) base
  /\ st'.2 = list_to_set (connKey <$> filter (conn_ok ex rm) base) ∪ st.2.
Proof.
  revert st. induction base as [|c base IH]; intros st; simpl.
  - rewrite app_nil_r. split; [done|set_solver].
  - destruct (IH (add_base_conn ex rm st c)) as [-> ->]. unfold add_base_conn.
    rewrite filter_cons. destruct (decide (conn_ok ex rm c)) as [Hc|Hc].
    + rewrite (proj2 (touchesRemoved_None ex rm c) Hc). simpl. rewrite <- app_assoc. split; [done|set_solver].
    + rewrite <- touchesRemoved_None in Hc. destruct (touchesRemoved ex rm c); [|done]. split; done.
Qed.

Definition conns_inv (ex rm : gset string) (kept_base pre : list (gmap string json)) (st : conn_state) : Prop :=
  Forall (conn_ok ex rm) pre
  /\ st.2 = list_to_set (connKey <$> st.1)
  /\ exists extra, st.1 = kept_base ++ extra /\ extra `sublist_of` pre
       /\ NoDup (connKey <$> extra)
       /\ (forall c, c ∈ extra -> connKey c ∉ connKey <$> kept_base)
       /\ (forall c, c ∈ pre -> connKey c ∈ connKey <$> st.1).

Lemma add_overlay_conn_inv d ex rm kb pre st c st' :
  conns_inv ex rm kb pre st -> add_overlay_conn d ex rm st c = Ok st' ->
  conns_inv ex rm kb (pre ++ [c]) st'.
Proof.
  intros (Hok & Hset & extra & Heq & Hsub & Hnd & Hfresh & Hall) H.
  unfold add_overlay_conn in H. destruct (touchesRemoved ex rm c) eqn:Et; [done|].
  apply touchesRemoved_None in Et.
  assert (Forall (conn_ok ex rm) (pre ++ [c])) by (apply Forall_app; split; [done|by apply Forall_singleton]).
  destruct (decide (connKey c ∈ st.2)) as [Hin|Hin]; simplify_eq.
  - split_and!; [done..|]. exists extra. split_and!; [done|by apply sublist_inserts_r|done..|].
    intros c' [Hc'| ->%list_elem_of_singleton]%elem_of_app; [by apply Hall|].
    rewrite Hset in Hin. by apply elem_of_list_to_set in Hin.
  - rewrite Hset in Hin. rewrite elem_of_list_to_set, Heq, fmap_app, not_elem_of_app in Hin.
    destruct Hin as [Hn1 Hn2]. split_and!; [done| |].
    + simpl. rewrite Hset, fmap_app. simpl. set_solver.
    + exists (extra ++ [c]). simpl. rewrite Heq, <- app_assoc. split_and!; [done| | | |].
      * by apply sublist_app.
      * rewrite fmap_app. apply NoDup_app. split_and!; [done| |apply NoDup_singleton].
        intros k Hk ->%list_elem_of_singleton. done.
      * intros c' [Hc'| ->%list_elem_of_singleton]%elem_of_app; [by apply Hfresh|done].
      * intros c' [Hc'| ->%list_elem_of_singleton]%elem_of_app; rewrite app_assoc, <- Heq, fmap_app, elem_of_app;
          [left; by apply Hall|right; simpl; set_solver].
Qed.

(** The connections of a merged document are closed: each one joins two nodes
    that exist and were not removed. The base's surviving connections come first,
    unchanged; then the overlay's, without any whose key is already present; and no
    overlay connection is lost. *)
Theorem mergeConnections_spec derivedID base overlay nodes removed out :
  mergeConnections derivedID base overlay nodes removed = Ok out ->
  let ok := conn_ok (node_ids nodes) removed in
  Forall ok out /\ Forall ok overlay
  /\ exists extra, out = filter ok base ++ extra /\ extra `sublist_of` overlay
       /\ NoDup (connKey <$> extra)
       /\ (forall c, c ∈ extra -> connKey c ∉ connKey <$> filter ok base)
       /\ (forall c, c ∈ overlay -> connKey c ∈ connKey <$> out).
Proof.
  intros H ok. unfold mergeConnections in H. go_inv.
  pose proof (base_conns_spec (node_ids nodes) removed base ([], ∅)) as [Hb1 Hb2].
  assert (conns_inv (node_ids nodes) removed (filter ok base) overlay a) as (Hov & _ & extra & Heq & Hsub & Hnd & Hfr & Hall).
  { eapply (fold_res_ind (conns_inv _ _ _)); [|intros; by eapply add_overlay_conn_inv|exact E].
    split_and!; [constructor|rewrite Hb1, Hb2; simpl; set_solver|].
    exists []. rewrite Hb1. simpl. rewrite app_nil_r. split_and!; [done..|constructor|set_solver|set_solver]. }
  split_and!; [|done|].
  - rewrite Heq. apply Forall_app. split.
    + apply Forall_forall. intros c Hc. by apply list_elem_of_filter in Hc as [? _].
    + rewrite Forall_forall in *. intros c Hc. apply Hov. by eapply elem_of_sublist.
  - exists extra. done.
Qed.

(** ** Whole documents *)

Lemma shallowCopyWithout_lookup m drop k :
  shallowCopyWithout m drop !! k = if decide (k ∈ drop) then None else m !! k.
Proof.
  induction drop as [|d drop IH]; [done|]. unfold shallowCopyWithout in *. simpl.
  destruct (decide (k = d)) as [->|Hn].
  - rewrite lookup_delete_eq. rewrite decide_True; [done|set_solver].
  - rewrite lookup_delete_ne by done. rewrite IH.
    repeat case_decide; set_solver.
Qed.

(** Merging a derived document over a base that is not itself derived gives a
    complete document: it is not derived any more, it carries the overlay's id and
    every other top-level value of the overlay, and its node and connection lists are
    those of the node and connection merges. *)
Theorem MergeDerived_document base overlay doc :
  ExtendsTarget (Some (JObj base)) = Ok None ->
  MergeDerived (Some (JObj base)) (Some (JObj overlay)) = Ok doc ->
  exists merged nodes removed conns,
    doc = Some (JObj merged)
    /\ ExtendsTarget doc = Ok None
    /\ merged !! "id" = overlay !! "id" /\ as_str (overlay !! "id") <> ""
    /\ (forall k v, k ∉ ["nodes"; "connections"; "extends"] -> overlay !! k = Some v ->
          is_leaf v = true -> merged !! k = Some v)
    /\ (forall k, k ∉ ["nodes"; "connections"] -> overlay !! k = None -> merged !! k = base !! k)
    /\ mergeNodes (as_str (overlay !! "id")) (asObjectList (base !! "nodes"))
         (asObjectList (overlay !! "nodes")) = Ok (nodes, removed)
    /\ asObjectList (merged !! "nodes") = nodes
    /\ mergeConnections (as_str (overlay !! "id")) (asObjectList (base !! "connections"))
         (asObjectList (overlay !! "connections")) nodes removed = Ok conns
    /\ asObjectList (merged !! "connections") = conns.
Proof.
  intros Hext H. unfold MergeDerived in H. simpl in H.
  destruct (str_empty (as_str (overlay !! "id"))) eqn:Eid; [done|]. to_prop.
  destruct (mergeNodes _ _ _) as [[nodes removed]|] eqn:En; [|done]. simpl in H.
  destruct (mergeConnections _ _ _ _ _) as [conns|] eqn:Ec; [|done]. simpl in H. simplify_eq.
  assert (base !! "extends" = None) as Hb.
  { unfold ExtendsTarget in Hext. simpl in Hext.
    destruct (base !! "extends") as [[]|]; try done. by destruct (str_empty s). }
  assert (forall l : list (gmap string json), asObjectList (Some (JArr (List.map JObj l))) = l) as Hlist.
  { intros l. induction l as [|x l IH]; [done|]. change (x :: asObjectList (Some (JArr (List.map JObj l))) = x :: l). by rewrite IH. }
  eexists _, nodes, removed, conns. split_and!; try done.
  - unfold ExtendsTarget. simpl. rewrite !lookup_insert_ne by done.
    rewrite deepMerge_lookup, !shallowCopyWithout_lookup. simpl. by rewrite Hb.
  - rewrite !lookup_insert_ne by done.
    rewrite deepMerge_lookup, !shallowCopyWithout_lookup. simpl.
    destruct (overlay !! "id") as [[]|]; simpl in *; done.
  - intros k v Hk Hv Hl. rewrite !lookup_insert_ne by set_solver.
    rewrite deepMerge_lookup, !shallowCopyWithout_lookup. rewrite decide_False by done.
    rewrite Hv. by destruct v.
  - intros k Hk Hv. rewrite !lookup_insert_ne by set_solver.
    rewrite deepMerge_lookup, !shallowCopyWithout_lookup, Hv.
    rewrite (decide_False (P := k ∈ ["nodes"; "connections"])) by done. by case_decide.
  - rewrite lookup_insert_ne, lookup_insert_eq by done. apply Hlist.
  - rewrite lookup_insert_eq. destruct conns; [done|]. apply Hlist.
Qed.

(** ** A concrete derivation *)

Definition mk_node (id ty : string) (cfg : list (string * json)) : json :=
  jobj [("id", JStr id); ("type", JStr ty); ("config", jobj cfg)].
Definition mk_conn (fn fp tn tp : string) : json :=
  jobj [("from", jobj [("node", JStr fn); ("port", JStr fp)]);
        ("to", jobj [("node", JStr tn); ("port", JStr tp)])].

Definition demo_base : gmap string json := as_obj (Some (jobj
  [("id", JStr "base"); ("version", JNum 1);
   ("nodes", JArr [mk_node "a" "ai/agent" [("systemMessageFixed", JStr "BASE"); ("maxIterations", JNum 5)];
                   mk_node "t" "tool/serpapi" []]);
   ("connections", JArr [mk_conn "t" "main" "a" "ai_tool"])])).

Definition demo_overlay : gmap string json := as_obj (Some (jobj
  [("id", JStr "derived"); ("extends", JStr "base");
   ("nodes", JArr [mk_node "a" "ai/agent" [("systemMessageFixed", JStr "F"); ("systemMessageFlexible", JStr "X")];
                   jobj [("id", JStr "t"); ("$remove", JBool true)];
                   mk_node "u" "tool/webfetch" []]);
   ("connections", JArr [mk_conn "u" "main" "a" "ai_tool"])])).

Definition demo_nodes (m : gmap string json) := asObjectList (m !! "nodes").
Definition demo_conns (m : gmap string json) := asObjectList (m !! "connections").

Definition demo_merge := mergeNodes "derived" (demo_nodes demo_base) (demo_nodes demo_overlay).
Definition demo_out : list (gmap string json) * gset string :=
  match demo_merge with Ok r => r | Err _ => ([], ∅) end.

Example demo_doc :
  match MergeDerived (Some (JObj demo_base)) (Some (JObj demo_overlay)) with
  | Ok (Some (JObj m)) => (as_str (m !! "id"), node_id <$> demo_nodes m, List.length (demo_conns m))
  | _ => ("", [], 0)
  end = ("derived", ["a"; "u"], 1).
Proof. vm_compute. reflexivity. Qed.

Example demo_no_prompts :
  MergeDerived (Some (JObj demo_base)) (Some (jobj [("id", JStr "d"); ("extends", JStr "base")]))
  = Err (DE_prompt_ownership "d" "a").
Proof. vm_compute. reflexivity. Qed.

Ltac by_compute := first [vm_compute; reflexivity | apply (bool_decide_unpack _); vm_compute; exact I].

Lemma deepMerge_paths_witness :
  at_path ["version"] (JObj (deepMerge demo_base demo_overlay)) = Some (JNum 1)
  /\ at_path ["id"] (JObj (deepMerge demo_base demo_overlay)) = Some (JStr "derived").
Proof.
  split.
  - rewrite (proj2 (proj2 (deepMerge_paths demo_base demo_overlay ["version"]))); by_compute.
  - apply (proj1 (deepMerge_paths demo_base demo_overlay ["id"]) (JStr "derived")); by_compute.
Defined.

Lemma mergeNodes_refines_witness :
  demo_merge = Ok demo_out /\ demo_out.1 = derived_nodes (demo_nodes demo_base) (demo_nodes demo_overlay).
Proof.
  split; [by_compute|].
  apply (mergeNodes_refines "derived" (demo_nodes demo_base) (demo_nodes demo_overlay) demo_out.1 demo_out.2);
    by_compute.
Defined.

Lemma mergeNodes_prompts_owned_witness :
  exists on, on ∈ demo_nodes demo_overlay /\ node_id on = "a"
    /\ config_str (default ∅ (head demo_out.1)) "systemMessageFixed" = config_str on "systemMessageFixed"
    /\ config_str on "systemMessageFixed" <> "".
Proof.
  apply (mergeNodes_prompts_owned "derived" (demo_nodes demo_base) (demo_nodes demo_overlay)
           demo_out.1 demo_out.2 (default ∅ (head demo_out.1)));
    first [by_compute | apply (list_elem_of_lookup_2 _ 0); by_compute].
Defined.

Lemma mergeConnections_spec_witness :
  Forall (conn_ok (node_ids demo_out.1) demo_out.2) (demo_conns demo_overlay).
Proof.
  refine (proj1 (mergeConnections_spec "derived" (demo_conns demo_base) (demo_conns demo_overlay)
           demo_out.1 demo_out.2 (demo_conns demo_overlay) _)). by_compute.
Defined.

Lemma MergeDerived_document_witness :
  exists doc merged nodes removed conns,
    doc = Some (JObj merged) /\ ExtendsTarget doc = Ok None
    /\ merged !! "id" = demo_overlay !! "id"
    /\ asObjectList (merged !! "nodes") = nodes
    /\ mergeNodes "derived" (demo_nodes demo_base) (demo_nodes demo_overlay) = Ok (nodes, removed)
    /\ asObjectList (merged !! "connections") = conns.
Proof.
  destruct (MergeDerived (Some (JObj demo_base)) (Some (JObj demo_overlay))) as [doc|] eqn:E;
    [|vm_compute in E; discriminate E].
  destruct (MergeDerived_document demo_base demo_overlay doc) as (m & n & r & c & H1 & H2 & H3 & _ & _ & _ & H7 & H8 & _ & H10);
    [by_compute|exact E|].
  exists doc, m, n, r, c. repeat split; assumption.
Defined.
