(* ===== verification/Template.v ===== *)
(** * Placeholders: environment substitution and the template renderer

    [Envsubst] is pkg/workflow/engine/loader/envsubst.go ([${VAR}] and
    [${VAR:default}] at load time); [Render] is pkg/workflow/engine/render/render.go
    ([{{name}}] placeholders at request time). *)

From S2P Require Import Prelude Json Scan.
From stdpp Require Import base tactics list strings gmap option fin_maps.
From Stdlib Require Import ZArith Lia Ascii String.
Local Open Scope string_scope.
Local Open Scope list_scope.
Local Open Scope go_scope.

Definition chr (n : nat) : ascii := ascii_of_nat n.
Definition is_chr (n : nat) (c : ascii) : bool := (nat_of_ascii c =? n)%nat.

Module Envsubst.

(** [envVarRegex]: dollar, open brace, a name of class [A-Z_][A-Z0-9_]*, optionally a
    colon and a default without closing brace, then a closing brace.  The groups are the
    name and the default, the latter empty when absent. *)
Definition name_start (c : ascii) : bool := is_upper c || is_chr 95 c.
Definition name_char (c : ascii) : bool := is_upper c || is_digit c || is_chr 95 c.
Definition not_close (c : ascii) : bool := negb (is_chr 125 c).

Definition envVarRegex (s : string) : option ((string * string) * nat) :=
  match s with
  | String d (String b rest) =>
      if is_chr 36 d && is_chr 123 b && head_sat name_start rest then
        let '(name, r1) := span name_char rest in
        match r1 with
        | String c r2 =>
            if is_chr 125 c then Some ((name, ""), 3 + String.length name)
            else if is_chr 58 c then
              let '(def, r3) := span not_close r2 in
              match r3 with
              | String _ _ => Some ((name, def), 4 + String.length name + String.length def)
              | EmptyString => None
              end
            else None
        | EmptyString => None
        end
      else None
  | _ => None
  end.

Section Resolve.
(** [lookup] returns the value and whether it is present. *)
Variable lookup : string -> option string.

Definition set_value (name : string) : option string :=
  match lookup name with
  | Some v => if str_empty v then None else Some v
  | None => None
  end.

(** What one match is replaced with, and whether it counts as unresolved. *)
Definition subst_match (m : string * string) (text : string) : string :=
  match set_value m.1 with
  | Some v => v
  | None => if str_empty m.2 then text else m.2
  end.
Definition unresolved (m : string * string) : bool :=
  match set_value m.1 with Some _ => false | None => str_empty m.2 end.

Definition resolve_string (s : string) : string := replace_all envVarRegex subst_match s.
Definition string_errs (s : string) : list string :=
  List.map fst (List.filter unresolved (find_all envVarRegex s)).

Definition path_index (path : string) (i : nat) : string :=
  path +:+ "[" +:+ print_Z (Z.of_nat i) +:+ "]".

(** [Resolve]'s walk: the rewritten structure ... *)
Fixpoint resolve_value (v : json) : json :=
  match v with
  | JObj m => JObj (fmap (M := gmap string) resolve_value m)
  | JArr l => JArr (List.map resolve_value l)
  | JStr s => JStr (resolve_string s)
  | v => v
  end.

(** ... and the errors, a path and a variable name each (those of an object in some
    order of its keys). *)
Fixpoint resolve_errs (v : json) (path : string) : list (string * string) :=
  match v with
  | JObj m => map_fold (fun k v acc => resolve_errs v (path +:+ "." +:+ k) ++ acc) [] m
  | JArr l => List.concat (List.map (fun f => f.2 (path_index path f.1))
                    (combine (seq 0 (List.length l)) (List.map resolve_errs l)))
  | JStr s => List.map (fun n => (path, n)) (string_errs s)
  | _ => []
  end.

Definition Resolve (v : json) : json * list (string * string) :=
  (resolve_value v, resolve_errs v "$").

(** ** Specification: texts built from literals and references *)

Inductive segment := Lit (s : string) | Ref (name : string) (def : option string).

Definition print_segment (g : segment) : string :=
  match g with
  | Lit s => s
  | Ref n None => String (chr 36) (String (chr 123) n) +:+ String (chr 125) ""
  | Ref n (Some d) =>
  String (chr 36) (String (chr 123) n) +:+ String (chr 58) d +:+ String (chr 125) ""
  end.

Definition segment_wf (g : segment) : bool :=
  match g with
  | Lit s => str_lacks (chr 36) s
  | Ref n d => head_sat name_start n && str_all name_char n
           && match d with Some d => str_all not_close d | None => true end
      end.

Definition eval_segment (g : segment) : string :=
  match g with
  | Lit s => s
  | Ref n d => subst_match (n, default "" d) (print_segment g)
  end.

Definition segment_errs (g : segment) : list string :=
  match g with
  | Lit _ => []
  | Ref n d => if unresolved (n, default "" d) then [n] else []
  end.

Definition print_segments (l : list segment) : string := String.concat "" (List.map print_segment l).

Lemma envVarRegex_starts : starts_with envVarRegex (chr 36).
Proof.
  intros s r H. destruct s as [|d [|b rest]]; [done|done|]. simpl in H.
  destruct (is_chr 36 d) eqn:Ed; [|done]. exists (String b rest). f_equal.
  unfold is_chr in Ed. apply Nat.eqb_eq in Ed. unfold chr. by rewrite <- Ed, ascii_nat_embedding.
Qed.

Lemma head_sat_app f n s : head_sat f n = true -> head_sat f (n +:+ s) = true.
Proof. by destruct n. Qed.

Lemma envVarRegex_ref n d s :
  segment_wf (Ref n d) = true ->
  envVarRegex (print_segment (Ref n d) +:+ s)
  = Some ((n, default "" d), String.length (print_segment (Ref n d))).
Proof.
  intros H. simpl in H. to_prop. destruct d as [d|].
  - replace (String.length (print_segment (Ref n (Some d))))
  with (4 + String.length n + String.length d)%nat
  by (unfold print_segment; rewrite !str_length_app; simpl; lia).
    assert (print_segment (Ref n (Some d)) +:+ s
      = String (chr 36) (String (chr 123) (n +:+ String (chr 58) (d +:+ String (chr 125) s)))) as ->.
    { unfold print_segment. by rewrite !str_app_assoc. }
    simpl. rewrite (head_sat_app name_start) by done. rewrite span_app by done.
    change (is_chr 125 (chr 58)) with false. change (is_chr 58 (chr 58)) with true. cbv iota.
    rewrite span_app by done. done.
  - replace (String.length (print_segment (Ref n None))) with (3 + String.length n)%nat
  by (unfold print_segment; rewrite !str_length_app; simpl; lia).
    assert (print_segment (Ref n None) +:+ s
      = String (chr 36) (String (chr 123) (n +:+ String (chr 125) s))) as ->.
    { unfold print_segment. by rewrite !str_app_assoc. }
    simpl. rewrite (head_sat_app name_start) by done. rewrite span_app by done.
    change (is_chr 125 (chr 125)) with true. done.
Qed.

Lemma scan_segments l :
  Forall (fun g => segment_wf g = true) l ->
  scan envVarRegex (print_segments l)
  = List.concat (List.map (fun g => match g with
                           | Lit s => chars s
                               | Ref n d => [TMatch (n, default "" d) (print_segment g)]
                               end) l).
Proof.
  induction 1 as [|g l Hg _ IH]; [done|].
  unfold print_segments in *. simpl List.map. rewrite concat_nil_cons. simpl List.concat. rewrite <- IH.
  destruct g as [s|n d].
  - apply (scan_literal _ (chr 36)); [apply envVarRegex_starts|done].
  - apply scan_match; [by destruct d|]. by apply envVarRegex_ref.
Qed.

(** A text made of literals and references resolves, segment by segment, to the
    literals and the referenced values - the variable's value when set and non-empty,
    else the default, else the reference itself - and reports exactly the references
    that have neither. *)
Theorem resolve_segments l :
  Forall (fun g => segment_wf g = true) l ->
  resolve_string (print_segments l) = String.concat "" (List.map eval_segment l)
  /\ string_errs (print_segments l) = List.concat (List.map segment_errs l).
Proof.
  intros H. unfold resolve_string, replace_all, string_errs, find_all.
  rewrite (scan_segments _ H). split.
  - clear H. induction l as [|g l IH]; [done|]. cbn [List.map List.concat]. rewrite map_app, concat_nil_app, concat_nil_cons, IH.
    f_equal. destruct g as [s|n d]; [apply concat_chars|]. done.
  - clear H. induction l as [|g l IH]; [done|]. cbn [List.map List.concat]. rewrite omap_app, List.filter_app, map_app, IH.
    f_equal. destruct g as [s|n d]; simpl.
    + induction s as [|c s IHs]; simpl; [done|exact IHs].
    + by destruct (unresolved _).
Qed.

(** String leaves of a document. *)
Inductive leaf : json -> string -> Prop :=
    | leaf_str s : leaf (JStr s) s
    | leaf_arr l x s : x ∈ l -> leaf x s -> leaf (JArr l) s
    | leaf_obj m k x s : m !! k = Some x -> leaf x s -> leaf (JObj m) s.

Lemma resolve_errs_arr l path :
  resolve_errs (JArr l) path = [] <-> (forall i x, l !! i = Some x -> resolve_errs x (path_index path i) = []).
Proof.
  simpl. assert (forall k, List.concat (List.map (fun f : nat * (string -> list (string * string)) => f.2 (path_index path f.1))
  (combine (seq k (List.length l)) (List.map resolve_errs l))) = []
    <-> (forall i x, l !! i = Some x -> resolve_errs x (path_index path (k + i)) = [])) as G; [|apply (G 0)].
  induction l as [|y l IH]; intros k; simpl.
  - split; [intros _ i x Hi; done|done].
  - rewrite app_nil, IH. split.
    + intros [Hy Hl] [|i] x Hi; simpl in Hi; simplify_eq.
  * by rewrite Nat.add_0_r.
  * replace (k + S i) with (S k + i) by lia. by apply Hl.
    + intros Hx. split.
  * specialize (Hx 0 y eq_refl). by rewrite Nat.add_0_r in Hx.
  * intros i x Hi. specialize (Hx (S i) x Hi). by replace (S k + i) with (k + S i) by lia.
Qed.

Lemma resolve_errs_obj m path :
  resolve_errs (JObj m) path = [] <->
  (forall k x, m !! k = Some x -> resolve_errs x (path +:+ "." +:+ k) = []).
Proof.
  simpl. induction m as [|k y m Hk Hf IH] using map_first_key_ind.
  - rewrite map_fold_empty. split; [intros _ k x Hx; done|done].
  - rewrite map_fold_insert_first_key by done. rewrite app_nil, IH. split.
    + intros [Hy Hm] k' x [[<- <-]|[Hn Hx]]%lookup_insert_Some; [done|]. by apply Hm.
    + intros H. split; [by apply H; rewrite lookup_insert_eq|]. intros k' x Hx. apply H.
  rewrite lookup_insert_ne; [done|]. by intros <-; simplify_map_eq.
Qed.

Lemma resolve_errs_nil v path :
  resolve_errs v path = [] <-> forall s, leaf v s -> string_errs s = [].
Proof.
  revert path. induction v as [|b|n|s|l IH|m IH] using json_ind'; intros path.
  1-3: split; [intros _ s Hs; inversion Hs|done].
  - simpl. split.
    + intros H s' Hs. inversion Hs; subst. by destruct (string_errs s').
    + intros H. by rewrite (H s (leaf_str s)).
  - rewrite resolve_errs_arr. rewrite Forall_forall in IH. split.
    + intros H s Hs. inversion Hs as [|? x ? Hin Hx|]; subst.
  apply list_elem_of_lookup in Hin as Hi. destruct Hi as [i Hi]. exact (proj1 (IH x Hin _) (H i x Hi) s Hx).
    + intros H i x Hi. apply (IH x ltac:(by eapply list_elem_of_lookup_2)). intros s Hs.
  apply H. eapply leaf_arr; [by eapply list_elem_of_lookup_2|done].
  - rewrite resolve_errs_obj. split.
    + intros H s Hs. inversion Hs as [| |? k x ? Hk Hx]; subst. exact (proj1 (IH k x Hk _) (H k x Hk) s Hx).
    + intros H k x Hk. apply (IH k x Hk). intros s Hs. apply H. by eapply leaf_obj.
Qed.

(** Substitution over a whole document succeeds exactly when, in every string
    leaf at any depth, every reference has a value or a default. *)
Theorem Resolve_ok v :
  (Resolve v).2 = [] <-> forall s, leaf v s -> string_errs s = [].
Proof. apply resolve_errs_nil. Qed.
End Resolve.

Definition demo_env (n : string) : option string :=
  if String.eqb n "HOST" then Some "db1" else if String.eqb n "EMPTY" then Some "" else None.
Definition demo_segments : list segment :=
  [Lit "x="; Ref "HOST" None; Lit ":"; Ref "PORT" (Some "80"); Ref "EMPTY" None].

Example resolve_string_ex :
  resolve_string demo_env ("${HOST}/$" +:+ "{x}${PORT:}${A_1:d}") = "db1/${x}${PORT:}d"
  /\ string_errs demo_env "${HOST}/${x}${PORT:}${A_1:d}" = ["PORT"].
Proof. vm_compute. split; reflexivity. Qed.

Lemma resolve_segments_witness :
  resolve_string demo_env (print_segments demo_segments) = "x=db1:80${EMPTY}"
  /\ string_errs demo_env (print_segments demo_segments) = ["EMPTY"].
Proof.
  destruct (resolve_segments demo_env demo_segments) as [-> ->]; [by repeat constructor|].
  vm_compute. split; reflexivity.
Defined.
End Envsubst.

Module Render.

(** [templateRegex]: two open braces, one or more non-brace characters, two close
    braces.  The group is the inner text. *)
Definition not_brace (c : ascii) : bool := negb (is_chr 123 c || is_chr 125 c).

Definition templateRegex (s : string) : option (string * nat) :=
  match s with
  | String a (String b rest) =>
      if is_chr 123 a && is_chr 123 b then
        let '(inner, r) := span not_brace rest in
        match r with
        | String x (String y _) =>
            if negb (str_empty inner) && is_chr 125 x && is_chr 125 y
            then Some (inner, 4 + String.length inner) else None
        | _ => None
        end
      else None
  | _ => None
  end.

(** [splitNameArg]: cut at the first colon or dot. *)
Definition not_sep (c : ascii) : bool := negb (is_chr 58 c || is_chr 46 c).
Definition splitNameArg (inner : string) : string * string :=
  let '(name, r) := span not_sep inner in (name, str_drop 1 r).

(** [strings.Split(path, ".")]; the result is never empty. *)
Fixpoint split_dot (s : string) : list string :=
  match s with
  | EmptyString => [EmptyString]
  | String c s' =>
      if is_chr 46 c then EmptyString :: split_dot s'
      else match split_dot s' with
           | x :: l => String c x :: l
           | [] => [String c EmptyString]
           end
  end.

Inductive render_error :=
  | RE_nil_root (path : string)
  | RE_not_object (path : string) (segment : nat)
  | RE_missing_key (path key : string)
  | RE_unknown (name inner : string)
  | RE_resolving (inner : string) (e : render_error).

(** [fmt.Sprint] of a decoded value: maps print in key order. *)
Fixpoint sprint (v : json) : string :=
  match v with
  | JNull => "<nil>"
  | JBool b => if b then "true" else "false"
  | JNum n => print_Z n
  | JStr s => s
  | JArr l => "[" +:+ String.concat " " (List.map sprint l) +:+ "]"
  | JObj m =>
      "map[" +:+ String.concat " " (List.map (fun kv => kv.1 +:+ ":" +:+ kv.2)
                   (sort_keys (map_to_list (fmap (M := gmap string) sprint m)))) +:+ "]"
  end.
Definition formatScalar (v : json) : string := sprint v.

Fixpoint walk_path (path : string) (i : nat) (cur : json) (parts : list string)
    : res render_error string :=
  match parts with
  | [] => Ok (formatScalar cur)
  | p :: parts =>
      match cur with
      | JObj m => match m !! p with
                  | Some next => walk_path path (S i) next parts
                  | None => Err (RE_missing_key path p)
                  end
      | _ => Err (RE_not_object path i)
      end
  end.

Definition jsonPath (root : json) (path : string) : res render_error string :=
  match root with
  | JNull => if str_empty path then Ok "" else Err (RE_nil_root path)
  | _ => if str_empty path then Ok (formatScalar root)
         else walk_path path 0 root (split_dot path)
  end.

(** Instants, zones, layouts: Go's [time] package is a parameter. *)
Section Render.
Context {Time Location : Type} (UTC : Location).
Variable Format : Time -> Location -> string -> string.
Variable LoadLocation : string -> option Location.

Record RenderCtx := mkRenderCtx {
  Now : Time;
  SessionID : string;
  UserID : string;
  RequestID : string;
  TriggerEvent : json;
  NodeOutputs : gmap string json;
  UserName : string;
  TimeZone : string;
  IndexMapping : string;
    }.

Definition userLocation (c : RenderCtx) : Location :=
  if str_empty (TimeZone c) then UTC else default UTC (LoadLocation (TimeZone c)).

Definition layout_or (arg def : string) : string := if str_empty arg then def else arg.

(** The catalog of [NewRenderer]. *)
Definition catalog (name : string) : option (string -> RenderCtx -> res render_error string) :=
  let named n := String.eqb name n in
  if named "nowUtc" then Some (fun arg c => Ok (Format (Now c) UTC (layout_or arg "2006-01-02 15:04")))
  else if named "nowUtcDate" then Some (fun _ c => Ok (Format (Now c) UTC "2006-01-02"))
  else if named "nowUtcWeekday" then Some (fun _ c => Ok (Format (Now c) UTC "Monday"))
  else if named "sessionId" then Some (fun _ c => Ok (SessionID c))
  else if named "userId" then Some (fun _ c => Ok (UserID c))
  else if named "requestId" then Some (fun _ c => Ok (RequestID c))
  else if named "trigger" then Some (fun arg c => jsonPath (TriggerEvent c) arg)
  else if named "nodes" then
    Some (fun arg c =>
      let '(nodeID, r) := span (fun x => negb (is_chr 46 x)) arg in
      jsonPath (default JNull (NodeOutputs c !! nodeID)) (str_drop 1 r))
      else if named "userName" then
    Some (fun _ c => Ok (if str_empty (UserName c) then "the user" else UserName c))
      else if named "userTimeZone" then
    Some (fun _ c =>
      Ok (if str_empty (TimeZone c) then "UTC"
          else match LoadLocation (TimeZone c) with Some _ => TimeZone c | None => "UTC" end))
      else if named "nowLocal" then
    Some (fun arg c => Ok (Format (Now c) (userLocation c) (layout_or arg "2006-01-02 15:04")))
      else if named "nowLocalWeekday" then Some (fun _ c => Ok (Format (Now c) (userLocation c) "Monday"))
      else if named "indexMapping" then
    Some (fun _ c => Ok (if str_empty (IndexMapping c)
                         then "(index mapping temporarily unavailable)" else IndexMapping c))
      else None.

(** What [Render]'s callback does with one match. *)
Definition resolve_match (ctx : RenderCtx) (inner : string) : res render_error string :=
  let '(name, arg) := splitNameArg inner in
  match catalog name with
  | None => Err (RE_unknown name inner)
  | Some resolver =>
  match resolver arg ctx with
  | Ok v => Ok v
  | Err e => Err (RE_resolving inner e)
  end
  end.

(** The replacement loop: once an error is recorded, later matches stay as they are. *)
Fixpoint render_tokens (ctx : RenderCtx) (firstErr : option render_error) (l : list (token string))
    : string * option render_error :=
  match l with
  | [] => (EmptyString, firstErr)
  | TChar c :: l => let '(out, e) := render_tokens ctx firstErr l in (String c out, e)
  | TMatch inner text :: l =>
      match firstErr with
      | Some _ => let '(out, e) := render_tokens ctx firstErr l in (text +:+ out, e)
      | None =>
          match resolve_match ctx inner with
          | Ok v => let '(out, e) := render_tokens ctx None l in (v +:+ out, e)
          | Err err => let '(out, e) := render_tokens ctx (Some err) l in (text +:+ out, e)
          end
      end
  end.

Definition Render (template : string) (ctx : RenderCtx) : string * option render_error :=
  render_tokens ctx None (scan templateRegex template).

(** [Validate]: the first placeholder whose name is not in the catalog. *)
Definition known_placeholder (inner : string) : bool :=
  match catalog (splitNameArg inner).1 with Some _ => true | None => false end.
Definition Validate (template : string) : option string :=
  option_map (fun inner => (splitNameArg inner).1)
    (find_first (fun inner => negb (known_placeholder inner)) (find_all templateRegex template)).

(** ** Properties *)

(** The placeholders whose resolution can fail. *)
Definition path_placeholder (inner : string) : bool :=
  mem_str (splitNameArg inner).1 ["trigger"; "nodes"].

Lemma catalog_total name f arg ctx e :
  catalog name = Some f -> f arg ctx = Err e -> name = "trigger" \/ name = "nodes".
Proof.
  unfold catalog. intros H He.
  repeat match type of H with
  | (if String.eqb ?a ?b then _ else _) = _ => destruct (String.eqb_spec a b); subst
  | _ => progress (injection H as <-)
  end; auto; try discriminate.
Qed.

Lemma jsonPath_error root path e :
  jsonPath root path = Err e ->
  match e with RE_unknown _ _ | RE_resolving _ _ => False | _ => True end.
Proof.
  assert (forall parts i cur e, walk_path path i cur parts = Err e ->
    match e with RE_unknown _ _ | RE_resolving _ _ => False | _ => True end) as W.
  { induction parts as [|p parts IH]; intros i cur e'; simpl; [done|].
    destruct cur; try (by intros [= <-]). destruct (m !! p); [apply IH|by intros [= <-]]. }
      unfold jsonPath. destruct root; destruct (str_empty path); try done; try (by intros [= <-]); apply W.
Qed.

Lemma catalog_path_error name f arg ctx e :
  catalog name = Some f -> f arg ctx = Err e ->
  match e with RE_unknown _ _ | RE_resolving _ _ => False | _ => True end.
Proof.
  intros Hf He. destruct (catalog_total _ _ _ _ _ Hf He) as [-> | ->].
  - assert (f = fun arg c => jsonPath (TriggerEvent c) arg) as -> by (injection Hf as <-; reflexivity).
    by eapply jsonPath_error.
  - assert (f = fun arg c => let '(nodeID, r) := span (fun x => negb (is_chr 46 x)) arg in
              jsonPath (default JNull (NodeOutputs c !! nodeID)) (str_drop 1 r)) as ->
          by (injection Hf as <-; reflexivity).
    destruct (span (fun x => negb (is_chr 46 x)) arg) as [nodeID r]. by eapply jsonPath_error.
Qed.

Lemma render_tokens_err ctx l err :
  (render_tokens ctx None l).2 = Some err ->
  exists inner text, TMatch inner text ∈ l /\ resolve_match ctx inner = Err err.
Proof.
  assert (forall l e, (render_tokens ctx (Some e) l).2 = Some e) as Hs.
  { clear. induction l as [|[c|i t] l IH]; intros e; simpl; [done| |];
  (destruct (render_tokens ctx (Some e) l) eqn:E; specialize (IH e); by rewrite E in IH). }
  induction l as [|[c|i t] l IH]; simpl; [done| |].
  - destruct (render_tokens ctx None l) eqn:E. simpl in *. intros H.
    destruct (IH H) as (i & t & ? & ?). exists i, t. split; [set_solver|done].
  - destruct (resolve_match ctx i) as [v|e] eqn:Em.
    + destruct (render_tokens ctx None l) eqn:E. simpl in *. intros H.
  destruct (IH H) as (i' & t' & ? & ?). exists i', t'. split; [set_solver|done].
    + specialize (Hs l e). destruct (render_tokens ctx (Some e) l) eqn:E. simpl in *.
  intros H. simplify_eq. exists i, t. split; [set_solver|done].
Qed.

Lemma in_find_all inner text template :
  TMatch inner text ∈ scan templateRegex template -> inner ∈ find_all templateRegex template.
Proof. intros H. unfold find_all. apply list_elem_of_omap. exists (TMatch inner text). done. Qed.

(** A template that passes [Validate] never fails at request time because of an
    unknown placeholder: the only failures left are path look-ups into the trigger
    body or into node outputs. *)
Theorem Validate_sound template ctx err :
  Validate template = None -> (Render template ctx).2 = Some err ->
  exists inner e, err = RE_resolving inner e /\ path_placeholder inner = true
    /\ match e with RE_unknown _ _ | RE_resolving _ _ => False | _ => True end.
Proof.
  intros Hv Hr. apply render_tokens_err in Hr as (inner & text & Hin & Hm).
  apply in_find_all in Hin. unfold Validate in Hv.
  destruct (find_first _ _) eqn:Ef; [done|].
  pose proof (proj1 (find_first_None _ _) Ef _ Hin) as Hk. simpl in Hk. to_prop.
  unfold known_placeholder in Hk. unfold resolve_match in Hm. unfold path_placeholder.
  destruct (splitNameArg inner) as [name arg] eqn:Es. simpl in *.
  destruct (catalog name) as [f|] eqn:Ec; [|done].
  destruct (f arg ctx) as [v|e] eqn:Ee; [done|]. injection Hm as <-. exists inner, e. split_and!; [done| |].
  - rewrite Es. by destruct (catalog_total _ _ _ _ _ Ec Ee) as [->| ->].
  - by eapply catalog_path_error.
Qed.

(** The catalog's time-zone placeholder only ever echoes a zone that loads; any
    other client-supplied value renders as [UTC], the zone [nowLocal] then uses. *)
Theorem userTimeZone_safe arg ctx :
  exists f z, catalog "userTimeZone" = Some f /\ f arg ctx = Ok z
    /\ ((z = "UTC" /\ userLocation ctx = UTC)
        \/ (exists loc, LoadLocation z = Some loc /\ userLocation ctx = loc)).
Proof.
  eexists _, _. split; [reflexivity|]. split; [reflexivity|]. unfold userLocation.
  destruct (str_empty (TimeZone ctx)); [by left|].
  destruct (LoadLocation (TimeZone ctx)) eqn:E; [|by left]. right. eauto.
Qed.
End Render.
Arguments mkRenderCtx {Time} _ _ _ _ _ _ _ _ _.

Definition demo_ctx : RenderCtx (Time := nat) :=
  mkRenderCtx 0 "s1" "u1" "r1" (jobj [("message", JStr "hi")]) ∅ "" "Mars" "".
Definition demo_format (t l : nat) (layout : string) : string := layout.
Definition demo_load (z : string) : option nat := if String.eqb z "UTC" then Some 0 else None.

Example Render_ex :
  Render 0 demo_format demo_load "{{{sessionId}}} {{trigger.message}} {{userTimeZone}} {{nowUtc:15}} {{a b" demo_ctx
  = ("{s1} hi UTC 15 {{a b", None).
Proof. vm_compute. reflexivity. Qed.

Lemma Validate_sound_witness :
  Validate (Time := nat) 0 demo_format demo_load "{{trigger.x}}" = None
  /\ exists inner e, RE_resolving "trigger.x" (RE_missing_key "x" "x") = RE_resolving inner e
       /\ path_placeholder inner = true.
Proof.
  split; [vm_compute; reflexivity|].
  destruct (Validate_sound 0 demo_format demo_load "{{trigger.x}}" demo_ctx
              (RE_resolving "trigger.x" (RE_missing_key "x" "x"))) as (i & e & H1 & H2 & _);
    [vm_compute; reflexivity..|].
  exists i, e. split; assumption.
Defined.
End Render.
