(* ===== verification/Topo.v ===== *)
(** * Execution order (TopoOrder of pkg/workflow/engine/loader/validate.go)

    Kahn's algorithm on the connections of a workflow.  Go enumerates the node map
    in an unspecified order; the model takes that enumeration as an argument and the
    theorems hold for every one. *)

From S2P Require Import Prelude.
From stdpp Require Import base tactics list strings gmap option fin_maps.
From Stdlib Require Import ZArith Lia String.
Local Open Scope list_scope.

(** [RawConn] and [Endpoint] *)
Record Endpoint := mkEndpoint { ep_node : string; ep_port : string }.
Record RawConn := mkConn { From_ : Endpoint; To_ : Endpoint }.
Definition src (c : RawConn) : string := ep_node (From_ c).
Definition dst (c : RawConn) : string := ep_node (To_ c).

(** [indeg[m]]: an absent key reads as zero. *)
Definition deg (indeg : gmap string Z) (m : string) : Z := default 0%Z (indeg !! m).

Definition init_indeg (ids : list string) (conns : list RawConn) : gmap string Z :=
  foldl (fun d c => <[dst c := (deg d (dst c) + 1)%Z]> d)
    (foldl (fun d id => <[id := 0%Z]> d) ∅ ids) conns.

(** [out[n]]: the destinations of [n]'s connections, in connection order. *)
Definition succs (conns : list RawConn) (n : string) : list string :=
  omap (fun c => if decide (src c = n) then Some (dst c) else None) conns.

(** The inner loop: decrement, and enqueue a node that reaches zero. *)
Definition relax (st : gmap string Z * list string) (m : string) : gmap string Z * list string :=
  let '(indeg, queue) := st in
  let d := (deg indeg m - 1)%Z in
  let indeg := <[m := d]> indeg in
  (indeg, if (d =? 0)%Z then queue ++ [m] else queue).

Arguments relax : simpl never.

(** The queue loop; [None] only when the fuel runs out. *)
Fixpoint kahn (fuel : nat) (conns : list RawConn) (indeg : gmap string Z)
    (queue order : list string) : option (list string) :=
  match queue with
  | [] => Some order
  | n :: queue =>
      match fuel with
      | O => None
      | S fuel =>
          let '(indeg, queue) := foldl relax (indeg, queue) (succs conns n) in
          kahn fuel conns indeg queue (order ++ [n])
      end
  end.

(** [TopoOrder] over the node ids in enumeration order.  [None] is the cycle error. *)
Definition zero_indeg (indeg : gmap string Z) (id : string) : bool := (deg indeg id =? 0)%Z.
Definition TopoOrder_fuel (fuel : nat) (ids : list string) (conns : list RawConn)
    : option (option (list string)) :=
  let indeg := init_indeg ids conns in
  let queue := List.filter (zero_indeg indeg) ids in
  match kahn fuel conns indeg queue [] with
  | None => None
  | Some order => Some (if (List.length order =? List.length ids)%nat then Some order else None)
  end.
Definition TopoOrder (ids : list string) (conns : list RawConn) : option (list string) :=
  default None (TopoOrder_fuel (List.length ids) ids conns).

(** Connections join known nodes: what [ValidateConnections] has checked before. *)
Definition conns_ok (ids : list string) (conns : list RawConn) : Prop :=
  Forall (fun c => src c ∈ ids /\ dst c ∈ ids) conns.

(** Number of connections into [m] from a node not yet output. *)
Definition pending (conns : list RawConn) (order : list string) (m : string) : nat :=
  List.length (filter (fun c => dst c = m /\ src c ∉ order) conns).

Lemma deg_insert indeg m d m' : deg (<[m := d]> indeg) m' = if decide (m = m') then d else deg indeg m'.
Proof. unfold deg. case_decide; [subst; by rewrite lookup_insert_eq|by rewrite lookup_insert_ne]. Qed.

Lemma init_zero l d m : deg (foldl (fun d id => <[id := 0%Z]> d) d l) m = if decide (m ∈ l) then 0%Z else deg d m.
Proof.
  revert d. induction l as [|x l IH]; intros d; simpl; [done|]. rewrite IH, deg_insert.
  repeat case_decide; set_solver.
Qed.

Lemma init_indeg_spec ids conns m :
  deg (init_indeg ids conns) m = Z.of_nat (pending conns [] m).
Proof.
  unfold init_indeg, pending.
  assert (forall l d, deg (foldl (fun d c => <[dst c := (deg d (dst c) + 1)%Z]> d) d l) m
    = (deg d m + Z.of_nat (List.length (filter (fun c => dst c = m /\ src c ∉ []) l)))%Z) as G.
  { induction l as [|c l IH]; intros d; simpl; [lia|]. rewrite IH, deg_insert, filter_cons.
    destruct (decide (dst c = m)) as [->|Hn].
    - rewrite decide_True by (split; [done|apply not_elem_of_nil]). simpl. lia.
    - rewrite decide_False by tauto. done. }
  rewrite G, init_zero. unfold deg at 1. rewrite lookup_empty. case_decide; simpl; lia.
Qed.

Lemma succs_cons c l n :
  succs (c :: l) n = if decide (src c = n) then dst c :: succs l n else succs l n.
Proof. unfold succs. simpl. by destruct (decide (src c = n)). Qed.

Lemma count_succs conns n m :
  count_occ string_dec (succs conns n) m
  = List.length (filter (fun c => dst c = m /\ src c = n) conns).
Proof.
  induction conns as [|c l IH]; [done|]. rewrite succs_cons, filter_cons.
  destruct (decide (src c = n)) as [Hs|Hs].
  - simpl. destruct (string_dec (dst c) m) as [Hd|Hd].
    + rewrite decide_True by done. simpl. by rewrite IH.
    + rewrite decide_False by tauto. done.
  - rewrite decide_False by tauto. done.
Qed.

(** Outputting [n] turns its connections from pending into work to do. *)
Lemma pending_split conns order n m :
  n ∉ order ->
  pending conns order m = (pending conns (order ++ [n]) m + count_occ string_dec (succs conns n) m)%nat.
Proof.
  intros Hn. rewrite count_succs. unfold pending.
  induction conns as [|c l IH]; [done|]. rewrite !filter_cons.
  destruct (decide (dst c = m)) as [Hd|Hd].
  - destruct (decide (src c = n)) as [Hs|Hs].
    + rewrite (decide_True (P := dst c = m /\ src c ∉ order)) by (subst; done).
      rewrite (decide_False (P := dst c = m /\ src c ∉ order ++ [n])) by (intros [_ H]; apply H; subst; set_solver).
      rewrite (decide_True (P := dst c = m /\ src c = n)) by done. simpl. rewrite IH. lia.
    + rewrite (decide_False (P := dst c = m /\ src c = n)) by tauto.
      destruct (decide (src c ∈ order)) as [Ho|Ho].
      * rewrite !decide_False; [done|intros [_ H]; apply H; set_solver|tauto].
      * rewrite !decide_True; [simpl; by rewrite IH|split; [done|set_solver]|done].
  - rewrite !decide_False by tauto. exact IH.
Qed.

Section Kahn.
#[local] Set Default Proof Using "All".
Variable ids : list string.
Variable conns : list RawConn.
Hypothesis ids_nodup : NoDup ids.
Hypothesis ids_conns : conns_ok ids conns.

(** Loop invariant, with the destinations [todo] of the node being output still to
    relax: degrees count the pending connections, the order and the queue hold each
    ready node once, and every node output comes after its predecessors. *)
Record inv (indeg : gmap string Z) (queue order todo : list string) : Prop := {
  inv_deg : forall m, m ∈ ids ->
    deg indeg m = Z.of_nat (pending conns order m + count_occ string_dec todo m);
  inv_nodup : NoDup (order ++ queue);
  inv_ready : forall m, m ∈ order ++ queue <-> m ∈ ids /\ deg indeg m = 0%Z;
  inv_before : forall o1 t o2 c, order = o1 ++ t :: o2 -> c ∈ conns -> dst c = t -> src c ∈ o1;
}.


Lemma pending_zero order m c :
  pending conns order m = 0 -> c ∈ conns -> dst c = m -> src c ∈ order.
Proof.
  unfold pending. intros H Hc Hd. destruct (decide (src c ∈ order)) as [|Hn]; [done|exfalso].
  apply nil_length_inv in H.
  assert (c ∈ filter (fun c => dst c = m /\ src c ∉ order) conns) as Hin by (by apply list_elem_of_filter).
  rewrite H in Hin. by apply elem_of_nil in Hin.
Qed.

Lemma relax_inv indeg queue order m todo :
  m ∈ ids -> inv indeg queue order (m :: todo) ->
  inv (relax (indeg, queue) m).1 (relax (indeg, queue) m).2 order todo.
Proof.
  intros Hm [Hdeg Hnd Hready Hbefore]. unfold relax. simpl.
  pose proof (Hdeg m Hm) as Hdm. simpl in Hdm.
  destruct (string_dec m m) as [_|]; [|done].
  assert (m ∉ order ++ queue) as Hni by (rewrite Hready; lia).
  split; [| | |done].
  - intros m' Hm'. rewrite deg_insert. specialize (Hdeg m' Hm'). simpl in Hdeg.
    case_decide; subst; destruct (string_dec _ _); try done; lia.
  - destruct (Z.eqb_spec (deg indeg m - 1) 0) as [E|E]; [|done].
    rewrite app_assoc. apply NoDup_app. split_and!; [done| |apply NoDup_singleton].
    intros x Hx Hx'. apply list_elem_of_singleton in Hx' as ->. done.
  - intros m'. rewrite deg_insert. destruct (Z.eqb_spec (deg indeg m - 1) 0) as [E|E].
    + rewrite app_assoc, elem_of_app, Hready, list_elem_of_singleton. case_decide; subst; [|naive_solver].
      split; [|naive_solver]. naive_solver.
    + rewrite Hready. case_decide; subst; [|done]. split; [|naive_solver]. intros [_ H]. lia.
Qed.

Lemma relax_all indeg queue order todo :
  Forall (fun m => m ∈ ids) todo -> inv indeg queue order todo ->
  inv (foldl relax (indeg, queue) todo).1 (foldl relax (indeg, queue) todo).2 order [].
Proof.
  intros Hall. revert indeg queue. induction Hall as [|m todo Hm Hall IH]; intros indeg queue H; [done|].
  simpl. pose proof (relax_inv _ _ _ _ _ Hm H) as H'.
  destruct (relax (indeg, queue) m) as [indeg' queue']. exact (IH _ _ H').
Qed.

Lemma succs_in_ids n : Forall (fun m => m ∈ ids) (succs conns n).
Proof.
  apply Forall_forall. intros m Hm. unfold succs in Hm. apply list_elem_of_omap in Hm as (c & Hc & Hd).
  case_decide; simplify_eq. unfold conns_ok in ids_conns. rewrite Forall_forall in ids_conns.
  by apply ids_conns.
Qed.

(** Popping the head of the queue: its connections become work to do. *)
Lemma pop_inv indeg n queue order :
  inv indeg (n :: queue) order [] -> inv indeg queue (order ++ [n]) (succs conns n).
Proof.
  intros [Hdeg Hnd Hready Hbefore].
  assert (n ∈ ids /\ deg indeg n = 0%Z) as [Hn Hn0] by (apply Hready; set_solver).
  assert (n ∉ order).
  { apply NoDup_app in Hnd as (_ & H & _). intros Hin. apply (H n Hin). set_solver. }
  split.
  - intros m Hm. rewrite (Hdeg m Hm). simpl. rewrite (pending_split conns order n m) by done. lia.
  - by rewrite <- app_assoc.
  - intros m. rewrite <- app_assoc. apply Hready.
  - intros o1 t o2 c Ho Hc Hd.
    destruct (decide (o2 = [])) as [->|Hne].
    + apply app_inj_tail in Ho as [-> ->]. eapply pending_zero; [|done|done].
      specialize (Hdeg t Hn). simpl in Hdeg. lia.
    + destruct (exists_last Hne) as (o2' & x & ->).
      rewrite app_comm_cons, app_assoc in Ho. apply app_inj_tail in Ho as [-> _].
      by eapply Hbefore.
Qed.

(** The loop ends within one pass per node, with an empty queue. *)
Lemma kahn_spec fuel indeg queue order :
  inv indeg queue order [] -> List.length ids <= fuel + List.length order ->
  exists indeg' order', kahn fuel conns indeg queue order = Some order'
    /\ inv indeg' [] order' [].
Proof.
  revert indeg queue order. induction fuel as [|fuel IH]; intros indeg [|n queue] order Hinv Hf;
    [by eexists _, _|exfalso|by eexists _, _|].
  - (* more nodes output than there are *)
    assert (List.length (order ++ n :: queue) <= List.length ids) as Hl.
    { apply submseteq_length, NoDup_submseteq; [apply (inv_nodup _ _ _ _ Hinv)|].
      intros x Hx. by apply (inv_ready _ _ _ _ Hinv) in Hx as [? _]. }
    rewrite length_app in Hl. simpl in *. lia.
  - simpl. apply pop_inv, relax_all in Hinv; [|apply succs_in_ids].
    destruct (foldl relax (indeg, queue) (succs conns n)) as [indeg' queue'].
    apply (IH indeg' queue'); [done|]. rewrite length_app. simpl. lia.
Qed.

Lemma init_inv : inv (init_indeg ids conns) (List.filter (zero_indeg (init_indeg ids conns)) ids) [] [].
Proof.
  split; simpl.
  - intros m _. rewrite init_indeg_spec. lia.
  - by apply NoDup_ListNoDup, List.NoDup_filter, NoDup_ListNoDup.
  - intros m. rewrite list_elem_of_In, filter_In, <- list_elem_of_In.
    unfold zero_indeg. by rewrite Z.eqb_eq.
  - intros o1 t o2 c H. by destruct o1.
Qed.

(** The loop's result: all ready nodes, in order, each after its predecessors. *)
Lemma TopoOrder_run :
  exists indeg order, inv indeg [] order []
    /\ TopoOrder_fuel (List.length ids) ids conns
       = Some (if (List.length order =? List.length ids)%nat then Some order else None).
Proof.
  destruct (kahn_spec (List.length ids) _ _ [] init_inv) as (indeg & order & Hk & Hinv); [simpl; lia|].
  exists indeg, order. split; [done|]. unfold TopoOrder_fuel. by rewrite Hk.
Qed.
End Kahn.

(** A rank increasing along the connections: the graph has no cycle. *)
Definition acyclic (conns : list RawConn) : Prop :=
  exists rank : string -> nat, forall c, c ∈ conns -> rank (src c) < rank (dst c).

Lemma inv_sub ids conns indeg order x : inv ids conns indeg [] order [] -> x ∈ order -> x ∈ ids.
Proof. intros H Hx. apply (inv_ready _ _ _ _ _ _ H). by rewrite app_nil_r. Qed.

Lemma inv_order_nodup ids conns indeg order : inv ids conns indeg [] order [] -> NoDup order.
Proof. intros H. pose proof (inv_nodup _ _ _ _ _ _ H) as Hn. by rewrite app_nil_r in Hn. Qed.

Lemma topo_order_sound ids conns order :
  NoDup ids -> conns_ok ids conns -> TopoOrder ids conns = Some order ->
  order ≡ₚ ids
  /\ forall c, c ∈ conns -> exists o1 o2, order = o1 ++ dst c :: o2 /\ src c ∈ o1.
Proof.
  intros Hnd Hok H. destruct (TopoOrder_run ids conns Hnd Hok) as (indeg & o & Hinv & Hrun).
  unfold TopoOrder in H. rewrite Hrun in H. simpl in H.
  destruct (Nat.eqb_spec (List.length o) (List.length ids)) as [Hl|]; [|done]. injection H as ->.
  assert (order ≡ₚ ids) as Hp.
  { apply submseteq_length_Permutation; [|lia].
    apply NoDup_submseteq; [by eapply inv_order_nodup|]. intros x. by eapply inv_sub. }
  split; [done|]. intros c Hc.
  unfold conns_ok in Hok. rewrite Forall_forall in Hok. destruct (Hok c Hc) as [_ Hd].
  rewrite <- Hp in Hd. apply list_elem_of_split in Hd as (o1 & o2 & Ho).
  exists o1, o2. split; [done|]. by eapply (inv_before _ _ _ _ _ _ Hinv).
Qed.

(** A computed execution order is a permutation of the workflow's nodes in which
    the source of every connection precedes its destination. *)
Theorem TopoOrder_sound ids conns order :
  NoDup ids -> conns_ok ids conns -> TopoOrder ids conns = Some order ->
  order ≡ₚ ids
  /\ forall c, c ∈ conns -> exists o1 o2, order = o1 ++ dst c :: o2 /\ src c ∈ o1.
Proof. apply topo_order_sound. Qed.

Lemma acyclic_all ids conns indeg order :
  conns_ok ids conns -> inv ids conns indeg [] order [] -> acyclic conns ->
  forall m, m ∈ ids -> m ∈ order.
Proof.
  intros Hok Hinv [rank Hrank] m.
  induction m as [m IH] using (induction_ltof1 _ rank). unfold ltof in IH. intros Hm.
  enough (m ∈ order ++ []) by (by rewrite app_nil_r in *).
  apply (inv_ready _ _ _ _ _ _ Hinv). split; [done|].
  rewrite (inv_deg _ _ _ _ _ _ Hinv) by done. simpl.
  assert (pending conns order m = 0) as ->; [|done].
  unfold pending. apply length_zero_iff_nil. apply elem_of_nil_inv. intros c Hc.
  apply list_elem_of_filter in Hc as [[Hd Hs] Hc]. apply Hs.
  unfold conns_ok in Hok. rewrite Forall_forall in Hok.
  apply IH; [|by apply Hok]. rewrite <- Hd. by apply Hrank.
Qed.

Definition position (x : string) (l : list string) : nat :=
  match list_find (fun y => y = x) l with Some (i, _) => i | None => 0 end.

Lemma position_before o1 t o2 x :
  NoDup (o1 ++ t :: o2) -> x ∈ o1 -> position x (o1 ++ t :: o2) < position t (o1 ++ t :: o2).
Proof.
  intros Hnd Hx. apply NoDup_app in Hnd as (_ & Hd & _).
  assert (position t (o1 ++ t :: o2) = List.length o1) as ->.
  { unfold position. rewrite list_find_app_r.
    - simpl. rewrite decide_True by done. simpl. lia.
    - apply list_find_None, Forall_forall. intros y Hy ->. apply (Hd t Hy). set_solver. }
  unfold position. destruct (list_find (fun y => y = x) o1) as [[i y]|] eqn:E.
  - rewrite (list_find_app_l _ _ _ _ _ E). apply list_find_Some in E as (Hi & _). by apply lookup_lt_Some in Hi.
  - apply list_find_None in E. rewrite Forall_forall in E. by destruct (E x Hx).
Qed.

(** C40: The cycle error is raised exactly for cyclic graphs, and the computation
    always ends within one pass per node. *)
Theorem TopoOrder_complete ids conns :
  NoDup ids -> conns_ok ids conns ->
  (exists r, TopoOrder_fuel (List.length ids) ids conns = Some r)
  /\ (is_Some (TopoOrder ids conns) <-> acyclic conns).
Proof.
  intros Hnd Hok. destruct (TopoOrder_run ids conns Hnd Hok) as (indeg & o & Hinv & Hrun).
  split; [by eexists|]. split.
  - intros [order Ho]. destruct (topo_order_sound _ _ _ Hnd Hok Ho) as [Hp Hb].
    exists (fun x => position x order). intros c Hc. destruct (Hb c Hc) as (o1 & o2 & -> & Hs).
    apply position_before; [|done]. by rewrite Hp.
  - intros Hac. unfold TopoOrder. rewrite Hrun. simpl.
    assert (o ≡ₚ ids) as Hp.
    { apply NoDup_Permutation; [by eapply inv_order_nodup|done|].
      intros x. split; [by eapply inv_sub|by eapply acyclic_all]. }
    rewrite (Permutation_length Hp), Nat.eqb_refl. done.
Qed.

Definition demo_conn (a b : string) : RawConn := mkConn (mkEndpoint a "main") (mkEndpoint b "main").
Definition demo_ids : list string := ["agent"; "llm"; "trigger"; "tool"]%string.
Definition demo_conns : list RawConn :=
  [demo_conn "trigger" "agent"; demo_conn "llm" "agent"; demo_conn "tool" "agent"; demo_conn "trigger" "tool"]%string.

Example TopoOrder_ex :
  TopoOrder demo_ids demo_conns = Some ["llm"; "trigger"; "tool"; "agent"]%string
  /\ TopoOrder demo_ids (demo_conns ++ [demo_conn "agent" "tool"]%string) = None.
Proof. vm_compute. split; reflexivity. Qed.

Lemma TopoOrder_sound_witness :
  ["llm"; "trigger"; "tool"; "agent"]%string ≡ₚ demo_ids.
Proof.
  apply (TopoOrder_sound demo_ids demo_conns);
    [apply (bool_decide_unpack _); vm_compute; exact I
    |apply (bool_decide_unpack _); vm_compute; exact I
    |vm_compute; reflexivity].
Defined.

Lemma TopoOrder_complete_witness :
  is_Some (TopoOrder demo_ids demo_conns) <-> acyclic demo_conns.
Proof.
  apply (TopoOrder_complete demo_ids demo_conns);
    apply (bool_decide_unpack _); vm_compute; exact I.
Defined.
