(* ===== verification/Node.v ===== *)
(** * The node contract (pkg/workflow/node)

    Roles, ports and specs, node instances as the engine sees them, and the factory
    registry. *)

From S2P Require Import Prelude Json Retry.
From stdpp Require Import base tactics list strings gmap option fin_maps.
From Stdlib Require Import ZArith Lia String.
Local Open Scope string_scope.
Local Open Scope list_scope.

(** ** node.go, port.go *)

Definition RoleTrigger : string := "trigger".
Definition RoleLLM : string := "llm".
Definition RoleMemory : string := "memory".
Definition RoleTool : string := "tool".
Definition RoleAgent : string := "agent".
Definition RolePolicy : string := "policy".

Inductive Cardinality := CardOne | CardZeroOrOne | CardZeroOrMany.

Record PortSpec := mkPort {
  port_Name : string;
  port_Cardinality : Cardinality;
  port_Required : bool;
  port_PeerRole : string;   (* "" for "main" *)
}.

Definition PortMain : string := "main".
Definition PortAILanguageModel : string := "ai_languageModel".
Definition PortAIMemory : string := "ai_memory".
Definition PortAITool : string := "ai_tool".
Definition PortPolicy : string := "policy".

Record NodeSpec := mkSpec {
  spec_Type : string;
  spec_Role : string;       (* "" when a node declares none *)
  InputPorts : list PortSpec;
  AllowedTemplates : list string;
  OverridableFields : list string;
}.

(** What a hosts map holds, by the dynamic types that node code asserts: the NATS service
    and whether its connection is open, a text, an [s3files.Uploader], the prompt store
    with its [Latest], anything else. *)
Inductive Host :=
| NatsHost (connected : bool)
| TextHost (text : string)
| UploaderHost
| StoreHost (Latest : string -> string -> string -> res string (option string))
| OtherHost.

(** A connected node as its peer sees it: its id, and the role interfaces it implements. *)
Record Peer := mkPeer { peer_ID : string; peer_implements : string -> bool }.

(** ** engine/nodeenv.go *)
Module Env.

(** [nodeEnvConfig] and the resolver that [setPeerResolver] installs. *)
Record NodeEnv := mkEnv {
  NodeID : string;
  WorkflowID : string;
  hosts : gmap string Host;
  env_lookup : string -> option string;
  policy : option Policy;
  peerResolver : option (string -> list Peer);
}.
Definition newNodeEnv (workflowID nodeID : string) (hosts : gmap string Host) (lookupEnv : string -> option string)
    (policy : option Policy) : NodeEnv :=
  mkEnv nodeID workflowID hosts lookupEnv policy None.
Definition setPeerResolver (r : string -> list Peer) (e : NodeEnv) : NodeEnv :=
  mkEnv (NodeID e) (WorkflowID e) (hosts e) (env_lookup e) (policy e) (Some r).

(** [pkg/secret]: a value that every way of printing it leaves out. *)
Inductive Secret_String := secret_New (v : string) | secret_zero.
Definition IsSet (s : Secret_String) : bool := match s with secret_New _ => true | secret_zero => false end.
Definition Reveal (s : Secret_String) : string := match s with secret_New v => v | secret_zero => "" end.
Definition redacted : string := "<redacted>".
Definition secret_String (s : Secret_String) : string := redacted.
Definition secret_MarshalJSON (s : Secret_String) : json := JStr redacted.

Inductive env_error := EmptyName (node : string) | NotSet (name node : string) | NoResolver (node : string).
(** [Secret]: the error names the variable, never a value. *)
Definition Secret (e : NodeEnv) (envVarName : string) : res env_error Secret_String :=
  if str_empty envVarName then Err (EmptyName (NodeID e))
  else
    match env_lookup e envVarName with
    | None => Err (NotSet envVarName (NodeID e))
    | Some val => if str_empty val then Err (NotSet envVarName (NodeID e)) else Ok (secret_New val)
    end.
Definition env_Host (e : NodeEnv) (kind : string) : option Host := hosts e !! kind.
Definition env_Peer (e : NodeEnv) (port : string) : res env_error (list Peer) :=
  match peerResolver e with None => Err (NoResolver (NodeID e)) | Some r => Ok (r port) end.
Definition RetryPolicy (e : NodeEnv) : option Policy := policy e.

Definition env_error_text (x : env_error) : string :=
  match x with
  | EmptyName node => "secret: empty env var name in node " +:+ node
  | NotSet name node => "secret: env var " +:+ dquote +:+ name +:+ dquote +:+ " is not set or empty (referenced by node " +:+ node +:+ ")"
  | NoResolver node => "peer resolver not yet wired for node " +:+ node
  end.

End Env.

(** A node instance: its spec and what the engine asks of it.  [implements] is the
    type assertion to a role's interface; [index_pattern] and [function_for] are the
    optional [IndexScoped] and [IndexFunctionProvider] interfaces (the latter answers a
    function id or an error text); [Init] gets the node's environment and may fail;
    [reconfigure] is the optional [Reconfigurable] interface, giving the node after the
    update. *)
Inductive Node : Type := mkNode {
  node_spec : NodeSpec;
  implements : string -> bool;
  index_pattern : option string;
  function_for : option (string -> res string string);
  Init : Env.NodeEnv -> option string;
  reconfigure : option (string -> string -> res string Node);
}.
Definition as_peer (id : string) (n : Node) : Peer := mkPeer id (implements n).

(** ** registry.go *)

(** A factory takes the raw config block, [None] when the block is absent. *)
Definition Factory : Type := option json -> res string Node.
Abbreviation Registry := (gmap string Factory).

Definition NewRegistry : Registry := ∅.

(** [Register] refuses a key that is already taken. *)
Definition Register (r : Registry) (typeKey : string) (f : Factory) : res string Registry :=
  match r !! typeKey with
  | Some _ => Err typeKey
  | None => Ok (<[typeKey := f]> r)
  end.

Definition Get (r : Registry) (typeKey : string) : option Factory := r !! typeKey.
Definition Types (r : Registry) : list string := (map_to_list r).*1.
Definition Replace (r : Registry) (typeKey : string) (f : Factory) : Registry := <[typeKey := f]> r.

(** Registering makes exactly the new key resolvable, never overwrites a factory,
    and the listing is the set of resolvable keys; replacing always wins. *)
Theorem registry_laws r k f :
  (forall r', Register r k f = Ok r' ->
     Get r k = None /\ Get r' k = Some f /\ (forall k', k' <> k -> Get r' k' = Get r k'))
  /\ (is_ok (Register r k f) = false <-> is_Some (Get r k))
  /\ Get (Replace r k f) k = Some f
  /\ (forall k', k' <> k -> Get (Replace r k f) k' = Get r k')
  /\ (forall k', k' ∈ Types r <-> is_Some (Get r k')).
Proof.
  unfold Register, Replace, Get, Types. destruct (r !! k) as [g|] eqn:E; simpl.
  - split_and!; [done|by split|by rewrite lookup_insert_eq|intros; by rewrite lookup_insert_ne|].
    intros k'. rewrite list_elem_of_fmap. split.
    + intros ([k2 v] & -> & H). apply elem_of_map_to_list in H. by eexists.
    + intros [v Hv]. exists (k', v). by rewrite elem_of_map_to_list.
  - split_and!; [|split; [done|by intros []]|by rewrite lookup_insert_eq|intros; by rewrite lookup_insert_ne|].
    + intros r' [= <-]. split_and!; [done|by rewrite lookup_insert_eq|intros; by rewrite lookup_insert_ne].
    + intros k'. rewrite list_elem_of_fmap. split.
      * intros ([k2 v] & -> & H). apply elem_of_map_to_list in H. by eexists.
      * intros [v Hv]. exists (k', v). by rewrite elem_of_map_to_list.
Qed.
