(* ===== verification/Validate.v ===== *)
(** * Load-time validation (sensitive.go, schema.go, types.go and validate.go of
    pkg/workflow/engine/loader) *)

From S2P Require Import Prelude Json Scan Template Topo Node.
From stdpp Require Import base tactics list strings gmap option fin_maps.
From Stdlib Require Import ZArith Lia Ascii String.
Local Open Scope string_scope.
Local Open Scope list_scope.

Module Sensitive.

(** [sensitiveNamePattern]: the name ends, in any letter case, with a sensitive word
    and an optional "env". *)
Definition sensitive_words : list string :=
  ["password"; "secret"; "apikey"; "api_key"; "token"; "dsn"].
Definition sensitiveNamePattern (k : string) : bool :=
  existsb (fun w => has_suffix w (to_lower k) || has_suffix (w +:+ "env") (to_lower k)) sensitive_words.

Definition placeholder_open : string := String (chr 36) (String (chr 123) "").

(** One field: its name and value are acceptable. *)
Definition field_errs (full k : string) (v : json) : list string :=
  if sensitiveNamePattern k then
    (if has_suffix "Env" k then [] else [full])
    ++ (if has_suffix "Env" k then
          match v with
          | JStr s => if str_contains placeholder_open s then [full] else []
          | _ => []
          end
        else [])
  else [].

(** The walk over the document: the paths of the rejected fields. *)
Fixpoint walk (v : json) (path : string) : list string :=
  match v with
  | JObj m =>
      map_fold (fun k v acc => (field_errs (path +:+ "." +:+ k) k v ++ walk v (path +:+ "." +:+ k)) ++ acc) [] m
  | JArr l => List.concat (List.map (fun f => f.2 (Envsubst.path_index path f.1))
                            (combine (seq 0 (List.length l)) (List.map walk l)))
  | _ => []
  end.
Definition ValidateSensitiveFields (v : json) : list string := walk v "$".

(** A field of a document at any depth. *)
Inductive field : json -> string -> json -> Prop :=
| field_here m k v : m !! k = Some v -> field (JObj m) k v
| field_obj m k0 v0 k v : m !! k0 = Some v0 -> field v0 k v -> field (JObj m) k v
| field_arr l v0 k v : v0 ∈ l -> field v0 k v -> field (JArr l) k v.

(** The rule: a sensitive name carries the [Env] suffix, and its value, when a string,
    is not a reference. *)
Definition field_ok (k : string) (v : json) : Prop :=
  sensitiveNamePattern k = true ->
  has_suffix "Env" k = true /\ (forall s, v = JStr s -> str_contains placeholder_open s = false).

Lemma field_errs_ok full k v : field_errs full k v = [] <-> field_ok k v.
Proof.
  unfold field_errs, field_ok. destruct (sensitiveNamePattern k); [|done].
  destruct (has_suffix "Env" k); simpl.
  - split.
    + intros H _. split; [done|]. intros s ->. by destruct (str_contains _ s).
    + intros H. destruct v; try done. by rewrite (proj2 (H eq_refl) s eq_refl).
  - split; [done|]. intros H. by destruct (H eq_refl).
Qed.

Lemma walk_obj m path :
  walk (JObj m) path = [] <->
  (forall k x, m !! k = Some x -> field_ok k x /\ walk x (path +:+ "." +:+ k) = []).
Proof.
  simpl. induction m as [|k y m Hk Hf IH] using map_first_key_ind.
  - rewrite map_fold_empty. split; [intros _ k x Hx; done|done].
  - rewrite map_fold_insert_first_key by done. rewrite !app_nil, IH, field_errs_ok. split.
    + intros [Hy Hm] k' x [[<- <-]|[Hn Hx]]%lookup_insert_Some; [done|]. by apply Hm.
    + intros H. split; [apply H; by rewrite lookup_insert_eq|]. intros k' x Hx. apply H.
      rewrite lookup_insert_ne; [done|]. by intros <-; simplify_map_eq.
Qed.

Lemma walk_arr l path :
  walk (JArr l) path = [] <->
  (forall i x, l !! i = Some x -> walk x (Envsubst.path_index path i) = []).
Proof.
  simpl. assert (forall k, List.concat (List.map (fun f : nat * (string -> list string) => f.2 (Envsubst.path_index path f.1))
      (combine (seq k (List.length l)) (List.map walk l))) = []
    <-> (forall i x, l !! i = Some x -> walk x (Envsubst.path_index path (k + i)) = [])) as G; [|apply (G 0)].
  induction l as [|y l IH]; intros k; simpl.
  - split; [intros _ i x Hi; done|done].
  - rewrite app_nil, IH. split.
    + intros [Hy Hl] [|i] x Hi; simpl in Hi; simplify_eq.
      * by rewrite Nat.add_0_r.
      * replace (k + S i) with (S k + i) by lia. by apply Hl.
    + intros Hx. split.
      * specialize (Hx 0 y eq_refl). by rewrite Nat.add_0_r in Hx.
      * intros i x Hi. specialize (Hx (S i) x Hi). by replace (S k + i) with (k + S i) by lia.
Qed.

Lemma walk_nil v path : walk v path = [] <-> forall k x, field v k x -> field_ok k x.
Proof.
  revert path. induction v as [|b|n|s|l IH|m IH] using json_ind'; intros path.
  1-4: split; [intros _ k x Hs; inversion Hs|done].
  - rewrite walk_arr. rewrite Forall_forall in IH. split.
    + intros H k x Hs. inversion Hs as [| |? v0 ? ? Hin Hx]; subst.
      apply list_elem_of_lookup in Hin as Hi. destruct Hi as [i Hi].
      exact (proj1 (IH v0 Hin _) (H i v0 Hi) k x Hx).
    + intros H i x Hi. apply (IH x ltac:(by eapply list_elem_of_lookup_2)). intros k y Hs.
      apply H. eapply field_arr; [by eapply list_elem_of_lookup_2|done].
  - rewrite walk_obj. split.
    + intros H k x Hs. inversion Hs as [? ? ? Hk|? k0 v0 ? ? Hk Hx|]; subst; [by apply (H k x)|].
      exact (proj1 (IH k0 v0 Hk _) (proj2 (H k0 v0 Hk)) k x Hx).
    + intros H k x Hk. split; [apply H; by apply field_here|].
      apply (IH k x Hk). intros k' y Hs. apply H. by eapply field_obj.
Qed.

(** A document passes exactly when every field with a sensitive name, at any
    depth, has the [Env] suffix and no reference for a value. *)
Theorem ValidateSensitiveFields_spec v :
  ValidateSensitiveFields v = [] <-> forall k x, field v k x -> field_ok k x.
Proof. apply walk_nil. Qed.

(** The reference rule looks at a document after substitution, where no reference
    that has a value is left: the rejected form is accepted once its variable is set,
    and the substituted value takes the place of the variable's name. *)
Definition leaky_doc : json :=
  jobj [("passwordEnv", JStr (placeholder_open +:+ "DB_PASS" +:+ String (chr 125) ""))].
Theorem reference_rule_bypassed :
  ValidateSensitiveFields leaky_doc <> []
  /\ exists lookup resolved, Envsubst.Resolve lookup leaky_doc = (resolved, [])
       /\ ValidateSensitiveFields resolved = []
       /\ field resolved "passwordEnv" (JStr "hunter2").
Proof.
  split; [vm_compute; discriminate|].
  exists (fun n => if String.eqb n "DB_PASS" then Some "hunter2" else None), (jobj [("passwordEnv", JStr "hunter2")]).
  split; [vm_compute; reflexivity|]. split; [vm_compute; reflexivity|].
  apply field_here. vm_compute. reflexivity.
Qed.

Example sensitive_ex :
  List.map sensitiveNamePattern ["password"; "dbPasswordEnv"; "maxTokens"; "dsnUrl"; "API_KEY"; "tokens"]
  = [true; true; false; false; true; false].
Proof. vm_compute. reflexivity. Qed.
End Sensitive.

Module Envelope.

(** ** types.go *)
Record rawNode := mkRawNode {
  rn_ID : string;
  rn_Type : string;
  rn_Config : option json;
  rn_Retry : option json;
}.

Record rawWorkflow := mkRawWorkflow {
  rw_ID : string;
  rw_Version : Z;
  rw_Description : string;
  rw_RSAssistant : option json;
  rw_Trigger : string;
  rw_Nodes : list rawNode;
  rw_Connections : list RawConn;
}.

Definition dec_endpoint (v : option json) : option Endpoint :=
  m ← dec_struct v;
  n ← dec_str (m !! "node");
  p ← dec_str (m !! "port");
  Some (mkEndpoint n p).
Definition dec_conn (v : json) : option RawConn :=
  m ← dec_struct (Some v);
  f ← dec_endpoint (m !! "from");
  t ← dec_endpoint (m !! "to");
  Some (mkConn f t).
Definition dec_node (v : json) : option rawNode :=
  m ← dec_struct (Some v);
  id ← dec_str (m !! "id");
  ty ← dec_str (m !! "type");
  _ ← dec_str (m !! "name");
  _ ← dec_str (m !! "description");
  Some (mkRawNode id ty (m !! "config") (m !! "retry")).
Definition dec_workflow (v : json) : option rawWorkflow :=
  m ← dec_struct (Some v);
  _ ← dec_str (m !! "$schema");
  id ← dec_str (m !! "id");
  version ← dec_int (m !! "version");
  description ← dec_str (m !! "description");
  trigger ← dec_str (m !! "trigger");
  nodes ← dec_list dec_node (m !! "nodes");
  conns ← dec_list dec_conn (m !! "connections");
  Some (mkRawWorkflow id (default 0%Z version) description (m !! "rsassistant") trigger
          (default [] nodes) (default [] conns)).

(** ** schema.go *)
Inductive envelope_error :=
| EE_id | EE_version_required | EE_version (n : Z) | EE_trigger | EE_nodes | EE_connections
| EE_node_id (i : nat) | EE_node_duplicate (i : nat) (id : string) | EE_node_type (i : nat)
| EE_trigger_unknown (id : string)
| EE_conn_from (i : nat) | EE_conn_to (i : nat)
| EE_from_unknown (i : nat) (id : string) | EE_to_unknown (i : nat) (id : string).

Definition err_if {E} (b : bool) (e : E) : list E := if b then [e] else [].

(** The node loop, [seen] being the ids met so far. *)
Fixpoint check_nodes (i : nat) (seen : gset string) (l : list rawNode)
    : list envelope_error * gset string :=
  match l with
  | [] => ([], seen)
  | n :: l =>
      if str_empty (rn_ID n) then
        let '(errs, seen) := check_nodes (S i) seen l in (EE_node_id i :: errs, seen)
      else
        let dup := err_if (bool_decide (rn_ID n ∈ seen)) (EE_node_duplicate i (rn_ID n)) in
        let ty := err_if (str_empty (rn_Type n)) (EE_node_type i) in
        let '(errs, seen) := check_nodes (S i) ({[rn_ID n]} ∪ seen) l in
        (dup ++ ty ++ errs, seen)
  end.

Definition check_conn (seen : gset string) (i : nat) (c : RawConn) : list envelope_error :=
  let f := From_ c in
  let t := To_ c in
  err_if (str_empty (ep_node f) || str_empty (ep_port f)) (EE_conn_from i)
  ++ err_if (str_empty (ep_node t) || str_empty (ep_port t)) (EE_conn_to i)
  ++ err_if (negb (str_empty (ep_node f)) && negb (bool_decide (ep_node f ∈ seen))) (EE_from_unknown i (ep_node f))
  ++ err_if (negb (str_empty (ep_node t)) && negb (bool_decide (ep_node t ∈ seen))) (EE_to_unknown i (ep_node t)).

Definition validateEnvelope (w : rawWorkflow) : list envelope_error :=
  let '(node_errs, seen) := check_nodes 0 ∅ (rw_Nodes w) in
  err_if (str_empty (rw_ID w)) EE_id
  ++ err_if (rw_Version w =? 0)%Z EE_version_required
  ++ err_if (negb (rw_Version w =? 1)%Z) (EE_version (rw_Version w))
  ++ err_if (str_empty (rw_Trigger w)) EE_trigger
  ++ err_if (match rw_Nodes w with [] => true | _ => false end) EE_nodes
  ++ err_if (match rw_Connections w with [] => true | _ => false end) EE_connections
  ++ node_errs
  ++ err_if (negb (bool_decide (rw_Trigger w ∈ seen))) (EE_trigger_unknown (rw_Trigger w))
  ++ List.concat (imap (check_conn seen) (rw_Connections w)).

(** What an accepted envelope guarantees. *)
Record envelope_ok (w : rawWorkflow) : Prop := {
  eo_id : rw_ID w <> "";
  eo_version : rw_Version w = 1%Z;
  eo_nodup : NoDup (rn_ID <$> rw_Nodes w);
  eo_nodes : Forall (fun n => rn_ID n <> "" /\ rn_Type n <> "") (rw_Nodes w);
  eo_trigger : rw_Trigger w ∈ rn_ID <$> rw_Nodes w;
  eo_conns_ne : rw_Connections w <> [];
  eo_ports : Forall (fun c => ep_port (From_ c) <> "" /\ ep_port (To_ c) <> "") (rw_Connections w);
  eo_conns : conns_ok (rn_ID <$> rw_Nodes w) (rw_Connections w);
}.

Lemma err_if_nil {E} b (e : E) : err_if b e = [] <-> b = false.
Proof. by destruct b. Qed.

Lemma check_nodes_spec i seen l :
  (check_nodes i seen l).1 = [] <->
  NoDup (rn_ID <$> l) /\ Forall (fun n => rn_ID n <> "" /\ rn_Type n <> "") l
  /\ (forall n, n ∈ l -> rn_ID n ∉ seen).
Proof.
  revert i seen. induction l as [|n l IH]; intros i seen; simpl.
  - split; [|done]. intros _. split_and!; [constructor|constructor|intros n Hn; by apply elem_of_nil in Hn].
  - destruct (str_empty (rn_ID n)) eqn:Ei; to_prop.
    + destruct (check_nodes (S i) seen l). split; [done|]. intros (_ & Hf & _).
      apply Forall_cons in Hf as [[] _]. done.
    + specialize (IH (S i) ({[rn_ID n]} ∪ seen)).
      destruct (check_nodes (S i) ({[rn_ID n]} ∪ seen) l) as [errs seen']. simpl in *.
      rewrite !app_nil, !err_if_nil, bool_decide_eq_false, str_empty_false, IH.
      rewrite NoDup_cons, Forall_cons. split.
      * intros (H1 & H2 & H3 & H4 & H5). split_and!; try done.
        -- intros (x & Hx & Hin)%list_elem_of_fmap. apply (H5 x Hin). rewrite <- Hx. set_solver.
        -- intros x [->|Hx]%elem_of_cons; [done|]. specialize (H5 x Hx). set_solver.
      * intros ((H1 & H2) & (H3 & H4) & H5). split_and!; try done; try tauto.
        -- apply H5. set_solver.
        -- intros x Hx. apply not_elem_of_union. split; [|apply H5; set_solver].
           intros E%elem_of_singleton. apply H1. rewrite <- E. by apply list_elem_of_fmap_2.
Qed.

Lemma check_nodes_seen i seen l :
  Forall (fun n => rn_ID n <> "") l ->
  forall x, x ∈ (check_nodes i seen l).2 <-> x ∈ seen \/ x ∈ rn_ID <$> l.
Proof.
  intros Hl. revert i seen. induction Hl as [|n l Hn Hl IH]; intros i seen x; simpl.
  - set_solver.
  - destruct (str_empty (rn_ID n)) eqn:Ei; to_prop; [done|].
    specialize (IH (S i) ({[rn_ID n]} ∪ seen) x).
    destruct (check_nodes (S i) ({[rn_ID n]} ∪ seen) l) as [errs seen']. simpl in *. set_solver.
Qed.

Lemma concat_imap_nil {A E} (f : nat -> A -> list E) l :
  List.concat (imap f l) = [] <-> forall i x, l !! i = Some x -> f i x = [].
Proof.
  revert f. induction l as [|x l IH]; intros f; simpl; [split; [intros _ i y Hy; done|done]|].
  rewrite app_nil. rewrite (IH (fun i => f (S i))). split.
  - intros [H1 H2] [|i] y Hy; simpl in *; [by simplify_eq|by apply H2].
  - intros H. split; [by apply (H 0)|]. intros i y Hy. by apply (H (S i)).
Qed.

Lemma envelope_nil w : validateEnvelope w = [] <-> envelope_ok w.
Proof.
  unfold validateEnvelope.
  pose proof (check_nodes_spec 0 ∅ (rw_Nodes w)) as Hn.
  pose proof (check_nodes_seen 0 ∅ (rw_Nodes w)) as Hs.
  destruct (check_nodes 0 ∅ (rw_Nodes w)) as [errs seen]. simpl in *.
  rewrite !app_nil, !err_if_nil, Hn, concat_imap_nil, !str_empty_false, negb_false_iff, Z.eqb_eq,
    negb_false_iff, bool_decide_eq_true.
  assert (Forall (fun n => rn_ID n <> "") (rw_Nodes w) -> forall x, x ∈ seen <-> x ∈ rn_ID <$> rw_Nodes w) as Hs'.
  { intros Hf x. rewrite (Hs Hf). set_solver. }
  split.
  - intros (H1 & _ & H3 & H4 & H5 & H6 & (H7 & H8 & _) & H9 & H10).
    assert (Forall (fun n => rn_ID n <> "") (rw_Nodes w)) as Hf by (eapply Forall_impl; [exact H8|tauto]).
    specialize (Hs' Hf).
    assert (forall c, c ∈ rw_Connections w ->
      (ep_port (From_ c) <> "" /\ ep_port (To_ c) <> "") /\ (src c ∈ seen /\ dst c ∈ seen)) as Hc.
    { intros c [i Hi]%list_elem_of_lookup. specialize (H10 i c Hi). unfold check_conn in H10.
      rewrite !app_nil, !err_if_nil, !andb_false_iff, !negb_false_iff, !bool_decide_eq_true in H10.
      destruct H10 as (A & B & C & D). to_prop. unfold src, dst.
      destruct C as [C|C], D as [D|D]; to_prop; done. }
    split; try done.
    + by rewrite <- Hs'.
    + by destruct (rw_Connections w).
    + apply Forall_forall. intros c Hin. by apply Hc.
    + apply Forall_forall. intros c Hin. rewrite <- !Hs'. by apply Hc.
  - intros [A B C D E F G H].
    assert (Forall (fun n => rn_ID n <> "") (rw_Nodes w)) as Hf by (eapply Forall_impl; [exact D|tauto]).
    specialize (Hs' Hf). unfold conns_ok in H. rewrite Forall_forall in D. rewrite Forall_forall in G. rewrite Forall_forall in H.
    assert (forall x, x ∈ rn_ID <$> rw_Nodes w -> x <> "") as Hne.
    { intros x (n & -> & Hn')%list_elem_of_fmap. by apply D. }
    split_and!; try done.
    + rewrite B. done.
    + by apply Hne.
    + destruct (rw_Nodes w); [by apply elem_of_nil in E|done].
    + by destruct (rw_Connections w).
    + by apply Forall_forall.
    + by rewrite Hs'.
    + intros i c Hi. apply list_elem_of_lookup_2 in Hi. unfold check_conn.
      destruct (G c Hi) as [P1 P2]. destruct (H c Hi) as [M1 M2].
      pose proof (Hne _ M1). pose proof (Hne _ M2).
      unfold src, dst in *. rewrite <- Hs' in M1. rewrite <- Hs' in M2.
      rewrite !app_nil, !err_if_nil.
      rewrite !(proj2 (str_empty_false _)) by done. rewrite !bool_decide_eq_true_2 by done. done.
Qed.

(** The envelope check accepts exactly the documents whose ids are present and
    distinct, whose trigger is a node, and whose connections join declared nodes. *)
Theorem validateEnvelope_spec w : validateEnvelope w = [] <-> envelope_ok w.
Proof. apply envelope_nil. Qed.
End Envelope.
