(* ===== verification/Loader.v ===== *)
(** * The workflow load pipeline (validate.go, overrides.go and loader.go of
    pkg/workflow/engine/loader) *)

From S2P Require Import Prelude Json Scan Retry Template Topo Node Validate.
From stdpp Require Import base tactics list strings gmap option fin_maps.
From Stdlib Require Import ZArith Lia Ascii String.
Local Open Scope string_scope.
Local Open Scope list_scope.
Local Open Scope go_scope.
Import Envelope.

(** ** ValidateConnections *)

Definition portExists (ports : list PortSpec) (name : string) : bool :=
  existsb (fun p => String.eqb (port_Name p) name) ports.

(** [peerImplements]: the declared role decides; without one, the interface does. *)
Definition known_role (role : string) : bool :=
  mem_str role [RoleTrigger; RoleLLM; RoleMemory; RoleTool; RoleAgent; RolePolicy].
Definition peerImplements (n : Node) (role : string) : bool :=
  let declared := spec_Role (node_spec n) in
  if String.eqb declared role then true
  else if negb (str_empty declared) then false
  else known_role role && implements n role.

Inductive conn_error :=
| CE_unknown_dst (id : string)
| CE_unknown_src (id : string)
| CE_no_port (id port : string)
| CE_exactly_one (id port : string) (n : nat)
| CE_at_most_one (id port : string) (n : nat)
| CE_unwired (id port : string)
| CE_role (id port role : string).

Section Connections.
Variable nodes : gmap string Node.

(** The first loop's checks on one connection. *)
Definition conn_errs (c : RawConn) : list conn_error :=
  match nodes !! dst c with
  | None => [CE_unknown_dst (dst c)]
  | Some d =>
      match nodes !! src c with
      | None => [CE_unknown_src (src c)]
      | Some _ =>
          if portExists (InputPorts (node_spec d)) (ep_port (To_ c)) then []
          else [CE_no_port (dst c) (ep_port (To_ c))]
      end
  end.

(** [incoming[id][port]]: the source nodes of the connections that passed. *)
Definition incoming (conns : list RawConn) (id port : string) : list Node :=
  omap (fun c =>
    match conn_errs c with
    | [] => if String.eqb (dst c) id && String.eqb (ep_port (To_ c)) port
            then nodes !! src c else None
    | _ => None
    end) conns.

(** The second loop's checks on one input port. *)
Definition port_errs (conns : list RawConn) (id : string) (p : PortSpec) : list conn_error :=
  let peers := incoming conns id (port_Name p) in
  let cnt := List.length peers in
  (match port_Cardinality p with
   | CardOne =>
       if negb (cnt =? 1)%nat && (port_Required p || (1 <? cnt)%nat)
       then [CE_exactly_one id (port_Name p) cnt] else []
   | CardZeroOrOne => if (1 <? cnt)%nat then [CE_at_most_one id (port_Name p) cnt] else []
   | CardZeroOrMany => []
   end)
  ++ (if port_Required p && (cnt =? 0)%nat then [CE_unwired id (port_Name p)] else [])
  ++ (if str_empty (port_PeerRole p) then []
      else List.concat (List.map (fun peer =>
             if peerImplements peer (port_PeerRole p) then []
             else [CE_role id (port_Name p) (port_PeerRole p)]) peers)).

Definition node_errs (conns : list RawConn) (kv : string * Node) : list conn_error :=
  List.concat (List.map (port_errs conns kv.1) (InputPorts (node_spec kv.2))).

Definition ValidateConnections (conns : list RawConn) : list conn_error :=
  List.concat (List.map conn_errs conns) ++ List.concat (List.map (node_errs conns) (map_to_list nodes)).

(** What a validated connection list guarantees for one port. *)
Definition port_ok (conns : list RawConn) (id : string) (p : PortSpec) : Prop :=
  let peers := incoming conns id (port_Name p) in
  (port_Required p = true -> peers <> [])
  /\ (port_Cardinality p <> CardZeroOrMany -> List.length peers <= 1)
  /\ (port_PeerRole p <> "" -> Forall (fun n => peerImplements n (port_PeerRole p) = true) peers).

Lemma port_errs_nil conns id p : port_errs conns id p = [] <-> port_ok conns id p.
Proof.
  unfold port_errs, port_ok. set (peers := incoming conns id (port_Name p)).
  rewrite !app_nil.
  assert (List.concat (List.map (fun peer => if peerImplements peer (port_PeerRole p) then []
            else [CE_role id (port_Name p) (port_PeerRole p)]) peers) = []
          <-> Forall (fun n => peerImplements n (port_PeerRole p) = true) peers) as Hr.
  { clearbody peers. induction peers as [|x l IH]; simpl; [by split|].
    rewrite app_nil, Forall_cons, IH.
    destruct (peerImplements x (port_PeerRole p)); split; intros [? ?]; done. }
  assert ((if str_empty (port_PeerRole p) then []
           else List.concat (List.map (fun peer => if peerImplements peer (port_PeerRole p) then []
             else [CE_role id (port_Name p) (port_PeerRole p)]) peers)) = []
          <-> (port_PeerRole p <> "" -> Forall (fun n => peerImplements n (port_PeerRole p) = true) peers)) as ->.
  { destruct (str_empty (port_PeerRole p)) eqn:E; to_prop; [by split|]. rewrite Hr. split; auto. }
  clear Hr. destruct (port_Cardinality p), (port_Required p), peers as [|x [|y l]]; simpl;
    (split; [intros (? & ? & ?); try discriminate | intros (H1 & H2 & ?)]);
    repeat split; auto; try (intros; discriminate); try lia;
    first [ by destruct H1; auto | specialize (H2 ltac:(discriminate)); lia | by intros [] | idtac ].
Qed.

Lemma concat_map_nil {A E} (f : A -> list E) l :
  List.concat (List.map f l) = [] <-> forall x, x ∈ l -> f x = [].
Proof.
  induction l as [|x l IH]; simpl; [split; [intros _ y Hy; by apply elem_of_nil in Hy|done]|].
  rewrite app_nil, IH. set_solver.
Qed.

Lemma connections_nil conns :
  ValidateConnections conns = [] <->
  (forall c, c ∈ conns -> exists s d, nodes !! src c = Some s /\ nodes !! dst c = Some d
     /\ portExists (InputPorts (node_spec d)) (ep_port (To_ c)) = true)
  /\ (forall id n p, nodes !! id = Some n -> p ∈ InputPorts (node_spec n) -> port_ok conns id p).
Proof.
  unfold ValidateConnections. rewrite app_nil, !concat_map_nil.
  assert (forall c, conn_errs c = [] <-> exists s d, nodes !! src c = Some s /\ nodes !! dst c = Some d
     /\ portExists (InputPorts (node_spec d)) (ep_port (To_ c)) = true) as Hc.
  { intros c. unfold conn_errs. destruct (nodes !! dst c) as [d|].
    2:{ split; [done|]. intros (s & d & _ & ? & _). done. }
    destruct (nodes !! src c) as [s|].
    2:{ split; [done|]. intros (s & d' & ? & _ & _). done. }
    destruct (portExists _ _) eqn:E; split; try done; [by exists s, d|].
    intros (s' & d' & _ & [= <-] & ?). congruence. }
  split; intros [H1 H2]; split.
  - intros c Hin. by apply Hc, H1.
  - intros id n p Hn Hp. specialize (H2 (id, n) ltac:(by apply elem_of_map_to_list)).
    unfold node_errs in H2. rewrite concat_map_nil in H2. by apply port_errs_nil, H2.
  - intros c Hin. by apply Hc, H1.
  - intros [id n] Hn. apply elem_of_map_to_list in Hn. unfold node_errs. apply concat_map_nil.
    intros p Hp. apply port_errs_nil. by eapply H2.
Qed.

(** Connection validation passes exactly when every connection joins two known
    nodes at an existing input port, and every input port of every node has the peers
    its required flag, cardinality and peer role demand. *)
Theorem ValidateConnections_spec conns :
  ValidateConnections conns = [] <->
  (forall c, c ∈ conns -> exists s d, nodes !! src c = Some s /\ nodes !! dst c = Some d
     /\ portExists (InputPorts (node_spec d)) (ep_port (To_ c)) = true)
  /\ (forall id n p, nodes !! id = Some n -> p ∈ InputPorts (node_spec n) -> port_ok conns id p).
Proof. apply connections_nil. Qed.

(** [makePeerResolver]; validated connections start at known nodes, a missing one would
    be a nil node. *)
Definition nil_peer (id : string) : Peer := mkPeer id (fun _ => false).
Definition makePeerResolver (forNode : string) (conns : list RawConn) (port : string) : list Peer :=
  omap (fun c => if String.eqb (dst c) forNode && String.eqb (ep_port (To_ c)) port
                 then Some (from_option (as_peer (src c)) (nil_peer (src c)) (nodes !! src c)) else None) conns.
End Connections.

(** ** Retry blocks, templates, overrides *)

Inductive load_error :=
| LE_parse
| LE_env (errs : list (string * string))
| LE_sensitive (errs : list string)
| LE_decode
| LE_envelope (errs : list envelope_error)
| LE_unknown_type (id type : string)
| LE_factory (id cause : string)
| LE_retry_missing (id : string)
| LE_retry_role (id role : string)
| LE_retry_parse (id : string) (e : policy_error)
| LE_templates (id placeholder : string)
| LE_connections (errs : list conn_error)
| LE_cycle
| LE_init (id cause : string)
| LE_trigger (id : string).

Definition retry_roles : list string := [RoleTool; RoleAgent; RoleLLM].

(** One step of [parseRetryByNode]. *)
Definition add_retry (instances : gmap string Node) (out : gmap string Policy) (n : rawNode)
    : res load_error (gmap string Policy) :=
  match rn_Retry n with
  | None => Ok out
  | Some raw =>
      match instances !! rn_ID n with
      | None => Err (LE_retry_missing (rn_ID n))
      | Some inst =>
          if mem_str (spec_Role (node_spec inst)) retry_roles then
            match ParsePolicy (Some raw) with
            | Err e => Err (LE_retry_parse (rn_ID n) e)
            | Ok None => Ok out
            | Ok (Some p) => Ok (<[rn_ID n := p]> out)
            end
          else Err (LE_retry_role (rn_ID n) (spec_Role (node_spec inst)))
      end
  end.
Definition parseRetryByNode (raws : list rawNode) (instances : gmap string Node)
    : res load_error (gmap string Policy) :=
  fold_res (add_retry instances) ∅ raws.

Section Load.
(** The renderer's placeholder check, the environment, the registry and the optional
    prompt store ([Latest]: workflow, node, field; an error, nothing, or a content). *)
Variable validate_template : string -> option string.
Variable lookupEnv : string -> option string.
Variable registry : Registry.
Variable hosts : gmap string Host.
Variable prompts : option (string -> string -> string -> res string (option string)).

(** [validateAllowedTemplates]: the first field with an unknown placeholder. *)
Fixpoint template_errs (m : gmap string json) (allowed : list string) : option string :=
  match allowed with
  | [] => None
  | f :: allowed =>
      match m !! f with
      | Some (JStr s) => match validate_template s with
                         | Some e => Some e
                         | None => template_errs m allowed
                         end
      | _ => template_errs m allowed
      end
  end.
Definition validateAllowedTemplates (raw : option json) (allowed : list string) : option string :=
  match raw with
  | Some (JObj m) => template_errs m allowed
  | _ => None
  end.

(** One field of [applyOverrides]: the usable stored value, if there is one. *)
Definition override_value (latest : string -> string -> string -> res string (option string))
    (wf id field : string) : option string :=
  match latest wf id field with
  | Err _ | Ok None => None
  | Ok (Some content) =>
      match Envsubst.string_errs lookupEnv content with
      | [] => let v := Envsubst.resolve_string lookupEnv content in
              match validate_template v with None => Some v | Some _ => None end
      | _ => None
      end
  end.

Definition patch_config latest (wf id : string) (fields : list string) (cfg : gmap string json)
    : gmap string json * bool :=
  foldl (fun st field =>
    match override_value latest wf id field with
    | Some v => (<[field := JStr v]> st.1, true)
    | None => st
    end) (cfg, false) fields.

Definition applyOverrides (wf : string) (raw : rawNode) (instance : Node) : Node :=
  match prompts, OverridableFields (node_spec instance) with
  | None, _ | _, [] => instance
  | Some latest, fields =>
      match rn_Config raw with
      | None | Some (JObj _) | Some JNull =>
          let cfg := as_obj (rn_Config raw) in
          let '(cfg, changed) := patch_config latest wf (rn_ID raw) fields cfg in
          if changed then
            match registry !! rn_Type raw with
            | Some f => match f (Some (JObj cfg)) with Ok rebuilt => rebuilt | Err _ => instance end
            | None => instance
            end
          else instance
      | _ => instance
      end
  end.

(** Step 6: one node instance. *)
Definition build_node (wf : string) (nodes : gmap string Node) (n : rawNode)
    : res load_error (gmap string Node) :=
  match registry !! rn_Type n with
  | None => Err (LE_unknown_type (rn_ID n) (rn_Type n))
  | Some f =>
      match f (rn_Config n) with
      | Err cause => Err (LE_factory (rn_ID n) cause)
      | Ok inst => Ok (<[rn_ID n := applyOverrides wf n inst]> nodes)
      end
  end.

(** Step 7. *)
Definition check_templates (nodes : gmap string Node) (n : rawNode) : option load_error :=
  match nodes !! rn_ID n with
  | None => None
  | Some inst =>
      match validateAllowedTemplates (rn_Config n) (AllowedTemplates (node_spec inst)) with
      | Some e => Some (LE_templates (rn_ID n) e)
      | None => None
      end
  end.

(** Step 10. *)
Definition envForNode (wf : string) (retry : gmap string Policy) (nodes : gmap string Node) (conns : list RawConn) (id : string) : Env.NodeEnv :=
  Env.setPeerResolver (makePeerResolver nodes id conns) (Env.newNodeEnv wf id hosts lookupEnv (retry !! id)).
Definition init_node (wf : string) (retry : gmap string Policy) (nodes : gmap string Node) (conns : list RawConn) (id : string)
    : option load_error :=
  match nodes !! id with
  | None => None
  | Some n => match Init n (envForNode wf retry nodes conns id) with
              | Some cause => Some (LE_init id cause)
              | None => None
              end
  end.

Record LoadResult := mkLoadResult {
  lr_ID : string;
  lr_Description : string;
  lr_RSAssistant : option json;
  lr_Trigger : string;              (* the trigger node's id *)
  lr_Nodes : gmap string Node;
  lr_TopoOrder : list string;
  lr_Connections : list RawConn;
  lr_RetryByNode : gmap string Policy;
  lr_RawConfigs : gmap string (option json);
}.

(** [LoadOne]; the document is [None] when it is not JSON.  The nodes are enumerated
    in document order wherever the source ranges over the node map. *)
Definition LoadOne (raw : option json) : res load_error LoadResult :=
  match raw with
  | None => Err LE_parse
  | Some anyDoc =>
      let '(resolved, resolveErrs) := Envsubst.Resolve lookupEnv anyDoc in
      match resolveErrs with _ :: _ => Err (LE_env resolveErrs) | [] =>
      match Sensitive.ValidateSensitiveFields resolved with e :: es => Err (LE_sensitive (e :: es)) | [] =>
      match dec_workflow resolved with None => Err LE_decode | Some w =>
      match validateEnvelope w with e :: es => Err (LE_envelope (e :: es)) | [] =>
      let! nodes := fold_res (build_node (rw_ID w)) ∅ (rw_Nodes w) in
      let rawConfigs := list_to_map (List.map (fun n => (rn_ID n, rn_Config n)) (rw_Nodes w)) in
      let! retryByNode := parseRetryByNode (rw_Nodes w) nodes in
      let! _ := first_error (check_templates nodes) (rw_Nodes w) in
      let conns := rw_Connections w in
      match ValidateConnections nodes conns with e :: es => Err (LE_connections (e :: es)) | [] =>
      match TopoOrder (rn_ID <$> rw_Nodes w) conns with None => Err LE_cycle | Some order =>
      let! _ := first_error (init_node (rw_ID w) retryByNode nodes conns) order in
      match nodes !! rw_Trigger w with
      | Some t =>
          if implements t RoleTrigger then
            Ok (mkLoadResult (rw_ID w) (rw_Description w) (rw_RSAssistant w) (rw_Trigger w)
                  nodes order conns retryByNode rawConfigs)
          else Err (LE_trigger (rw_Trigger w))
      | None => Err (LE_trigger (rw_Trigger w))
      end
      end end end end end end
  end.

(** ** Properties *)

Lemma patch_config_spec latest wf id fields cfg :
  let '(cfg', changed) := patch_config latest wf id fields cfg in
  (forall k, cfg' !! k =
     match (if mem_str k fields then override_value latest wf id k else None) with
     | Some v => Some (JStr v)
     | None => cfg !! k
     end)
  /\ (changed = false -> cfg' = cfg).
Proof.
  unfold patch_config. induction fields as [|field fields IH] using rev_ind; simpl; [by split|].
  rewrite foldl_snoc. destruct (foldl _ (cfg, false) fields) as [cfg' changed]. destruct IH as [IH1 IH2]. simpl.
  assert (forall k, mem_str k (fields ++ [field]) = mem_str k fields || String.eqb k field) as Hm.
  { intros k. unfold mem_str. rewrite existsb_app. simpl. by rewrite orb_false_r. }
  destruct (override_value latest wf id field) as [v|] eqn:Ev.
  - split; [|done]. intros k. rewrite Hm. destruct (String.eqb_spec k field) as [->|Hne].
    + by rewrite orb_true_r, Ev, lookup_insert_eq.
    + by rewrite orb_false_r, lookup_insert_ne.
  - split; [|done]. intros k. rewrite Hm, IH1.
    destruct (String.eqb_spec k field) as [->|Hne]; [|by rewrite orb_false_r].
    rewrite orb_true_r, Ev. by destruct (mem_str field fields).
Qed.

(** A stored prompt never breaks a load: the node an override pass yields is the
    one built from the file, or the one its factory builds from the same config in
    which only overridable fields changed, each to the stored text with its references
    resolved and its placeholders checked. *)
Theorem applyOverrides_spec wf raw inst :
  applyOverrides wf raw inst = inst
  \/ exists latest f cfg,
       prompts = Some latest /\ registry !! rn_Type raw = Some f
       /\ f (Some (JObj cfg)) = Ok (applyOverrides wf raw inst)
       /\ (forall k, cfg !! k = as_obj (rn_Config raw) !! k
            \/ (k ∈ OverridableFields (node_spec inst) /\ exists stored v,
                 latest wf (rn_ID raw) k = Ok (Some stored) /\ cfg !! k = Some (JStr v)
                 /\ Envsubst.Resolve lookupEnv (JStr stored) = (JStr v, [])
                 /\ validate_template v = None)).
Proof.
  unfold applyOverrides. destruct prompts as [latest|]; [|by left].
  destruct (OverridableFields (node_spec inst)) as [|fd fds]; [by left|].
  set (fields := fd :: fds).
  pose proof (patch_config_spec latest wf (rn_ID raw) fields (as_obj (rn_Config raw))) as Hp.
  destruct (patch_config _ _ _ _ _) as [cfg changed]. destruct Hp as [Hp _].
  assert (forall e, (if changed then match registry !! rn_Type raw with
            | Some f => match f (Some (JObj cfg)) with Ok rebuilt => rebuilt | Err _ => e end
            | None => e end else e) = e
     \/ exists f, registry !! rn_Type raw = Some f /\ f (Some (JObj cfg)) =
          Ok (if changed then match registry !! rn_Type raw with
            | Some f => match f (Some (JObj cfg)) with Ok rebuilt => rebuilt | Err _ => e end
            | None => e end else e)) as Hc.
  { intros e. destruct changed; [|by left]. destruct (registry !! rn_Type raw) as [f|]; [|by left].
    destruct (f (Some (JObj cfg))) eqn:E; [right; by exists f|by left]. }
  specialize (Hc inst).
  destruct (rn_Config raw) as [[]|]; try (by left); (destruct Hc as [Hc|(f & Hf & Hn)]; [by left|right]);
  exists latest, f, cfg; split_and!; try done; intros k; rewrite Hp;
  (destruct (mem_str k fields) eqn:Hk; [|by left]; to_prop;
   destruct (override_value latest wf (rn_ID raw) k) as [v|] eqn:Ev; [right|by left];
   split; [done|]; unfold override_value in Ev;
   destruct (latest wf (rn_ID raw) k) as [[stored|]|] eqn:El; try done;
   destruct (Envsubst.string_errs lookupEnv stored) eqn:Es; try done;
   destruct (validate_template _) eqn:Et; [done|]; injection Ev as <-;
   exists stored, (Envsubst.resolve_string lookupEnv stored); split_and!; try done;
   unfold Envsubst.Resolve; simpl; by rewrite Es).
Qed.

(** What the factories must give for the declared nodes. *)
Definition built (wf : string) (nodes : gmap string Node) (n : rawNode) : Prop :=
  exists f inst, registry !! rn_Type n = Some f /\ f (rn_Config n) = Ok inst
    /\ nodes !! rn_ID n = Some (applyOverrides wf n inst).

Lemma build_nodes_spec wf raws nodes :
  NoDup (rn_ID <$> raws) ->
  fold_res (build_node wf) ∅ raws = Ok nodes ->
  (forall id, is_Some (nodes !! id) <-> id ∈ rn_ID <$> raws)
  /\ Forall (built wf nodes) raws.
Proof.
  intros Hnd H. revert Hnd.
  apply (fold_res_ind (fun pre nodes => NoDup (rn_ID <$> pre) ->
    (forall id, is_Some (nodes !! id) <-> id ∈ rn_ID <$> pre) /\ Forall (built wf nodes) pre)
    (build_node wf) ∅ raws nodes); [..|done].
  - intros _. split; [|constructor]. intros id. rewrite lookup_empty. simpl. rewrite elem_of_nil.
    split; [by intros [? ?]|done].
  - intros pre n a1 a2 IH Hs Hnd. rewrite fmap_app in *.
    apply NoDup_app in Hnd as (Hnd & Hnot & _). destruct (IH Hnd) as [IH1 IH2].
    unfold build_node in Hs. destruct (registry !! rn_Type n) as [f|] eqn:Ef; [|done].
    destruct (f (rn_Config n)) as [inst|] eqn:Ei; [|done]. injection Hs as <-. split.
    + intros id. rewrite elem_of_app. simpl. rewrite list_elem_of_singleton, <- IH1.
      destruct (decide (id = rn_ID n)) as [->|Hne].
      * rewrite lookup_insert_eq. split; [by right|by eexists].
      * rewrite lookup_insert_ne by done. split; [by left|by intros [?|?]].
    + apply Forall_app. split.
      * apply Forall_forall. intros x Hx. rewrite Forall_forall in IH2.
        destruct (IH2 x Hx) as (g & i & H1 & H2 & H3).
        exists g, i. split_and!; try done. rewrite lookup_insert_ne; [done|].
        intros E. apply (Hnot (rn_ID n)); [|by left]. rewrite E. by apply list_elem_of_fmap_2.
      * constructor; [|constructor]. exists f, inst. by rewrite lookup_insert_eq.
Qed.

Lemma parseRetryByNode_spec raws nodes out :
  parseRetryByNode raws nodes = Ok out ->
  forall id p, out !! id = Some p -> exists n inst raw,
    n ∈ raws /\ rn_ID n = id /\ nodes !! id = Some inst
    /\ spec_Role (node_spec inst) ∈ retry_roles
    /\ rn_Retry n = Some raw /\ ParsePolicy (Some raw) = Ok (Some p).
Proof.
  unfold parseRetryByNode. intros H.
  refine (fold_res_ind (fun pre out => forall id p, out !! id = Some p -> exists n inst raw,
    n ∈ pre /\ rn_ID n = id /\ nodes !! id = Some inst
    /\ spec_Role (node_spec inst) ∈ retry_roles
    /\ rn_Retry n = Some raw /\ ParsePolicy (Some raw) = Ok (Some p))
    (add_retry nodes) ∅ raws out _ _ H); [intros id p Hp; by rewrite lookup_empty in Hp|].
  intros pre n a1 a2 IH Hs.
  assert (forall id p, a1 !! id = Some p -> exists n' inst raw,
    n' ∈ pre ++ [n] /\ rn_ID n' = id /\ nodes !! id = Some inst
    /\ spec_Role (node_spec inst) ∈ retry_roles
    /\ rn_Retry n' = Some raw /\ ParsePolicy (Some raw) = Ok (Some p)) as Hold.
  { intros id p Hp. destruct (IH id p Hp) as (n' & inst & raw & Hin & Hrest).
    exists n', inst, raw. split; [apply elem_of_app; by left|done]. }
  unfold add_retry in Hs. destruct (rn_Retry n) as [raw|] eqn:Er; [|by simplify_eq].
  destruct (nodes !! rn_ID n) as [inst|] eqn:En; [|done].
  destruct (mem_str _ retry_roles) eqn:Em; [|done].
  destruct (ParsePolicy (Some raw)) as [[pol|]|] eqn:Ep; [|by simplify_eq|done].
  injection Hs as <-. intros id p. rewrite lookup_insert. case_decide; [|by apply Hold].
  subst id. intros [= <-]. exists n, inst, raw. to_prop. split_and!; try done.
  apply elem_of_app. right. by left.
Qed.

(** What a loaded workflow guarantees of the document it came from. *)
Record loaded_ok (doc : json) (w : rawWorkflow) (r : LoadResult) : Prop := {
  lo_env : forall s, Envsubst.leaf doc s -> Envsubst.string_errs lookupEnv s = [];
  lo_sensitive : forall k x, Sensitive.field (Envsubst.Resolve lookupEnv doc).1 k x -> Sensitive.field_ok k x;
  lo_decode : dec_workflow (Envsubst.Resolve lookupEnv doc).1 = Some w;
  lo_envelope : envelope_ok w;
  lo_domain : forall id, is_Some (lr_Nodes r !! id) <-> id ∈ rn_ID <$> rw_Nodes w;
  lo_built : Forall (built (rw_ID w) (lr_Nodes r)) (rw_Nodes w);
  lo_conns : lr_Connections r = rw_Connections w;
  lo_ports : forall id n p, lr_Nodes r !! id = Some n -> p ∈ InputPorts (node_spec n) ->
               port_ok (lr_Nodes r) (rw_Connections w) id p;
  lo_endpoints : forall c, c ∈ rw_Connections w -> exists s d,
               lr_Nodes r !! src c = Some s /\ lr_Nodes r !! dst c = Some d
               /\ portExists (InputPorts (node_spec d)) (ep_port (To_ c)) = true;
  lo_order : lr_TopoOrder r ≡ₚ rn_ID <$> rw_Nodes w;
  lo_before : forall c, c ∈ rw_Connections w -> exists o1 o2,
               lr_TopoOrder r = o1 ++ dst c :: o2 /\ src c ∈ o1;
  lo_retry : forall id p, lr_RetryByNode r !! id = Some p ->
               policy_wf p /\ exists n, lr_Nodes r !! id = Some n
               /\ spec_Role (node_spec n) ∈ retry_roles;
  lo_init : forall id n, lr_Nodes r !! id = Some n ->
               Init n (envForNode (rw_ID w) (lr_RetryByNode r) (lr_Nodes r) (rw_Connections w) id) = None;
  lo_trigger : lr_Trigger r = rw_Trigger w /\ exists t,
               lr_Nodes r !! rw_Trigger w = Some t /\ implements t RoleTrigger = true;
}.

Lemma load_one_loaded doc r :
  LoadOne (Some doc) = Ok r -> exists w, loaded_ok doc w r.
Proof.
  unfold LoadOne. intros H.
  pose proof (Envsubst.resolve_errs_nil lookupEnv doc "$") as Henv.
  unfold Envsubst.Resolve in H. set (resolved := Envsubst.resolve_value lookupEnv doc) in H.
  destruct (Envsubst.resolve_errs lookupEnv doc "$"); [|done].
  pose proof (Sensitive.walk_nil resolved "$") as Hsens.
  unfold Sensitive.ValidateSensitiveFields in H.
  destruct (Sensitive.walk resolved "$"); [|done].
  destruct (dec_workflow resolved) as [w|] eqn:Ed; [|done]. exists w.
  destruct (validateEnvelope w) eqn:Ee; [|done]. apply envelope_nil in Ee.
  destruct (fold_res (build_node (rw_ID w)) ∅ (rw_Nodes w)) as [nodes|] eqn:En; [|done].
  cbn [res_bind] in H.
  destruct (build_nodes_spec _ _ _ (eo_nodup _ Ee) En) as [Hdom Hbuilt].
  destruct (parseRetryByNode (rw_Nodes w) nodes) as [retry|] eqn:Ep; [|done]. cbn [res_bind] in H.
  destruct (first_error (check_templates nodes) (rw_Nodes w)) eqn:Et; [|done]. cbn [res_bind] in H.
  destruct (ValidateConnections nodes (rw_Connections w)) eqn:Ec; [|done].
  apply connections_nil in Ec as [Hends Hports].
  destruct (TopoOrder _ _) as [order|] eqn:Eo; [|done].
  destruct (topo_order_sound _ _ _ (eo_nodup _ Ee) (eo_conns _ Ee) Eo) as [Hperm Hbefore].
  destruct (first_error (init_node _ _ nodes _) order) as [[]|] eqn:Ei; [|done]. cbn [res_bind] in H.
  destruct (nodes !! rw_Trigger w) as [t|] eqn:Etr; [|done].
  destruct (implements t RoleTrigger) eqn:Eim; [|done]. injection H as <-.
  split; simpl; try done.
  - by apply Henv.
  - by apply Hsens.
  - intros id p Hp. destruct (parseRetryByNode_spec _ _ _ Ep id p Hp)
      as (n & inst & raw & _ & _ & Hi & Hrole & _ & Hpol).
    split; [by eapply parse_policy_wf|by exists inst].
  - intros id n Hn. rewrite first_error_ok in Ei. specialize (Ei id).
    rewrite Hperm, <- Hdom in Ei. specialize (Ei ltac:(by eexists)).
    unfold init_node in Ei. rewrite Hn in Ei. by destruct (Init n _).
  - split; [done|]. by exists t.
Qed.
(** C12: A workflow that loads is sound: its references resolve; of the resolved document
    every field with a sensitive name, at any depth, has a name that ends in Env and a
    value without a reference - a rule on names that a reference which brings in a secret
    passes, [Sensitive.reference_rule_bypassed]; its envelope and wiring are valid, its
    nodes are the declared ones, each built by its factory and initialised after every
    node it depends on, its retry policies are in range and on nodes that may retry, and
    its trigger is one. *)
Theorem LoadOne_sound doc r :
  LoadOne (Some doc) = Ok r -> exists w, loaded_ok doc w r.
Proof. apply load_one_loaded. Qed.
End Load.

(** ** A concrete workflow *)
Definition demo_node (ty role : string) (ports : list PortSpec) : Node :=
  mkNode (mkSpec ty role ports ["systemPrompt"] ["systemPrompt"]) (String.eqb role) None None (fun _ => None) None.
Definition demo_agent_ports : list PortSpec :=
  [mkPort PortMain CardOne true ""; mkPort PortAILanguageModel CardOne true RoleLLM;
   mkPort PortAITool CardZeroOrMany false RoleTool].
Definition demo_registry : Registry := list_to_map
  [("http", fun _ => Ok (demo_node "http" RoleTrigger []));
   ("llm", fun _ => Ok (demo_node "llm" RoleLLM []));
   ("tool", fun _ => Ok (demo_node "tool" RoleTool []));
   ("agent", fun cfg => match as_obj cfg !! "systemPrompt" with
                        | Some (JStr _) => Ok (demo_node "agent" RoleAgent demo_agent_ports)
                        | _ => Err "systemPrompt is required"
                        end)].
Definition demo_end (n p : string) : json := jobj [("node", JStr n); ("port", JStr p)].
Definition demo_wire (a b p : string) : json := jobj [("from", demo_end a "out"); ("to", demo_end b p)].
Definition demo_raw_node (id ty : string) (more : list (string * json)) : json :=
  jobj ([("id", JStr id); ("type", JStr ty)] ++ more).
Definition demo_doc (wires : list json) : json :=
  jobj [("id", JStr "wf"); ("version", JNum 1); ("trigger", JStr "t");
        ("nodes", JArr
          [demo_raw_node "a" "agent" [("config", jobj [("systemPrompt", JStr "serve ${TENANT}")])];
           demo_raw_node "m" "llm" [("retry", jobj [("maxAttempts", JNum 3)])];
           demo_raw_node "q" "tool" []; demo_raw_node "t" "http" []]);
        ("connections", JArr wires)].
Definition demo_wires : list json :=
  [demo_wire "t" "a" PortMain; demo_wire "m" "a" PortAILanguageModel; demo_wire "q" "a" PortAITool].
Definition demo_lookup (n : string) : option string :=
  if String.eqb n "TENANT" then Some "acme" else None.
Definition demo_prompts (wf id field : string) : res string (option string) :=
  if String.eqb id "a" then Ok (Some "stored for ${TENANT}") else Ok None.
Definition demo_load (wires : list json) : res load_error LoadResult :=
  LoadOne (fun _ => None) demo_lookup demo_registry ∅ (Some demo_prompts) (Some (demo_doc wires)).

Example LoadOne_ex :
  match demo_load demo_wires with Ok r => lr_TopoOrder r | Err _ => [] end = ["m"; "q"; "t"; "a"]
  /\ demo_load (demo_wires ++ [demo_wire "q" "m" PortAITool]) =
       Err (LE_connections [CE_no_port "m" PortAITool])
  /\ demo_load (List.tl demo_wires) =
       Err (LE_connections [CE_exactly_one "a" PortMain 0; CE_unwired "a" PortMain])
  /\ demo_load (demo_wires ++ [demo_wire "t" "a" PortAITool]) =
       Err (LE_connections [CE_role "a" PortAITool RoleTool]).
Proof. vm_compute. split_and!; reflexivity. Qed.

Lemma LoadOne_sound_witness : exists r w,
  demo_load demo_wires = Ok r
  /\ loaded_ok (fun _ => None) demo_lookup demo_registry ∅ (Some demo_prompts) (demo_doc demo_wires) w r.
Proof.
  destruct (demo_load demo_wires) as [r|e] eqn:E.
  - destruct (LoadOne_sound (fun _ => None) demo_lookup demo_registry ∅ (Some demo_prompts)
      (demo_doc demo_wires) r E) as [w Hw]. exists r, w. split; [reflexivity|exact Hw].
  - assert (is_ok (demo_load demo_wires) = true) as H by (vm_compute; reflexivity).
    rewrite E in H. discriminate H.
Defined.
