(* ===== verification/Engine.v ===== *)
(** * The engine (pkg/workflow/engine: engine.go, indexaccess.go, source.go)

    Two-pass loading with derived workflows, registration, the identity function that
    guards a workflow's index, hot prompt updates and shutdown. *)

From S2P Require Import Prelude Json Derive Topo Node Validate Loader.
From stdpp Require Import base tactics list strings gmap option fin_maps.
From Stdlib Require Import ZArith Lia Ascii String.
Local Open Scope string_scope.
Local Open Scope list_scope.
Local Open Scope go_scope.

(** ** executor/workflow.go: one loaded workflow *)

(** [ConnKey] is (destination node, destination port), [ConnRef] (source node, source port). *)
Abbreviation ConnMap := (gmap (string * string) (list (string * string))).

Definition refs_of (conns : ConnMap) (k : string * string) : list (string * string) :=
  default [] (conns !! k).

Definition add_ref (m : ConnMap) (c : RawConn) : ConnMap :=
  let k := (dst c, ep_port (To_ c)) in
  <[k := refs_of m k ++ [(src c, ep_port (From_ c))]]> m.
Definition conn_map (conns : list RawConn) : ConnMap := foldl add_ref ∅ conns.

(** ** node/indexaccess.go, indexaccess.go *)
Module Access.

Inductive IndexAccessStatus := IndexAccessNone | IndexAccessBound | IndexAccessUnbound.

Record IndexAccess := mkAccess {
  Status : IndexAccessStatus;
  Index : string;
  FunctionID : string;
  Cause : string;
}.

Section resolve.
Variable nodes : gmap string Node.
Variable conns : ConnMap.

(** [policyProvider]: the policy peer's [FunctionForIndex], if it has opted in. *)
Definition policyProvider (toolID : string) : option (string -> res string string) * string :=
  match refs_of conns (toolID, PortPolicy) with
  | [ref] => (n ← nodes !! ref.1; function_for n, "")
  | _ => (None, "needs exactly one policy peer")
  end.

(** [lookupFunction]; an error contributes its text. *)
Definition lookupFunction (p : string -> res string string) (pattern : string) : string * string :=
  match p pattern with
  | Err text => ("", text)
  | Ok fn => let fn := trim_space fn in
             if str_empty fn then ("", "empty function id") else (fn, "")
  end.

Definition joined (patterns : list string) : string := String.concat "," patterns.

(** The loop over the sorted node ids. *)
Fixpoint resolve_ids (ids patterns : list string) (fnID : string) : IndexAccess :=
  match ids with
  | [] =>
      match patterns with
      | [] => mkAccess IndexAccessNone "" "" ""
      | _ => mkAccess IndexAccessBound (joined patterns) fnID ""
      end
  | id :: ids =>
      match (n ← nodes !! id; index_pattern n) with
      | None => resolve_ids ids patterns fnID
      | Some pattern =>
          let '(provider, cause) := policyProvider id in
          if negb (str_empty cause) then mkAccess IndexAccessUnbound pattern "" cause
          else match provider with
          | None => resolve_ids ids patterns fnID
          | Some p =>
              let patterns := patterns ++ [pattern] in
              let '(fn, cause) := lookupFunction p pattern in
              if negb (str_empty cause) then mkAccess IndexAccessUnbound (joined patterns) "" cause
              else if negb (str_empty fnID) && negb (String.eqb fn fnID)
              then mkAccess IndexAccessUnbound (joined patterns) ""
                     "workflow spans indexes guarded by different functions"
              else resolve_ids ids patterns fn
          end
      end
  end.

Definition resolveIndexAccess : IndexAccess :=
  resolve_ids (sort_strings (map_to_list nodes).*1) [] "".

(** *** Specification *)

(** An index-scoped node, and the function lookup of its policy peer. *)
Definition scoped (id pattern : string) : Prop :=
  exists n, nodes !! id = Some n /\ index_pattern n = Some pattern.
Definition asks (id : string) (p : string -> res string string) : Prop :=
  exists ref n, refs_of conns (id, PortPolicy) = [ref] /\ nodes !! ref.1 = Some n /\ function_for n = Some p.
Definition one_policy_peer (id : string) : Prop :=
  exists ref, refs_of conns (id, PortPolicy) = [ref].

(** Every index-scoped node has one policy peer, and each peer that opted in names
    the function [fn]. *)
Definition guarded_by (fn id : string) : Prop :=
  forall pattern, scoped id pattern ->
    one_policy_peer id
    /\ forall p, asks id p -> exists answer, p pattern = Ok answer /\ trim_space answer = fn.
Definition participates (id : string) : Prop := exists pattern p, scoped id pattern /\ asks id p.

Lemma guarded_step fn id pattern :
  fn <> "" -> scoped id pattern ->
  guarded_by fn id <->
  one_policy_peer id /\ forall p, asks id p -> exists answer, p pattern = Ok answer /\ trim_space answer = fn.
Proof.
  intros _ Hs. split; [intros H; by apply H|]. intros H pattern' Hs'.
  destruct Hs as (n & Hn & Hp), Hs' as (n' & Hn' & Hp'). rewrite Hn in Hn'. simplify_eq. done.
Qed.

Lemma policyProvider_spec id :
  match policyProvider id with
  | (Some p, cause) => cause = "" /\ one_policy_peer id /\ forall q, asks id q <-> q = p
  | (None, cause) => (cause = "" <-> one_policy_peer id) /\ (cause = "" -> forall q, ~ asks id q)
  end.
Proof.
  unfold policyProvider, one_policy_peer, asks.
  destruct (refs_of conns (id, PortPolicy)) as [|ref [|ref' l]].
  1,3: split; [split; [done|by intros [? ?]]|done].
  destruct (nodes !! ref.1) as [n|] eqn:En; simpl; [destruct (function_for n) as [p|] eqn:Ep|].
  - split_and!; [done|by exists ref|]. intros q. split.
    + intros (r & n' & [= <-] & Hn' & Hq). congruence.
    + intros ->. by exists ref, n.
  - split; [split; [by exists ref|done]|]. intros _ q (r & n' & [= <-] & Hn' & Hq). congruence.
  - split; [split; [by exists ref|done]|]. intros _ q (r & n' & [= <-] & Hn' & Hq). congruence.
Qed.

(** The lookups made failed with a text, if they failed. *)
Definition errors_have_texts : Prop :=
  forall id p pattern, scoped id pattern -> asks id p -> p pattern <> Err "".

(** As [guarded_by], with the gap the code has: a failed lookup counts as none when the
    error has no text. *)
Definition admits (fn id : string) : Prop :=
  forall pattern, scoped id pattern ->
    one_policy_peer id
    /\ forall p, asks id p -> p pattern = Err "" \/ exists answer, p pattern = Ok answer /\ trim_space answer = fn.

Lemma lookupFunction_spec p pattern fn :
  p pattern <> Err "" -> fn <> "" ->
  lookupFunction p pattern = (fn, "") <-> exists answer, p pattern = Ok answer /\ trim_space answer = fn.
Proof.
  unfold lookupFunction. intros Ht Hfn. destruct (p pattern) as [answer|text] eqn:E.
  - destruct (str_empty (trim_space answer)) eqn:Ee; to_prop; split.
    + intros [= <-]; done.
    + intros (a & [= <-] & Ha). congruence.
    + intros [= <-]. by exists answer.
    + by intros (a & [= <-] & <-).
  - split; [intros [= <- H]; by subst text|by intros (? & ? & _)].
Qed.

Lemma lookupFunction_cases p pattern :
  p pattern <> Err "" ->
  (lookupFunction p pattern).2 <> "" \/ (exists fn, fn <> "" /\ lookupFunction p pattern = (fn, "")).
Proof.
  unfold lookupFunction. intros Ht. destruct (p pattern) as [answer|text].
  - destruct (str_empty (trim_space answer)) eqn:Ee; to_prop; [by left|]. right. by eexists.
  - left. simpl. by intros ->.
Qed.

Definition bound_to (fn : string) (a : IndexAccess) : Prop :=
  Status a = IndexAccessBound /\ FunctionID a = fn.

Lemma resolve_ids_bound fn ids patterns cur :
  errors_have_texts -> fn <> "" -> (cur = "" <-> patterns = []) ->
  bound_to fn (resolve_ids ids patterns cur) <->
  Forall (guarded_by fn) ids /\ (patterns <> [] -> cur = fn) /\ (patterns <> [] \/ Exists participates ids).
Proof.
  intros Ht Hfn. revert patterns cur.
  induction ids as [|id ids IH]; intros patterns cur Hcur; simpl.
  - unfold bound_to. destruct patterns as [|x l]; simpl.
    + split; [by intros [? _]|]. intros (_ & _ & [H|H]); [done|by apply Exists_nil in H].
    + split; [intros [_ <-]; split_and!; [constructor|done|by left]|]. intros (_ & H & _). split; [done|by apply H].
  - rewrite Forall_cons, Exists_cons.
    destruct (n ← nodes !! id; index_pattern n) as [pattern|] eqn:Es.
    2:{ assert (forall pattern, ~ scoped id pattern) as Hno.
        { intros pattern (n & Hn & Hp). rewrite Hn in Es. simpl in Es. congruence. }
        rewrite IH by done. split.
        - intros (H1 & H2 & H3). split_and!; try done; [|tauto].
          intros p Hp. by destruct (Hno p).
        - intros ((_ & H1) & H2 & [H3|[(p & q & Hp & _)|H3]]); [|by destruct (Hno p)|]; tauto. }
    assert (scoped id pattern) as Hscoped.
    { destruct (nodes !! id) as [n|] eqn:En; [|done]. by exists n. }
    rewrite (guarded_step fn id pattern Hfn Hscoped).
    pose proof (policyProvider_spec id) as Hpp.
    destruct (policyProvider id) as [[p|] cause].
    + destruct Hpp as (-> & Hone & Hasks). simpl.
      assert (p pattern <> Err "") as Htp by (apply (Ht id p pattern Hscoped); by apply Hasks).
      assert (participates id) as Hpart by (exists pattern, p; split; [done|by apply Hasks]).
      assert ((forall q, asks id q -> exists answer, q pattern = Ok answer /\ trim_space answer = fn)
              <-> lookupFunction p pattern = (fn, "")) as Hl.
      { rewrite (lookupFunction_spec p pattern fn Htp Hfn). split; [intros H; apply H; by apply Hasks|].
        intros H q Hq%Hasks. by subst q. }
      rewrite Hl.
      destruct (lookupFunction_cases p pattern Htp) as [Hc|(fn' & Hne & ->)].
      * destruct (lookupFunction p pattern) as [fn' cause]. simpl in Hc.
        rewrite (proj2 (str_empty_false cause) Hc). simpl. unfold bound_to; simpl.
        split; [by intros [? _]|]. intros ((( _ & [= _ ->]) & _) & _). done.
      * simpl. assert (fn' = "" <-> patterns ++ [pattern] = []) as Hinv.
        { split; [done|]. intros H. by apply app_nil in H as [_ ?]. }
        destruct (str_empty cur) eqn:Ec; to_prop; simpl.
        -- rewrite IH by done. assert (patterns = []) as -> by (by apply Hcur). simpl.
           split.
           ++ intros (H1 & H2 & _). rewrite H2 by done. split_and!; try done. right. by left.
           ++ intros (((_ & [= ->]) & H1) & _). split_and!; try done. by left.
        -- assert (patterns <> []) as Hp by tauto.
           destruct (String.eqb_spec fn' cur) as [->|Hd]; simpl.
           ++ rewrite IH by done. split.
              ** intros (H1 & H2 & _). rewrite H2 by (by destruct patterns). split_and!; try done. by left.
              ** intros (((_ & [= ->]) & H1) & H2 & _). split_and!; try done. left. by destruct patterns.
           ++ unfold bound_to; simpl. split; [by intros [? _]|].
              intros (((_ & [= ->]) & _) & H2 & _). by destruct Hd, H2.
    + destruct Hpp as [Hone Hno]. destruct (str_empty cause) eqn:Ec; to_prop; simpl.
      * specialize (Hno Ec). rewrite Ec in Hone. destruct Hone as [Hone _]. specialize (Hone eq_refl).
        rewrite IH by done. split.
        -- intros (H1 & H2 & H3). split_and!; try done; [|tauto]. intros q Hq. by destruct (Hno q).
        -- intros ((_ & H1) & H2 & [H3|[(p' & q & _ & Hq)|H3]]); [|by destruct (Hno q)|]; tauto.
      * unfold bound_to; simpl. split; [by intros [? _]|].
        intros (((H & _) & _) & _). apply Hone in H. done.
Qed.

Lemma resolve_ids_none ids patterns cur :
  Status (resolve_ids ids patterns cur) = IndexAccessNone <->
  patterns = [] /\ Forall (fun id => forall pattern, scoped id pattern ->
                                one_policy_peer id /\ forall p, ~ asks id p) ids.
Proof.
  revert patterns cur. induction ids as [|id ids IH]; intros patterns cur; simpl.
  - destruct patterns; simpl; split; try done. by intros [? _].
  - rewrite Forall_cons.
    destruct (n ← nodes !! id; index_pattern n) as [pattern|] eqn:Es.
    2:{ rewrite IH. split; [|tauto]. intros [-> H]. split_and!; try done.
        intros pattern (n & Hn & Hp). rewrite Hn in Es. simpl in Es. congruence. }
    assert (scoped id pattern) as Hscoped.
    { destruct (nodes !! id) as [n|] eqn:En; [|done]. by exists n. }
    pose proof (policyProvider_spec id) as Hpp.
    destruct (policyProvider id) as [[p|] cause].
    + destruct Hpp as (-> & Hone & Hasks). simpl.
      assert (forall X : Prop, patterns = [] /\ (forall pattern, scoped id pattern ->
        one_policy_peer id /\ (forall p, ~ asks id p)) /\ X -> False) as Hno.
      { intros X (_ & H & _). destruct (H pattern Hscoped) as [_ Hq]. by apply (Hq p), Hasks. }
      destruct (lookupFunction p pattern) as [fn cause].
      destruct (str_empty cause); simpl; [|split; [done|by intros ?%Hno]].
      destruct (str_empty cur); simpl; [|destruct (String.eqb fn cur); simpl];
        try (split; [done|by intros ?%Hno]);
        rewrite IH; (split; [intros [H _]; by apply app_nil in H as [_ ?]|by intros ?%Hno]).
    + destruct Hpp as [Hone Hno]. destruct (str_empty cause) eqn:Ec; to_prop; simpl.
      * rewrite IH. split; [|tauto]. intros [-> H]. split_and!; try done.
        intros pattern' Hs. split; [by apply Hone|by apply Hno].
      * split; [done|]. intros (_ & H & _). destruct (H pattern Hscoped) as [H1 _].
        by apply Hone in H1.
Qed.

Lemma node_ids id : id ∈ sort_strings (map_to_list nodes).*1 <-> is_Some (nodes !! id).
Proof.
  rewrite sort_strings_perm, list_elem_of_fmap. split.
  - intros ([k n] & -> & H). apply elem_of_map_to_list in H. by eexists.
  - intros [n Hn]. exists (id, n). by rewrite elem_of_map_to_list.
Qed.

Lemma access_spec fn :
  errors_have_texts -> fn <> "" ->
  bound_to fn resolveIndexAccess <->
    (forall id, is_Some (nodes !! id) -> guarded_by fn id) /\ exists id, participates id.
Proof.
  intros Ht Hfn. unfold resolveIndexAccess. pose proof node_ids as Hids. set (ids := sort_strings _) in *.
  rewrite resolve_ids_bound, Forall_forall, Exists_exists by done. split.
  - intros (H1 & _ & [?|(id & _ & H)]); [done|]. split; [|by exists id].
    intros id' H'. apply H1. by apply Hids.
  - intros (H1 & id & pattern & p & (n & Hn & Hp) & Ha). split_and!; [|done|right].
    + intros id' H'. apply H1. by apply Hids.
    + exists id. split; [apply Hids; by exists n|]. exists pattern, p. split; [by exists n|done].
Qed.

Lemma access_none :
  Status resolveIndexAccess = IndexAccessNone <->
  forall id pattern, scoped id pattern -> one_policy_peer id /\ forall p, ~ asks id p.
Proof.
  unfold resolveIndexAccess. rewrite resolve_ids_none, Forall_forall. split.
  - intros [_ H] id pattern Hs. apply (H id) with pattern; [|done].
    apply node_ids. destruct Hs as (n & Hn & _). by exists n.
  - intros H. split; [done|]. intros id _ pattern Hs. by apply (H id pattern).
Qed.

(** What a binding means whatever the lookups answer. *)
Lemma resolve_ids_admits fn ids patterns cur :
  fn <> "" -> bound_to fn (resolve_ids ids patterns cur) ->
  Forall (admits fn) ids /\ (cur <> "" -> cur = fn)
  /\ (cur <> "" \/ Exists (fun id => participates id /\ guarded_by fn id) ids).
Proof.
  intros Hfn. revert patterns cur. induction ids as [|id ids IH]; intros patterns cur; simpl.
  - destruct patterns as [|x l]; [by intros [? _]|]. intros [_ Hcur]. simpl in Hcur. subst cur. by auto.
  - rewrite Forall_cons, Exists_cons.
    destruct (n ← nodes !! id; index_pattern n) as [pattern|] eqn:Es.
    2:{ intros (H1 & H2 & H3)%IH. split_and!; [|done|done|tauto]. intros pattern (n & Hn & Hp). rewrite Hn in Es.
        simpl in Es. congruence. }
    assert (scoped id pattern) as Hscoped by (destruct (nodes !! id) as [n|] eqn:En; [by exists n|done]).
    assert (forall pattern', scoped id pattern' -> pattern' = pattern) as Huniq.
    { intros pattern' (n' & Hn' & Hp'). destruct Hscoped as (n & Hn & Hp). congruence. }
    pose proof (policyProvider_spec id) as Hpp. destruct (policyProvider id) as [[p|] cause].
    + destruct Hpp as (-> & Hone & Hasks). simpl.
      assert (participates id) as Hpart by (exists pattern, p; split; [done|by apply Hasks]).
      destruct (lookupFunction p pattern) as [fn' cause] eqn:El. destruct (str_empty cause) eqn:Ec; to_prop; simpl; [|by intros [? _]].
      subst cause. assert (bound_to fn (resolve_ids ids (patterns ++ [pattern]) fn') ->
          Forall (admits fn) ids /\ (fn' <> "" -> fn' = fn) /\ admits fn id /\
          (fn' <> "" -> guarded_by fn id) /\ (fn' <> "" \/ Exists (fun i => participates i /\ guarded_by fn i) ids)) as Hstep.
      { intros (H1 & H2 & H3)%IH. split_and!; [done|done| | |done].
        - intros pattern' ->%Huniq. split; [done|]. intros q ->%Hasks. unfold lookupFunction in El.
          destruct (p pattern) as [answer|text]; [|injection El as <- ->; by left].
          destruct (str_empty (trim_space answer)) eqn:Et; [done|]. to_prop. injection El as <-. right. exists answer.
          split; [done|by apply H2].
        - intros Hne pattern' ->%Huniq. split; [done|]. intros q ->%Hasks. unfold lookupFunction in El.
          destruct (p pattern) as [answer|text]; [|by injection El as <- _].
          destruct (str_empty (trim_space answer)); [done|]. injection El as <-. exists answer. split; [done|by apply H2]. }
      destruct (str_empty cur) eqn:Ecur; to_prop; simpl.
      * intros (H1 & H2 & H3 & H4 & H5)%Hstep. subst cur. split_and!; [done|done|done|].
        right. destruct (decide (fn' = "")) as [->|Hne]; [|left; by auto]. destruct H5 as [?|?]; [done|by right].
      * destruct (String.eqb_spec fn' cur) as [->|Hd]; simpl; [|by intros [? _]].
        intros (H1 & H2 & H3 & H4 & H5)%Hstep. split_and!; auto.
    + destruct Hpp as [Hone Hno]. destruct (str_empty cause) eqn:Ec; to_prop; simpl; [|by intros [? _]].
      intros (H1 & H2 & H3)%IH. split_and!; [|done|done|tauto]. intros pattern' _. split; [by apply Hone|].
      intros q Hq. by destruct (Hno Ec q).
Qed.

Lemma access_admits fn :
  fn <> "" -> bound_to fn resolveIndexAccess ->
  (forall id, is_Some (nodes !! id) -> admits fn id) /\ exists id, participates id /\ guarded_by fn id.
Proof.
  intros Hfn Hb. apply resolve_ids_admits in Hb as (H1 & _ & [?|H2]); [done| |done]. split.
  - intros id [n Hn]. rewrite Forall_forall in H1. apply H1. rewrite sort_strings_perm, list_elem_of_fmap.
    exists (id, n). by rewrite elem_of_map_to_list.
  - apply Exists_exists in H2 as (id & _ & H). by exists id.
Qed.

Lemma guarded_texts fn : (forall id, is_Some (nodes !! id) -> guarded_by fn id) -> errors_have_texts.
Proof.
  intros Hg id p pattern Hs Ha He. destruct (Hg id) with (pattern := pattern) as [_ H]; [|done|].
  - destruct Hs as (n & Hn & _). by exists n.
  - destruct (H p Ha) as (answer & Ho & _). congruence.
Qed.

(** C19: What index access is resolved to.  A workflow whose index-scoped nodes each have
    exactly one policy peer, of which some opted in and all that did name the function
    [fn], is bound to [fn].  A workflow bound to [fn] has one policy peer for each such
    node, and each that opted in named [fn] - at least one did - or failed with an error
    of empty text, which the code takes for no error at all; where no lookup fails so,
    the two make an equivalence.  A workflow is free of an index function exactly when
    every index-scoped node has one peer and none opted in; in every other case it is
    unbound or bound to the empty function. *)
Theorem resolveIndexAccess_fail_closed fn :
  fn <> "" ->
  ((forall id, is_Some (nodes !! id) -> guarded_by fn id) /\ (exists id, participates id) ->
    bound_to fn resolveIndexAccess)
  /\ (bound_to fn resolveIndexAccess ->
    (forall id, is_Some (nodes !! id) -> admits fn id) /\ exists id, participates id /\ guarded_by fn id)
  /\ (errors_have_texts -> bound_to fn resolveIndexAccess ->
    forall id, is_Some (nodes !! id) -> guarded_by fn id)
  /\ (Status resolveIndexAccess = IndexAccessNone <->
      forall id pattern, scoped id pattern -> one_policy_peer id /\ forall p, ~ asks id p).
Proof.
  intros Hfn. split_and!.
  - intros [Hg Hp]. apply access_spec; [by eapply guarded_texts|done|done].
  - by apply access_admits.
  - intros Ht Hb. by apply access_spec.
  - apply access_none.
Qed.
End resolve.
End Access.

(** ** engine.go *)
Module Loading.
Import Access.

Record Workflow := mkWorkflow {
  wf_ID : string;
  wf_Description : string;
  wf_RSAssistant : option json;
  wf_Trigger : string;
  wf_Nodes : gmap string Node;
  wf_TopoOrder : list string;
  wf_Connections : ConnMap;
  wf_RawConfigs : gmap string (option json);
  wf_IndexAccess : IndexAccess;
}.

(** What registration does to a trigger. *)
Inductive trigger_call :=
| SetIndexAccess (wf : string) (a : IndexAccess)
| Subscribe (wf : string).

(** The engine's mutable state; [closed] logs the nodes closed by [Shutdown], and
    [down] is the [sync.Once]. *)
Record Engine := mkEngine {
  workflows : gmap string Workflow;
  executors : gmap string Workflow;
  calls : list trigger_call;
  down : bool;
  closed : list (string * string);
}.
Definition New : Engine := mkEngine ∅ ∅ [] false [].

Inductive register_error :=
| RE_duplicate (id : string)
| RE_extends (e : derive_error)
| RE_base_missing (base : string)
| RE_base (base : string) (e : derive_error)
| RE_chained (base : string)
| RE_merge (e : derive_error)
| RE_load (e : load_error)
| RE_subscribe (cause : string)
| RE_source (cause : string).

Section engine.
#[local] Set Default Proof Using "All".
Variable validate_template : string -> option string.
Variable lookupEnv : string -> option string.
Variable registry : Registry.
Variable hosts : gmap string Host.
Variable prompts : option (string -> string -> string -> res string (option string)).
(** The trigger node's [Subscribe] and its optional [IndexAccessAware] interface. *)
Variable subscribe : string -> Node -> option string.
Variable access_aware : Node -> bool.

(** The workflow [registerOne] builds from a document. *)
Definition make_workflow (r : LoadResult) : Workflow :=
  let conns := conn_map (lr_Connections r) in
  mkWorkflow (lr_ID r) (lr_Description r) (lr_RSAssistant r) (lr_Trigger r) (lr_Nodes r)
    (lr_TopoOrder r) conns (lr_RawConfigs r) (resolveIndexAccess (lr_Nodes r) conns).

Definition log_call (c : trigger_call) (e : Engine) : Engine :=
  mkEngine (workflows e) (executors e) (calls e ++ [c]) (down e) (closed e).

Definition registerOne (raw : option json) (e : Engine) : res register_error unit * Engine :=
  match LoadOne validate_template lookupEnv registry hosts prompts raw with
  | Err err => (Err (RE_load err), e)
  | Ok r =>
      let wf := make_workflow r in
      match wf_Nodes wf !! wf_Trigger wf with
      | None => (Err (RE_load (LE_trigger (wf_Trigger wf))), e)  (* excluded by LoadOne *)
      | Some trigger =>
          let e := if access_aware trigger then log_call (SetIndexAccess (wf_ID wf) (wf_IndexAccess wf)) e else e in
          let e := log_call (Subscribe (wf_ID wf)) e in
          match subscribe (wf_ID wf) trigger with
          | Some cause => (Err (RE_subscribe cause), e)
          | None => (Ok tt, mkEngine (<[wf_ID wf := wf]> (workflows e)) (<[wf_ID wf := wf]> (executors e))
                              (calls e) (down e) (closed e))
          end
      end
  end.

(** The workflow source. *)
Variable list_ids : res string (list string).
Variable load_raw : string -> res string (option json).

(** The best-effort peek at a document's own id. *)
Definition peek_id (raw : option json) : string :=
  match raw with
  | Some (JObj m) => match m !! "id" with Some (JStr s) => s | _ => "" end
  | _ => ""
  end.

(** Pass 1. *)
Record index := mkIndex {
  raws : gmap string (option json);
  byWorkflowID : gmap string (option json);
  dupes : gmap string string;
  loadable : list string;
  unread : list (string * register_error);
}.

Definition index_one (ix : index) (id : string) : index :=
  match load_raw id with
  | Err cause => mkIndex (raws ix) (byWorkflowID ix) (dupes ix) (loadable ix) (unread ix ++ [(id, RE_source cause)])
  | Ok raw =>
      let raws := <[id := raw]> (raws ix) in
      let loadable := loadable ix ++ [id] in
      let wfID := peek_id raw in
      if str_empty wfID then mkIndex raws (byWorkflowID ix) (dupes ix) loadable (unread ix)
      else match byWorkflowID ix !! wfID with
           | Some _ => mkIndex raws (byWorkflowID ix) (<[id := wfID]> (dupes ix)) loadable (unread ix)
           | None => mkIndex raws (<[wfID := raw]> (byWorkflowID ix)) (dupes ix) loadable (unread ix)
           end
  end.
Definition index_all (ids : list string) : index := foldl index_one (mkIndex ∅ ∅ ∅ [] []) ids.

(** Pass 2: the document registered for a source id. *)
Definition resolve_extends (ix : index) (raw : option json) : res register_error (option json) :=
  match ExtendsTarget raw with
  | Err err => Err (RE_extends err)
  | Ok None => Ok raw
  | Ok (Some baseID) =>
      match byWorkflowID ix !! baseID with
      | None => Err (RE_base_missing baseID)
      | Some baseRaw =>
          match ExtendsTarget baseRaw with
          | Err err => Err (RE_base baseID err)
          | Ok (Some _) => Err (RE_chained baseID)
          | Ok None =>
              match MergeDerived baseRaw raw with
              | Err err => Err (RE_merge err)
              | Ok merged => Ok merged
              end
          end
      end
  end.

(** The outcome of [LoadAll]: the ids loaded and those failed, with the reason logged. *)
Record load_report := mkReport {
  loaded : list string;
  failed : list (string * register_error);
}.

Definition load_one_id (ix : index) (st : load_report * Engine) (id : string) : load_report * Engine :=
  let '(rep, e) := st in
  let fail err e := (mkReport (loaded rep) (failed rep ++ [(id, err)]), e) in
  match dupes ix !! id with
  | Some wfID => fail (RE_duplicate wfID) e
  | None =>
      match resolve_extends ix (default None (raws ix !! id)) with
      | Err err => fail err e
      | Ok raw =>
          match registerOne raw e with
          | (Err err, e) => fail err e
          | (Ok _, e) => (mkReport (loaded rep ++ [id]) (failed rep), e)
          end
      end
  end.

Definition LoadAll (e : Engine) : res string load_report * Engine :=
  match list_ids with
  | Err cause => (Err cause, e)
  | Ok ids =>
      let ids := sort_strings ids in
      let ix := index_all ids in
      let '(rep, e) := foldl (load_one_id ix) (mkReport [] (unread ix), e) (loadable ix) in
      (Ok rep, e)
  end.

(** *** Specification of loading

    [owner]: the first source id, in sorted order, whose document declares a workflow
    id.  [document]: what a source id contributes, with no index maps. *)
Definition declares (w id : string) : bool :=
  match load_raw id with Ok raw => String.eqb (peek_id raw) w | Err _ => false end.
Definition owner (ids : list string) (w : string) : option string := find_first (declares w) ids.

Definition document (ids : list string) (id : string) : res register_error (option json) :=
  let! raw := match load_raw id with Ok raw => Ok raw | Err cause => Err (RE_source cause) end in
  let w := peek_id raw in
  if negb (str_empty w) && negb (bool_decide (owner ids w = Some id)) then Err (RE_duplicate w)
  else match ExtendsTarget raw with
  | Err err => Err (RE_extends err)
  | Ok None => Ok raw
  | Ok (Some baseID) =>
      match (o ← owner ids baseID; match load_raw o with Ok b => Some b | Err _ => None end) with
      | None => Err (RE_base_missing baseID)
      | Some baseRaw =>
          match ExtendsTarget baseRaw with
          | Err err => Err (RE_base baseID err)
          | Ok (Some _) => Err (RE_chained baseID)
          | Ok None => match MergeDerived baseRaw raw with Err err => Err (RE_merge err) | Ok m => Ok m end
          end
      end
  end.

(** The workflow a document registers, if it does. *)
Definition registers (raw : option json) : res register_error Workflow :=
  match LoadOne validate_template lookupEnv registry hosts prompts raw with
  | Err err => Err (RE_load err)
  | Ok r =>
      let wf := make_workflow r in
      match wf_Nodes wf !! wf_Trigger wf with
      | None => Err (RE_load (LE_trigger (wf_Trigger wf)))
      | Some trigger => match subscribe (wf_ID wf) trigger with
                        | Some cause => Err (RE_subscribe cause)
                        | None => Ok wf
                        end
      end
  end.
Definition outcome (ids : list string) (id : string) : res register_error Workflow :=
  let! raw := document ids id in registers raw.

Lemma ExtendsTarget_nonempty raw b : ExtendsTarget raw = Ok (Some b) -> b <> "".
Proof.
  unfold ExtendsTarget. intros H. destruct (unmarshal_map raw) as [m|]; [|done].
  destruct (m !! "extends") as [[]|]; try done. destruct (str_empty s) eqn:E; [done|]. simplify_eq.
  by to_prop.
Qed.

Lemma owner_declares ids w o : owner ids w = Some o -> o ∈ ids /\ exists raw, load_raw o = Ok raw /\ peek_id raw = w.
Proof.
  intros [H1 H2]%find_first_Some. split; [done|]. unfold declares in H2.
  destruct (load_raw o) as [raw|]; [|done]. to_prop. by exists raw.
Qed.

Lemma owner_snoc ids id w :
  owner (ids ++ [id]) w = match owner ids w with Some o => Some o | None => if declares w id then Some id else None end.
Proof. unfold owner. by rewrite find_first_app. Qed.

Definition readable (id : string) : bool := is_ok (load_raw id).
Definition read_error (id : string) : option (string * register_error) :=
  match load_raw id with Err c => Some (id, RE_source c) | Ok _ => None end.
Definition base_doc (ids : list string) (w : string) : option (option json) :=
  o ← owner ids w; match load_raw o with Ok b => Some b | Err _ => None end.
Definition dup_of (ids : list string) (id : string) : option string :=
  match load_raw id with
  | Ok raw => if negb (str_empty (peek_id raw)) && negb (bool_decide (owner ids (peek_id raw) = Some id))
              then Some (peek_id raw) else None
  | Err _ => None
  end.

(** What the first pass computes. *)
Record index_ok (ids : list string) (ix : index) : Prop := {
  ix_raws : forall id raw, id ∈ ids -> load_raw id = Ok raw -> raws ix !! id = Some raw;
  ix_by : forall w, byWorkflowID ix !! w = if str_empty w then None else base_doc ids w;
  ix_dupes : forall id, dupes ix !! id = if bool_decide (id ∈ ids) then dup_of ids id else None;
  ix_loadable : loadable ix = List.filter readable ids;
  ix_unread : unread ix = omap read_error ids;
}.

Lemma filter_snoc_readable (l : list string) x :
  List.filter readable (l ++ [x]) = List.filter readable l ++ (if readable x then [x] else []).
Proof. rewrite List.filter_app. simpl. by destruct (readable x). Qed.

Lemma read_error_snoc (l : list string) x :
  omap read_error (l ++ [x]) = omap read_error l ++ option_list (read_error x).
Proof. rewrite omap_app. simpl. by destruct (read_error x). Qed.

Lemma base_doc_snoc ids id w :
  base_doc (ids ++ [id]) w = match base_doc ids w with
                             | Some b => Some b
                             | None => if declares w id then match load_raw id with Ok b => Some b | Err _ => None end else None
                             end.
Proof.
  unfold base_doc. rewrite owner_snoc. destruct (owner ids w) as [o|] eqn:Eo; simpl.
  - by destruct (owner_declares _ _ _ Eo) as (_ & b & -> & _).
  - by destruct (declares w id).
Qed.

Lemma base_doc_None ids w : base_doc ids w = None <-> owner ids w = None.
Proof.
  unfold base_doc. destruct (owner ids w) as [o|] eqn:Eo; simpl; [|done].
  by destruct (owner_declares _ _ _ Eo) as (_ & b & -> & _).
Qed.

Lemma dup_of_snoc ids id id' : id' ∈ ids -> dup_of (ids ++ [id]) id' = dup_of ids id'.
Proof.
  intros Hin. unfold dup_of. destruct (load_raw id') as [raw|] eqn:El; [|done].
  destruct (owner ids (peek_id raw)) as [o|] eqn:Eo; [by rewrite owner_snoc, Eo|].
  unfold owner in Eo. rewrite find_first_None in Eo. specialize (Eo id' Hin). unfold declares in Eo.
  by rewrite El, String.eqb_refl in Eo.
Qed.

(** Recording the newest id's duplicate status keeps the duplicate map right. *)
Lemma dupes_snoc ids id (ds D : gmap string string) :
  id ∉ ids ->
  (forall id', ds !! id' = if bool_decide (id' ∈ ids) then dup_of ids id' else None) ->
  (forall id', id' <> id -> D !! id' = ds !! id') -> D !! id = dup_of (ids ++ [id]) id ->
  forall id', D !! id' = if bool_decide (id' ∈ ids ++ [id]) then dup_of (ids ++ [id]) id' else None.
Proof.
  intros Hid Hds Ho Hn id'. destruct (decide (id' = id)) as [->|Hne].
  - rewrite bool_decide_eq_true_2 by (apply elem_of_app; right; by left). done.
  - rewrite Ho, Hds by done.
    rewrite (bool_decide_ext (id' ∈ ids ++ [id]) (id' ∈ ids)).
    2:{ rewrite elem_of_app, list_elem_of_singleton. tauto. }
    destruct (bool_decide (id' ∈ ids)) eqn:Ei; [|done]. apply bool_decide_eq_true in Ei.
    by rewrite dup_of_snoc.
Qed.

Lemma index_one_unread ids ix id cause :
  id ∉ ids -> load_raw id = Err cause -> index_ok ids ix -> index_ok (ids ++ [id]) (index_one ix id).
Proof.
  intros Hid El [H1 H2 H3 H4 H5]. unfold index_one. rewrite El. split; simpl.
  - intros id' raw [Hi|Hi]%elem_of_app Hr; [by apply H1|]. apply list_elem_of_singleton in Hi. congruence.
  - intros w. rewrite H2, base_doc_snoc. unfold declares. rewrite El. by destruct (base_doc ids w).
  - eapply dupes_snoc; [done|exact H3|done|]. rewrite H3, bool_decide_eq_false_2 by done.
    unfold dup_of. by rewrite El.
  - rewrite filter_snoc_readable, <- H4. unfold readable. by rewrite El, app_nil_r.
  - rewrite read_error_snoc, <- H5. unfold read_error. by rewrite El.
Qed.

Lemma index_one_read ids ix id raw :
  id ∉ ids -> load_raw id = Ok raw -> index_ok ids ix -> index_ok (ids ++ [id]) (index_one ix id).
Proof.
  intros Hid El [H1 H2 H3 H4 H5].
  assert (forall w, declares w id = String.eqb (peek_id raw) w) as Hd by (intros w; unfold declares; by rewrite El).
  assert (owner ids (peek_id raw) <> Some id) as Hnot by (intros [Hin _]%owner_declares; done).
  assert (forall id' raw', id' ∈ ids ++ [id] -> load_raw id' = Ok raw' -> <[id:=raw]> (raws ix) !! id' = Some raw') as Hr.
  { intros id' raw' [Hi|Hi]%elem_of_app Hl.
    - rewrite lookup_insert_ne by (by intros ->). by apply H1.
    - apply list_elem_of_singleton in Hi as ->. rewrite lookup_insert_eq. congruence. }
  assert (loadable ix ++ [id] = List.filter readable (ids ++ [id])) as Hl.
  { rewrite filter_snoc_readable, <- H4. unfold readable. by rewrite El. }
  assert (unread ix = omap read_error (ids ++ [id])) as Hu.
  { rewrite read_error_snoc, <- H5. unfold read_error. by rewrite El, app_nil_r. }
  unfold index_one. rewrite El.
  assert (dup_of (ids ++ [id]) id = if negb (str_empty (peek_id raw)) && bool_decide (is_Some (owner ids (peek_id raw)))
            then Some (peek_id raw) else None) as Hdup.
  { unfold dup_of. rewrite El, owner_snoc, Hd, String.eqb_refl.
    destruct (owner ids (peek_id raw)) as [o|]; repeat case_bool_decide;
      rewrite ?andb_false_r; simplify_eq; try done; match goal with H : ~ is_Some _ |- _ => by destruct H end. }
  assert (dupes ix !! id = None) as Hnone by (by rewrite H3, bool_decide_eq_false_2).
  destruct (str_empty (peek_id raw)) eqn:Ew.
  - split; simpl; try done.
    + intros w. rewrite H2, base_doc_snoc, Hd, El. to_prop. rewrite Ew. destruct (str_empty w) eqn:E; [done|]. to_prop.
      destruct (String.eqb_spec "" w); [done|]. by destruct (base_doc ids w).
    + eapply dupes_snoc; [done|exact H3|done|]. by rewrite Hdup, Hnone.
  - rewrite H2, Ew. destruct (base_doc ids (peek_id raw)) as [b|] eqn:Eb.
    + split; simpl; try done.
      * intros w. rewrite H2, base_doc_snoc, Hd. destruct (str_empty w); [done|].
        destruct (base_doc ids w) eqn:Ebw; [done|]. destruct (String.eqb_spec (peek_id raw) w); [congruence|done].
      * eapply dupes_snoc; [done|exact H3|intros; by rewrite lookup_insert_ne|].
        rewrite lookup_insert_eq, Hdup. rewrite bool_decide_eq_true_2; [done|].
        destruct (owner ids (peek_id raw)) eqn:E; [by eexists|]. apply base_doc_None in E. congruence.
    + split; simpl; try done.
      * intros w. rewrite base_doc_snoc, Hd, El. destruct (decide (w = peek_id raw)) as [->|Hne].
        -- by rewrite lookup_insert_eq, Ew, Eb, String.eqb_refl.
        -- rewrite lookup_insert_ne, H2 by done. destruct (str_empty w); [done|].
           destruct (base_doc ids w); [done|]. destruct (String.eqb_spec (peek_id raw) w); congruence.
      * eapply dupes_snoc; [done|exact H3|done|]. rewrite Hdup, Hnone.
        apply base_doc_None in Eb. rewrite Eb. by rewrite (bool_decide_eq_false_2 (is_Some None)), andb_false_r by (by intros []).
Qed.

Lemma index_all_ok ids : NoDup ids -> index_ok ids (index_all ids).
Proof.
  intros Hnd. unfold index_all. induction ids as [|id ids IH] using rev_ind.
  - split; simpl; try done.
    + intros id raw H. by apply elem_of_nil in H.
    + intros w. rewrite lookup_empty. by destruct (str_empty w).
  - apply NoDup_app in Hnd as (Hnd & Hnew & _). specialize (IH Hnd). rewrite foldl_snoc.
    assert (id ∉ ids) as Hid by (intros H; apply (Hnew id H); by left).
    destruct (load_raw id) eqn:El; [by eapply index_one_read|by eapply index_one_unread].
Qed.

(** The second pass on one id is the outcome of its document. *)
Definition record_outcome (ids : list string) (st : load_report * Engine) (id : string) : load_report :=
  match outcome ids id with
  | Ok _ => mkReport (loaded st.1 ++ [id]) (failed st.1)
  | Err err => mkReport (loaded st.1) (failed st.1 ++ [(id, err)])
  end.

Lemma registerOne_registers raw e :
  match registers raw with
  | Ok wf => (registerOne raw e).1 = Ok tt /\ workflows (registerOne raw e).2 = <[wf_ID wf := wf]> (workflows e)
             /\ executors (registerOne raw e).2 = <[wf_ID wf := wf]> (executors e)
  | Err err => (registerOne raw e).1 = Err err /\ workflows (registerOne raw e).2 = workflows e
             /\ executors (registerOne raw e).2 = executors e
  end.
Proof.
  unfold registers, registerOne. destruct (LoadOne _ _ _ _ _ raw) as [r|]; [|done].
  destruct (wf_Nodes (make_workflow r) !! wf_Trigger (make_workflow r)) as [t|]; [|done].
  destruct (subscribe _ t); simpl; by destruct (access_aware t).
Qed.

Lemma resolve_extends_document ids ix id :
  index_ok ids ix -> id ∈ ids -> readable id = true ->
  document ids id =
    match dupes ix !! id with
    | Some w => Err (RE_duplicate w)
    | None => resolve_extends ix (default None (raws ix !! id))
    end.
Proof.
  intros [H1 H2 H3 _ _] Hin Hr. unfold readable in Hr.
  rewrite H3, bool_decide_eq_true_2 by done. unfold document, dup_of.
  destruct (load_raw id) as [raw|] eqn:El; [|done]. rewrite (H1 id raw Hin El). simpl.
  destruct (negb _ && negb _); [done|]. unfold resolve_extends.
  destruct (ExtendsTarget raw) as [[b|]|] eqn:Ex; try done.
  rewrite H2, (proj2 (str_empty_false b)) by (by eapply ExtendsTarget_nonempty). done.
Qed.

Lemma load_one_id_outcome ids ix st id :
  index_ok ids ix -> id ∈ ids -> readable id = true ->
  (load_one_id ix st id).1 = record_outcome ids st id
  /\ workflows (load_one_id ix st id).2 =
       match outcome ids id with Ok wf => <[wf_ID wf := wf]> (workflows st.2) | Err _ => workflows st.2 end.
Proof.
  intros Hix Hin Hr. unfold record_outcome, outcome. rewrite (resolve_extends_document ids ix id Hix Hin Hr).
  unfold load_one_id. destruct st as [rep e]. simpl.
  destruct (dupes ix !! id); [done|]. destruct (resolve_extends ix _) as [raw|]; [|done]. simpl.
  pose proof (registerOne_registers raw e) as Hreg.
  destruct (registers raw) as [wf|err], (registerOne raw e) as [[[]|?] e']; simpl in *;
    destruct Hreg as (Hres & Hw & _); simplify_eq; done.
Qed.

Definition succeeds (ids : list string) (id : string) : bool := is_ok (outcome ids id).
Definition failure (ids : list string) (id : string) : option (string * register_error) :=
  match outcome ids id with Err err => Some (id, err) | Ok _ => None end.
Definition add_workflow (ids : list string) (m : gmap string Workflow) (id : string) : gmap string Workflow :=
  match outcome ids id with Ok wf => <[wf_ID wf := wf]> m | Err _ => m end.

Lemma load_fold ids ix todo st :
  index_ok ids ix -> Forall (fun id => id ∈ ids /\ readable id = true) todo ->
  loaded (foldl (load_one_id ix) st todo).1 = loaded st.1 ++ List.filter (succeeds ids) todo
  /\ failed (foldl (load_one_id ix) st todo).1 = failed st.1 ++ omap (failure ids) todo
  /\ workflows (foldl (load_one_id ix) st todo).2 = foldl (add_workflow ids) (workflows st.2) todo.
Proof.
  intros Hix Ht. revert st. induction Ht as [|id todo [Hin Hr] _ IH]; intros st; simpl.
  - by rewrite !app_nil_r.
  - destruct (IH (load_one_id ix st id)) as (-> & -> & ->).
    destruct (load_one_id_outcome ids ix st id Hix Hin Hr) as [-> ->].
    unfold record_outcome, succeeds, failure, add_workflow. destruct (outcome ids id); simpl;
      by rewrite <- ?app_assoc.
Qed.

Lemma unreadable_fails ids id : readable id = false -> exists cause, load_raw id = Err cause /\ outcome ids id = Err (RE_source cause).
Proof.
  unfold readable, outcome, document. destruct (load_raw id) as [|cause]; [done|]. intros _. by exists cause.
Qed.

Lemma readable_only ids l m :
  List.filter (succeeds ids) (List.filter readable l) = List.filter (succeeds ids) l
  /\ omap read_error l ++ omap (failure ids) (List.filter readable l) ≡ₚ omap (failure ids) l
  /\ foldl (add_workflow ids) m (List.filter readable l) = foldl (add_workflow ids) m l.
Proof.
  revert m. induction l as [|id l IH]; intros m; [done|]. simpl.
  destruct (readable id) eqn:Er; simpl.
  - destruct (IH (add_workflow ids m id)) as (H1 & H2 & H3). rewrite H1, H3. split_and!; try done.
    unfold readable in Er. unfold read_error at 1. destruct (load_raw id); [|done].
    destruct (failure ids id); [|done]. rewrite <- H2. by rewrite <- Permutation_middle.
  - destruct (IH m) as (H1 & H2 & H3).
    destruct (unreadable_fails ids id Er) as (cause & Hl & Ho).
    unfold succeeds at 2, add_workflow at 3, failure at 2, read_error at 1. rewrite Hl, Ho. simpl.
    split_and!; [done|by constructor|done].
Qed.

(** C11: Loading is fault isolated and deterministic: each source id succeeds or fails
    by its own document alone - the first id in sorted order that declares a workflow
    id owns it, and a derived document is merged over the document that owns its base -
    and the engine ends up with exactly the workflows of the documents that succeeded. *)
Theorem LoadAll_spec ids e rep e' :
  list_ids = Ok ids -> NoDup ids -> LoadAll e = (Ok rep, e') ->
  let sorted := sort_strings ids in
  loaded rep = List.filter (succeeds sorted) sorted
  /\ failed rep ≡ₚ omap (failure sorted) sorted
  /\ workflows e' = foldl (add_workflow sorted) (workflows e) sorted
  /\ (forall w, is_Some (workflows e' !! w) -> workflows e !! w = None ->
       exists id wf, id ∈ loaded rep /\ outcome sorted id = Ok wf /\ wf_ID wf = w).
Proof.
  intros Hl Hnd H sorted. unfold LoadAll in H. rewrite Hl in H. fold sorted in H.
  assert (NoDup sorted) as Hs by (unfold sorted; by rewrite sort_strings_perm).
  pose proof (index_all_ok sorted Hs) as Hix.
  pose proof (load_fold sorted _ (loadable (index_all sorted)) (mkReport [] (unread (index_all sorted)), e) Hix) as Hf.
  destruct (foldl _ _ _) as [rep0 e0]. injection H as <- <-. simpl in Hf.
  rewrite (ix_loadable _ _ Hix), (ix_unread _ _ Hix) in Hf.
  destruct (readable_only sorted sorted (workflows e)) as (R1 & R2 & R3).
  destruct Hf as (-> & -> & ->).
  { apply Forall_forall. intros id Hid%list_elem_of_In%filter_In. by rewrite list_elem_of_In. }
  rewrite R1, R2, R3. split_and!; try done.
  intros w. clear. intros [x Hw] Hn.
  assert (forall l m, foldl (add_workflow sorted) m l !! w = Some x -> m !! w = None ->
    exists id wf, id ∈ List.filter (succeeds sorted) l /\ outcome sorted id = Ok wf /\ wf_ID wf = w) as G; [|by eapply G].
  clear. intros l. induction l as [|id l IH]; intros m Hw Hn; simpl in *; [congruence|].
  unfold add_workflow at 2 in Hw. unfold succeeds at 1. destruct (outcome sorted id) as [wf|err] eqn:Eo; simpl.
  - destruct (decide (wf_ID wf = w)) as [Hid|Hid]; [exists id, wf; split_and!; try done; by left|].
    destruct (IH _ Hw) as (id' & wf' & H1 & H2); [by rewrite lookup_insert_ne|].
    exists id', wf'. split; [by right|done].
  - by apply (IH m).
Qed.

(** A source that lists an id twice loses that workflow altogether: the second
    occurrence marks the id itself as a duplicate, so no definition wins. *)
Theorem repeated_id_lost id raw e :
  list_ids = Ok [id; id] -> load_raw id = Ok raw -> peek_id raw <> "" ->
  LoadAll e = (Ok (mkReport [] [(id, RE_duplicate (peek_id raw)); (id, RE_duplicate (peek_id raw))]), e).
Proof.
  intros Hl Hr Hne. unfold LoadAll. rewrite Hl.
  assert (sort_strings [id; id] = [id; id]) as -> by (simpl; by destruct (String.leb id id)).
  unfold index_all. simpl. unfold index_one. rewrite Hr. simpl.
  rewrite (proj2 (str_empty_false _) Hne). rewrite lookup_empty. simpl.
  rewrite !lookup_insert_eq. simpl. unfold load_one_id. simpl. by rewrite lookup_insert_eq.
Qed.
End engine.

(** *** Lookup, hot updates, shutdown *)
Definition GetWorkflow (e : Engine) (id : string) : option Workflow := workflows e !! id.
Definition WorkflowIDs (e : Engine) : list string := (map_to_list (workflows e)).*1.

Inductive update_error :=
| UE_workflow (id : string)
| UE_node (wf id : string)
| UE_unsupported (wf id : string)
| UE_rejected (cause : string).

(** The node objects are shared by the engine's and the executors' workflow. *)
Definition set_node (id : string) (n : Node) (wf : Workflow) : Workflow :=
  mkWorkflow (wf_ID wf) (wf_Description wf) (wf_RSAssistant wf) (wf_Trigger wf) (<[id := n]> (wf_Nodes wf))
    (wf_TopoOrder wf) (wf_Connections wf) (wf_RawConfigs wf) (wf_IndexAccess wf).

Definition ApplyPromptUpdate (workflowID nodeID field value : string) (e : Engine) : res update_error unit * Engine :=
  match GetWorkflow e workflowID with
  | None => (Err (UE_workflow workflowID), e)
  | Some wf =>
      match wf_Nodes wf !! nodeID with
      | None => (Err (UE_node workflowID nodeID), e)
      | Some n =>
          match reconfigure n with
          | None => (Err (UE_unsupported workflowID nodeID), e)
          | Some rc =>
              match rc field value with
              | Err cause => (Err (UE_rejected cause), e)
              | Ok n' => (Ok tt, mkEngine (alter (set_node nodeID n') workflowID (workflows e))
                                   (alter (set_node nodeID n') workflowID (executors e))
                                   (calls e) (down e) (closed e))
              end
          end
      end
  end.

(** A hot update touches one node of one workflow and nothing else: a rejected one
    leaves the engine as it was, an accepted one replaces the node by its reconfigured
    form in the running executor too, keeping wiring, order and access. *)
Theorem ApplyPromptUpdate_local wfID nodeID field value e :
  match ApplyPromptUpdate wfID nodeID field value e with
  | (Err _, e') => e' = e
  | (Ok _, e') =>
      exists wf n rc n', workflows e !! wfID = Some wf /\ wf_Nodes wf !! nodeID = Some n
        /\ reconfigure n = Some rc /\ rc field value = Ok n'
        /\ (workflows e' !! wfID = Some (set_node nodeID n' wf))
        /\ (executors e !! wfID = Some wf -> executors e' !! wfID = Some (set_node nodeID n' wf))
        /\ (forall w, w <> wfID -> workflows e' !! w = workflows e !! w /\ executors e' !! w = executors e !! w)
        /\ (forall id, id <> nodeID -> wf_Nodes (set_node nodeID n' wf) !! id = wf_Nodes wf !! id)
        /\ WorkflowIDs e' ≡ₚ WorkflowIDs e
  end.
Proof.
  unfold ApplyPromptUpdate, GetWorkflow. destruct (workflows e !! wfID) as [wf|] eqn:Ew; [|done].
  destruct (wf_Nodes wf !! nodeID) as [n|] eqn:En; [|done].
  destruct (reconfigure n) as [rc|] eqn:Er; [|done].
  destruct (rc field value) as [n'|] eqn:Ec; [|done].
  exists wf, n, rc, n'. simpl. split_and!; try done.
  - by rewrite lookup_alter_eq, Ew.
  - intros Hx. by rewrite lookup_alter_eq, Hx.
  - intros w Hw. by rewrite !lookup_alter_ne.
  - intros id Hid. by rewrite lookup_insert_ne.
  - unfold WorkflowIDs. simpl. apply NoDup_Permutation; [apply NoDup_fst_map_to_list..|].
    assert (forall (m : gmap string Workflow) w, w ∈ (map_to_list m).*1 <-> is_Some (m !! w)) as Hk.
    { intros m w. rewrite list_elem_of_fmap. split.
      - intros ([k x] & -> & H). apply elem_of_map_to_list in H. by eexists.
      - intros [x Hx]. exists (w, x). by rewrite elem_of_map_to_list. }
    intros w. rewrite !Hk. rewrite lookup_alter. case_decide; [|done]. rewrite fmap_is_Some. by subst.
Qed.

(** [Shutdown]; [close] is each node's [Close], the workflows and their nodes being
    visited in an unspecified (here: the maps' enumeration) order. *)
Section shutdown.
Variable close : string -> string -> option string.

Definition node_keys (e : Engine) : list (string * string) :=
  List.concat (List.map (fun '(w, wf) => List.map (fun id => (w, id)) (map_to_list (wf_Nodes wf)).*1)
    (map_to_list (workflows e))).

Definition close_step (st : option string * Engine) (k : string * string) : option string * Engine :=
  let '(firstErr, e) := st in
  let e := mkEngine (workflows e) (executors e) (calls e) (down e) (closed e ++ [k]) in
  match close k.1 k.2, firstErr with
  | Some err, None => (Some err, e)
  | _, _ => (firstErr, e)
  end.

Definition Shutdown (e : Engine) : option string * Engine :=
  if down e then (None, e)
  else foldl close_step (None, mkEngine (workflows e) (executors e) (calls e) true (closed e)) (node_keys e).

Lemma close_fold ks firstErr e :
  (foldl close_step (firstErr, e) ks).2 = mkEngine (workflows e) (executors e) (calls e) (down e) (closed e ++ ks)
  /\ ((foldl close_step (firstErr, e) ks).1 = None <-> firstErr = None /\ Forall (fun k => close k.1 k.2 = None) ks).
Proof.
  revert firstErr e. induction ks as [|k ks IH]; intros firstErr e; simpl.
  - rewrite app_nil_r. split; [by destruct e|]. split; [intros ->; split; [done|constructor]|by intros []].
  - rewrite Forall_cons.
    set (e1 := mkEngine (workflows e) (executors e) (calls e) (down e) (closed e ++ [k])).
    destruct (close k.1 k.2) as [err|]; [destruct firstErr as [first|]|].
    + destruct (IH (Some first) e1) as [-> H2]. simpl. rewrite <- app_assoc, H2.
      split; [done|]. split; [by intros [? _]|by intros [? _]].
    + destruct (IH (Some err) e1) as [-> H2]. simpl. rewrite <- app_assoc, H2.
      split; [done|]. split; [by intros [? _]|by intros (_ & ? & _)].
    + destruct (IH firstErr e1) as [-> H2]. simpl. rewrite <- app_assoc, H2. split; [done|]. tauto.
Qed.

Lemma node_keys_spec e w id :
  (w, id) ∈ node_keys e <-> exists wf, workflows e !! w = Some wf /\ is_Some (wf_Nodes wf !! id).
Proof.
  unfold node_keys. rewrite list_elem_of_In, in_concat. split.
  - intros (l & Hl & Hin). apply in_map_iff in Hl as ([w' wf] & <- & Hw). apply in_map_iff in Hin as (id' & [= <- <-] & Hid).
    apply list_elem_of_In, elem_of_map_to_list in Hw. exists wf. split; [done|].
    apply list_elem_of_In, list_elem_of_fmap in Hid as ([k n] & -> & H).
    apply elem_of_map_to_list in H. by eexists.
  - intros (wf & Hw & [n Hn]). exists (List.map (fun id => (w, id)) (map_to_list (wf_Nodes wf)).*1). split.
    + apply in_map_iff. exists (w, wf). split; [done|]. by apply list_elem_of_In, elem_of_map_to_list.
    + apply in_map_iff. exists id. split; [done|]. apply list_elem_of_In, list_elem_of_fmap.
      exists (id, n). by rewrite elem_of_map_to_list.
Qed.

Lemma node_keys_nodup e : NoDup (node_keys e).
Proof.
  unfold node_keys. pose proof (NoDup_fst_map_to_list (workflows e)) as Hk. revert Hk.
  induction (map_to_list (workflows e)) as [|[w wf] l IH]; simpl; [constructor|].
  intros [Hn Hl]%NoDup_cons. apply NoDup_app. split_and!; [| |by apply IH].
  - apply NoDup_fmap_2; [by intros ? ? [= ->]|]. apply NoDup_fst_map_to_list.
  - intros [w' id] Hin Hin'. apply list_elem_of_In, in_map_iff in Hin as (? & [= <- <-] & _).
    apply Hn. apply list_elem_of_In, in_concat in Hin' as (l' & ([w2 wf2] & <- & H2)%in_map_iff & H3).
    apply in_map_iff in H3 as (? & [= -> ->] & _). apply list_elem_of_fmap. exists (w, wf2).
    split; [done|]. by apply list_elem_of_In.
Qed.

(** The first shutdown closes every node of every workflow exactly once, whatever
    fails on the way, and reports an error exactly when some close failed; every later
    call does nothing. *)
Theorem Shutdown_once e :
  (down e = true -> Shutdown e = (None, e))
  /\ (down e = false ->
      let '(err, e') := Shutdown e in
      exists ks, closed e' = closed e ++ ks /\ NoDup ks
        /\ (forall w id, (w, id) ∈ ks <-> exists wf, workflows e !! w = Some wf /\ is_Some (wf_Nodes wf !! id))
        /\ (err = None <-> forall w id, (w, id) ∈ ks -> close w id = None)
        /\ workflows e' = workflows e /\ Shutdown e' = (None, e')).
Proof.
  unfold Shutdown. split; intros ->; [done|].
  destruct (close_fold (node_keys e) None (mkEngine (workflows e) (executors e) (calls e) true (closed e))) as [H1 H2].
  destruct (foldl _ _ _) as [err e']. simpl in *. subst e'. exists (node_keys e). simpl.
  split_and!; try done.
  - apply node_keys_nodup.
  - apply node_keys_spec.
  - rewrite H2, Forall_forall. split; [intros [_ H] w id; apply (H (w, id))|].
    intros H. split; [done|]. intros [w id]. by apply H.
Qed.
End shutdown.
End Loading.

(** ** source.go: a directory of workflow files, as (path below the root, contents) *)
Module FilesystemSource.

Definition trim_suffix (suf s : string) : string :=
  if has_suffix suf s then String.substring 0 (String.length s - String.length suf) s else s.

(** [List] walks the whole tree but keeps only the file name. *)
Definition List (files : list (list string * option json)) : res string (list string) :=
  Ok (omap (fun f => name ← last f.1; if has_suffix ".json" name then Some (trim_suffix ".json" name) else None) files).

Definition read_file (files : list (list string * option json)) (path : list string) : option (option json) :=
  f ← find_first (fun f => bool_decide (f.1 = path)) files; Some f.2.

Definition Load (files : list (list string * option json)) (id : string) : res string (option json) :=
  ok_or "read" (read_file files [id +:+ ".json"]).
End FilesystemSource.

(** ** Concrete engines *)
Module EngineExamples.
Import Access Loading.

Definition policy_node (answer : string -> res string string) : Node :=
  mkNode (mkSpec "policy" RolePolicy [] [] []) (String.eqb RolePolicy) None (Some answer) (fun _ => None) None.
Definition search_node (pattern : string) : Node :=
  mkNode (mkSpec "tool/opensearch" RoleTool [] [] []) (String.eqb RoleTool) (Some pattern) None (fun _ => None) None.
Definition answer (pattern : string) : res string string :=
  if String.eqb pattern "sales-*" then Ok " fn-sales " else Err "no row".
Definition access_nodes (pattern : string) : gmap string Node :=
  list_to_map [("q", search_node pattern); ("q2", search_node "sales-*"); ("p", policy_node answer)].
Definition policy_wire (id : string) : RawConn := mkConn (mkEndpoint "p" "out") (mkEndpoint id PortPolicy).
Definition access_conns : ConnMap := conn_map [policy_wire "q"; policy_wire "q2"].

Example resolve_ex :
  resolveIndexAccess (access_nodes "sales-*") access_conns = mkAccess IndexAccessBound "sales-*,sales-*" "fn-sales" ""
  /\ Status (resolveIndexAccess (access_nodes "hr-*") access_conns) = IndexAccessUnbound
  /\ Status (resolveIndexAccess (access_nodes "sales-*") (conn_map [policy_wire "q"])) = IndexAccessUnbound
  /\ Status (resolveIndexAccess ∅ ∅) = IndexAccessNone.
Proof. vm_compute. split_and!; reflexivity. Qed.

Lemma resolveIndexAccess_fail_closed_witness :
  bound_to "fn-sales" (resolveIndexAccess (access_nodes "sales-*") access_conns)
  /\ exists id, participates (access_nodes "sales-*") access_conns id
       /\ guarded_by (access_nodes "sales-*") access_conns "fn-sales" id.
Proof.
  assert (bound_to "fn-sales" (resolveIndexAccess (access_nodes "sales-*") access_conns)) as Hb
    by (vm_compute; split; reflexivity).
  split; [exact Hb|].
  exact (proj2 (proj1 (proj2 (resolveIndexAccess_fail_closed (access_nodes "sales-*") access_conns "fn-sales"
    ltac:(discriminate))) Hb)).
Defined.

(** A lookup error without a text is taken for an answer: alone it binds the workflow to
    the empty function; before another node's answer it is forgotten, and the workflow is
    bound to the function of the other index. *)
Definition textless (pattern : string) : res string string := if String.eqb pattern "x" then Err "" else answer pattern.
Example empty_error_forgotten :
  resolveIndexAccess (list_to_map [("q", search_node "x"); ("q2", search_node "sales-*"); ("p", policy_node textless)])
    access_conns = mkAccess IndexAccessBound "x,sales-*" "fn-sales" "".
Proof. vm_compute. reflexivity. Qed.
Example empty_error_text_bound :
  resolveIndexAccess (list_to_map [("q", search_node "x"); ("p", policy_node (fun _ => Err ""))])
    (conn_map [policy_wire "q"]) = mkAccess IndexAccessBound "x" "" "".
Proof. vm_compute. reflexivity. Qed.

Definition derived_doc : json :=
  jobj [("id", JStr "wf2"); ("extends", JStr "wf");
        ("nodes", JArr [jobj [("id", JStr "a"); ("config", jobj [("systemPrompt", JStr "p2");
           ("systemMessageFixed", JStr "f"); ("systemMessageFlexible", JStr "x")])]])].
Definition demo_files : list (list string * option json) :=
  [(["wf.json"], Some (demo_doc demo_wires)); (["wf2.json"], Some derived_doc);
   (["broken.json"], None); (["copy.json"], Some (demo_doc demo_wires)); (["notes.txt"], None)].
Definition demo_LoadAll (files : list (list string * option json)) : res string load_report * Engine :=
  LoadAll (fun _ => None) demo_lookup demo_registry ∅ (Some demo_prompts) (fun _ _ => None) (fun _ => true)
    (FilesystemSource.List files) (FilesystemSource.Load files) New.

Example LoadAll_ex :
  (demo_LoadAll demo_files).1 =
    Ok (mkReport ["copy"; "wf2"] [("broken", RE_load LE_parse); ("wf", RE_duplicate "wf")])
  /\ calls (demo_LoadAll demo_files).2 =
    [SetIndexAccess "wf" (mkAccess IndexAccessNone "" "" ""); Subscribe "wf";
     SetIndexAccess "wf2" (mkAccess IndexAccessNone "" "" ""); Subscribe "wf2"]
  /\ sort_strings (WorkflowIDs (demo_LoadAll demo_files).2) = ["wf"; "wf2"].
Proof. vm_compute. split_and!; reflexivity. Qed.

Definition demo_ids : list string := ["wf"; "wf2"; "broken"; "copy"].
Lemma LoadAll_spec_witness :
  exists rep e', demo_LoadAll demo_files = (Ok rep, e')
  /\ failed rep ≡ₚ omap (failure (fun _ => None) demo_lookup demo_registry ∅ (Some demo_prompts) (fun _ _ => None)
       (FilesystemSource.Load demo_files) (sort_strings demo_ids)) (sort_strings demo_ids).
Proof.
  destruct (demo_LoadAll demo_files) as [[rep|err] e'] eqn:E.
  - exists rep, e'. split; [reflexivity|].
    refine (proj1 (proj2 (LoadAll_spec (fun _ => None) demo_lookup demo_registry ∅ (Some demo_prompts)
      (fun _ _ => None) (fun _ => true) (FilesystemSource.List demo_files) (FilesystemSource.Load demo_files)
      demo_ids New rep e' _ _ E))); [vm_compute; reflexivity|].
    apply (bool_decide_unpack _). vm_compute. exact I.
  - assert (is_ok (demo_LoadAll demo_files).1 = true) as H by (vm_compute; reflexivity).
    rewrite E in H. discriminate H.
Defined.

Definition nested_files : list (list string * option json) :=
  [(["sub"; "wf.json"], Some derived_doc); (["wf.json"], Some (demo_doc demo_wires))].
Lemma repeated_id_lost_witness :
  demo_LoadAll nested_files = (Ok (mkReport [] [("wf", RE_duplicate "wf"); ("wf", RE_duplicate "wf")]), New).
Proof.
  refine (repeated_id_lost (fun _ => None) demo_lookup demo_registry ∅ (Some demo_prompts) (fun _ _ => None)
    (fun _ => true) (FilesystemSource.List nested_files) (FilesystemSource.Load nested_files)
    "wf" (Some (demo_doc demo_wires)) New _ _ _); [vm_compute; reflexivity..|].
  vm_compute. discriminate.
Defined.
End EngineExamples.
