(* ===== verification/Events.v ===== *)
(** * Stream events and sinks (pkg/workflow/node: trigger.go, agent.go, memory.go)

    The interface between the agents that produce events, the executor that times
    them and the transport that ships them. *)

From S2P Require Import Prelude Json.
From stdpp Require Import base tactics list strings gmap option.
From Stdlib Require Import ZArith Lia Ascii String.
Local Open Scope string_scope.
Local Open Scope list_scope.

(** ** trigger.go *)
Inductive StreamEventType :=
| StreamStart | StreamDelta | StreamThought | StreamToolCall | StreamToolResult
| StreamComplete | StreamError | StreamAttachment.

#[export] Instance StreamEventType_eq_dec : EqDecision StreamEventType.
Proof. solve_decision. Defined.

(** The wire name of an event type. *)
Definition type_name (t : StreamEventType) : string :=
  match t with
  | StreamStart => "start" | StreamDelta => "delta" | StreamThought => "thought"
  | StreamToolCall => "tool_call" | StreamToolResult => "tool_result"
  | StreamComplete => "complete" | StreamError => "error" | StreamAttachment => "attachment"
  end.

Record StreamEvent := mkFullEvent {
  ev_Type : StreamEventType;
  ev_Data : json;
  ev_Header : gmap string string;
}.
(** An event without extra headers. *)
Definition mkEvent (t : StreamEventType) (d : json) : StreamEvent := mkFullEvent t d ∅.

(** [StreamSink]: both calls may fail; an implementation threads its own state. *)
Class StreamSink (S : Type) := {
  sink_send : StreamEvent -> S -> option string * S;
  sink_close : StreamEvent -> S -> option string * S;
}.

(** A sink that records what it is given: [(false, e)] was sent, [(true, e)] closed. *)
Definition trace : Type := list (bool * StreamEvent).
#[export] Instance trace_sink : StreamSink trace := {
  sink_send e t := (None, t ++ [(false, e)]);
  sink_close e t := (None, t ++ [(true, e)]);
}.

(** A computation that writes to a sink it knows only through the interface, and sees
    the error of each call. *)
Inductive sink_prog (A : Type) : Type :=
| Ret (a : A)
| Call (close : bool) (e : StreamEvent) (k : option string -> sink_prog A).
Arguments Ret {A} _.
Arguments Call {A} _ _ _.

Definition sink_call {S} `{StreamSink S} (close : bool) (e : StreamEvent) (s : S) : option string * S :=
  if close then sink_close e s else sink_send e s.

Fixpoint run_prog {S A} `{StreamSink S} (p : sink_prog A) (s : S) : A * S :=
  match p with
  | Ret a => (a, s)
  | Call close e k => let '(err, s) := sink_call close e s in run_prog (k err) s
  end.

(** The calls a computation makes on a given sink. *)
Fixpoint calls_of {S A} `{StreamSink S} (p : sink_prog A) (s : S) : trace :=
  match p with
  | Ret _ => []
  | Call close e k => let '(err, s) := sink_call close e s in (close, e) :: calls_of (k err) s
  end.

Fixpoint bind_prog {A B} (p : sink_prog A) (f : A -> sink_prog B) : sink_prog B :=
  match p with
  | Ret a => f a
  | Call close e k => Call close e (fun err => bind_prog (k err) f)
  end.

Lemma run_bind {S A B} `{StreamSink S} (p : sink_prog A) (f : A -> sink_prog B) (s : S) :
  run_prog (bind_prog p f) s = let '(a, s) := run_prog p s in run_prog (f a) s.
Proof.
  revert s. induction p as [a|close e k IH]; intros s; simpl; [done|].
  destruct (sink_call close e s) as [err s']. apply IH.
Qed.

Lemma run_trace {A} (p : sink_prog A) (t : trace) :
  exists a l, run_prog p t = (a, t ++ l) /\ calls_of p t = l.
Proof.
  revert t. induction p as [a|close e k IH]; intros t; simpl.
  - exists a, []. by rewrite app_nil_r.
  - assert (sink_call close e t = (None, t ++ [(close, e)])) as -> by (by destruct close).
    destruct (IH None (t ++ [(close, e)])) as (a & l & -> & <-).
    exists a, ((close, e) :: calls_of (k None) (t ++ [(close, e)])). by rewrite <- app_assoc.
Qed.

(** ** agent.go *)
Record Attachment := mkAttachment {
  att_URL : string;
  att_MediaType : string;
  att_Filename : string;
  att_Size : Z;
  att_Data : string;     (* raw bytes *)
}.

(** ** identity *)
Record Identity := mkIdentity {
  NatsUserID : string;
  id_UserID : string;
  AccountID : string;
  id_UserName : string;
  id_TimeZone : string;
}.
