(* ===== verification/Executor.v ===== *)
(** * The executor (pkg/workflow/engine/executor)

    One trigger event through a workflow: the agent is found in execution order, its
    event stream is timed, attachments are made durable, failures are reported once. *)

From S2P Require Import Prelude Json Scan Template Topo Node Events Engine.
From stdpp Require Import base tactics list strings gmap option fin_maps.
From Stdlib Require Import ZArith Lia Ascii String.
Local Open Scope string_scope.
Local Open Scope list_scope.
Local Open Scope Z_scope.
Import Loading.

(** ** runmetrics.go *)
Module RunTimer.

Section timer.
Context {S : Type} `{!StreamSink S}.
(** The n-th reading of the clock. *)
Variable clock : nat -> Z.

Record runTimer := mkTimer {
  inner : S;
  start : Z;
  ticks : nat;       (* clock readings so far *)
  events : Z;
  tools : Z;
  firstEvent : Z;
  firstText : Z;
  end_ : string;     (* complete | error | "" (never closed) *)
  stop : string;
}.

Definition newRunTimer (s : S) (t0 : nat) : runTimer := mkTimer s (clock t0) (t0 + 1) 0 0 0 0 "" "".

Definition mark (evt : StreamEvent) (r : runTimer) : runTimer :=
  let since := clock (ticks r) - start r in
  let events := events r + 1 in
  mkTimer (inner r) (start r) (ticks r + 1) events
    (if bool_decide (ev_Type evt = StreamToolCall) then tools r + 1 else tools r)
    (if events =? 1 then since else firstEvent r)
    (if bool_decide (ev_Type evt = StreamDelta) && (firstText r =? 0) then since else firstText r)
    (end_ r) (stop r).

Definition set_inner (s : S) (r : runTimer) : runTimer :=
  mkTimer s (start r) (ticks r) (events r) (tools r) (firstEvent r) (firstText r) (end_ r) (stop r).
Definition set_end (e st : string) (r : runTimer) : runTimer :=
  mkTimer (inner r) (start r) (ticks r) (events r) (tools r) (firstEvent r) (firstText r) e st.

Definition Send (evt : StreamEvent) (r : runTimer) : option string * runTimer :=
  let r := mark evt r in
  let '(err, s) := sink_send evt (inner r) in (err, set_inner s r).

(** A string field of the terminator's data; decoding errors leave it empty. *)
Definition data_str (d : json) (field : string) : string := as_str (as_obj (Some d) !! field).

Definition Close (term : StreamEvent) (r : runTimer) : option string * runTimer :=
  let r := mark term r in
  let r := match ev_Type term with
           | StreamComplete => set_end "complete" (data_str (ev_Data term) "messageStop") r
           | StreamError => set_end "error" (data_str (ev_Data term) "code") r
           | t => set_end (type_name t) (stop r) r
           end in
  let '(err, s) := sink_close term (inner r) in (err, set_inner s r).

#[export] Instance timer_sink : StreamSink runTimer := { sink_send := Send; sink_close := Close }.

(** The line logged at the end of a run: how it ended, why, tool calls, events. *)
Definition logDone (r : runTimer) : string * string * Z * Z :=
  (if str_empty (end_ r) then "unclosed" else end_ r, stop r, tools r, events r).

(** *** What is measured *)
Definition ended (prev : string) (c : bool * StreamEvent) : string :=
  if c.1 then match ev_Type c.2 with
              | StreamComplete => "complete" | StreamError => "error" | t => type_name t
              end
  else prev.
Definition stopped (prev : string) (c : bool * StreamEvent) : string :=
  if c.1 then match ev_Type c.2 with
              | StreamComplete => data_str (ev_Data c.2) "messageStop"
              | StreamError => data_str (ev_Data c.2) "code"
              | _ => prev
              end
  else prev.
Definition count_type (t : StreamEventType) (l : trace) : Z :=
  Z.of_nat (List.length (List.filter (fun c => bool_decide (ev_Type c.2 = t)) l)).

Lemma timer_call close e r :
  let '(err, r') := sink_call close e r in
  let '(err0, s') := sink_call close e (inner r) in
  err = err0 /\ inner r' = s' /\ start r' = start r /\ ticks r' = (ticks r + 1)%nat
  /\ events r' = events r + 1
  /\ tools r' = (if bool_decide (ev_Type e = StreamToolCall) then tools r + 1 else tools r)
  /\ firstEvent r' = (if events r + 1 =? 1 then clock (ticks r) - start r else firstEvent r)
  /\ end_ r' = ended (end_ r) (close, e) /\ stop r' = stopped (stop r) (close, e).
Proof.
  unfold sink_call, ended, stopped. destruct close; simpl; unfold Send, Close; simpl.
  - destruct (ev_Type e) eqn:Et; simpl; destruct (sink_close e (inner r)); simpl; by rewrite ?Et.
  - destruct (sink_send e (inner r)); simpl. by split_and!.
Qed.

Lemma timer_run {A} (p : sink_prog A) s t0 :
  let '(a, r) := run_prog p (newRunTimer s t0) in
  let calls := calls_of p s in
  run_prog p s = (a, inner r)
  /\ events r = Z.of_nat (List.length calls)
  /\ tools r = count_type StreamToolCall calls
  /\ end_ r = foldl ended "" calls /\ stop r = foldl stopped "" calls
  /\ (calls <> [] -> firstEvent r = clock (t0 + 1) - clock t0).
Proof.
  assert (forall r, 0 <= events r ->
    let '(a, r') := run_prog p r in
    let calls := calls_of p (inner r) in
    run_prog p (inner r) = (a, inner r')
    /\ events r' = events r + Z.of_nat (List.length calls)
    /\ tools r' = tools r + count_type StreamToolCall calls
    /\ end_ r' = foldl ended (end_ r) calls /\ stop r' = foldl stopped (stop r) calls
    /\ (0 < events r -> firstEvent r' = firstEvent r)
    /\ (events r = 0 -> calls <> [] -> firstEvent r' = clock (ticks r) - start r)) as G.
  { unfold count_type. induction p as [a|close e k IH]; intros r Hr; simpl.
    - split_and!; try done; lia.
    - pose proof (timer_call close e r) as Hc.
      destruct (sink_call close e r) as [err r'], (sink_call close e (inner r)) as [err0 s'].
      destruct Hc as (-> & <- & Hs & Ht & He & Hl & Hf & Hn & Hw).
      specialize (IH err0 r' ltac:(lia)). destruct (run_prog (k err0) r') as [a r'']. simpl.
      destruct IH as (-> & I1 & I2 & I3 & I6 & I4 & I5). rewrite I1, I2, I3, I6, He, Hl, Hn, Hw.
      split_and!; try done; [lia| |intros H|intros H _].
      + destruct (bool_decide (ev_Type e = StreamToolCall)); simpl; lia.
      + rewrite I4, Hf by lia. destruct (Z.eqb_spec (events r + 1) 1); [lia|done].
      + rewrite I4, Hf by lia. by rewrite H. }
  specialize (G (newRunTimer s t0) ltac:(done)).
  destruct (run_prog p (newRunTimer s t0)) as [a r]. simpl in G.
  destruct G as (H1 & H2 & H3 & H4 & H6 & _ & H5). split_and!; try done. by apply H5.
Qed.

(** Timing a run is invisible to it: every call reaches the wrapped sink
    unchanged and in order, with the same errors coming back and the same result, while
    the timer counts every call and tool call, keeps the delay to the first call and how
    the last close ended the run. *)
Theorem timer_transparent {A} (p : sink_prog A) s t0 :
  let '(a, r) := run_prog p (newRunTimer s t0) in
  let calls := calls_of p s in
  run_prog p s = (a, inner r)
  /\ events r = Z.of_nat (List.length calls)
  /\ tools r = count_type StreamToolCall calls
  /\ end_ r = foldl ended "" calls
  /\ (calls <> [] -> firstEvent r = clock (t0 + 1) - clock t0).
Proof.
  pose proof (timer_run p s t0) as H. destruct (run_prog p (newRunTimer s t0)) as [a r].
  destruct H as (H1 & H2 & H3 & H4 & _ & H5). by split_and!.
Qed.

(** *** What the logged line says of what was done to the sink: how the last close ended
    it and why, how many tool calls, how many events. *)
Definition last_close (l : trace) : option StreamEvent := snd <$> last (List.filter fst l).
Definition logs (line : string * string * Z * Z) (l : trace) : Prop :=
  let '(how, why, tool_calls, n) := line in
  n = Z.of_nat (List.length l) /\ tool_calls = count_type StreamToolCall l
  /\ match last_close l with
     | None => how = "unclosed" /\ why = ""
     | Some e => match ev_Type e with
                 | StreamComplete => how = "complete" /\ why = data_str (ev_Data e) "messageStop"
                 | StreamError => how = "error" /\ why = data_str (ev_Data e) "code"
                 | t => how = type_name t
                 end
     end.

Lemma folds_last_close (l : trace) :
  match last_close l with
  | None => foldl ended "" l = "" /\ foldl stopped "" l = ""
  | Some e => match ev_Type e with
              | StreamComplete => foldl ended "" l = "complete" /\ foldl stopped "" l = data_str (ev_Data e) "messageStop"
              | StreamError => foldl ended "" l = "error" /\ foldl stopped "" l = data_str (ev_Data e) "code"
              | t => foldl ended "" l = type_name t
              end
  end.
Proof.
  induction l as [|[close e] l IH] using rev_ind; [done|]. rewrite !foldl_app. unfold last_close in *.
  rewrite List.filter_app. destruct close; cbn [List.filter fst foldl].
  - rewrite last_snoc. unfold ended at 1, stopped at 1. cbn. by destruct (ev_Type e).
  - by rewrite app_nil_r.
Qed.

Lemma timer_logs {A} (p : sink_prog A) s t0 : logs (logDone (run_prog p (newRunTimer s t0)).2) (calls_of p s).
Proof.
  pose proof (timer_run p s t0) as H. destruct (run_prog p (newRunTimer s t0)) as [a r].
  destruct H as (_ & H2 & H3 & H4 & H5 & _). cbn [snd]. unfold logs, logDone. rewrite H4, H5. split; [done|]. split; [done|].
  pose proof (folds_last_close (calls_of p s)) as Hl. destruct (last_close _) as [e|]; [|by destruct Hl as [-> ->]].
  destruct (ev_Type e); try (destruct Hl as [-> ->]; by split); by rewrite Hl.
Qed.
End timer.
End RunTimer.

(** ** executor.go *)
Module Exec.
Import RunTimer.

(** *** parseChatBody *)

(** A [[]byte] field: base64 text, or an array of numbers; anything else is empty. *)
Definition dec_bytes (v : option json) : string :=
  match v with
  | Some (JStr s) => default "" (base64_decode s)
  | Some (JArr l) => string_of_list_ascii
      (List.map (fun x => match x with
                     | JNum n => if (0 <=? n) && (n <? 256) then ascii_of_nat (Z.to_nat n) else ascii_of_nat 0
                     | _ => ascii_of_nat 0
                     end) l)
  | _ => ""
  end.
Definition soft_int (v : option json) : Z :=
  match v with Some (JNum n) => if bool_decide (int64_range n) then n else 0 | _ => 0 end.

(** Unmarshalling goes on after a field of the wrong kind, which keeps its zero value,
    and its error is ignored. *)
Definition dec_attachment (v : json) : Attachment :=
  let m := as_obj (Some v) in
  mkAttachment (as_str (m !! "url")) (as_str (m !! "mediaType")) (as_str (m !! "filename"))
    (soft_int (m !! "size")) (dec_bytes (m !! "data")).
Definition parseChatBody (body : option json) : string * list Attachment :=
  match body with
  | Some (JObj m) => (as_str (m !! "message"), List.map dec_attachment (as_arr (m !! "attachments")))
  | _ => ("", [])
  end.

(** *** The request and its environment *)
Record TriggerEvt := mkTriggerEvt {
  te_RequestID : string;
  te_Identity : Identity;
  te_SessionID : string;
  te_Body : option json;      (* [None]: not JSON *)
  te_Headers : gmap string string;
}.

Section run.
Context {Time : Type}.

Record AgentInput := mkAgentInput {
  in_Message : string;
  in_SessionID : string;
  in_UserID : string;
  in_RequestID : string;
  in_Headers : gmap string string;
  in_RenderCtx : Render.RenderCtx (Time := Time);
  in_Attachments : list Attachment;
}.

(** The agent's [Process] (by node id) as a computation over the sink, which may be
    absent ([nil]) in single-response mode; the optional [MappingProvider]; the uploader
    (session, filename, media type, data: the url or an error). *)
Variable process : string -> Identity -> AgentInput -> sink_prog (option string).
Variable mapping : string -> option (res string string).
Variable uploader : option (string -> string -> string -> string -> res string string).
Variable now : Time.
Variable wf : Workflow.

Definition persist_one (up : string -> string -> string -> string -> res string string) (sessionID : string)
    (a : Attachment) : Attachment :=
  if str_empty (att_Data a) then a
  else match up sessionID (att_Filename a) (att_MediaType a) (att_Data a) with
       | Err _ => a
       | Ok url => mkAttachment url (att_MediaType a) (att_Filename a) (att_Size a) (att_Data a)
       end.
Definition persistAttachments up (sessionID : string) (atts : list Attachment) : list Attachment :=
  List.map (persist_one up sessionID) atts.

Definition resolveAgent : option string :=
  find_first (fun id => match wf_Nodes wf !! id with Some n => implements n RoleAgent | None => false end)
    (wf_TopoOrder wf).

Fixpoint first_mapping (ids : list string) : option (res string string) :=
  match ids with
  | [] => None
  | id :: ids => match (_ ← wf_Nodes wf !! id; mapping id) with
                 | Some m => Some m
                 | None => first_mapping ids
                 end
  end.
Definition resolveMappingProvider : option (res string string) := first_mapping (wf_TopoOrder wf).

(** What the executor passes to the agent. *)
Definition agent_input (evt : TriggerEvt) : AgentInput :=
  let id := te_Identity evt in
  let idx := match resolveMappingProvider with Some (Ok m) => m | _ => "" end in
  let rctx := Render.mkRenderCtx now (te_SessionID evt) (id_UserID id) (te_RequestID evt)
                (default JNull (te_Body evt)) ∅ (id_UserName id) (id_TimeZone id) idx in
  let '(msg, atts) := parseChatBody (te_Body evt) in
  let atts := match uploader with Some up => persistAttachments up (te_SessionID evt) atts | None => atts end in
  mkAgentInput msg (te_SessionID evt) (id_UserID id) (te_RequestID evt) (te_Headers evt) rctx atts.

Definition failure_body (cause : string) : json :=
  jobj [("code", JStr "executor-failed"); ("message", JStr cause)].

(** [fail] on a stream. *)
Definition fail_stream (cause : string) : sink_prog (option string) :=
  Call true (mkEvent StreamError (failure_body cause)) (fun _ => Ret (Some cause)).

Definition no_agent : string := "workflow " +:+ wf_ID wf +:+ ": no agent node found".

(** The body of [Run] with a stream sink (the deferred log line aside). *)
Definition run_body (evt : TriggerEvt) : sink_prog (option string) :=
  match resolveAgent with
  | None => fail_stream no_agent
  | Some agent =>
      bind_prog (process agent (te_Identity evt) (agent_input evt)) (fun err =>
        match err with
        | Some cause => fail_stream cause
        | None => Ret None
        end)
  end.

(** [Run] in streaming mode: the result, the sink afterwards and the logged line. *)
Definition Run {S} `{!StreamSink S} (clock : nat -> Z) (evt : TriggerEvt) (s : S)
    : option string * S * (string * string * Z * Z) :=
  let '(err, timer) := run_prog (S := runTimer) (H := timer_sink clock) (run_body evt) (newRunTimer clock s 0) in
  (err, inner timer, logDone timer).

(** [Run] in single-response mode: the error returned, and the reply made by [fail].  The agent
    gets a nil sink; [process_nil] is what its [Process] returns then. *)
Definition Run_single (process_nil : string -> Identity -> AgentInput -> option string) (has_reply : bool)
    (evt : TriggerEvt) : option string * option json :=
  let fail cause := (Some cause, if has_reply then Some (failure_body cause) else None) in
  match resolveAgent with
  | None => fail no_agent
  | Some agent =>
      match process_nil agent (te_Identity evt) (agent_input evt) with
      | Some cause => fail cause
      | None => (None, None)
      end
  end.

(** *** Properties *)
Lemma calls_bind {S A B} `{!StreamSink S} (p : sink_prog A) (f : A -> sink_prog B) (s : S) :
  calls_of (bind_prog p f) s = calls_of p s ++ (let '(a, s) := run_prog p s in calls_of (f a) s).
Proof.
  revert s. induction p as [a|close e k IH]; intros s; simpl; [done|].
  destruct (sink_call close e s) as [err s']. by rewrite IH.
Qed.

(** C36: A run either ends as its agent ended it or is failed exactly once: the first
    agent in execution order gets the request, what it does to the stream reaches the
    transport as is, a run without agent or whose agent returns an error closes the
    stream with one executor-failed error carrying the cause, which is also returned.
    The logged line is that of everything done to the sink, the agent's calls and the
    executor's own: the number of events and of tool calls, and how the last close ended
    the stream and why - "complete" with its stop reason, "error" with its code, or
    "unclosed". *)
Theorem Run_reports_once {S} `{!StreamSink S} clock evt (s : S) :
  let '(err, s', line) := Run clock evt s in
  let error cause := mkEvent StreamError (failure_body cause) in
  match resolveAgent with
  | None => err = Some no_agent /\ s' = (sink_close (error no_agent) s).2 /\ logs line [(true, error no_agent)]
  | Some id =>
      (exists n pre post, wf_Nodes wf !! id = Some n /\ implements n RoleAgent = true
         /\ wf_TopoOrder wf = pre ++ id :: post
         /\ Forall (fun id' => forall n', wf_Nodes wf !! id' = Some n' -> implements n' RoleAgent = false) pre)
      /\ let agent := process id (te_Identity evt) (agent_input evt) in
         let '(r, s1) := run_prog agent s in
         err = r
         /\ match r with
            | None => s' = s1 /\ logs line (calls_of agent s)
            | Some cause => s' = (sink_close (error cause) s1).2
                            /\ logs line (calls_of agent s ++ [(true, error cause)])
            end
  end.
Proof.
  unfold Run. pose proof (timer_run clock (run_body evt) s 0) as Ht. pose proof (timer_logs clock (run_body evt) s 0) as Hl.
  destruct (run_prog (run_body evt) (newRunTimer clock s 0)) as [err timer]. destruct Ht as (Hr & _). cbn [snd] in Hl.
  unfold run_body, resolveAgent in *. destruct (find_first _ (wf_TopoOrder wf)) as [id|] eqn:Ea.
  - destruct (find_first_split _ _ _ Ea) as (pre & post & Ho & Hid & Hpre). split.
    { destruct (wf_Nodes wf !! id) as [n|] eqn:En; [|done]. exists n, pre, post. split_and!; try done.
      eapply Forall_impl; [exact Hpre|]. intros id' Hf n' Hn'. simpl in Hf. by rewrite Hn' in Hf. }
    set (p := process id (te_Identity evt) (agent_input evt)) in *.
    rewrite run_bind in Hr. rewrite calls_bind in Hl. destruct (run_prog p s) as [[cause|] s1].
    + simpl in Hr, Hl. destruct (sink_close _ s1) as [err0 s2] eqn:Ec. simpl in *. by simplify_eq.
    + simpl in Hr, Hl. rewrite app_nil_r in Hl. by simplify_eq.
  - simpl in Hr, Hl. destruct (sink_close _ s) as [err0 s2] eqn:Ec. simpl in *. by simplify_eq.
Qed.

(** The agent receives the caller's attachments in order, each unchanged except
    that one whose bytes were uploaded points to the durable copy; without an uploader,
    or when an upload fails, it is passed on as it came. *)
Theorem attachments_preserved evt i a :
  (parseChatBody (te_Body evt)).2 !! i = Some a ->
  exists a', in_Attachments (agent_input evt) !! i = Some a'
    /\ List.length (in_Attachments (agent_input evt)) = List.length (parseChatBody (te_Body evt)).2
    /\ att_Data a' = att_Data a /\ att_MediaType a' = att_MediaType a
    /\ att_Filename a' = att_Filename a /\ att_Size a' = att_Size a
    /\ (att_URL a' = att_URL a \/ exists up, uploader = Some up /\ att_Data a <> ""
         /\ up (te_SessionID evt) (att_Filename a) (att_MediaType a) (att_Data a) = Ok (att_URL a')).
Proof.
  intros Hi. unfold agent_input. destruct (parseChatBody (te_Body evt)) as [msg atts]. simpl in *.
  destruct uploader as [up|]; simpl; [|exists a; split_and!; auto].
  unfold persistAttachments. exists (persist_one up (te_SessionID evt) a).
  rewrite length_map. unfold persist_one.
  split; [change (List.map ?f ?l) with (f <$> l); by rewrite list_lookup_fmap, Hi|].
  destruct (str_empty (att_Data a)) eqn:Ed; to_prop; [split_and!; auto|].
  destruct (up _ _ _ _) eqn:Eu; split_and!; auto. right. by exists up.
Qed.
End run.
End Exec.

(** ** A concrete request *)
Module ExecutorExamples.
Import Exec.

Definition demo_node (role : string) : Node :=
  mkNode (mkSpec role role [] [] []) (String.eqb role) None None (fun _ => None) None.

Definition demo_workflow : Workflow :=
  mkWorkflow "wf" "" None "t"
    (list_to_map [("a", demo_node RoleAgent); ("t", demo_node RoleTrigger)]) ["t"; "a"] ∅ ∅ (Access.mkAccess Access.IndexAccessNone "" "" "").
Definition demo_body : json :=
  jobj [("message", JStr "hi"); ("attachments", JArr
    [jobj [("filename", JStr "a.txt"); ("mediaType", JStr "text/plain"); ("data", JStr "aGVsbG8="); ("url", JStr "file:a")];
     jobj [("filename", JStr "b.pdf"); ("url", JStr "s3:b"); ("size", JStr "bad")]])].
Definition demo_evt : TriggerEvt :=
  mkTriggerEvt "r1" (mkIdentity "svc" "u1" "acc" "" "") "s1" (Some demo_body) ∅.
Definition demo_upload (session name media data : string) : res string string :=
  if String.eqb data "hello" then Ok ("s3:" +:+ session +:+ "/" +:+ name) else Err "denied".
(** An agent that sends one delta, then fails unless the message is "hi". *)
Definition demo_process (id : string) (i : Identity) (a : AgentInput (Time := nat)) : sink_prog (option string) :=
  Call false (mkEvent StreamDelta (JStr (in_Message a))) (fun _ =>
    if String.eqb (in_Message a) "hi"
    then Call true (mkEvent StreamComplete (jobj [("messageStop", JStr "end_turn")])) (fun _ => Ret None)
    else Ret (Some "bad message")).
Definition demo_Run (evt : TriggerEvt) :=
  Run (S := trace) demo_process (fun _ => None) (Some demo_upload) 0%nat demo_workflow (fun n => Z.of_nat n * 10) evt [].

Example Run_ex :
  (demo_Run demo_evt).2 = ("complete", "end_turn", 0, 2)
  /\ (demo_Run (mkTriggerEvt "r1" (te_Identity demo_evt) "s1" None ∅)).1.1 = Some "bad message"
  /\ (demo_Run (mkTriggerEvt "r1" (te_Identity demo_evt) "s1" None ∅)).2 = ("error", "executor-failed", 0, 2)
  /\ List.map att_URL (in_Attachments (agent_input (fun _ => None) (Some demo_upload) 0%nat demo_workflow demo_evt))
     = ["s3:s1/a.txt"; "s3:b"].
Proof. vm_compute. split_and!; reflexivity. Qed.

Lemma attachments_preserved_witness :
  exists a', in_Attachments (agent_input (fun _ => None) (Some demo_upload) 0%nat demo_workflow demo_evt) !! 0%nat = Some a'
  /\ att_Data a' = "hello".
Proof.
  destruct (attachments_preserved (fun _ => None) (Some demo_upload) 0%nat demo_workflow demo_evt 0%nat
    (mkAttachment "file:a" "text/plain" "a.txt" 0 "hello") ltac:(vm_compute; reflexivity)) as (a' & H & _ & Hd & _).
  exists a'. split; [exact H|exact Hd].
Defined.
End ExecutorExamples.
