(* ===== verification/Stream.v ===== *)
(** * The streaming transport (pkg/transport/natsstream)

    The wire protocol, the server session, the client subscription, and what the
    client sees of what the server sent. *)

From S2P Require Import Prelude Json.
From stdpp Require Import base tactics list strings gmap option fin_maps relations.
From Stdlib Require Import ZArith Lia Ascii String.
Local Open Scope string_scope.
Local Open Scope list_scope.
Local Open Scope Z_scope.
Local Open Scope go_scope.

(** ** protocol.go *)

Definition HdrStreamEvent : string := "_Stream_Event".
Definition HdrStreamSequence : string := "_Stream_Sequence".
Definition HdrStreamId : string := "_Stream_Id".
Definition HdrStreamCancelSubject : string := "_Stream_Cancel_Subject".
Definition HdrStreamToolResultPrefix : string := "_Stream_Tool_Result_Prefix".
Definition HdrMessageId : string := "_Message_Id".
Definition HdrStatus : string := "status".

Definition protocol_headers : list string :=
  [HdrStreamEvent; HdrStreamSequence; HdrStreamId; HdrStreamCancelSubject; HdrStreamToolResultPrefix;
   HdrMessageId; HdrStatus].

Definition StreamStart : string := "start".
Definition StreamComplete : string := "complete".
Definition StreamError : string := "error".
Definition is_terminator (ty : string) : bool := String.eqb ty StreamComplete || String.eqb ty StreamError.

(** A message: single-valued headers and a payload. *)
Record Msg := mkMsg {
  m_Header : gmap string string;
  m_Data : json;
}.
Definition header (m : Msg) (k : string) : string := default "" (m_Header m !! k).

Record StreamEvent := mkStreamEvent {
  se_Type : string;
  se_Sequence : Z;
  se_StreamID : string;
  se_Data : json;
  se_Header : gmap string string;
}.

Inductive parse_error := PE_missing_event | PE_bad_sequence (s : string).

Definition ParseStreamMessage (m : Msg) : res parse_error StreamEvent :=
  let evtName := header m HdrStreamEvent in
  if str_empty evtName then Err PE_missing_event
  else match Atoi (header m HdrStreamSequence) with
  | None => Err (PE_bad_sequence (header m HdrStreamSequence))
  | Some seq => Ok (mkStreamEvent evtName seq (header m HdrStreamId) (m_Data m) (m_Header m))
  end.

(** ** server.go *)
Module Server.

Inductive session_error := ErrClosed | ErrPublish (cause : string).

(** The mutable part of a [StreamSession]; [published] is what reached the connection
    and [unsubscribed] the cancel subscription's release. *)
Record StreamSession := mkSession {
  seq : Z;
  closed : bool;
  cancelled : bool;
  unsubscribed : bool;
  published : list Msg;
}.
Definition NewStreamSession : StreamSession := mkSession 0 false false false [].

Section session.
Variable streamID : string.
Variable cancelSubj : string.
Variable toolPrefix : string.
(** The connection's answer to the publish of a numbered message. *)
Variable conn_error : Z -> option string.

(** The headers [publish] sets itself. *)
Definition protocol_part (ty : string) (n : Z) : gmap string string :=
  let h := <[HdrMessageId := streamID]> (<[HdrStreamId := streamID]>
             (<[HdrStreamSequence := print_Z n]> (<[HdrStreamEvent := ty]> ∅))) in
  let h := if n =? 0 then <[HdrStreamToolResultPrefix := toolPrefix]> (<[HdrStreamCancelSubject := cancelSubj]> h) else h in
  <[HdrStatus := if String.eqb ty StreamError then "500" else "200"]> h.

(** The event's own headers are set last, over the protocol's. *)
Definition message (evt : StreamEvent) (n : Z) : Msg :=
  mkMsg (se_Header evt ∪ protocol_part (se_Type evt) n) (se_Data evt).

Definition publish (evt : StreamEvent) (s : StreamSession) : option session_error * StreamSession :=
  let n := seq s in
  let s := mkSession (n + 1) (closed s) (cancelled s) (unsubscribed s) (published s) in
  match conn_error n with
  | Some cause => (Some (ErrPublish cause), s)
  | None => (None, mkSession (seq s) (closed s) (cancelled s) (unsubscribed s) (published s ++ [message evt n]))
  end.

Definition terminate (evt : StreamEvent) (s : StreamSession) : option session_error * StreamSession :=
  if closed s then (None, s)
  else publish evt (mkSession (seq s) true true true (published s)).

Definition event (ty : string) (data : json) : StreamEvent := mkStreamEvent ty 0 "" data ∅.

Definition Start (sessionID workflowID requestID : string) : StreamSession -> option session_error * StreamSession :=
  publish (event StreamStart
    (jobj [("sessionId", JStr sessionID); ("workflowId", JStr workflowID); ("requestId", JStr requestID)])).

Definition Send (evt : StreamEvent) (s : StreamSession) : option session_error * StreamSession :=
  if closed s then (Some ErrClosed, s)
  else if is_terminator (se_Type evt) then terminate evt s
  else publish evt s.

Definition complete_event (finalText messageStop : string) : StreamEvent :=
  event StreamComplete (jobj [("finalText", JStr finalText); ("messageStop", JStr messageStop)]).
Definition error_event (code message internal : string) : StreamEvent :=
  event StreamError (jobj ([("code", JStr code); ("message", JStr message)]
                           ++ (if str_empty internal then [] else [("internal", JStr internal)]))).
Definition Complete (finalText messageStop : string) : StreamSession -> option session_error * StreamSession :=
  terminate (complete_event finalText messageStop).
Definition Fail (code message internal : string) : StreamSession -> option session_error * StreamSession :=
  terminate (error_event code message internal).

(** The cancel subscription's callback, live until the session terminates. *)
Definition OnCancel (s : StreamSession) : StreamSession :=
  if unsubscribed s then s else mkSession (seq s) (closed s) true (unsubscribed s) (published s).
Definition IsCancelled (s : StreamSession) : bool := cancelled s.

(** What a session's user may do after [Start]. *)
Inductive op :=
| OpSend (evt : StreamEvent)
| OpComplete (finalText messageStop : string)
| OpFail (code message internal : string)
| OpCancel.
Definition step (o : op) (s : StreamSession) : option session_error * StreamSession :=
  match o with
  | OpSend evt => Send evt s
  | OpComplete t st => Complete t st s
  | OpFail c m i => Fail c m i s
  | OpCancel => (None, OnCancel s)
  end.
Definition op_event (o : op) : option StreamEvent :=
  match o with
  | OpSend evt => Some evt
  | OpComplete t st => Some (complete_event t st)
  | OpFail c m i => Some (error_event c m i)
  | OpCancel => None
  end.

(** The session as a whole: [Start], then the operations in order. *)
Definition run_session (sessionID workflowID requestID : string) (ops : list op) : StreamSession :=
  foldl (fun s o => (step o s).2) (Start sessionID workflowID requestID NewStreamSession).2 ops.

(** *** Specification: the events up to the first terminator, numbered from 0 *)
Fixpoint until_terminator (l : list StreamEvent) : list StreamEvent :=
  match l with
  | [] => []
  | e :: l => if is_terminator (se_Type e) then [e] else e :: until_terminator l
  end.
Definition start_event (sessionID workflowID requestID : string) : StreamEvent :=
  event StreamStart
    (jobj [("sessionId", JStr sessionID); ("workflowId", JStr workflowID); ("requestId", JStr requestID)]).
Definition session_events (sessionID workflowID requestID : string) (ops : list op) : list StreamEvent :=
  start_event sessionID workflowID requestID :: until_terminator (omap op_event ops).

Definition numbered (l : list StreamEvent) : list Msg := imap (fun i e => message e (Z.of_nat i)) l.

Definition terminated (l : list StreamEvent) : bool :=
  match last l with Some e => is_terminator (se_Type e) | None => false end.

Lemma until_terminator_snoc l e :
  until_terminator (l ++ [e]) = if terminated (until_terminator l) then until_terminator l
                                else until_terminator l ++ [e].
Proof.
  induction l as [|x l IH]; simpl; [by destruct (is_terminator (se_Type e))|].
  destruct (is_terminator (se_Type x)) eqn:Ex; [unfold terminated; simpl; by rewrite Ex|].
  rewrite IH. destruct (until_terminator l) as [|y l']; [unfold terminated; simpl; by rewrite Ex|].
  assert (terminated (x :: y :: l') = terminated (y :: l')) as -> by done.
  by destruct (terminated (y :: l')).
Qed.

Lemma numbered_snoc l e : numbered (l ++ [e]) = numbered l ++ [message e (Z.of_nat (List.length l))].
Proof. unfold numbered. rewrite imap_app. simpl. by rewrite Nat.add_0_r. Qed.

Lemma session_facts sessionID workflowID requestID ops :
  (forall n, conn_error n = None) ->
  let s := run_session sessionID workflowID requestID ops in
  let evts := session_events sessionID workflowID requestID ops in
  published s = numbered evts
  /\ seq s = Z.of_nat (List.length evts)
  /\ closed s = terminated evts
  /\ unsubscribed s = closed s
  /\ (closed s = true -> IsCancelled s = true
       /\ (forall evt, Send evt s = (Some ErrClosed, s))
       /\ (forall t st, Complete t st s = (None, s)) /\ (forall c m i, Fail c m i s = (None, s))).
Proof.
  intros Hc s evts.
  assert (published s = numbered evts /\ seq s = Z.of_nat (List.length evts) /\ closed s = terminated evts
          /\ unsubscribed s = closed s /\ (closed s = true -> cancelled s = true)) as (H1 & H2 & H3 & H4 & H5).
  { subst s evts. unfold run_session, session_events. induction ops as [|o ops IH] using rev_ind.
    - simpl. unfold Start, publish. simpl. rewrite Hc. done.
    - rewrite foldl_snoc, omap_app. set (s := foldl _ _ ops) in *. set (st := start_event _ _ _) in *.
      destruct IH as (H1 & H2 & H3 & H4 & H5). clearbody s.
      assert (forall e, published s ++ [message e (seq s)] = numbered (st :: until_terminator (omap op_event ops) ++ [e])) as Hp.
      { intros e. rewrite app_comm_cons, numbered_snoc, H1. by rewrite H2. }
      assert (forall e, terminated (st :: until_terminator (omap op_event ops) ++ [e]) = is_terminator (se_Type e)) as Ht.
      { intros e. unfold terminated. by rewrite app_comm_cons, last_snoc. }
      assert (terminated (st :: until_terminator (omap op_event ops)) = terminated (until_terminator (omap op_event ops))) as Hst.
      { unfold terminated. by destruct (until_terminator (omap op_event ops)). }
      rewrite Hst in H3.
      assert (forall e, op_event o = Some e ->
        (step o s).2 = if closed s then s else
           mkSession (seq s + 1) (is_terminator (se_Type e)) (is_terminator (se_Type e) || cancelled s)
             (is_terminator (se_Type e) || unsubscribed s) (published s ++ [message e (seq s)])) as Hstep.
      { clear -Hc. intros e He. destruct s as [sq cl ca un pu].
        destruct o; simpl in He; try discriminate; injection He as <-; simpl; unfold Send, Complete, Fail, terminate, publish; simpl.
        - destruct cl; [done|]. destruct (is_terminator (se_Type evt)); simpl; rewrite Hc; simpl; done.
        - destruct cl; [done|]. by rewrite Hc.
        - destruct cl; [done|]. by rewrite Hc. }
      destruct (op_event o) as [e|] eqn:Eo.
      + rewrite (Hstep e eq_refl). simpl. rewrite Eo. rewrite until_terminator_snoc, <- H3.
        destruct (closed s) eqn:Ecl; [rewrite Hst, Ecl; split_and!; auto; congruence|]. simpl. rewrite Hp, Ht. simpl.
        rewrite length_app, H2. simpl. split_and!; [done|lia|done| |].
        * rewrite H4. by rewrite orb_false_r.
        * by intros ->.
      + destruct o; simpl in Eo; simplify_eq. simpl. rewrite app_nil_r.
        unfold OnCancel. destruct (unsubscribed s) eqn:Eu; simpl; rewrite ?Hst; split_and!; congruence || auto. }
  split_and!; try done. intros Hcl. unfold Send, Complete, Fail, terminate. rewrite Hcl. split_and!; auto.
Qed.

(** On a healthy connection a session publishes exactly its events up to the first
    terminator, in the order of the calls, numbered from 0 without gaps; it is closed,
    cancelled and unsubscribed exactly when a terminator went out, and everything after
    that is refused or ignored. *)
Theorem session_publishes sessionID workflowID requestID ops :
  (forall n, conn_error n = None) ->
  let s := run_session sessionID workflowID requestID ops in
  let evts := session_events sessionID workflowID requestID ops in
  published s = numbered evts
  /\ seq s = Z.of_nat (List.length evts)
  /\ closed s = terminated evts
  /\ unsubscribed s = closed s
  /\ (closed s = true -> IsCancelled s = true
       /\ (forall evt, Send evt s = (Some ErrClosed, s))
       /\ (forall t st, Complete t st s = (None, s)) /\ (forall c m i, Fail c m i s = (None, s))).
Proof. apply session_facts. Qed.
End session.
End Server.

(** ** client.go: the subscription's message handler, run to completion per message *)
Module Client.
Import Server.

Record StreamSubscription := mkSub {
  nextSeq : Z;
  delivered : list StreamEvent;      (* put on the events channel *)
  sub_closed : bool;
  sub_cancelSubj : option string;
  sub_streamID : option string;
}.
Definition new_subscription : StreamSubscription := mkSub 0 [] false None None.

(** A closed subscription is unsubscribed: its handler is not called any more. *)
Definition on_message (c : StreamSubscription) (m : Msg) : StreamSubscription :=
  if sub_closed c then c
  else match ParseStreamMessage m with
  | Err _ => c
  | Ok evt =>
      if negb (se_Sequence evt =? nextSeq c) then c
      else
        let first := se_Sequence evt =? 0 in
        mkSub (nextSeq c + 1) (delivered c ++ [evt]) (is_terminator (se_Type evt))
          (if first then Some (header m HdrStreamCancelSubject) else sub_cancelSubj c)
          (if first then Some (header m HdrStreamId) else sub_streamID c)
  end.
Definition receive (net : list Msg) : StreamSubscription := foldl on_message new_subscription net.

(** [Cancel]: the subject published to, once the start event announced it. *)
Definition Cancel (c : StreamSubscription) : option string :=
  match sub_cancelSubj c with
  | Some s => if str_empty s then None else Some s
  | None => None
  end.

Section transport.
Variables streamID cancelSubj toolPrefix : string.
Local Notation message := (message streamID cancelSubj toolPrefix).
Local Notation numbered := (numbered streamID cancelSubj toolPrefix).

(** Events the transport can carry: a type, and no header of the protocol's. *)
Definition carriable (e : StreamEvent) : Prop :=
  se_Type e <> "" /\ forall k, k ∈ protocol_headers -> se_Header e !! k = None.

(** The event a client makes of the n-th message. *)
Definition as_received (n : nat) (e : StreamEvent) : StreamEvent :=
  mkStreamEvent (se_Type e) (Z.of_nat n) streamID (se_Data e) (m_Header (message e (Z.of_nat n))).

Lemma header_message e n k : carriable e -> k ∈ protocol_headers ->
  header (message e n) k = default "" (protocol_part streamID cancelSubj toolPrefix (se_Type e) n !! k).
Proof. intros [_ He] Hk. unfold header, Server.message. simpl. by rewrite lookup_union, (He k Hk), (left_id_L None _). Qed.

Ltac in_protocol := apply (bool_decide_unpack _); vm_compute; exact I.

Lemma protocol_fields ty n :
  protocol_part streamID cancelSubj toolPrefix ty n !! HdrStreamEvent = Some ty
  /\ protocol_part streamID cancelSubj toolPrefix ty n !! HdrStreamSequence = Some (print_Z n)
  /\ protocol_part streamID cancelSubj toolPrefix ty n !! HdrStreamId = Some streamID.
Proof.
  unfold protocol_part.
  destruct (n =? 0); split_and!; rewrite !lookup_insert_ne by discriminate; by rewrite lookup_insert_eq.
Qed.

Lemma parse_message e n : carriable e -> int64_range (Z.of_nat n) ->
  ParseStreamMessage (message e (Z.of_nat n)) = Ok (as_received n e).
Proof.
  intros He Hn. unfold ParseStreamMessage.
  destruct (protocol_fields (se_Type e) (Z.of_nat n)) as (P1 & P2 & P3).
  rewrite !(header_message e _ _ He) by in_protocol. rewrite P1, P2, P3. simpl.
  rewrite (proj2 (str_empty_false _) (proj1 He)), Atoi_print by done. done.
Qed.

Section client.
Variable evts : list StreamEvent.
Hypothesis carry : Forall carriable evts.
Hypothesis short : Z.of_nat (List.length evts) < 2 ^ 63.
#[local] Set Default Proof Using "All".

Lemma lookup_numbered m : m ∈ numbered evts -> exists i e, evts !! i = Some e /\ m = message e (Z.of_nat i).
Proof.
  intros [i Hi]%list_elem_of_lookup. unfold Server.numbered in Hi. rewrite list_lookup_imap in Hi.
  destruct (evts !! i) as [e|] eqn:E; [|done]. simpl in Hi. simplify_eq. by exists i, e.
Qed.

(** The subscription holds a prefix of the sent events. *)
Definition holds_prefix (k : nat) (c : StreamSubscription) : Prop :=
  nextSeq c = Z.of_nat k /\ delivered c = imap as_received (take k evts) /\ (k <= List.length evts)%nat
  /\ sub_closed c = terminated (take k evts).

Lemma on_message_prefix k c m :
  holds_prefix k c -> m ∈ numbered evts ->
  holds_prefix k (on_message c m)
  \/ (sub_closed c = false /\ (exists e, evts !! k = Some e /\ m = message e (Z.of_nat k)) /\ holds_prefix (S k) (on_message c m)).
Proof.
  intros (H1 & H2 & H3 & H4) Hm. destruct (lookup_numbered m Hm) as (i & e & Hi & ->).
  apply lookup_lt_Some in Hi as Hlt. rewrite Forall_lookup in carry.
  unfold on_message. destruct (sub_closed c) eqn:Ec; [left; unfold holds_prefix; by rewrite Ec|].
  rewrite parse_message; [|by eapply carry|unfold int64_range; lia]. simpl. rewrite H1.
  destruct (Z.eqb_spec (Z.of_nat i) (Z.of_nat k)) as [Heq|Hne]; [|left; simpl; unfold holds_prefix; by rewrite Ec].
  apply Nat2Z.inj in Heq. subst i. right. split; [done|]. split; [by exists e|].
  simpl. unfold holds_prefix. simpl. rewrite (take_S_r _ _ _ Hi). split_and!; [lia| |lia|].
  - rewrite H2, imap_app. simpl. rewrite length_take_le by lia. by rewrite Nat.add_0_r.
  - unfold terminated. by rewrite last_snoc.
Qed.

Lemma receive_prefix net : Forall (fun m => m ∈ numbered evts) net -> exists k, holds_prefix k (receive net).
Proof.
  intros Hnet. unfold receive.
  assert (exists k, holds_prefix k new_subscription) as H0.
  { exists 0%nat. unfold holds_prefix, terminated. simpl. split_and!; auto; lia. }
  revert H0. generalize new_subscription. induction Hnet as [|m net Hm _ IH]; intros c [k Hk]; simpl; [by exists k|].
  apply IH. destruct (on_message_prefix k c m Hk Hm) as [H|(_ & _ & H)]; by eexists.
Qed.

(** Every message in order, when only the last event can be a terminator. *)
Lemma receive_all :
  (forall k, (k < List.length evts)%nat -> terminated (take k evts) = false) ->
  holds_prefix (List.length evts) (receive (numbered evts)).
Proof.
  intros Hmid.
  assert (forall n, (n <= List.length evts)%nat -> holds_prefix n (receive (take n (numbered evts)))) as G.
  { induction n as [|n IH]; intros Hn.
    - unfold holds_prefix, terminated. simpl. split_and!; auto; lia.
    - destruct (lookup_lt_is_Some_2 evts n ltac:(lia)) as [e He].
      assert (numbered evts !! n = Some (message e (Z.of_nat n))) as Hm.
      { unfold Server.numbered. by rewrite list_lookup_imap, He. }
      rewrite (take_S_r _ _ _ Hm). unfold receive. rewrite foldl_snoc. specialize (IH ltac:(lia)).
      destruct (on_message_prefix n _ (message e (Z.of_nat n)) IH) as [H|(_ & _ & H)];
        [by eapply list_elem_of_lookup_2| |done].
      exfalso. destruct IH as (I1 & _ & _ & I4), H as (H1 & _ & _ & _).
      unfold receive in *. set (c := foldl _ _ _) in *. unfold on_message in H1.
      rewrite I4, Hmid in H1 by lia. rewrite Forall_lookup in carry.
      rewrite parse_message in H1; [|by eapply carry|unfold int64_range; lia]. simpl in H1.
      rewrite I1, Z.eqb_refl in H1. simpl in H1. lia. }
  specialize (G (List.length evts) ltac:(lia)). rewrite take_ge in G; [done|].
  unfold Server.numbered. rewrite length_imap. lia.
Qed.
End client.

Lemma until_terminator_mid l k :
  (k < List.length (until_terminator l))%nat -> terminated (take k (until_terminator l)) = false.
Proof.
  revert k. induction l as [|e l IH]; intros k; simpl; [lia|].
  destruct (is_terminator (se_Type e)) eqn:E; simpl.
  - intros Hk. assert (k = 0%nat) as -> by lia. done.
  - destruct k as [|k]; [done|]. intros Hk. simpl. specialize (IH k ltac:(lia)).
    unfold terminated in *. destruct (take k (until_terminator l)) as [|y t]; simpl in *; [by rewrite E|].
    by destruct t.
Qed.

Lemma session_mid a b c ops k :
  (k < List.length (session_events a b c ops))%nat -> terminated (take k (session_events a b c ops)) = false.
Proof.
  unfold session_events. destruct k as [|k]; [done|]. simpl. intros Hk.
  pose proof (until_terminator_mid (omap op_event ops) k ltac:(lia)) as H.
  unfold terminated in *. destruct (take k _) as [|y t]; simpl in *; [done|]. by destruct t.
Qed.

Lemma carriable_events a b c ops :
  Forall carriable (omap op_event ops) -> Forall carriable (session_events a b c ops).
Proof.
  intros H. constructor; [by split|].
  induction H as [|e l He _ IH]; simpl; [constructor|].
  destruct (is_terminator (se_Type e)); [by constructor|by constructor].
Qed.

Lemma client_gets conn_error a b c ops :
  (forall n, conn_error n = None) ->
  Forall carriable (omap op_event ops) ->
  let evts := session_events a b c ops in
  let s := run_session streamID cancelSubj toolPrefix conn_error a b c ops in
  Z.of_nat (List.length evts) < 2 ^ 63 ->
  (forall net, Forall (fun m => m ∈ published s) net ->
     exists k, delivered (receive net) = imap as_received (take k evts)
       /\ sub_closed (receive net) = terminated (take k evts)
       /\ (sub_closed (receive net) = true -> delivered (receive net) = imap as_received evts))
  /\ delivered (receive (published s)) = imap as_received evts
  /\ sub_closed (receive (published s)) = closed s.
Proof.
  intros Hc Hops evts s Hlen.
  destruct (session_facts streamID cancelSubj toolPrefix conn_error a b c ops Hc) as (Hp & _ & Hcl & _).
  fold s in Hp, Hcl. fold evts in Hp, Hcl.
  pose proof (carriable_events a b c ops Hops) as Hcar. fold evts in Hcar.
  assert (forall k, (k < List.length evts)%nat -> terminated (take k evts) = false) as Hmid.
  { intros k. apply session_mid. }
  rewrite Hp. split.
  - intros net Hnet. destruct (receive_prefix evts Hcar Hlen net Hnet) as (k & _ & H2 & H3 & H4).
    exists k. rewrite H2, H4. split_and!; [done|done|]. intros Ht.
    destruct (decide (k < List.length evts)%nat); [by rewrite Hmid in Ht|]. by rewrite take_ge by lia.
  - destruct (receive_all evts Hcar Hlen Hmid) as (_ & H2 & _ & H4).
    rewrite take_ge in H2, H4 by lia. by rewrite H2, H4, Hcl.
Qed.

(** C15: What a client gets of a session, whatever the network does to it: from any
    messages of the session - lost, repeated, reordered - it delivers a prefix of the
    session's events, in order, and closes only with the session's terminator; if
    nothing is lost it delivers them all and closes exactly when the session did. *)
Theorem end_to_end conn_error a b c ops :
  (forall n, conn_error n = None) ->
  Forall carriable (omap op_event ops) ->
  let evts := session_events a b c ops in
  let s := run_session streamID cancelSubj toolPrefix conn_error a b c ops in
  Z.of_nat (List.length evts) < 2 ^ 63 ->
  (forall net, Forall (fun m => m ∈ published s) net ->
     exists k, delivered (receive net) = imap as_received (take k evts)
       /\ sub_closed (receive net) = terminated (take k evts)
       /\ (sub_closed (receive net) = true -> delivered (receive net) = imap as_received evts))
  /\ delivered (receive (published s)) = imap as_received evts
  /\ sub_closed (receive (published s)) = closed s.
Proof. apply client_gets. Qed.
End transport.
End Client.

(** ** client.go, concurrently: the handler, the consumer, and whoever closes

    The handler runs on the connection's goroutine, the reader on the caller's, and
    [closeInternal] on any of the handler's, the caller's ([Close]) or a timer's. *)
Module ClientRace.

Inductive phase :=
| Idle
| Holding (e : StreamEvent)     (* accepted, at the [select] *)
| Closing.                      (* terminator delivered, before its [closeInternal] *)

Record state := mkState {
  ph : phase;
  next : Z;
  chan : list StreamEvent;      (* the events channel's buffer, capacity 32 *)
  chan_closed : bool;
  done_closed : bool;
  once : bool;                  (* closeOnce taken; the subscription is gone *)
  consumed : list StreamEvent;
  panicked : bool;
}.
Definition init : state := mkState Idle 0 [] false false false [] false.
Definition capacity : nat := 32.

Inductive step : state -> state -> Prop :=
| recv n ch cc dc co e :
    se_Sequence e = n ->
    step (mkState Idle n ch cc dc false co false) (mkState (Holding e) (n + 1) ch cc dc false co false)
| send n ch dc o co e :
    (List.length ch < capacity)%nat ->
    step (mkState (Holding e) n ch false dc o co false)
         (mkState (if is_terminator (se_Type e) then Closing else Idle) n (ch ++ [e]) false dc o co false)
| send_closed n ch dc o co e :       (* a send on a closed channel is ready, and panics *)
    step (mkState (Holding e) n ch true dc o co false) (mkState (Holding e) n ch true dc o co true)
| quit n ch cc o co e :
    step (mkState (Holding e) n ch cc true o co false) (mkState Idle n ch cc true o co false)
| consume p n ch cc dc o co e :
    step (mkState p n (e :: ch) cc dc o co false) (mkState p n ch cc dc o (co ++ [e]) false)
| close_done p n ch cc co :          (* closeOnce: unsubscribe, close(done) *)
    step (mkState p n ch cc false false co false) (mkState p n ch cc true true co false)
| close_events p n ch co :           (* ... close(events) *)
    step (mkState p n ch false true true co false) (mkState p n ch true true true co false)
| closed_already n ch cc dc co :     (* the handler's own closeInternal has returned *)
    step (mkState Closing n ch cc dc true co false) (mkState Idle n ch cc dc true co false).

Definition reachable (s : state) : Prop := rtc step init s.

(** Events read or readable so far. *)
Definition out (s : state) : list StreamEvent := consumed s ++ chan s.
Definition in_order (l : list StreamEvent) : Prop := forall i e, l !! i = Some e -> se_Sequence e = Z.of_nat i.
Definition terminator_last (l : list StreamEvent) : Prop :=
  forall i e, l !! i = Some e -> is_terminator (se_Type e) = true -> S i = List.length l.
Definition no_terminator (l : list StreamEvent) : Prop := Forall (fun e => is_terminator (se_Type e) = false) l.

Definition ok (s : state) : Prop :=
  in_order (out s) /\ terminator_last (out s)
  /\ (done_closed s = once s) /\ (chan_closed s = true -> once s = true)
  /\ match ph s with
     | Idle => (once s = false -> no_terminator (out s) /\ next s = Z.of_nat (List.length (out s)))
     | Holding e => no_terminator (out s) /\ se_Sequence e = Z.of_nat (List.length (out s)) /\ next s = se_Sequence e + 1
     | Closing => True
     end.

Lemma in_order_snoc l e : in_order l -> se_Sequence e = Z.of_nat (List.length l) -> in_order (l ++ [e]).
Proof.
  intros H He i x Hx. apply lookup_app_Some in Hx as [Hx|[Hi Hx]]; [by apply H|].
  apply list_lookup_singleton_Some in Hx as [Hi' <-]. rewrite He. lia.
Qed.

Lemma terminator_last_snoc l e : no_terminator l -> terminator_last (l ++ [e]).
Proof.
  intros H i x Hx Ht. unfold no_terminator in H. rewrite Forall_lookup in H.
  apply lookup_app_Some in Hx as [Hx|[Hi Hx]]; [specialize (H i x Hx); congruence|].
  apply list_lookup_singleton_Some in Hx as [Hi' <-]. rewrite length_app. simpl. lia.
Qed.

Lemma ok_step s s' : ok s -> step s s' -> ok s'.
Proof.
  intros (H1 & H2 & H3 & H4 & H5) Hs. destruct Hs; unfold ok, out in *; simpl in *.
  - destruct (H5 eq_refl) as [H6 H7]. split_and!; try done; lia.
  - rewrite app_assoc. destruct H5 as (H5 & H6 & H7). split_and!; try done.
    + by apply in_order_snoc.
    + by apply terminator_last_snoc.
    + destruct (is_terminator (se_Type e)) eqn:Et; [done|]. intros _. split.
      * apply Forall_app. split; [done|]. by repeat constructor.
      * rewrite length_app. simpl. lia.
  - done.
  - split_and!; try done. intros ->. congruence.
  - rewrite <- app_assoc. done.
  - split_and!; try done. destruct p; try done.
  - split_and!; done.
  - split_and!; try done.
Qed.

(** Under every interleaving of the handler, the reader and any number of closers,
    what the reader gets is in sequence without gaps and nothing follows a terminator. *)
Theorem client_in_order s : reachable s -> in_order (out s) /\ terminator_last (out s).
Proof.
  intros H. enough (ok s) as (? & ? & _) by done.
  assert (ok init) as H0.
  { unfold ok, init, out, in_order, terminator_last, no_terminator. simpl. by split_and!. }
  revert H0. induction H as [s|s s1 s2 Hs _ IH]; [done|]. intros H0. apply IH. by eapply ok_step.
Qed.

(** Closing while the handler holds an accepted event can bring the process down: the
    select may take the send on the closed channel, which panics. *)
Theorem close_can_panic : exists s, reachable s /\ panicked s = true.
Proof.
  exists (mkState (Holding (mkStreamEvent "start" 0 "" JNull ∅)) 1 [] true true true [] true). split; [|done].
  eapply rtc_l; [by apply (recv 0 [] false false [] (mkStreamEvent "start" 0 "" JNull ∅))|].
  eapply rtc_l; [apply close_done|].
  eapply rtc_l; [apply close_events|].
  eapply rtc_l; [apply send_closed|]. apply rtc_refl.
Qed.

Lemma client_in_order_witness : exists s, reachable s /\ in_order (out s) /\ List.length (out s) = 1%nat.
Proof.
  exists (mkState Idle 1 [mkStreamEvent "start" 0 "" JNull ∅] false false false [] false).
  assert (reachable (mkState Idle 1 [mkStreamEvent "start" 0 "" JNull ∅] false false false [] false)) as H.
  { eapply rtc_l; [by apply (recv 0 [] false false [] (mkStreamEvent "start" 0 "" JNull ∅))|].
    eapply rtc_l; [apply send; unfold capacity; simpl; lia|]. apply rtc_refl. }
  split; [exact H|]. split; [exact (proj1 (client_in_order _ H))|reflexivity].
Defined.
End ClientRace.

(** ** Concrete sessions *)
Module StreamExamples.
Import Server Client.

Definition demo_ops : list op :=
  [OpSend (event "delta" (JStr "He")); OpCancel; OpSend (event "delta" (JStr "llo")); OpComplete "Hello" "end_turn";
   OpFail "late" "ignored" ""; OpSend (event "delta" (JStr "late"))].
Definition demo_session : StreamSession :=
  run_session "id" "cancel" "tools" (fun _ => None) "s" "w" "r" demo_ops.

Example demo_session_ex :
  List.map se_Type (delivered (receive (published demo_session))) = ["start"; "delta"; "delta"; "complete"]
  /\ Cancel (receive (published demo_session)) = Some "cancel"
  /\ List.map se_Sequence (delivered (receive (List.rev (published demo_session) ++ published demo_session)))
     = [0; 1; 2; 3].
Proof. vm_compute. split_and!; reflexivity. Qed.

Lemma session_publishes_witness :
  List.length (published demo_session) = 4%nat /\ closed demo_session = true.
Proof.
  destruct (session_publishes "id" "cancel" "tools" (fun _ => None) "s" "w" "r" demo_ops ltac:(reflexivity))
    as (Hp & _ & Hc & _).
  fold demo_session in Hp, Hc. rewrite Hp, Hc. vm_compute. split; reflexivity.
Defined.

Lemma end_to_end_witness :
  List.length (delivered (receive (published demo_session))) = 4%nat.
Proof.
  destruct (end_to_end "id" "cancel" "tools" (fun _ => None) "s" "w" "r" demo_ops) as (_ & H & _).
  - reflexivity.
  - repeat constructor; simpl; try discriminate; intros k _; apply lookup_empty.
  - vm_compute. reflexivity.
  - fold demo_session in H. rewrite H. vm_compute. reflexivity.
Defined.
End StreamExamples.
