(* ===== verification/Charts.v ===== *)
(** * Chart references (pkg/workflow/builtin/agent/loop.go, from [chartKeyRe] on)

    The charts a turn really rendered, the chart images the model's answer shows, and
    the two rewrites that make the second agree with the first. *)

From S2P Require Import Prelude Json Scan.
From stdpp Require Import base tactics list strings option sets.
From Stdlib Require Import Lia Ascii String.
Local Open Scope string_scope.
Local Open Scope list_scope.
Local Open Scope nat_scope.

(** ** chartKeyRe: [chart/([0-9a-fA-F\-]{8,})\.png] *)
Definition is_chr (n : nat) (c : ascii) : bool := nat_of_ascii c =? n.
Definition key_char (c : ascii) : bool := is_hex c || is_chr 45 c.
Definition chart_lit : string := "chart/".
Definition png_lit : string := ".png".

Definition chartKeyRe (s : string) : option (string * nat) :=
  if has_prefix chart_lit s then
    let '(key, rest) := span key_char (str_drop 6 s) in
    if (8 <=? String.length key) && has_prefix png_lit rest then Some (key, 6 + String.length key + 4) else None
  else None.

(** Distinct values, in order of first occurrence. *)
Fixpoint distinct_from (seen l : list string) : list string :=
  match l with
  | [] => []
  | k :: l => if mem_str k seen then distinct_from seen l else k :: distinct_from (k :: seen) l
  end.
Definition extractChartKeys (s : string) : list string := distinct_from [] (find_all chartKeyRe s).

Definition sliceContains (xs : list string) (x : string) : bool := mem_str x xs.
Definition missingChartKeys (referenced produced : list string) : list string :=
  List.filter (fun k => negb (sliceContains produced k)) referenced.

Record chartRef := mkChartRef { key : string; url : string }.
Definition chartKeysOf (refs : list chartRef) : list string := List.map key refs.

(** ** chartURLRe, on the maximal runs of characters other than white space, a double
    quote and a closing parenthesis.  The greedy prefix makes the key the last one of
    the run. *)
Definition re_space (c : ascii) : bool := is_space c && negb (is_chr 11 c).
Definition url_char (c : ascii) : bool := negb (re_space c || is_chr 34 c || is_chr 41 c).

Fixpoint last_key (s : string) : option string :=
  match s with
  | EmptyString => None
  | String _ s' => match last_key s' with
                   | Some k => Some k
                   | None => match chartKeyRe s with Some (k, _) => Some k | None => None end
                   end
  end.
Definition chartURLRe (s : string) : option ((string * string) * nat) :=
  let '(run, _) := span url_char s in
  match last_key run with
  | Some k => Some ((run, k), String.length run)
  | None => None
  end.

(** *** unescapeJSONURL *)
Definition hex_value (c : ascii) : option nat :=
  let n := nat_of_ascii c in
  if is_digit c then Some (n - 48)
  else if in_range 97 102 c then Some (n - 87)
  else if in_range 65 70 c then Some (n - 55)
  else None.
Definition hex4 (a b c d : ascii) : option nat :=
  w ← hex_value a; x ← hex_value b; y ← hex_value c; z ← hex_value d;
  Some (w * 4096 + x * 256 + y * 16 + z).

Definition byte (n : nat) : string := String (ascii_of_nat n) EmptyString.
Definition utf8 (n : nat) : string :=
  if n <? 128 then byte n
  else if n <? 2048 then byte (192 + n / 64) +:+ byte (128 + n mod 64)
  else if n <? 65536 then byte (224 + n / 4096) +:+ byte (128 + n / 64 mod 64) +:+ byte (128 + n mod 64)
  else byte (240 + n / 262144) +:+ byte (128 + n / 4096 mod 64) +:+ byte (128 + n / 64 mod 64) +:+ byte (128 + n mod 64).
Definition is_high (n : nat) : bool := (55296 <=? n) && (n <? 56320).
Definition is_low (n : nat) : bool := (56320 <=? n) && (n <? 57344).

Definition simple_escape (c : ascii) : option ascii :=
  match nat_of_ascii c with
  | 34 => Some (ascii_of_nat 34) | 92 => Some (ascii_of_nat 92) | 47 => Some (ascii_of_nat 47)
  | 98 => Some (ascii_of_nat 8) | 102 => Some (ascii_of_nat 12) | 110 => Some (ascii_of_nat 10)
  | 114 => Some (ascii_of_nat 13) | 116 => Some (ascii_of_nat 9)
  | _ => None
  end.

(** Decoding the inside of a JSON string; [high] is a pending high surrogate, which
    becomes the replacement character unless a low one follows. *)
Definition flush_high (high : option nat) : string := match high with Some _ => utf8 65533 | None => "" end.
Fixpoint unquote (high : option nat) (s : string) : option string :=
  match s with
  | EmptyString => Some (flush_high high)
  | String c s =>
      if is_chr 92 c then
        match s with
        | String u rest =>
            if is_chr 117 u then
              match rest with
              | String a (String b (String d (String e rest))) =>
                  match hex4 a b d e with
                  | None => None
                  | Some n =>
                      match high with
                      | Some h => if is_low n
                                  then option_map (fun r => utf8 (65536 + (h - 55296) * 1024 + (n - 56320)) +:+ r) (unquote None rest)
                                  else if is_high n then option_map (fun r => utf8 65533 +:+ r) (unquote (Some n) rest)
                                  else option_map (fun r => utf8 65533 +:+ utf8 n +:+ r) (unquote None rest)
                      | None => if is_high n then unquote (Some n) rest
                                else if is_low n then option_map (fun r => utf8 65533 +:+ r) (unquote None rest)
                                else option_map (fun r => utf8 n +:+ r) (unquote None rest)
                      end
                  end
              | _ => None
              end
            else match simple_escape u with
                 | Some x => option_map (fun r => flush_high high +:+ String x r) (unquote None rest)
                 | None => None
                 end
        | EmptyString => None
        end
      else if (nat_of_ascii c <? 32) || is_chr 34 c then None
      else option_map (fun r => flush_high high +:+ String c r) (unquote None s)
  end.
Definition unescapeJSONURL (u : string) : string :=
  if str_lacks (ascii_of_nat 92) u then u else default u (unquote None u).

Fixpoint distinct_refs (seen : list string) (l : list (string * string)) : list chartRef :=
  match l with
  | [] => []
  | (u, k) :: l => if mem_str k seen then distinct_refs seen l
                   else mkChartRef k (unescapeJSONURL u) :: distinct_refs (k :: seen) l
  end.
Definition extractChartRefs (s : string) : list chartRef := distinct_refs [] (find_all chartURLRe s).

(** ** chartImgRe: a markdown image whose target, up to the closing parenthesis and
    without white space, has a chart key in it *)
Definition alt_char (c : ascii) : bool := negb (is_chr 93 c).
Definition target_char (c : ascii) : bool := negb (re_space c || is_chr 41 c).
Definition has_key (s : string) : bool := match last_key s with Some _ => true | None => false end.

Definition chartImgRe (s : string) : option ((string * string) * nat) :=
  if has_prefix "![" s then
    let '(alt, rest) := span alt_char (str_drop 2 s) in
    if has_prefix "](" rest then
      let '(target, rest) := span target_char (str_drop 2 rest) in
      if has_prefix ")" rest && has_key target
      then Some ((alt, target), String.length alt + String.length target + 5) else None
    else None
  else None.

Definition image (alt url : string) : string := "![" +:+ alt +:+ "](" +:+ url +:+ ")".

(** [byKey[key]]: of equal keys, the last wins. *)
Fixpoint by_key (produced : list chartRef) (k : string) : option string :=
  match produced with
  | [] => None
  | c :: l => match by_key l k with
              | Some u => Some u
              | None => if String.eqb (key c) k then Some (url c) else None
              end
  end.

Definition correct_image (produced : list chartRef) (m : string * string) (text : string) : string :=
  let '(alt, target) := m in
  let k := match extractChartKeys target with k :: _ => k | [] => "" end in
  match by_key produced k with
  | Some canonical => image alt canonical
  | None => match produced with
            | [c] => image alt (url c)
            | _ => text
            end
  end.
Definition correctChartRefs (text : string) (produced : list chartRef) : string :=
  replace_all chartImgRe (correct_image produced) text.

Definition blank_line : string := String (ascii_of_nat 10) (String (ascii_of_nat 10) "").
Definition appendMissingCharts (text : string) (produced : list chartRef) : string * nat :=
  let present := extractChartKeys text in
  let add := List.map (fun c => image "chart" (url c))
               (List.filter (fun c => negb (sliceContains present (key c))) produced) in
  match add with
  | [] => (text, 0)
  | _ =>
      let joined := String.concat blank_line add in
      if str_empty (trim_space text) then (joined, List.length add)
      else (text +:+ blank_line +:+ joined, List.length add)
  end.

Definition demo_key : string := "1b4e28ba-2fa1-11d2".
Definition demo_out : string := "{" +:+ dquote +:+ "imageUrl" +:+ dquote +:+ ":" +:+ dquote
  +:+ "https://s3/x/chart/" +:+ demo_key +:+ ".png?a=1\u0026b=2" +:+ dquote +:+ "}".
Example charts_ex :
  extractChartRefs demo_out = [mkChartRef demo_key ("https://s3/x/chart/" +:+ demo_key +:+ ".png?a=1&b=2")]
  /\ extractChartKeys "![a](chart/0000aaaa.png) chart/0000aaaa.png chart/12.png chart/ffff-0000.png" = ["0000aaaa"; "ffff-0000"]
  /\ correctChartRefs "see ![my chart](chart/0000aaaa.png) ok" (extractChartRefs demo_out)
     = "see ![my chart](https://s3/x/chart/" +:+ demo_key +:+ ".png?a=1&b=2) ok"
  /\ appendMissingCharts "hi" [mkChartRef "k" "u"; mkChartRef "l" "v"]
     = ("hi" +:+ blank_line +:+ "![chart](u)" +:+ blank_line +:+ "![chart](v)", 2).
Proof. vm_compute. split_and!; reflexivity. Qed.

(** ** Properties *)

Definition key_ok (k : string) : Prop := str_all key_char k = true /\ 8 <= String.length k.
Definition occurrence (k : string) : string := chart_lit +:+ k +:+ png_lit.
(** [s] has the chart key [k] in it. *)
Definition mentions (s k : string) : Prop := key_ok k /\ exists a b, s = a +:+ occurrence k +:+ b.

Lemma chartKeyRe_occurrence k b : key_ok k -> chartKeyRe (occurrence k +:+ b) = Some (k, String.length (occurrence k)).
Proof.
  intros [Hk Hl]. unfold occurrence. rewrite !str_app_assoc. unfold chartKeyRe.
  rewrite has_prefix_app. change (str_drop 6 (chart_lit +:+ (k +:+ (png_lit +:+ b)))) with (k +:+ (png_lit +:+ b)).
  rewrite span_app by done. rewrite (proj2 (Nat.leb_le _ _) Hl), has_prefix_app. cbn [andb].
  rewrite !str_length_app. by rewrite Nat.add_assoc.
Qed.

Lemma span_split f s : s = (span f s).1 +:+ (span f s).2 /\ str_all f (span f s).1 = true.
Proof.
  induction s as [|c s [IH1 IH2]]; [done|]. cbn [span]. destruct (f c) eqn:Ef; [|done].
  destruct (span f s) as [a b]. simpl in *. rewrite Ef. split; [|done].
  change (String c s = String c (a +:+ b)). by rewrite <- IH1.
Qed.

Lemma chartKeyRe_inv s k n :
  chartKeyRe s = Some (k, n) -> key_ok k /\ exists b, s = occurrence k +:+ b /\ n = String.length (occurrence k).
Proof.
  unfold chartKeyRe. destruct (has_prefix chart_lit s) eqn:Hp; [|done]. apply prefix_split in Hp.
  change (String.length chart_lit) with 6 in Hp.
  destruct (span_split key_char (str_drop 6 s)) as [H1 H2].
  destruct (span key_char (str_drop 6 s)) as [key rest]. cbn [fst snd] in H1, H2.
  destruct (8 <=? String.length key) eqn:Hl; [|done]. apply Nat.leb_le in Hl. cbn [andb].
  destruct (has_prefix png_lit rest) eqn:Hr; [|done]. apply prefix_split in Hr.
  intros [= <- <-]. split; [by split|]. exists (str_drop 4 rest). unfold occurrence. split.
  - transitivity (chart_lit +:+ str_drop 6 s); [exact Hp|]. rewrite H1. rewrite Hr at 1.
    by rewrite !str_app_assoc.
  - rewrite !str_length_app. change (String.length chart_lit) with 6. change (String.length png_lit) with 4. lia.
Qed.

(** A key and its frame cannot overlap another [chart/]: after its first character an
    occurrence has no [ch] in it and does not end in [c]. *)
Fixpoint ch_free (s : string) : bool :=
  match s with
  | EmptyString => true
  | String c s' =>
      negb (is_chr 99 c && match s' with String h _ => is_chr 104 h | EmptyString => true end) && ch_free s'
  end.

Lemma ch_free_key k : str_all key_char k = true -> ch_free (k +:+ png_lit) = true.
Proof.
  induction k as [|c k IH]; intros H; [done|]. simpl in H. apply andb_true_iff in H as [Hc Hk].
  specialize (IH Hk). change (String c k +:+ png_lit) with (String c (k +:+ png_lit)). cbn [ch_free].
  rewrite IH, andb_true_r. apply negb_true_iff, andb_false_iff. right.
  destruct k as [|d k]; [done|]. simpl in *. apply andb_true_iff in Hk as [Hd _].
  destruct (is_chr 104 d) eqn:E; [|done]. unfold is_chr in E. apply Nat.eqb_eq in E.
  unfold key_char, is_hex, is_digit, in_range, is_chr in Hd. rewrite E in Hd. done.
Qed.

Lemma ch_free_disjoint x r y t :
  ch_free x = true -> x +:+ r = y +:+ String "c" (String "h" t) -> String.length x <= String.length y.
Proof.
  revert x. induction y as [|d y IH]; intros x Hx He.
  - destruct x as [|c x]; [simpl; lia|]. change ("" +:+ ?z) with z in He.
    change (String c (x +:+ r) = String "c" (String "h" t)) in He. injection He as -> He.
    destruct x as [|h x]; simpl in Hx; [done|]. change (String h (x +:+ r) = String "h" t) in He.
    injection He as -> _. done.
  - destruct x as [|c x]; [simpl; lia|]. simpl in Hx. apply andb_true_iff in Hx as [_ Hx].
    change (String c (x +:+ r) = String d (y +:+ String "c" (String "h" t))) in He. injection He as _ He.
    simpl. apply le_n_S. by eapply IH.
Qed.

Lemma match_before_occurrence c a k b m n :
  chartKeyRe (String c a +:+ (occurrence k +:+ b)) = Some (m, n) -> n <= S (String.length a).
Proof.
  intros H. destruct (chartKeyRe_inv _ _ _ H) as ([Hm _] & r & He & ->).
  unfold occurrence in He at 2. unfold chart_lit in He.
  change (String c (a +:+ (occurrence k +:+ b)) = String "c" ("hart/" +:+ (m +:+ png_lit) +:+ r)) in He.
  injection He as _ He.
  assert (ch_free ("hart/" +:+ (m +:+ png_lit)) = true) as Hf.
  { change (ch_free (m +:+ png_lit) = true). by apply ch_free_key. }
  unfold occurrence at 1, chart_lit. change (String.length ("chart/" +:+ (m +:+ png_lit)))
    with (S (String.length ("hart/" +:+ (m +:+ png_lit)))). apply le_n_S.
  eapply (ch_free_disjoint _ r a ("art/" +:+ (k +:+ (png_lit +:+ b)))); [done|].
  rewrite str_app_assoc. rewrite <- He. unfold occurrence. by rewrite !str_app_assoc.
Qed.

Definition matched (k : string) (l : list (token string)) : Prop := exists x, TMatch k x ∈ l.

Lemma scan_finds k a b n :
  key_ok k -> n <= String.length a -> matched k (scan_from chartKeyRe n (a +:+ (occurrence k +:+ b))).
Proof.
  intros Hk. revert n. induction a as [|c a IH]; intros n Hn.
  - simpl in Hn. assert (n = 0) as -> by lia. change ("" +:+ ?z) with z.
    pose proof (chartKeyRe_occurrence k b Hk) as Hm.
    unfold occurrence at 1. change (chart_lit +:+ (k +:+ png_lit)) with (String "c" ("hart/" +:+ (k +:+ png_lit))) in *.
    change (String "c" ("hart/" +:+ (k +:+ png_lit)) +:+ b) with (String "c" (("hart/" +:+ (k +:+ png_lit)) +:+ b)) in *.
    unfold occurrence in Hm at 1.
    change ((chart_lit +:+ (k +:+ png_lit)) +:+ b) with (String "c" (("hart/" +:+ (k +:+ png_lit)) +:+ b)) in Hm.
    cbn [scan_from]. rewrite Hm. unfold occurrence, chart_lit.
    change (String.length ("chart/" +:+ (k +:+ png_lit))) with (S (String.length ("hart/" +:+ (k +:+ png_lit)))).
    eexists. by left.
  - change (String c a +:+ ?z) with (String c (a +:+ z)) in *. cbn [scan_from]. simpl in Hn.
    destruct n as [|n]; [|apply IH; lia].
    destruct (chartKeyRe (String c (a +:+ (occurrence k +:+ b)))) as [[m [|n]]|] eqn:E.
    + destruct (IH 0 ltac:(lia)) as [x Hx]. exists x. by right.
    + apply match_before_occurrence in E. destruct (IH n ltac:(lia)) as [x Hx]. exists x. by right.
    + destruct (IH 0 ltac:(lia)) as [x Hx]. exists x. by right.
Qed.

Lemma find_all_matched {M} (f : string -> option (M * nat)) m s : m ∈ find_all f s <-> exists x, TMatch m x ∈ scan f s.
Proof.
  unfold find_all. rewrite list_elem_of_omap. split.
  - intros ([c|m' x] & Hin & E); simplify_eq. by exists x.
  - intros [x Hx]. by exists (TMatch m x).
Qed.

Lemma scan_from_mentions n s k : matched k (scan_from chartKeyRe n s) -> mentions s k.
Proof.
  revert n. induction s as [|c s IH]; intros n [x Hx]; [by apply elem_of_nil in Hx|].
  assert (forall n', matched k (scan_from chartKeyRe n' s) -> mentions (String c s) k) as Hrest.
  { intros n' Hn'. destruct (IH n' Hn') as (Hk & a & b & ->). split; [done|]. by exists (String c a), b. }
  cbn [scan_from] in Hx. destruct n as [|n]; [|by apply (Hrest n); exists x].
  destruct (chartKeyRe (String c s)) as [[m [|n]]|] eqn:E.
  - apply elem_of_cons in Hx as [?|Hx]; [done|]. apply (Hrest 0). by exists x.
  - apply elem_of_cons in Hx as [[= -> _]|Hx]; [|apply (Hrest n); by exists x].
    destruct (chartKeyRe_inv _ _ _ E) as (Hk & b & -> & _). split; [done|]. by exists "", b.
  - apply elem_of_cons in Hx as [?|Hx]; [done|]. apply (Hrest 0). by exists x.
Qed.

Lemma distinct_from_spec seen l k : k ∈ distinct_from seen l <-> k ∈ l /\ k ∉ seen.
Proof.
  revert seen. induction l as [|x l IH]; intros seen; simpl.
  - rewrite elem_of_nil. tauto.
  - destruct (mem_str x seen) eqn:E; to_prop.
    + rewrite IH, elem_of_cons. split; [tauto|]. intros [[->|H] Hn]; [done|tauto].
    + rewrite !elem_of_cons, IH, not_elem_of_cons. split.
      * intros [->|(H1 & H2 & H3)]; tauto.
      * intros [[->|H] Hn]; [by left|]. destruct (decide (k = x)) as [->|Hne]; [by left|right; tauto].
Qed.

Lemma distinct_from_nodup seen l : NoDup (distinct_from seen l).
Proof.
  revert seen. induction l as [|x l IH]; intros seen; simpl; [constructor|].
  destruct (mem_str x seen); [done|]. constructor; [|done]. rewrite distinct_from_spec. set_solver.
Qed.

(** The chart keys of a text are exactly the keys that occur in it as
    [chart/<key>.png], each listed once. *)
Theorem extractChartKeys_spec s k :
  (k ∈ extractChartKeys s <-> mentions s k) /\ NoDup (extractChartKeys s).
Proof.
  unfold extractChartKeys. split; [|apply distinct_from_nodup].
  rewrite distinct_from_spec, find_all_matched. split.
  - intros [Hm _]. by apply (scan_from_mentions 0).
  - intros (Hk & a & b & ->). split; [|apply not_elem_of_nil]. apply (scan_finds k a b 0 Hk). lia.
Qed.

Lemma extractChartKeys_mentions s k : k ∈ extractChartKeys s <-> mentions s k.
Proof.
  unfold extractChartKeys. rewrite distinct_from_spec, find_all_matched. split.
  - intros [Hm _]. by apply (scan_from_mentions 0).
  - intros (Hk & a & b & ->). split; [|apply not_elem_of_nil]. apply (scan_finds k a b 0 Hk). lia.
Qed.

Lemma mentions_app a s b k : mentions s k -> mentions (a +:+ s +:+ b) k.
Proof. intros (Hk & x & y & ->). split; [done|]. exists (a +:+ x), (y +:+ b). by rewrite !str_app_assoc. Qed.

Lemma concat_contains sep l x : x ∈ l -> exists a b, String.concat sep l = a +:+ x +:+ b.
Proof.
  induction l as [|y l IH]; intros H; [by apply elem_of_nil in H|].
  apply elem_of_cons in H as [<-|H].
  - destruct l as [|z l]; [exists "", ""; by rewrite str_app_nil_r|].
    exists "", (sep +:+ String.concat sep (z :: l)). done.
  - destruct (IH H) as (a & b & Hab). destruct l as [|z l]; [by apply elem_of_nil in H|].
    exists (y +:+ sep +:+ a), b. change (String.concat sep (y :: z :: l)) with (y +:+ (sep +:+ String.concat sep (z :: l))).
    rewrite Hab. by rewrite !str_app_assoc.
Qed.

Lemma unescape_plain u : str_lacks (ascii_of_nat 92) u = true -> unescapeJSONURL u = u.
Proof. unfold unescapeJSONURL. by intros ->. Qed.

(** A chart's url shows its key. *)
Definition ref_ok (c : chartRef) : Prop := mentions (url c) (key c).

Lemma last_key_mentions s k : last_key s = Some k -> mentions s k.
Proof.
  revert k. induction s as [|c s IH]; intros k; [done|]. cbn [last_key].
  destruct (last_key s) as [k'|] eqn:E.
  - intros [= <-]. destruct (IH k' eq_refl) as (Hk & a & b & ->). split; [done|]. by exists (String c a), b.
  - destruct (chartKeyRe (String c s)) as [[k' n]|] eqn:Em; [|done]. intros [= <-].
    destruct (chartKeyRe_inv _ _ _ Em) as (Hk & b & -> & _). split; [done|]. by exists "", b.
Qed.

Lemma distinct_refs_in seen l c : c ∈ distinct_refs seen l -> exists u, (u, key c) ∈ l /\ url c = unescapeJSONURL u.
Proof.
  revert seen. induction l as [|[u k] l IH]; intros seen H; simpl in H; [by apply elem_of_nil in H|].
  assert (forall seen, c ∈ distinct_refs seen l -> exists u', (u', key c) ∈ (u, k) :: l /\ url c = unescapeJSONURL u') as Hr.
  { intros seen' H'. destruct (IH seen' H') as (u' & ? & ?). exists u'. split; [by right|done]. }
  destruct (mem_str k seen); [by eapply Hr|]. apply elem_of_cons in H as [->|H]; [|by eapply Hr].
  exists u. split; [by left|done].
Qed.

Lemma str_lacks_app c a b : str_lacks c (a +:+ b) = str_lacks c a && str_lacks c b.
Proof.
  induction a as [|x a IH]; [done|]. change (String x a +:+ b) with (String x (a +:+ b)).
  simpl. by rewrite IH, andb_assoc.
Qed.

Lemma chartURL_matches n s u k :
  (exists x, TMatch (u, k) x ∈ scan_from chartURLRe n s) ->
  mentions u k /\ (str_lacks (ascii_of_nat 92) s = true -> str_lacks (ascii_of_nat 92) u = true).
Proof.
  revert n. induction s as [|c s IH]; intros n [x Hx]; [by apply elem_of_nil in Hx|].
  assert (forall n', (exists x, TMatch (u, k) x ∈ scan_from chartURLRe n' s) ->
     mentions u k /\ (str_lacks (ascii_of_nat 92) (String c s) = true -> str_lacks (ascii_of_nat 92) u = true)) as Hrest.
  { intros n' Hn'. destruct (IH n' Hn') as [H1 H2]. split; [done|]. cbn [str_lacks].
    intros [_ H]%andb_true_iff. by apply H2. }
  cbn [scan_from] in Hx. destruct n as [|n]; [|apply (Hrest n); by exists x].
  destruct (chartURLRe (String c s)) as [[m [|n]]|] eqn:E.
  1,3: apply elem_of_cons in Hx as [?|Hx]; [done|]; apply (Hrest 0); by exists x.
  apply elem_of_cons in Hx as [[= <- _]|Hx]; [|apply (Hrest n); by exists x].
  unfold chartURLRe in E. destruct (span_split url_char (String c s)) as [Hs _].
  destruct (span url_char (String c s)) as [run rest]. cbn [fst snd] in Hs.
  destruct (last_key run) as [k'|] eqn:El; [|done]. injection E as <- <- _.
  split; [by apply last_key_mentions|]. rewrite Hs, str_lacks_app. by intros [H _]%andb_true_iff.
Qed.

Lemma distinct_refs_keys seen l : NoDup (chartKeysOf (distinct_refs seen l)) /\ Forall (fun c => key c ∉ seen) (distinct_refs seen l).
Proof.
  revert seen. induction l as [|[u k] l IH]; intros seen; simpl; [split; constructor|].
  destruct (mem_str k seen) eqn:E; [apply IH|]. to_prop. destruct (IH (k :: seen)) as [H1 H2]. split.
  - constructor; [|done]. intros Hin. unfold chartKeysOf in Hin. change (List.map ?f ?l) with (f <$> l) in Hin.
    apply list_elem_of_fmap in Hin as (c & Hc & Hin). rewrite Forall_forall in H2. specialize (H2 c Hin).
    simpl in Hc. apply H2. rewrite <- Hc. by left.
  - constructor; [done|]. eapply Forall_impl; [exact H2|]. simpl. intros c Hc Hn. apply Hc. by right.
Qed.

Lemma extracted_ok s : str_lacks (ascii_of_nat 92) s = true -> Forall ref_ok (extractChartRefs s).
Proof.
  intros Hs. apply Forall_forall. intros c Hc.
  destruct (distinct_refs_in _ _ _ Hc) as (u & Hin & Hu).
  apply find_all_matched in Hin as Hm. destruct (chartURL_matches 0 s u (key c) Hm) as [H1 H2].
  unfold ref_ok. rewrite Hu, unescape_plain; [done|]. by apply H2.
Qed.

(** Every chart read off a tool result is a real reference: its url shows its key
    (no JSON escapes being in the way), and each key is recorded once. *)
Theorem extractChartRefs_sound s :
  str_lacks (ascii_of_nat 92) s = true ->
  Forall ref_ok (extractChartRefs s) /\ NoDup (chartKeysOf (extractChartRefs s)).
Proof.
  intros Hs. split; [by apply extracted_ok|apply distinct_refs_keys].
Qed.

Lemma image_mentions alt c : ref_ok c -> mentions (image alt (url c)) (key c).
Proof.
  intros H. unfold image. replace ("![" +:+ alt +:+ "](" +:+ url c +:+ ")")
    with (("![" +:+ alt +:+ "](") +:+ url c +:+ ")") by (by rewrite !str_app_assoc).
  by apply mentions_app.
Qed.

Lemma append_shows text produced :
  Forall ref_ok produced ->
  let '(out, n) := appendMissingCharts text produced in
  (forall c, c ∈ produced -> mentions out (key c))
  /\ (n = 0 <-> forall c, c ∈ produced -> mentions text (key c))
  /\ (n = 0 -> out = text)
  /\ (trim_space text <> "" -> exists more, out = text +:+ more).
Proof.
  intros Hok. rewrite Forall_forall in Hok. unfold appendMissingCharts.
  set (missing := List.filter _ produced). set (add := List.map _ missing).
  assert (forall c, c ∈ missing <-> c ∈ produced /\ ~ mentions text (key c)) as Hmiss.
  { intros c. unfold missing, sliceContains. rewrite list_elem_of_In, filter_In, <- list_elem_of_In.
    rewrite negb_true_iff, mem_str_false, extractChartKeys_mentions. done. }
  assert (forall c, c ∈ missing -> image "chart" (url c) ∈ add) as Hadd.
  { intros c Hc. unfold add. change (List.map ?f ?l) with (f <$> l). apply list_elem_of_fmap. by exists c. }
  assert (forall c, c ∈ produced -> mentions text (key c) \/ mentions (String.concat blank_line add) (key c)) as Hall.
  { intros c Hc. destruct (mem_str (key c) (extractChartKeys text)) eqn:E.
    - left. to_prop. by apply extractChartKeys_mentions.
    - right. to_prop. rewrite extractChartKeys_mentions in E.
      destruct (concat_contains blank_line add _ (Hadd c (proj2 (Hmiss c) (conj Hc E)))) as (a & b & ->).
      apply mentions_app. apply image_mentions. by apply Hok. }
  assert (add = [] <-> forall c, c ∈ produced -> mentions text (key c)) as Hnil.
  { split.
    - intros Ha c Hc. destruct (mem_str (key c) (extractChartKeys text)) eqn:E.
      + to_prop. by apply extractChartKeys_mentions.
      + to_prop. rewrite extractChartKeys_mentions in E.
        pose proof (Hadd c (proj2 (Hmiss c) (conj Hc E))) as H. rewrite Ha in H. by apply elem_of_nil in H.
    - intros H. unfold add. destruct missing as [|c l]; [done|].
      destruct (proj1 (Hmiss c) ltac:(by left)) as [Hc Hn]. destruct Hn. by apply H. }
  clearbody add. destruct add as [|x add].
  - assert (forall c, c ∈ produced -> mentions text (key c)) as Hm by (by apply Hnil).
    split_and!; [done|by split|done|intros _; exists ""; by rewrite str_app_nil_r].
  - destruct (str_empty (trim_space text)) eqn:Eb; to_prop.
    + split_and!; [|split; [done|intros H; by apply Hnil in H]|done|by intros []].
      intros c Hc. destruct (Hall c Hc) as [H|H]; [|done].
      exfalso. destruct H as (_ & a & b & Ht). apply trim_space_blank in Eb. rewrite Ht in Eb.
      clear -Eb. induction a as [|y a IH]; [done|]. simpl in Eb. apply andb_true_iff in Eb as [_ Eb]. by apply IH.
    + split_and!; [|split; [done|intros H; by apply Hnil in H]|done|by eexists].
      intros c Hc. destruct (Hall c Hc) as [H|H].
      * change (text +:+ ?z) with ("" +:+ (text +:+ z)). by apply mentions_app.
      * pose proof (mentions_app (text +:+ blank_line) _ "" _ H) as Hm.
        by rewrite str_app_nil_r, !str_app_assoc in Hm.
Qed.

(** No rendered chart is dropped: the completed answer shows every chart produced
    this turn, keeps the given text in front, and adds nothing when all were shown. *)
Theorem no_chart_dropped text produced :
  Forall ref_ok produced ->
  let '(out, n) := appendMissingCharts text produced in
  (forall c, c ∈ produced -> mentions out (key c))
  /\ (n = 0 <-> forall c, c ∈ produced -> mentions text (key c))
  /\ (n = 0 -> out = text)
  /\ (trim_space text <> "" -> exists more, out = text +:+ more).
Proof. apply append_shows. Qed.

Lemma append_nothing text produced : (appendMissingCharts text produced).2 = 0 -> (appendMissingCharts text produced).1 = text.
Proof. unfold appendMissingCharts. destruct (List.map _ _); [done|]. by destruct (str_empty _). Qed.

Lemma charts_shown text produced :
  let '(out, n) := appendMissingCharts text produced in
  (n = 0 -> out = text) /\ (Forall ref_ok produced -> forall c, c ∈ produced -> mentions out (key c)).
Proof.
  pose proof (append_nothing text produced) as H0. pose proof (append_shows text produced) as H1.
  destruct (appendMissingCharts text produced) as [out n]. split; [exact H0|]. intros H. by apply H1.
Qed.

(** A text followed by images of some charts, a blank line between each two parts. *)
Definition with_images (text : string) (charts : list chartRef) : string :=
  match charts with
  | [] => text
  | _ => (if bool_decide (trim_space text = "") then "" else text +:+ blank_line)
           +:+ String.concat blank_line (List.map (fun c => image "chart" (url c)) charts)
  end.
(** The text followed by the charts that it does not mention, in order. *)
Definition completed (produced : list chartRef) (text out : string) : Prop :=
  exists missing, sublist missing produced
    /\ (forall c, c ∈ missing <-> c ∈ produced /\ ~ mentions text (key c)) /\ out = with_images text missing.

Lemma sublist_List_filter {A} (f : A -> bool) l : sublist (List.filter f l) l.
Proof. induction l as [|x l IH]; cbn; [done|]. destruct (f x); by constructor. Qed.

Lemma appendMissingCharts_completed text produced : completed produced text (appendMissingCharts text produced).1.
Proof.
  unfold appendMissingCharts, completed. set (missing := List.filter _ produced).
  exists missing. split; [apply sublist_List_filter|]. split.
  - intros c. unfold missing. rewrite list_elem_of_In, filter_In, <- list_elem_of_In, negb_true_iff, <- not_true_iff_false.
    unfold sliceContains. by rewrite <- extractChartKeys_mentions, mem_str_spec.
  - unfold with_images. destruct missing as [|c l]; [done|]. cbn [List.map fst].
    case_bool_decide as E; [by rewrite E|]. apply str_empty_false in E. rewrite E. cbn. by rewrite str_app_assoc.
Qed.

(** Each chart whose url shows its key is shown, whatever the others are. *)
Lemma append_shows_one text produced c :
  c ∈ produced -> ref_ok c -> mentions (appendMissingCharts text produced).1 (key c).
Proof.
  intros Hc Hok. unfold appendMissingCharts. set (missing := List.filter _ produced). set (add := List.map _ missing).
  destruct (mem_str (key c) (extractChartKeys text)) eqn:E; to_prop; rewrite extractChartKeys_mentions in E.
  - assert (forall more, mentions (text +:+ more) (key c)) as Hm.
    { intros more. change (text +:+ more) with ("" +:+ (text +:+ more)). by apply mentions_app. }
    destruct add as [|x add']; [exact E|]. destruct (str_empty (trim_space text)) eqn:Eb; [|apply Hm].
    exfalso. to_prop. destruct E as (_ & a & b & ->). apply trim_space_blank in Eb.
    clear -Eb. induction a as [|y a IH]; [done|]. simpl in Eb. apply andb_true_iff in Eb as [_ Eb]. by apply IH.
  - assert (image "chart" (url c) ∈ add) as Hadd.
    { unfold add. change (List.map ?f ?l) with (f <$> l). apply list_elem_of_fmap. exists c. split; [done|].
      unfold missing, sliceContains. rewrite list_elem_of_In, filter_In, <- list_elem_of_In, negb_true_iff, mem_str_false,
        extractChartKeys_mentions. done. }
    destruct (concat_contains blank_line add _ Hadd) as (x & y & Hj).
    assert (mentions (String.concat blank_line add) (key c)) as Hm by (rewrite Hj; by apply mentions_app, image_mentions).
    clearbody add. destruct add as [|z add']; [by apply elem_of_nil in Hadd|]. destruct (str_empty _); [exact Hm|].
    pose proof (mentions_app (text +:+ blank_line) _ "" _ Hm) as H. by rewrite str_app_nil_r, !str_app_assoc in H.
Qed.

(** *** What correcting an answer makes of it: outside its chart images nothing changes; an
    image of a rendered chart shows that chart's own url; an image of any other key shows
    the one chart there is, and stays as it was when there is not exactly one. *)
Definition corrected_image (produced : list chartRef) (alt target was now : string) : Prop :=
  exists k, head (extractChartKeys target) = Some k
  /\ ((exists c, c ∈ produced /\ key c = k /\ now = image alt (url c))
      \/ (k ∉ chartKeysOf produced /\ exists c, produced = [c] /\ now = image alt (url c))
      \/ (k ∉ chartKeysOf produced /\ List.length produced <> 1 /\ now = was)).
Inductive corrected (produced : list chartRef) : list (token (string * string)) -> string -> Prop :=
| corrected_nil : corrected produced [] ""
| corrected_char c l s : corrected produced l s -> corrected produced (TChar c :: l) (String c s)
| corrected_match alt target was now l s :
    corrected_image produced alt target was now -> corrected produced l s ->
    corrected produced (TMatch (alt, target) was :: l) (now +:+ s).

Lemma by_key_some produced k u : by_key produced k = Some u -> exists c, c ∈ produced /\ key c = k /\ url c = u.
Proof.
  induction produced as [|c l IH]; [done|]. cbn [by_key]. destruct (by_key l k) as [u'|].
  - intros [= ->]. destruct (IH eq_refl) as (c' & H1 & H2). exists c'. split; [by right|done].
  - destruct (String.eqb_spec (key c) k); [|done]. intros [= <-]. exists c. split; [by left|done].
Qed.
Lemma by_key_none produced k : by_key produced k = None -> k ∉ chartKeysOf produced.
Proof.
  induction produced as [|c l IH]; cbn [by_key chartKeysOf List.map]; [intros _; apply not_elem_of_nil|].
  destruct (by_key l k); [done|]. destruct (String.eqb_spec (key c) k) as [|Hne]; [done|]. intros _.
  apply not_elem_of_cons. split; [congruence|by apply IH].
Qed.

Lemma chartImgRe_target s alt target n : chartImgRe s = Some ((alt, target), n) -> exists k, head (extractChartKeys target) = Some k.
Proof.
  unfold chartImgRe. destruct (has_prefix "![" s); [|done]. destruct (span alt_char _) as [a r]. destruct (has_prefix "](" r); [|done].
  destruct (span target_char _) as [t r']. destruct (has_prefix ")" r'); [|done]. unfold has_key.
  destruct (last_key t) as [k|] eqn:E; [|done]. intros [= <- <- _]. apply last_key_mentions in E.
  apply extractChartKeys_mentions in E. destruct (extractChartKeys t) as [|k' l]; [by apply elem_of_nil in E|by exists k'].
Qed.

Lemma correct_image_spec produced alt target was k :
  head (extractChartKeys target) = Some k ->
  corrected_image produced alt target was (correct_image produced (alt, target) was).
Proof.
  intros Hk. exists k. split; [done|]. unfold correct_image.
  assert (match extractChartKeys target with k :: _ => k | [] => "" end = k) as ->.
  { destruct (extractChartKeys target); [done|by injection Hk]. }
  destruct (by_key produced k) as [u|] eqn:E.
  - apply by_key_some in E as (c & H1 & H2 & <-). left. by exists c.
  - apply by_key_none in E. right. destruct produced as [|c [|c' l]]; [by right|left; split; [done|by exists c]|by right].
Qed.

Lemma correctChartRefs_corrected produced text : corrected produced (scan chartImgRe text) (correctChartRefs text produced).
Proof.
  unfold correctChartRefs, replace_all, scan. generalize 0 as n.
  induction text as [|c s IH]; intros n; [constructor|]. cbn [scan_from].
  destruct n as [|n]; [|apply IH].
  destruct (chartImgRe (String c s)) as [[[alt target] [|n]]|] eqn:E; cbn [List.map render_token]; rewrite concat_nil_cons.
  - apply (corrected_char produced c _ _), IH.
  - apply corrected_match; [|apply IH]. destruct (chartImgRe_target _ _ _ _ E) as [k Hk]. by apply (correct_image_spec _ _ _ _ k).
  - apply (corrected_char produced c _ _), IH.
Qed.

(** ** Concrete charts *)
Definition demo_chart : chartRef := mkChartRef demo_key ("s3/chart/" +:+ demo_key +:+ ".png?x").
Definition demo_plain : string := "{u: s3/chart/" +:+ demo_key +:+ ".png?x}".

Lemma extractChartRefs_sound_witness :
  chartKeysOf (extractChartRefs demo_plain) = [demo_key] /\ NoDup (chartKeysOf (extractChartRefs demo_plain)).
Proof.
  split; [vm_compute; reflexivity|].
  exact (proj2 (extractChartRefs_sound demo_plain ltac:(vm_compute; reflexivity))).
Defined.

Lemma no_chart_dropped_witness : mentions (fst (appendMissingCharts "hi" [demo_chart])) demo_key.
Proof.
  assert (Forall ref_ok [demo_chart]) as H.
  { constructor; [|constructor]. split; [split; [vm_compute; reflexivity|simpl; lia]|].
    exists "s3/", "?x". vm_compute. reflexivity. }
  pose proof (no_chart_dropped "hi" [demo_chart] H) as Hd.
  destruct (appendMissingCharts "hi" [demo_chart]) as [out n]. apply (proj1 Hd demo_chart). by left.
Defined.
