(* ===== verification/JsonText.v ===== *)
(** * JSON text

    The other half of Json.v: [encoding/json]'s reader, [Text.parse], which the service
    applies to everything that arrives as bytes (tool inputs, payloads, stored
    conversations), and the tools' own printer, [toolresult.Marshal].  The theorems: the
    reader's fuel always suffices ([Text.parse_complete]), and what either printer writes
    is read back as it was ([Text.parse_printed]).

    Bounds: numbers are integers (a fraction or an exponent is not read: the documents of
    the model have none); strings are UTF-8 text, which the reader and the printer copy;
    the reader's nesting limit (10000) is left out. *)

From S2P Require Import Prelude Json Scan Charts.
From stdpp Require Import base tactics list strings gmap option.
From Stdlib Require Import ZArith Lia Ascii String DecimalString DecimalZ DecimalPos DecimalFacts.
Local Open Scope string_scope.
Local Open Scope list_scope.
Local Open Scope nat_scope.

Module Text.

(** ** The reader *)
Definition is_ws (c : ascii) : bool := is_chr 32 c || is_chr 9 c || is_chr 10 c || is_chr 13 c.
Fixpoint skip_ws (s : string) : string :=
  match s with
  | String c s' => if is_ws c then skip_ws s' else s
  | EmptyString => EmptyString
  end.

(** The inside of a string literal and what follows its closing quote. *)
Fixpoint literal_end (s : string) : option (string * string) :=
  match s with
  | EmptyString => None
  | String c s =>
      if is_chr 34 c then Some (EmptyString, s)
      else if is_chr 92 c then
        match s with
        | String d s => match literal_end s with Some (a, b) => Some (String c (String d a), b) | None => None end
        | EmptyString => None
        end
      else match literal_end s with Some (a, b) => Some (String c a, b) | None => None end
  end.
Definition read_string (s : string) : option (string * string) :=
  '(a, b) ← literal_end s; t ← unquote None a; Some (t, b).

Definition leading_zero (ds : string) : bool :=
  match ds with String c (String _ _) => is_chr 48 c | _ => false end.
(** A fraction or an exponent follows. *)
Definition fractional (rest : string) : bool :=
  match rest with String c _ => is_chr 46 c || is_chr 69 c || is_chr 101 c | EmptyString => false end.
Definition read_number (s : string) : option (Z * string) :=
  let '(sign, s) := match s with
                    | String c s' => if is_chr 45 c then ("-", s') else ("", s)
                    | EmptyString => ("", s)
                    end in
  let '(ds, rest) := span is_digit s in
  if str_empty ds || leading_zero ds || fractional rest then None
  else n ← NilZero.int_of_string (sign +:+ ds); Some (Z.of_int n, rest).

(** One value; the elements of an array and the members of an object, up to the closing
    bracket.  Of two members with one name the last stands. *)
Fixpoint value (fuel : nat) (s : string) : option (json * string) :=
  match fuel with
  | O => None
  | S fuel =>
      match skip_ws s with
      | EmptyString => None
      | String c r =>
          if is_chr 34 c then '(t, r) ← read_string r; Some (JStr t, r)
          else if is_chr 91 c then
            match skip_ws r with
            | String d r' => if is_chr 93 d then Some (JArr [], r')
                             else '(l, r) ← elements fuel r; Some (JArr l, r)
            | EmptyString => None
            end
          else if is_chr 123 c then
            match skip_ws r with
            | String d r' => if is_chr 125 d then Some (JObj ∅, r')
                             else '(l, r) ← members fuel r; Some (JObj (list_to_map (rev l)), r)
            | EmptyString => None
            end
          else if has_prefix "null" (String c r) then Some (JNull, str_drop 3 r)
          else if has_prefix "true" (String c r) then Some (JBool true, str_drop 3 r)
          else if has_prefix "false" (String c r) then Some (JBool false, str_drop 4 r)
          else '(n, r) ← read_number (String c r); Some (JNum n, r)
      end
  end
with elements (fuel : nat) (s : string) : option (list json * string) :=
  match fuel with
  | O => None
  | S fuel =>
      '(v, r) ← value fuel s;
      match skip_ws r with
      | String c r => if is_chr 44 c then '(l, r) ← elements fuel r; Some (v :: l, r)
                      else if is_chr 93 c then Some ([v], r) else None
      | EmptyString => None
      end
  end
with members (fuel : nat) (s : string) : option (list (string * json) * string) :=
  match fuel with
  | O => None
  | S fuel =>
      match skip_ws s with
      | String q r =>
          if is_chr 34 q then
            '(k, r) ← read_string r;
            match skip_ws r with
            | String c r =>
                if is_chr 58 c then
                  '(v, r) ← value fuel r;
                  match skip_ws r with
                  | String c r => if is_chr 44 c then '(l, r) ← members fuel r; Some ((k, v) :: l, r)
                                  else if is_chr 125 c then Some ([(k, v)], r) else None
                  | EmptyString => None
                  end
                else None
            | EmptyString => None
            end
          else None
      | EmptyString => None
      end
  end.

(** [json.Unmarshal] of a whole text. *)
Definition parse_fuel (s : string) : nat := 2 * String.length s.
Definition parse (s : string) : option json :=
  '(v, r) ← value (parse_fuel s) s;
  if str_empty (skip_ws r) then Some v else None.

Definition quoted (l : list string) : string := String.concat dquote l.
Example reader_ex :
  parse (quoted ["{ "; "a"; ": [1, -20, true,null ,"; "x\u0026\n\ud83d\ude00"; "], "; "a"; ":{}, "; "b"; " : [ ] }"])
    = Some (jobj [("a", jobj []); ("b", JArr [])])
  /\ parse (quoted ["["; "x\u0026\/"; "]"]) = Some (JArr [JStr "x&/"])
  /\ List.map parse [""; " "; "01"; "1.5"; "[1,]"; "nul"; "{}x"; quoted ["{"; "a"; "}"]; quoted [""; "\x"; ""]] = repeat None 9
  /\ List.map parse ["0"; " -12 "; "-0"; "null"] = [Some (JNum 0); Some (JNum (-12)); Some (JNum 0); Some JNull].
Proof. vm_compute. split_and!; reflexivity. Qed.

(** ** toolresult.go: [json.Marshal] without HTML escaping *)
Definition Marshal (v : json) : string := marshal_with false v.

Example Marshal_ex :
  Marshal (jobj [("url", JStr "https://s3/x?a=1&b=<2>")]) = "{" +:+ quoted [""; "url"; ":"; "https://s3/x?a=1&b=<2>"; "}"].
Proof. vm_compute. reflexivity. Qed.

(** ** The reader's fuel suffices *)
Local Notation len := String.length.
Local Arguments is_chr : simpl never.

Lemma skip_ws_len s : len (skip_ws s) <= len s.
Proof. induction s as [|c s IH]; simpl; [done|]. destruct (is_ws c); simpl; lia. Qed.
Lemma skip_ws_cons s c r : skip_ws s = String c r -> S (len r) <= len s.
Proof. intros H. pose proof (skip_ws_len s) as Hl. rewrite H in Hl. done. Qed.
Lemma str_drop_len n s : len (str_drop n s) <= len s.
Proof. revert s. induction n as [|n IH]; intros [|c s]; simpl; try done. specialize (IH s). lia. Qed.

Lemma literal_end_len s a b : literal_end s = Some (a, b) -> len b < len s.
Proof.
  remember (len s) as k eqn:Hk. revert s a b Hk. induction (lt_wf k) as [k _ IH]. intros s a b -> H.
  destruct s as [|c s]; [done|]. cbn [literal_end] in H. destruct (is_chr 34 c); [injection H as <- <-; simpl; lia|].
  destruct (is_chr 92 c).
  - destruct s as [|d s]; [done|]. destruct (literal_end s) as [[a' b']|] eqn:E; [|done]. injection H as <- <-.
    assert (len b' < len s) by (eapply IH; [|reflexivity|exact E]; simpl; lia). simpl. lia.
  - destruct (literal_end s) as [[a' b']|] eqn:E; [|done]. injection H as <- <-.
    assert (len b' < len s) by (eapply IH; [|reflexivity|exact E]; simpl; lia). simpl. lia.
Qed.
Lemma read_string_len s t r : read_string s = Some (t, r) -> len r < len s.
Proof.
  unfold read_string. destruct (literal_end s) as [[a b]|] eqn:E; [|done]. cbn [mbind option_bind].
  destruct (unquote None a); [|done]. intros [= <- <-]. by apply literal_end_len in E.
Qed.
Lemma read_number_len s n r : read_number s = Some (n, r) -> len r < len s.
Proof.
  unfold read_number. destruct s as [|c s]; [done|].
  assert (forall sign s', len s' <= len (String c s) ->
    (let '(ds, rest) := span is_digit s' in
     if str_empty ds || leading_zero ds || fractional rest then None
     else n ← NilZero.int_of_string (sign +:+ ds); Some (Z.of_int n, rest)) = Some (n, r) -> len r < len (String c s)) as H.
  { intros sign s' Hl. pose proof (proj1 (span_split is_digit s')) as Hs. destruct (span is_digit s') as [ds rest].
    destruct (str_empty ds) eqn:Ed; [done|]. cbn [orb]. destruct (leading_zero ds || fractional rest); [done|].
    destruct (NilZero.int_of_string _); [|done]. intros [= <- <-]. cbn [fst snd] in Hs. subst s'.
    rewrite str_length_app in Hl. destruct ds; [done|]. simpl in *. lia. }
  destruct (is_chr 45 c); apply H; simpl; lia.
Qed.

Definition settled {A} (read : nat -> string -> option (A * string)) (k n : nat) : Prop :=
  forall s v r, read n s = Some (v, r) ->
    len r < len s /\ forall m, 2 * (len s - len r) + k <= m -> read m s = Some (v, r).

(** One step back through the reader's case distinctions. *)
Ltac read_step H :=
  match type of H with
  | match ?x with _ => _ end = _ => let E := fresh "E" in destruct x eqn:E; try discriminate H
  | _ ≫= _ = _ => cbn [mbind option_bind] in H
  end.

Lemma settled_value n : settled elements 1 n -> settled members 1 n -> settled value 0 (S n).
Proof.
  intros He Hm s v r H. cbn [value] in H. destruct (skip_ws s) as [|c t] eqn:Es; [done|]. pose proof (skip_ws_cons _ _ _ Es) as Hs.
  destruct (is_chr 34 c) eqn:E1.
  { destruct (read_string t) as [[x y]|] eqn:E; [|done]. injection H as <- <-. pose proof (read_string_len _ _ _ E).
    split; [lia|]. intros [|m] Hk; [lia|]. cbn [value]. by rewrite Es, E1, E. }
  destruct (is_chr 91 c) eqn:E2.
  { destruct (skip_ws t) as [|d t'] eqn:Et; [done|]. pose proof (skip_ws_cons _ _ _ Et). destruct (is_chr 93 d) eqn:E3.
    - injection H as <- <-. split; [lia|]. intros [|m] Hk; [lia|]. cbn [value]. by rewrite Es, E1, E2, Et, E3.
    - destruct (elements n t) as [[x y]|] eqn:E; [|done]. injection H as <- <-. destruct (He _ _ _ E) as [Hl Hn].
      split; [lia|]. intros [|m] Hk; [lia|]. cbn [value]. rewrite Es, E1, E2, Et, E3, Hn by lia. done. }
  destruct (is_chr 123 c) eqn:E3.
  { destruct (skip_ws t) as [|d t'] eqn:Et; [done|]. pose proof (skip_ws_cons _ _ _ Et). destruct (is_chr 125 d) eqn:E4.
    - injection H as <- <-. split; [lia|]. intros [|m] Hk; [lia|]. cbn [value]. by rewrite Es, E1, E2, E3, Et, E4.
    - destruct (members n t) as [[x y]|] eqn:E; [|done]. injection H as <- <-. destruct (Hm _ _ _ E) as [Hl Hn].
      split; [lia|]. intros [|m] Hk; [lia|]. cbn [value]. rewrite Es, E1, E2, E3, Et, E4, Hn by lia. done. }
  assert (len r < len s) as Hr.
  { pose proof (str_drop_len 3 t) as H3. pose proof (str_drop_len 4 t) as H4. cbn [str_drop] in H3, H4.
    do 3 (destruct (has_prefix _ (String c t)); [injection H as <- <-; simpl in H3, H4 |- *; lia|]).
    destruct (read_number _) as [[x y]|] eqn:E; [|done]. injection H as <- <-. apply read_number_len in E. simpl in E. lia. }
  split; [done|]. intros [|m] Hk; [lia|]. cbn [value]. rewrite Es, E1, E2, E3. exact H.
Qed.

Lemma settled_elements n : settled value 0 n -> settled elements 1 n -> settled elements 1 (S n).
Proof.
  intros Hv He s l r H. cbn [elements] in H. destruct (value n s) as [[v t]|] eqn:Ev; [|done]. cbn [mbind option_bind] in H.
  destruct (Hv _ _ _ Ev) as [H1 H2]. destruct (skip_ws t) as [|c t'] eqn:Et; [done|]. pose proof (skip_ws_cons _ _ _ Et).
  destruct (is_chr 44 c) eqn:Ec.
  - destruct (elements n t') as [[l' r']|] eqn:E; [|done]. injection H as <- <-. destruct (He _ _ _ E) as [H3 H4].
    split; [lia|]. intros [|m] Hk; [lia|]. cbn [elements]. rewrite H2 by lia. cbn [mbind option_bind]. rewrite Et, Ec, H4 by lia. done.
  - destruct (is_chr 93 c) eqn:Ed; [|done]. injection H as <- <-. split; [lia|]. intros [|m] Hk; [lia|]. cbn [elements].
    rewrite H2 by lia. cbn [mbind option_bind]. by rewrite Et, Ec, Ed.
Qed.

Lemma settled_members n : settled value 0 n -> settled members 1 n -> settled members 1 (S n).
Proof.
  intros Hv He s l r H. cbn [members] in H. destruct (skip_ws s) as [|q t] eqn:Es; [done|]. pose proof (skip_ws_cons _ _ _ Es).
  destruct (is_chr 34 q) eqn:Eq; [|done]. destruct (read_string t) as [[k t1]|] eqn:Ek; [|done]. cbn [mbind option_bind] in H.
  pose proof (read_string_len _ _ _ Ek). destruct (skip_ws t1) as [|c t2] eqn:E1; [done|]. pose proof (skip_ws_cons _ _ _ E1).
  destruct (is_chr 58 c) eqn:Ec; [|done]. destruct (value n t2) as [[v t3]|] eqn:Ev; [|done]. cbn [mbind option_bind] in H.
  destruct (Hv _ _ _ Ev) as [G1 G2]. destruct (skip_ws t3) as [|d t4] eqn:Et; [done|]. pose proof (skip_ws_cons _ _ _ Et).
  destruct (is_chr 44 d) eqn:Ed.
  - destruct (members n t4) as [[l' r']|] eqn:E; [|done]. injection H as <- <-. destruct (He _ _ _ E) as [G3 G4].
    split; [lia|]. intros [|m] Hk; [lia|]. cbn [members]. rewrite Es, Eq, Ek. cbn [mbind option_bind]. rewrite E1, Ec, G2 by lia.
    cbn [mbind option_bind]. rewrite Et, Ed, G4 by lia. done.
  - destruct (is_chr 125 d) eqn:Ee; [|done]. injection H as <- <-. split; [lia|]. intros [|m] Hk; [lia|]. cbn [members].
    rewrite Es, Eq, Ek. cbn [mbind option_bind]. rewrite E1, Ec, G2 by lia. cbn [mbind option_bind]. by rewrite Et, Ed, Ee.
Qed.

Lemma all_settled n : settled value 0 n /\ settled elements 1 n /\ settled members 1 n.
Proof.
  induction n as [|n (IH1 & IH2 & IH3)]; [by split_and!; intros s v r|].
  split_and!; [by apply settled_value|by apply settled_elements|by apply settled_members].
Qed.

(** Whatever the reader makes of a text with some fuel, it makes with its own. *)
Lemma parse_complete n s v r :
  value n s = Some (v, r) -> skip_ws r = "" -> parse s = Some v.
Proof.
  intros H Hr. destruct (all_settled n) as [Hs _]. destruct (Hs _ _ _ H) as [_ Hm].
  unfold parse, parse_fuel. rewrite Hm by lia. cbn [mbind option_bind]. by rewrite Hr.
Qed.

(** ** What is printed is read back *)
Local Arguments is_chr _ _ : simpl nomatch.

Lemma unquote_char html c t : unquote None (escape_char html c +:+ t) = option_map (String c) (unquote None t).
Proof. by destruct html, c as [[] [] [] [] [] [] [] []]. Qed.
Lemma literal_end_char html c t :
  literal_end (escape_char html c +:+ t)
  = match literal_end t with Some (a, b) => Some (escape_char html c +:+ a, b) | None => None end.
Proof.
  destruct html, c as [[] [] [] [] [] [] [] []]; try reflexivity;
    (match goal with |- context [escape_char ?h ?c] =>
       let e := eval vm_compute in (escape_char h c) in change (escape_char h c) with e end);
    unfold String.app; simpl; by destruct (literal_end t) as [[a b]|].
Qed.

Lemma separator_inv a b c d : separator a b c = Some d ->
  a = ascii_of_nat 226 /\ b = ascii_of_nat 128
  /\ (d = "8"%char /\ c = ascii_of_nat 168 \/ d = "9"%char /\ c = ascii_of_nat 169).
Proof.
  unfold separator. assert (forall x n, (nat_of_ascii x =? n) = true -> x = ascii_of_nat n) as H.
  { intros x n Hx%Nat.eqb_eq. rewrite <- Hx. symmetry. apply ascii_nat_embedding. }
  destruct (nat_of_ascii a =? 226) eqn:Ea; [|done]. destruct (nat_of_ascii b =? 128) eqn:Eb; [|done]. cbn [andb].
  destruct (nat_of_ascii c =? 168) eqn:Ec; [intros [= <-]|destruct (nat_of_ascii c =? 169) eqn:Ed; [intros [= <-]|done]];
    split_and!; auto.
Qed.

(** Induction along [escape]. *)
Lemma escape_ind html (P : string -> string -> Prop) :
  P "" "" ->
  (forall a b c d s t, separator a b c = Some d -> P s t -> P (String a (String b (String c s))) ("\u202" +:+ String d t)) ->
  (forall a s t, P s t -> P (String a s) (escape_char html a +:+ t)) ->
  forall s, P s (escape html s).
Proof.
  intros H0 H1 H2 s. remember (len s) as k eqn:Hk. revert s Hk. induction (lt_wf k) as [k _ IH]. intros s ->.
  destruct s as [|a s]; [exact H0|].
  assert (forall s', len s' < len (String a s) -> P s' (escape html s')) as Hs by (intros s' Hl; by apply (IH (len s'))).
  destruct s as [|b [|c s]].
  - apply H2, Hs. simpl. lia.
  - apply H2, Hs. simpl. lia.
  - cbn [escape]. destruct (separator a b c) as [d|] eqn:E; [apply H1, Hs; [done|]; simpl; lia|].
    apply (H2 a (String b (String c s))), Hs. simpl. lia.
Qed.

Lemma unquote_escape html s : unquote None (escape html s) = Some s.
Proof.
  apply (escape_ind html (fun s t => unquote None t = Some s)).
  - reflexivity.
  - intros a b c d s' t (-> & -> & [[-> ->]|[-> ->]])%separator_inv H; unfold String.app in *; simpl in *; by rewrite H.
  - intros a s' t H. by rewrite unquote_char, H.
Qed.

Lemma literal_end_escape html s rest :
  literal_end (escape html s +:+ String (ascii_of_nat 34) rest) = Some (escape html s, rest).
Proof.
  apply (escape_ind html (fun _ t => literal_end (t +:+ String (ascii_of_nat 34) rest) = Some (t, rest))).
  - reflexivity.
  - intros a b c d s' t (-> & -> & [[-> ->]|[-> ->]])%separator_inv H; unfold String.app in *; simpl in *; by rewrite H.
  - intros a s' t H. by rewrite str_app_assoc, literal_end_char, H.
Qed.

Lemma read_escape html s rest : read_string (escape html s +:+ String (ascii_of_nat 34) rest) = Some (s, rest).
Proof. unfold read_string. rewrite literal_end_escape. cbn [mbind option_bind]. by rewrite unquote_escape. Qed.
Lemma quoted_app html s rest :
  quote_with html s +:+ rest = String (ascii_of_nat 34) (escape html s +:+ String (ascii_of_nat 34) rest).
Proof.
  unfold quote_with, dquote. rewrite !str_app_assoc.
  change (String (ascii_of_nat 34) ("" +:+ (escape html s +:+ (String (ascii_of_nat 34) "" +:+ rest))) = String (ascii_of_nat 34) (escape html s +:+ String (ascii_of_nat 34) rest)). reflexivity.
Qed.

(** *** Numbers *)
(** What may follow a number. *)
Definition ends (rest : string) : bool :=
  match rest with String c _ => negb (is_digit c) | EmptyString => true end && negb (fractional rest).

Lemma digits_only u : str_all is_digit (NilEmpty.string_of_uint u) = true.
Proof. induction u; simpl; auto. Qed.
Lemma ends_span ds rest : str_all is_digit ds = true -> ends rest = true -> span is_digit (ds +:+ rest) = (ds, rest).
Proof.
  intros Hd He. apply span_app; [done|]. unfold ends in He. apply andb_true_iff in He as [He _].
  destruct rest as [|c r]; [done|]. by apply negb_true_iff in He.
Qed.

(** A number is printed without leading zeros. *)
Lemma digits_head p : leading_zero (NilEmpty.string_of_uint (Pos.to_uint p)) = false
  /\ exists c s, NilEmpty.string_of_uint (Pos.to_uint p) = String c s /\ is_digit c = true.
Proof.
  pose proof (DecimalPos.Unsigned.to_of (Pos.to_uint p)) as H. rewrite DecimalPos.Unsigned.of_to in H.
  change (N.to_uint (N.pos p)) with (Pos.to_uint p) in H. pose proof (DecimalPos.Unsigned.to_uint_nonzero p) as Hz.
  pose proof (DecimalPos.Unsigned.to_uint_nonnil p) as Hn.
  destruct (Pos.to_uint p) as [|u|d|d|d|d|d|d|d|d|d]; [done| |split; [by destruct d|by do 2 eexists]..].
  exfalso. rewrite unorm_D0 in H. destruct (Decimal.nzhead u) as [|v| | | | | | | | |] eqn:E.
  { apply unorm_0 in E. by rewrite E in H. }
  all: pose proof (unorm_nzhead u) as Hu; rewrite E in Hu; rewrite Hu in H by done; try done.
  by apply nzhead_nonzero in E.
Qed.

Lemma read_digits ds rest :
  str_all is_digit ds = true -> ds <> "" -> leading_zero ds = false -> ends rest = true ->
  read_number (ds +:+ rest) = (n ← NilZero.int_of_string ds; Some (Z.of_int n, rest))
  /\ read_number (String "-" ds +:+ rest) = (n ← NilZero.int_of_string (String "-" ds); Some (Z.of_int n, rest)).
Proof.
  intros Hd Hn Hl He. pose proof (ends_span _ _ Hd He) as Hs.
  assert (fractional rest = false) as Hf by (unfold ends in He; apply andb_true_iff in He as [_ He]; by apply negb_true_iff in He).
  pose proof (proj2 (str_empty_false _) Hn) as Hne. split.
  - unfold read_number. destruct ds as [|c ds]; [done|]. change (String c ds +:+ rest) with (String c (ds +:+ rest)) in *. cbv beta iota.
    assert (is_chr 45 c = false) as -> by (simpl in Hd; apply andb_true_iff in Hd as [Hd _]; by destruct c as [[] [] [] [] [] [] [] []]).
    rewrite Hs, Hne, Hl, Hf. reflexivity.
  - unfold read_number. change (String "-" ds +:+ rest) with (String "-" (ds +:+ rest)). cbv beta iota.
    change (is_chr 45 "-") with true. cbv iota. rewrite Hs, Hne, Hl, Hf. reflexivity.
Qed.

Definition starts_number (s : string) : bool :=
  match s with String c _ => is_digit c || is_chr 45 c | EmptyString => false end.

Lemma read_print n rest : ends rest = true ->
  starts_number (print_Z n) = true /\ read_number (print_Z n +:+ rest) = Some (n, rest).
Proof.
  intros He. pose proof (int_of_print n) as Hz.
  assert (forall p, NilZero.string_of_uint (Pos.to_uint p) = NilEmpty.string_of_uint (Pos.to_uint p)) as Hp.
  { intros p. pose proof (DecimalPos.Unsigned.to_uint_nonnil p). by destruct (Pos.to_uint p). }
  unfold print_Z in *. destruct n as [|p|p]; cbn [Z.to_int NilZero.string_of_int] in *.
  - split; [done|]. exact (proj1 (read_digits "0" rest eq_refl ltac:(done) eq_refl He)).
  - rewrite Hp in *. destruct (digits_head p) as (Hl & c & s & E & Hc). pose proof (digits_only (Pos.to_uint p)) as Hd.
    rewrite E in *. split; [cbn; by rewrite Hc|]. rewrite (proj1 (read_digits _ rest Hd ltac:(done) Hl He)).
    destruct (NilZero.int_of_string _); [|done]. by injection Hz as <-.
  - rewrite Hp in *. destruct (digits_head p) as (Hl & c & s & E & Hc). pose proof (digits_only (Pos.to_uint p)) as Hd.
    rewrite E in *. split; [done|]. rewrite (proj2 (read_digits _ rest Hd ltac:(done) Hl He)).
    destruct (NilZero.int_of_string _); [|done]. by injection Hz as <-.
Qed.

(** *** Documents *)
Section printed.
Variable html : bool.
Local Notation print := (marshal_with html).

(** [v] is read from its own text, whatever follows that cannot belong to a number. *)
Definition reads (v : json) : Prop :=
  forall rest m, ends rest = true -> 2 * len (print v +:+ rest) <= m -> value m (print v +:+ rest) = Some (v, rest).

(** A printed value begins with neither white space nor a closing bracket. *)
Definition opens (s : string) : bool :=
  match s with String c _ => negb (is_ws c || is_chr 93 c) | EmptyString => false end.
Lemma print_opens v rest : opens (print v +:+ rest) = true.
Proof.
  destruct v as [|[]|n|s|l|m]; try done.
  destruct (read_print n "" eq_refl) as [H _]. cbn [marshal_with]. destruct (print_Z n) as [|c s]; [done|].
  cbn in H |- *. destruct c as [[] [] [] [] [] [] [] []]; done.
Qed.
Lemma opens_skip s : opens s = true -> skip_ws s = s.
Proof. destruct s as [|c s]; [done|]. cbn. by destruct (is_ws c). Qed.

Lemma value_array s m : opens s = true ->
  value (S m) (String "[" s) = ('(l, r) ← elements m s; Some (JArr l, r)).
Proof.
  intros Ho. pose proof (opens_skip _ Ho) as Hs. cbn [value]. change (skip_ws (String "[" s)) with (String "[" s). cbv beta iota.
  change (is_chr 34 "[") with false. change (is_chr 91 "[") with true. cbv iota. rewrite Hs. destruct s as [|c s]; [done|].
  cbn in Ho. destruct (is_chr 93 c); [by destruct (is_ws c)|done].
Qed.

Lemma elements_read l rest m :
  l <> [] -> Forall reads l ->
  let s := String.concat "," (List.map print l) +:+ String "]" rest in
  2 * len s + 1 <= m -> elements m s = Some (l, rest).
Proof.
  intros Hne Hl. revert m Hne. induction Hl as [|v l Hv Hl IH]; intros m Hne s Hm; [done|].
  destruct m as [|m]; [lia|]. cbn [elements]. subst s. destruct l as [|w l].
  - cbn [List.map String.concat] in *. rewrite Hv by (done || lia). reflexivity.
  - change (String.concat "," (List.map print (v :: w :: l))) with (print v +:+ ("," +:+ String.concat "," (List.map print (w :: l)))) in *.
    rewrite !str_app_assoc in *. rewrite Hv by (done || lia). cbn [mbind option_bind].
    change ("," +:+ ?x) with (String "," x) in *. rewrite str_length_app in Hm.
    assert (elements m (String.concat "," (List.map print (w :: l)) +:+ String "]" rest) = Some (w :: l, rest)) as E
      by (apply IH; [done|]; cbn [String.length] in Hm; lia).
    set (t := String.concat _ _ +:+ _) in *. change (skip_ws (String "," t)) with (String "," t). cbv beta iota.
    change (is_chr 44 ",") with true. cbv iota. by rewrite E.
Qed.

Definition member (kv : string * json) : string := quote_with html kv.1 +:+ ":" +:+ print kv.2.
Lemma members_step kv t m :
  reads kv.2 -> ends t = true -> 2 * len (member kv +:+ t) <= S m ->
  members (S m) (member kv +:+ t)
  = match skip_ws t with
    | String c r => if is_chr 44 c then '(l, r) ← members m r; Some (kv :: l, r)
                    else if is_chr 125 c then Some ([kv], r) else None
    | EmptyString => None
    end.
Proof.
  intros Hv Ht Hm. destruct kv as [k v]. cbn [fst snd] in *.
  assert (member (k, v) +:+ t = String (ascii_of_nat 34) (escape html k +:+ String (ascii_of_nat 34) (String ":" (print v +:+ t)))) as E.
  { unfold member. cbn [fst snd]. rewrite str_app_assoc, quoted_app, str_app_assoc. reflexivity. }
  rewrite E in *. assert (value m (print v +:+ t) = Some (v, t)) as Hr.
  { apply Hv; [done|]. cbn [String.length] in Hm. rewrite str_length_app in Hm. cbn [String.length] in Hm. lia. }
  cbn [members]. set (u := print v +:+ t) in *. set (w := escape html k +:+ _).
  change (skip_ws (String (ascii_of_nat 34) w)) with (String (ascii_of_nat 34) w). cbv beta iota.
  change (is_chr 34 (ascii_of_nat 34)) with true. cbv iota. subst w. rewrite read_escape. cbn [mbind option_bind].
  change (skip_ws (String ":" u)) with (String ":" u). cbv beta iota. change (is_chr 58 ":") with true. cbv iota. by rewrite Hr.
Qed.

Lemma members_read fs rest m :
  fs <> [] -> Forall (fun kv => reads kv.2) fs ->
  let s := String.concat "," (List.map member fs) +:+ String "}" rest in
  2 * len s + 1 <= m -> members m s = Some (fs, rest).
Proof.
  intros Hne Hl. revert m Hne. induction Hl as [|kv l Hv Hl IH]; intros m Hne s Hm; [done|].
  destruct m as [|m]; [lia|]. subst s. destruct l as [|w l].
  - cbn [List.map String.concat] in *. rewrite members_step by (done || lia). reflexivity.
  - change (String.concat "," (List.map member (kv :: w :: l))) with (member kv +:+ ("," +:+ String.concat "," (List.map member (w :: l)))) in *.
    rewrite !str_app_assoc in *. change ("," +:+ ?x) with (String "," x) in *. rewrite members_step by (done || lia).
    rewrite str_length_app in Hm.
    assert (members m (String.concat "," (List.map member (w :: l)) +:+ String "}" rest) = Some (w :: l, rest)) as E
      by (apply IH; [done|]; cbn [String.length] in Hm; lia).
    set (t := String.concat _ _ +:+ _) in *. change (skip_ws (String "," t)) with (String "," t). cbv beta iota.
    change (is_chr 44 ",") with true. cbv iota. by rewrite E.
Qed.

(** The members of an object in the order they are printed in. *)
Lemma printed_members (mp : gmap string json) : exists fs,
  fs ≡ₚ map_to_list mp
  /\ print (JObj mp) = "{" +:+ String.concat "," (List.map member fs) +:+ "}".
Proof.
  pose proof (sort_keys_perm (map_to_list (fmap (M := gmap string) print mp))) as Hp. rewrite map_to_list_fmap in Hp.
  apply Permutation_map_inv in Hp as (fs & E & Hfs). exists fs. split; [done|].
  cbn [marshal_with]. rewrite map_to_list_fmap, E, List.map_map. reflexivity.
Qed.
End printed.

(** What either printer writes, the reader reads back. *)
Lemma value_number m c t : starts_number (String c t) = true ->
  value (S m) (String c t) = ('(n, r) ← read_number (String c t); Some (JNum n, r)).
Proof. by destruct c as [[] [] [] [] [] [] [] []]. Qed.
Lemma value_string m w : value (S m) (String (ascii_of_nat 34) w) = ('(t, r) ← read_string w; Some (JStr t, r)).
Proof. reflexivity. Qed.
Lemma value_object m w :
  value (S m) (String "{" (String (ascii_of_nat 34) w))
  = ('(l, r) ← members m (String (ascii_of_nat 34) w); Some (JObj (list_to_map (rev l)), r)).
Proof. reflexivity. Qed.

Lemma elements_open html v l rest : opens (String.concat "," (List.map (marshal_with html) (v :: l)) +:+ rest) = true.
Proof. destruct l as [|w l]; [apply print_opens|]. cbn [List.map String.concat]. rewrite str_app_assoc. apply print_opens. Qed.
Lemma members_open html kv l rest : exists w,
  String.concat "," (List.map (member html) (kv :: l)) +:+ rest = String (ascii_of_nat 34) w.
Proof.
  destruct l as [|x l]; cbn [List.map String.concat]; unfold member at 1; rewrite !str_app_assoc, quoted_app; by eexists.
Qed.
Lemma map_of_members fs (mp : gmap string json) : fs ≡ₚ map_to_list mp -> list_to_map (rev fs) = mp.
Proof.
  intros Hp. rewrite <- (list_to_map_to_list mp) at 1. apply list_to_map_proper.
  - rewrite <- Permutation_rev, Hp. apply NoDup_fst_map_to_list.
  - by rewrite <- Permutation_rev.
Qed.

Lemma value_null m rest : value (S m) ("null" +:+ rest) = Some (JNull, rest).
Proof.
  pose proof (has_prefix_app "null" rest) as H. change ("null" +:+ rest) with (String "n" ("ull" +:+ rest)) in *.
  unfold value. change (skip_ws (String "n" ("ull" +:+ rest))) with (String "n" ("ull" +:+ rest)). cbv beta iota. by rewrite H.
Qed.
Lemma value_bool m (b : bool) rest : value (S m) ((if b then "true" else "false") +:+ rest) = Some (JBool b, rest).
Proof.
  destruct b.
  - pose proof (has_prefix_app "true" rest) as H. change ("true" +:+ rest) with (String "t" ("rue" +:+ rest)) in *.
    unfold value. change (skip_ws (String "t" ("rue" +:+ rest))) with (String "t" ("rue" +:+ rest)). cbv beta iota. by rewrite H.
  - pose proof (has_prefix_app "false" rest) as H. change ("false" +:+ rest) with (String "f" ("alse" +:+ rest)) in *.
    unfold value. change (skip_ws (String "f" ("alse" +:+ rest))) with (String "f" ("alse" +:+ rest)). cbv beta iota. by rewrite H.
Qed.

Lemma reads_S html v :
  (forall rest m, ends rest = true -> 2 * String.length (marshal_with html v +:+ rest) <= S m ->
     value (S m) (marshal_with html v +:+ rest) = Some (v, rest)) -> reads html v.
Proof.
  intros H rest [|m] He Hm; [exfalso|by apply H]. pose proof (print_opens html v rest) as Ho.
  destruct (_ +:+ rest); [done|]. simpl in Hm. lia.
Qed.

Lemma printed_read html v : reads html v.
Proof.
  induction v as [|b|n|s|l IH|mp IH] using json_ind'; apply reads_S; intros rest m He Hm.
  - apply value_null.
  - apply value_bool.
  - destruct (read_print n rest He) as [Hs Hr]. cbn [marshal_with] in *. destruct (print_Z n) as [|c t]; [done|].
    change (String c t +:+ rest) with (String c (t +:+ rest)) in *. by rewrite value_number, Hr.
  - cbn [marshal_with]. by rewrite quoted_app, value_string, read_escape.
  - destruct l as [|v l]; [reflexivity|]. cbn [marshal_with] in *. rewrite !str_app_assoc in *.
    change ("[" +:+ ?x) with (String "[" x) in *. change ("]" +:+ rest) with (String "]" rest) in *.
    rewrite value_array by apply elements_open. rewrite elements_read; [done|done|done|]. cbn [String.length] in Hm. lia.
  - destruct (printed_members html mp) as (fs & Hp & E). rewrite E in *. destruct fs as [|kv fs].
    { apply Permutation_nil in Hp. apply map_to_list_empty_iff in Hp as ->. reflexivity. }
    rewrite !str_app_assoc in *. change ("{" +:+ ?x) with (String "{" x) in *. change ("}" +:+ rest) with (String "}" rest) in *.
    assert (members m (String.concat "," (List.map (member html) (kv :: fs)) +:+ String "}" rest) = Some (kv :: fs, rest)) as G.
    { apply members_read; [done| |cbn [String.length] in Hm; lia]. apply Forall_forall. intros [k x] Hx. rewrite Hp in Hx. apply list_elem_of_In in Hx.
      apply elem_of_map_to_list in Hx. exact (IH _ _ Hx). }
    destruct (members_open html kv fs (String "}" rest)) as [w Ew]. rewrite Ew in *. rewrite value_object, G. cbn [mbind option_bind].
    by rewrite (map_of_members _ _ Hp).
Qed.

(** A document survives being printed, by either printer, and read: nothing is lost to
    the escapes, the order of the keys or the white space. *)
Theorem parse_printed html v : parse (marshal_with html v) = Some v.
Proof.
  apply (parse_complete (parse_fuel (marshal_with html v)) _ v ""); [|done].
  pose proof (printed_read html v "" (parse_fuel (marshal_with html v)) eq_refl) as H. rewrite str_app_nil_r in H. by apply H.
Qed.

(** Text that needs no escape in either mode, but for HTML's characters. *)
Definition verbatim_char (c : ascii) : bool :=
  (32 <=? nat_of_ascii c) && (nat_of_ascii c <? 127) && negb (is_chr 34 c || is_chr 92 c).

Lemma escape_verbatim s : str_all verbatim_char s = true -> escape false s = s.
Proof.
  apply (escape_ind false (fun s t => str_all verbatim_char s = true -> t = s)).
  - done.
  - intros a b c d s' t (-> & _)%separator_inv _ H. done.
  - intros a s' t IH H. cbn [str_all] in H. apply andb_true_iff in H as [Ha H]. rewrite (IH H).
    by destruct a as [[] [] [] [] [] [] [] []].
Qed.

(** C37: What a tool tells the model is its result, and a URL in it stands as it is: the
    text [toolresult.Marshal] writes is read back as the document it was given, as
    [json.Marshal]'s is, and printable text without quotes and backslashes is copied,
    ampersands and angle brackets included. *)
Theorem Marshal_read v :
  parse (Marshal v) = Some v /\ parse (marshal v) = Some v
  /\ forall s, str_all verbatim_char s = true -> Marshal (JStr s) = dquote +:+ s +:+ dquote.
Proof.
  unfold Marshal. rewrite !parse_printed. split_and!; [done|done|]. intros s Hs. cbn [marshal_with]. unfold quote_with.
  by rewrite escape_verbatim.
Qed.
Lemma Marshal_read_witness :
  Marshal (JStr "https://s3/chart.png?X-Amz-Date=1&X-Amz-Expires=<600>")
  = dquote +:+ "https://s3/chart.png?X-Amz-Date=1&X-Amz-Expires=<600>" +:+ dquote.
Proof. apply (proj2 (proj2 (Marshal_read JNull))). vm_compute. reflexivity. Defined.
End Text.
