(* ===== verification/Helpers.v ===== *)
(** * Small packages every part uses

    The line each model call logs (node/llmtiming.go), the wrapper that turns a panic
    into an error (engine/safego), the attachment emitter a tool finds in its context
    (node/attachment.go) and the string test of pkg/utils. *)

From S2P Require Import Prelude Json JsonText.
From stdpp Require Import base tactics list strings gmap option.
From Stdlib Require Import ZArith Lia Ascii String.
Local Open Scope string_scope.
Local Open Scope list_scope.
Local Open Scope Z_scope.

(** ** node/llmtiming.go *)
Module Timing.

(** A moment in nanoseconds; [None] is the zero time. *)
Record LLMTiming := mkTiming {
  Provider : string;
  Model : string;
  Start : option Z;
  FirstEvent : option Z;
  End_ : option Z;
  HasUsage : bool;
  InputTokens : Z;
  OutputTokens : Z;
  Stop : string;
  Err_ : option string;
}.

Definition dash (s : string) : string := if str_empty s then "-" else s.

(** [Time.Sub] saturates; [Milliseconds] truncates. *)
Definition Sub (t u : Z) : Z := Z.max (- 2 ^ 63) (Z.min (2 ^ 63 - 1) (t - u)).
Definition Milliseconds (d : Z) : Z := Z.quot d 1000000.
Definition elapsed (start stop : option Z) : option Z :=
  match start, stop with Some s, Some e => Some (Milliseconds (Sub e s)) | _, _ => None end.
Definition number (n : option Z) : string := match n with Some n => print_Z n | None => "-" end.

(** [strconv.Quote], on printable text (multi-byte sequences are copied). *)
Definition quote_char (c : ascii) : string :=
  match nat_of_ascii c with
  | 34%nat => String "\" dquote | 92%nat => "\\" | 7%nat => "\a" | 8%nat => "\b" | 12%nat => "\f" | 10%nat => "\n"
  | 13%nat => "\r" | 9%nat => "\t" | 11%nat => "\v"
  | n => if (n <? 32)%nat || (n =? 127)%nat
         then "\x" +:+ String (hex_digit (n / 16)) (String (hex_digit (n mod 16)) "") else String c ""
  end.
Definition Quote (s : string) : string := dquote +:+ String.concat "" (List.map quote_char (list_ascii_of_string s)) +:+ dquote.

(** [LLMTiming.String] *)
Definition line (t : LLMTiming) : string :=
  String.concat " "
    ["provider=" +:+ dash (Provider t); "model=" +:+ dash (Model t); "ttfb_ms=" +:+ number (elapsed (Start t) (FirstEvent t));
     "total_ms=" +:+ number (elapsed (Start t) (End_ t));
     "in_tok=" +:+ number (if HasUsage t then Some (InputTokens t) else None);
     "out_tok=" +:+ number (if HasUsage t then Some (OutputTokens t) else None); "stop=" +:+ dash (Stop t);
     "err=" +:+ match Err_ t with Some e => Quote e | None => "-" end].

(** What is logged: nothing without a logger. *)
Definition LogLLMTiming (logger : bool) (wfID nodeID : string) (t : LLMTiming) : option string :=
  if logger then Some ("llm-timing wf=" +:+ wfID +:+ " node=" +:+ nodeID +:+ " " +:+ line t) else None.

Example LogLLMTiming_ex :
  LogLLMTiming true "wf" "m1" (mkTiming "bedrock" "" (Some 1000000) (Some 4999999) None true 12 3 "end_turn" (Some ("a " +:+ dquote +:+ "b" +:+ dquote)))
  = Some ("llm-timing wf=wf node=m1 provider=bedrock model=- ttfb_ms=3 total_ms=- in_tok=12 out_tok=3 stop=end_turn err="
          +:+ dquote +:+ "a \" +:+ dquote +:+ "b\" +:+ dquote +:+ dquote).
Proof. vm_compute. reflexivity. Qed.

(** The time to the first event is at most the whole time, whatever the clock shows. *)
Lemma elapsed_mono start first stop a b :
  first <= stop -> elapsed start (Some first) = Some a -> elapsed start (Some stop) = Some b -> a <= b.
Proof.
  destruct start as [s|]; [|done]. intros Hle [= <-] [= <-]. unfold Milliseconds. apply Z.quot_le_mono; [lia|]. unfold Sub. lia.
Qed.

(** One line: no line break gets in, whatever the provider's error says. *)
Definition printable (c : ascii) : bool := negb ((nat_of_ascii c <? 32)%nat || (nat_of_ascii c =? 127)%nat).
Lemma quote_char_printable c : str_all printable (quote_char c) = true.
Proof. by destruct c as [[] [] [] [] [] [] [] []]. Qed.
Lemma Quote_one_line s : str_all printable (Quote s) = true.
Proof.
  unfold Quote. rewrite !str_all_app. change (str_all printable dquote) with true. cbn [andb]. rewrite andb_true_r.
  induction (list_ascii_of_string s) as [|c l IH]; [done|]. cbn [List.map].
  destruct l as [|d l]; [cbn; apply quote_char_printable|]. cbn [List.map String.concat]. 
  change ("" +:+ ?x) with x. rewrite str_all_app, quote_char_printable. exact IH.
Qed.
End Timing.

(** ** engine/safego *)
Module Safego.

(** What a function does: it returns its error, or panics with a value. *)
Inductive run := Returned (err : option string) | Panicked (value : string).

Definition newline : string := String (ascii_of_nat 10) "".
(** [Run]; [stack] is [debug.Stack()]'s text. *)
Definition Run (stack name : string) (fn : run) : option string :=
  match fn with
  | Returned err => err
  | Panicked v => Some ("panic in " +:+ name +:+ ": " +:+ v +:+ newline +:+ stack)
  end.

(** autoupdate.go, the updater's goroutine: what it logs when its loop is over. *)
Definition autoupdate_ends (stack wfID nodeID : string) (loop : run) : option string :=
  match Run stack "bedrock-autoupdate" (match loop with Returned _ => Returned None | p => p end) with
  | Some err => Some ("ai/bedrock wf=" +:+ wfID +:+ " node=" +:+ nodeID
                      +:+ " autoupdate: goroutine terminated, auto-update DISABLED for this process: " +:+ err)
  | None => None
  end.
Lemma panic_logged stack wfID nodeID loop :
  autoupdate_ends stack wfID nodeID loop <> None <-> exists v, loop = Panicked v.
Proof. destruct loop as [e|v]; cbn; split; try done; [by intros [v ?]|by exists v]. Qed.
End Safego.

(** ** node/attachment.go *)
Module Attachments.

Record ToolAttachment := mkAttachment { Kind : string; Payload : string }.
Section emitter.
Context {W : Type}.
(** [AttachmentEmitter]: its one method, which may fail. *)
Definition AttachmentEmitter : Type := ToolAttachment -> W -> option string * W.
(** A context as far as the service looks into it: the emitter under its key, and the
    other values. *)
Record context := mkContext { emitter : option AttachmentEmitter; others : string -> option string }.

Definition WithAttachmentEmitter (ctx : context) (e : AttachmentEmitter) : context := mkContext (Some e) (others ctx).
Definition EmitterFromContext (ctx : context) : option AttachmentEmitter := emitter ctx.
End emitter.
End Attachments.

(** ** pkg/utils *)
Definition IsValidString (input : option string) : bool :=
  match input with Some s => negb (str_empty (trim_space s)) | None => false end.
Lemma IsValidString_spec s : IsValidString (Some s) = false <-> str_all is_space s = true.
Proof. cbn. rewrite negb_false_iff, str_empty_true. apply trim_space_blank. Qed.
