(* ===== verification/Agent.v ===== *)
(** * The agent node (pkg/workflow/builtin/agent: factory.go, loop.go)

    The turn that alternates model calls and tool invocations, with its budgets, its
    recoveries and the events it emits.  The model, the tools, the memory, the sink and
    the clock are operations on an abstract world; the definitions log every
    observable action in order. *)

From S2P Require Import Prelude Json Scan Retry Node Events Charts.
From stdpp Require Import base tactics list strings gmap option fin_maps sets.
From Stdlib Require Import ZArith Lia Ascii String.
Local Open Scope string_scope.
Local Open Scope list_scope.
Local Open Scope Z_scope.

(** ** node/memory.go, node/llm.go, node/tool.go *)

Inductive MessageRole := UserMsg | AssistantMsg | SystemMsg.

Inductive ContentBlock :=
| BlockText (text : string)
| BlockToolUse (id name input : string)
| BlockToolResult (id result : string) (isError : bool)
| BlockImage (mediaType filename data : string)
| BlockDocument (mediaType filename data : string).

Record Message := mkMessage { Role : MessageRole; Content : list ContentBlock }.
Record Turn := mkTurn { User : Message; Assistant : Message; Timestamp : Z }.
Record MemoryKey := mkKey { mk_WorkflowID : string; mk_AccountID : string; mk_UserID : string; mk_SessionID : string }.

Record ToolSpec := mkToolSpec { ts_Name : string; ts_Description : string; ts_InputSchema : string }.
Inductive FailurePolicy := FailureSurfaceToLLM | FailureTerminate.

Record LLMRequest := mkRequest { System : string; Messages : list Message; Tools : list ToolSpec }.
Record LLMToolUse := mkToolUse { tu_ID : string; tu_Name : string; tu_InputJSON : string }.
Inductive LLMEvent :=
| LLMTextDelta (delta : string)
| LLMToolUseStart
| LLMToolUseDelta
| LLMToolUseStop (t : LLMToolUse)
| LLMMessageStop (stop : string)
| LLMError (e : option error)
| LLMReasoningDelta (delta : string).

(** How one attempt at streaming ends: the provider returns, or the attempt's context
    is done first. *)
Inductive stream_end := StreamReturned (err : option error) | AttemptDone (err : error).

(** A payload with what it decodes to. *)
Record RawMessage := mkRaw { bytes : string; decoded : option json }.

Record ToolAttachment := mkToolAttachment { ta_Kind : string; ta_Payload : string }.

(** The events of a turn, before [mustJSON]. *)
Inductive client_event :=
| CDelta (text : string)
| CThought (text : string)
| CToolCall (id name input : string)
| CToolResult (id output : string) (isError : bool)
| CAttachment (id kind payload : string)
| CComplete (finalText messageStop : string)
| CError (code message : string).

(** ** errcode *)
Definition MemoryLoadError : string := "memory-load-error".
Definition MemoryAppendError : string := "memory-append-error".
Definition RenderError : string := "render-error".
Definition LLMErrorCode : string := "llm-error".
Definition ToolErrorCode : string := "tool-error".
Definition MaxIterationsCode : string := "max-iterations".
Definition Timeout : string := "timeout".
Definition Cancelled : string := "cancelled".
Definition PolicyDeny : string := "policy-deny".

(** ** The texts the loop injects *)
Definition emptyAnswerNudge : string :=
  "You ended your turn without writing any answer for the user. If a tool failed, either correct the tool input and call it again, or use the data you already have to answer in plain text. You must always provide a final written answer - never end your turn silently.".
Definition toolErrorRecoveryHint : string :=
  "If you can correct the tool input, call the tool again. Otherwise, answer the user in plain text using the data you already have. Never end your turn without a written answer.".
Definition policyDenyRecoveryHint : string :=
  "This request was denied by policy; do not retry it unchanged. Work within the allowed scope or explain the limitation to the user in plain text. Never end your turn without a written answer.".
Definition toolRetryCapHint : string :=
  "This tool has failed too many times this turn and is now disabled. Do not call it again. Answer the user in plain text using the information you already have. Never end your turn without a written answer.".
Definition chartRecallNudge : string :=
  "Your last answer references a chart image, but you did not call the QuickChart tool this turn, so no chart was actually generated. Call QuickChart now to generate exactly that chart. Do not rewrite or resend your answer — just call the tool. Do not invent, guess, modify, or reuse a chart URL.".

(** ** Budgets *)

(** [envIntClamped]: [None] is an unset variable. *)
Definition envIntClamped (raw : option string) (def max : Z) : Z :=
  let raw := trim_space (default "" raw) in
  if str_empty raw then def
  else match Atoi raw with
       | None => def
       | Some n => if n <? 0 then 0 else if max <? n then max else n
       end.
Definition resolveMaxEmptyAnswerRetries (raw : option string) : Z := envIntClamped raw 3 5.
Definition resolveMaxToolRetries (raw : option string) : Z := envIntClamped raw 3 10.

(** ** Messages *)

Definition is_text (b : ContentBlock) : bool := match b with BlockText _ => true | _ => false end.
Definition textOnlyMessage (m : Message) : Message := mkMessage (Role m) (List.filter is_text (Content m)).

Definition attachmentRef (b : ContentBlock) : string :=
  match b with
  | BlockImage mt fn data | BlockDocument mt fn data =>
      let kind := match b with BlockImage _ _ _ => "attached image" | _ => "attached document" end in
      "[" +:+ kind +:+ ": " +:+ (if str_empty fn then "(unnamed)" else fn) +:+ " (" +:+ mt +:+ ", "
        +:+ print_Z (Z.of_nat (String.length data)) +:+ " bytes)]"
  | _ => ""
  end.
Definition is_attachment (b : ContentBlock) : bool :=
  match b with BlockImage _ _ _ | BlockDocument _ _ _ => true | _ => false end.
Definition newline : string := String (ascii_of_nat 10) "".
Definition messageForMemory (m : Message) : Message :=
  let texts := List.filter is_text (Content m) in
  let refs := List.map attachmentRef (List.filter is_attachment (Content m)) in
  match refs with
  | [] => mkMessage (Role m) texts
  | _ => mkMessage (Role m) (BlockText (String.concat newline refs) :: texts)
  end.

Definition attachmentBlock (a : Attachment) : option ContentBlock :=
  if str_empty (att_Data a) || str_empty (att_MediaType a) then None
  else if has_prefix "image/" (att_MediaType a) then Some (BlockImage (att_MediaType a) (att_Filename a) (att_Data a))
  else if String.eqb (att_MediaType a) "application/pdf"
  then Some (BlockDocument (att_MediaType a) (att_Filename a) (att_Data a))
  else None.

Definition text_of (b : ContentBlock) : string := match b with BlockText t => t | _ => "" end.
Definition lastText (m : Message) : string := String.concat "" (List.map text_of (Content m)).

Fixpoint appendOrExtendText (blocks : list ContentBlock) (delta : string) : list ContentBlock :=
  match blocks with
  | [] => [BlockText delta]
  | [BlockText t] => [BlockText (t +:+ delta)]
  | b :: blocks => b :: appendOrExtendText blocks delta
  end.

Definition isBlankToolPayload (p : string) : bool :=
  let s := trim_space p in
  str_empty s || String.eqb s (dquote +:+ dquote) || String.eqb s "null".

Definition messageStopOf (stop : string) : string :=
  if str_empty stop || String.eqb stop "tool_use" then "end_turn" else stop.

(** *** Thoughts: the first 300 runes of a line *)
Definition starts_rune (c : ascii) : bool := negb (in_range 128 191 c).
Fixpoint rune_count (s : string) : nat :=
  match s with
  | EmptyString => 0
  | String c s => (if starts_rune c then S else id) (rune_count s)
  end.
Fixpoint take_runes (n : nat) (s : string) : string :=
  match s with
  | EmptyString => ""
  | String c s' => if starts_rune c
                   then match n with O => "" | S n => String c (take_runes n s') end
                   else String c (take_runes n s')
  end.
Definition ellipsis : string := String (ascii_of_nat 226) (String (ascii_of_nat 128) (String (ascii_of_nat 166) "")).
Definition clip (line : string) : string :=
  if (300 <? rune_count line)%nat then take_runes 300 line +:+ ellipsis else line.

(** [strings.SplitAfter(s, "\n")] *)
Fixpoint split_after (s : string) : list string :=
  match s with
  | EmptyString => [""]
  | String c s' =>
      if (nat_of_ascii c =? 10)%nat then String c "" :: split_after s'
      else match split_after s' with
           | x :: l => String c x :: l
           | [] => [String c ""]
           end
  end.

(** ** The turn *)

(** Everything a turn does that is visible outside. *)
Inductive action :=
| Asked (r : LLMRequest)                       (* the model is called *)
| Sent (e : client_event)                      (* sink.Send *)
| Invoked (name id : string) (failed : bool)   (* a tool ran, or a client answer was awaited *)
| Persisted (k : MemoryKey) (t : Turn)         (* mem.Append *)
| Closed (e : client_event).                   (* sink.Close *)

Section turn.
Context {W : Type}.

(** A tool invocation: it may attach presentation data, seeing each attach's error. *)
Inductive tool_prog :=
| TDone (out : string) (err : option error) (w : W)
| TAttach (a : ToolAttachment) (w : W) (k : option error -> W -> tool_prog).

Record Tool := mkTool {
  t_Spec : ToolSpec;
  t_ClientOnly : bool;
  t_FailurePolicy : FailurePolicy;
  t_RetryPolicy : option Policy;
  t_Invoke : string -> option Z -> Z -> W -> tool_prog;   (* args, attempt deadline, attempt number *)
}.

(** The world's operations. *)
Record Host := mkHost {
  h_ctx_err : W -> option error;
  h_mem_load : MemoryKey -> W -> res error (list Message) * W;
  h_mem_append : MemoryKey -> Turn -> W -> option error * W;
  h_render : string -> res error string;
  h_stream : LLMRequest -> option Z -> Z -> W -> (list LLMEvent * stream_end) * W;
  h_choose : W -> bool * W;                    (* a select with both cases ready *)
  h_send : client_event -> W -> option error * W;
  h_close : client_event -> W -> option error * W;
  h_await : string -> Z -> W -> res error RawMessage * W;
  h_now : W -> Z;
  h_rng : W -> Z * W;
  h_wait : Z -> W -> wait_outcome * W;
}.

(** The node: its configuration, resolved budgets and connected peers. *)
Record agentNode := mkAgent {
  MaxIterations : Z;
  SurfaceThoughts : bool;
  HumanResponseTimeoutSeconds : Z;
  maxEmptyAnswerRetries : Z;
  maxToolRetries : Z;
  llmPolicy : option Policy;
  has_mem : bool;
  tools : list Tool;
  merged : string;
  workflowID : string;
}.

Record AgentInput := mkInput {
  in_Message : string;
  in_SessionID : string;
  in_AccountID : string;     (* the identity of the context *)
  in_UserID : string;
  in_Attachments : list Attachment;
}.

Variable host : Host.
Variable a : agentNode.

Record state := mkState { world : W; log : list action }.
Definition record (x : action) (st : state) : state := mkState (world st) (log st ++ [x]).
Definition in_world {A} (f : W -> A * W) (st : state) : A * state :=
  let '(x, w) := f (world st) in (x, mkState w (log st)).

(** [emit]: silent during a forced chart recall. *)
Definition emit (forced : bool) (e : client_event) (st : state) : state :=
  if forced then st else (in_world (h_send host e) (record (Sent e) st)).2.

Definition close_sink (e : client_event) (st : state) : option error * state :=
  in_world (h_close host e) (record (Closed e) st).

Definition failStream (code : string) (cause : error) (st : state) : option error * state :=
  let '(_, st) := close_sink (CError code (Error cause)) st in (Some cause, st).

Definition lookupTool (name : string) : option Tool :=
  find_first (fun t => String.eqb (ts_Name (t_Spec t)) name) (tools a).

Definition memory_key (i : AgentInput) : MemoryKey :=
  mkKey (workflowID a) (in_AccountID i) (in_UserID i) (in_SessionID i).

Definition completeStream (i : AgentInput) (userMsg finalMsg : Message) (stop : string) (st : state)
    : option error * state :=
  let finish st := close_sink (CComplete (lastText finalMsg) (messageStopOf stop)) st in
  if has_mem a then
    let turn := mkTurn (messageForMemory userMsg) (textOnlyMessage finalMsg) (h_now host (world st)) in
    match in_world (h_mem_append host (memory_key i) turn) (record (Persisted (memory_key i) turn) st) with
    | (Some err, st) => failStream MemoryAppendError err st
    | (None, st) => finish st
    end
  else finish st.

(** *** The model call *)

(** One attempt: the events passed on, and its error.  A provider error after
    something was passed on becomes the stream-already-emitted error. *)
Definition is_llm_error (e : LLMEvent) : bool := match e with LLMError _ => true | _ => false end.
Definition passed_on (evs : list LLMEvent) : list LLMEvent := List.filter (fun e => negb (is_llm_error e)) evs.
Definition last_error (evs : list LLMEvent) : option error :=
  foldl (fun acc e => match e with LLMError err => err | _ => acc end) None evs.
Definition attempt_error (evs : list LLMEvent) (fin : stream_end) : option error :=
  match fin with
  | AttemptDone err => Some err
  | StreamReturned serr =>
      match (match serr with Some e => Some e | None => last_error evs end) with
      | None => None
      | Some err => match passed_on evs with
                    | [] => Some err
                    | _ => Some (ETool "stream-already-emitted" (Some err) false)
                    end
      end
  end.

(** The world of the retry driver: the events passed on so far ride along. *)
Definition llm_env (req : LLMRequest) : Env (W * list LLMEvent) unit :=
  mkEnv _ _
    (fun s => h_now host s.1)
    (fun deadline attempt s =>
       let '((evs, fin), w) := h_stream host req deadline attempt s.1 in
       ((tt, attempt_error evs fin), (w, s.2 ++ passed_on evs)))
    (fun s => let '(k, w) := h_rng host s.1 in (k, (w, s.2)))
    (fun d s => let '(o, w) := h_wait host d s.1 in (o, (w, s.2))).

(** The events the loop reads: a failure is reported last, unless the context is done
    and the select takes its other case. *)
Definition llm_events (req : LLMRequest) (st : state) : list LLMEvent * state :=
  let st := record (Asked req) st in
  match Do (llm_env req) (llmPolicy a) (world st, []) with
  | None => ([], st)   (* excluded: the driver is total *)
  | Some (r, (w, evs)) =>
      match Err_ r with
      | None => (evs, mkState w (log st))
      | Some err =>
          match h_ctx_err host w with
          | None => (evs ++ [LLMError (Some err)], mkState w (log st))
          | Some _ => let '(dropped, w) := h_choose host w in
                      (if dropped then evs else evs ++ [LLMError (Some err)], mkState w (log st))
          end
      end
  end.

(** *** Reading the events *)
Record reading := mkReading {
  assistantBlocks : list ContentBlock;
  stopReason : string;
  toolCalls : list LLMToolUse;
  llmErr : option error;
  thought : string;
}.

Definition set_thought (t : string) (r : reading) : reading :=
  mkReading (assistantBlocks r) (stopReason r) (toolCalls r) (llmErr r) t.

Definition flushThought (forced : bool) (p : reading * state) : reading * state :=
  let '(r, st) := p in
  let line := trim_space (thought r) in
  let r := set_thought "" r in
  if str_empty line || negb (SurfaceThoughts a) then (r, st)
  else (r, emit forced (CThought (clip line)) st).

Definition read_event (forced : bool) (p : reading * state) (ev : LLMEvent) : reading * state :=
  match ev with
  | LLMReasoningDelta delta =>
      foldl (fun p part =>
        let '(r, st) := p in
        let p := (set_thought (thought r +:+ part) r, st) in
        if has_suffix newline part then flushThought forced p else p) p (split_after delta)
  | LLMTextDelta delta =>
      let '(r, st) := flushThought forced p in
      (mkReading (appendOrExtendText (assistantBlocks r) delta) (stopReason r) (toolCalls r) (llmErr r) (thought r),
       emit forced (CDelta delta) st)
  | LLMToolUseStop t =>
      let '(r, st) := flushThought forced p in
      (mkReading (assistantBlocks r ++ [BlockToolUse (tu_ID t) (tu_Name t) (tu_InputJSON t)]) (stopReason r)
         (toolCalls r ++ [t]) (llmErr r) (thought r),
       emit forced (CToolCall (tu_ID t) (tu_Name t) (tu_InputJSON t)) st)
  | LLMMessageStop stop =>
      let '(r, st) := p in (mkReading (assistantBlocks r) stop (toolCalls r) (llmErr r) (thought r), st)
  | LLMError e =>
      let '(r, st) := p in (mkReading (assistantBlocks r) (stopReason r) (toolCalls r) e (thought r), st)
  | LLMToolUseStart | LLMToolUseDelta => p
  end.

Definition read_events (forced : bool) (evs : list LLMEvent) (st : state) : reading * state :=
  flushThought forced (foldl (read_event forced) (mkReading [] "" [] None "", st) evs).

(** *** Tool calls *)
Fixpoint run_tool (forced : bool) (id : string) (p : tool_prog) (l : list action) : (string * option error) * state :=
  match p with
  | TDone out err w => ((out, err), mkState w l)
  | TAttach att w k =>
      if forced then run_tool forced id (k None w) l
      else
        let e := CAttachment id (ta_Kind att) (ta_Payload att) in
        let '(err, w) := h_send host e w in
        run_tool forced id (k err w) (l ++ [Sent e])
  end.

Definition tool_env (forced : bool) (t : Tool) (tc : LLMToolUse) : Env state string :=
  mkEnv _ _
    (fun st => h_now host (world st))
    (fun deadline attempt st => run_tool forced (tu_ID tc) (t_Invoke t (tu_InputJSON tc) deadline attempt (world st)) (log st))
    (fun st => in_world (h_rng host) st)
    (fun d st => in_world (h_wait host d) st).

Definition human_timeout : Z :=
  let timeout := wrap64 (HumanResponseTimeoutSeconds a * Second) in
  if timeout <=? 0 then 5 * 60 * Second else timeout.

(** The outcome of one invocation: payload, error, attempts, last class. *)
Definition invoke (forced : bool) (t : Tool) (tc : LLMToolUse) (st : state)
    : (string * option error * Z * string) * state :=
  if t_ClientOnly t then
    match in_world (h_await host (tu_ID tc) human_timeout) st with
    | (Err e, st) => (("", Some (EWrap ("client-tool " +:+ tu_Name tc +:+ ": ") e), 1, ""), st)
    | (Ok raw, st) =>
        let skipped := match decoded raw with Some (JObj m) => as_bool (m !! "_skipped") | _ => false end in
        ((bytes raw, if skipped then Some (EPlain "user declined to answer") else None, 1, ""), st)
    end
  else
    match Do (tool_env forced t tc) (t_RetryPolicy t) st with
    | None => (("", None, 1, ""), st)   (* excluded: the driver is total *)
    | Some (r, st) =>
        ((Value r, Err_ r, if Attempts r <=? 0 then 1 else Attempts r, LastClass r), st)
    end.

Definition go_quote (s : string) : string := dquote +:+ s +:+ dquote.   (* %q of a plain name *)

Definition cap_payload (name : string) (count : Z) : string :=
  marshal (jobj
    [("error", JStr ("tool " +:+ go_quote name +:+ " failed " +:+ print_Z count
        +:+ " times this turn; disabled for the rest of this turn (retry cap " +:+ print_Z (maxToolRetries a) +:+ " reached)"));
     ("code", JStr "retry-cap-exceeded"); ("recovery", JStr toolRetryCapHint)]).

Definition error_payload (err : error) (attempts : Z) (cls : string) : string :=
  match as_policy_denied (chain err) with
  | Some allowed =>
      marshal (jobj
        [("error", JStr (Error err)); ("code", JStr PolicyDeny);
         ("allowedIndices", match allowed with [] => JNull | _ => JArr (List.map JStr allowed) end);
         ("attemptsExhausted", JNum attempts); ("recovery", JStr policyDenyRecoveryHint)])
  | None =>
      marshal (jobj
        [("error", JStr (Error err)); ("code", JStr (if str_empty cls then "validation" else cls));
         ("attemptsExhausted", JNum attempts); ("recovery", JStr toolErrorRecoveryHint)])
  end.

Definition count_of (counts : gmap string Z) (name : string) : Z := default 0 (counts !! name).

Inductive flow (A : Type) := Next (x : A) | Return (err : option error).
Arguments Next {A} _.
Arguments Return {A} _.

(** One tool call of the model: the error counts and its [tool_result] block. *)
Definition run_call (forced : bool) (counts : gmap string Z) (tc : LLMToolUse) (st : state)
    : flow (gmap string Z * ContentBlock) * state :=
  match lookupTool (tu_Name tc) with
  | None =>
      (Next (counts, BlockToolResult (tu_ID tc)
          (marshal (jobj [("error", JStr ("unknown tool: " +:+ tu_Name tc))])) true), st)
  | Some t =>
      let count := count_of counts (tu_Name tc) in
      if maxToolRetries a <? count then
        let payload := cap_payload (tu_Name tc) count in
        (Next (counts, BlockToolResult (tu_ID tc) payload true),
         emit forced (CToolResult (tu_ID tc) payload true) st)
      else
        let '((out, err, attempts, cls), st) := invoke forced t tc st in
        let st := record (Invoked (tu_Name tc) (tu_ID tc) (match err with Some _ => true | None => false end)) st in
        match err with
        | None =>
            let payload := if isBlankToolPayload out then marshal (JStr "(tool returned no output)") else out in
            (Next (counts, BlockToolResult (tu_ID tc) payload false),
             emit forced (CToolResult (tu_ID tc) payload false) st)
        | Some e =>
            let counts := <[tu_Name tc := count + 1]> counts in
            match t_FailurePolicy t with
            | FailureTerminate =>
                let '(r, st) := failStream ToolErrorCode e st in (Return r, st)
            | FailureSurfaceToLLM =>
                let payload := error_payload e attempts cls in
                (Next (counts, BlockToolResult (tu_ID tc) payload true),
                 emit forced (CToolResult (tu_ID tc) payload true) st)
            end
        end
  end.

Fixpoint run_calls (forced : bool) (counts : gmap string Z) (calls : list LLMToolUse) (st : state)
    : flow (gmap string Z * list ContentBlock) * state :=
  match calls with
  | [] => (Next (counts, []), st)
  | tc :: calls =>
      match run_call forced counts tc st with
      | (Return r, st) => (Return r, st)
      | (Next (counts, b), st) =>
          match run_calls forced counts calls st with
          | (Return r, st) => (Return r, st)
          | (Next (counts, bs), st) => (Next (counts, b :: bs), st)
          end
      end
  end.

Definition add_chart (charts : list chartRef) (c : chartRef) : list chartRef :=
  if sliceContains (chartKeysOf charts) (key c) then charts else charts ++ [c].
Definition collect_charts (charts : list chartRef) (results : list ContentBlock) : list chartRef :=
  foldl (fun charts b =>
    match b with
    | BlockToolResult _ r false => foldl add_chart charts (extractChartRefs r)
    | _ => charts
    end) charts results.

(** *** One iteration *)
Record loop_state := mkLoop {
  msgs : list Message;
  emptyAnswerRetries : Z;
  toolErrorCounts : gmap string Z;
  producedCharts : list chartRef;
  chartRecallForced : bool;
  forcedRecallActive : bool;
  preservedAnswer : string;
}.

Definition user_text (t : string) : Message := mkMessage UserMsg [BlockText t].
Definition assistant_text (t : string) : Message := mkMessage AssistantMsg [BlockText t].

(** The code to report for a failed model call. *)
Definition llm_error_code (e : error) : string :=
  if is_deadline e then Timeout else if is_canceled e then Cancelled else LLMErrorCode.

(** The end of a turn, [blocks] being the last assistant message. *)
Definition finish_turn (i : AgentInput) (userMsg : Message) (ls : loop_state) (blocks : list ContentBlock)
    (stop : string) (st : state) : flow loop_state * state :=
  let am := mkMessage AssistantMsg blocks in
  let forced := forcedRecallActive ls in
  if negb forced && str_empty (trim_space (lastText am)) && (emptyAnswerRetries ls <? maxEmptyAnswerRetries a) then
    let am := match blocks with [] => assistant_text "(no answer)" | _ => am end in
    (Next (mkLoop (msgs ls ++ [am; user_text emptyAnswerNudge]) (emptyAnswerRetries ls + 1) (toolErrorCounts ls)
             (producedCharts ls) (chartRecallForced ls) false (preservedAnswer ls)), st)
  else
    let finalText := if forced then preservedAnswer ls else lastText am in
    let finalMsg := if forced then assistant_text (preservedAnswer ls) else am in
    let missing := missingChartKeys (extractChartKeys finalText) (chartKeysOf (producedCharts ls)) in
    if (List.length missing =? 1)%nat && negb (chartRecallForced ls) then
      (Next (mkLoop (msgs ls ++ [am; user_text chartRecallNudge]) (emptyAnswerRetries ls) (toolErrorCounts ls)
               (producedCharts ls) true true finalText), st)
    else
      let corrected := correctChartRefs finalText (producedCharts ls) in
      let '(withCharts, appended) := appendMissingCharts corrected (producedCharts ls) in
      let corrected := if (0 <? appended)%nat then withCharts else corrected in
      let finalMsg := if String.eqb corrected finalText then finalMsg else assistant_text corrected in
      let '(r, st) := completeStream i userMsg finalMsg stop st in
      (Return r, st).

Definition iteration (i : AgentInput) (userMsg : Message) (sys : string) (ls : loop_state) (st : state)
    : flow loop_state * state :=
  match h_ctx_err host (world st) with
  | Some e => let '(r, st) := failStream Cancelled e st in (Return r, st)
  | None =>
      let forced := forcedRecallActive ls in
      let '(evs, st) := llm_events (mkRequest sys (msgs ls) (List.map t_Spec (tools a))) st in
      let '(r, st) := read_events forced evs st in
      match llmErr r with
      | Some e => let '(x, st) := failStream (llm_error_code e) e st in (Return x, st)
      | None =>
          let blocks := assistantBlocks r in
          if String.eqb (stopReason r) "end_turn" || (match toolCalls r with [] => true | _ => false end)
          then finish_turn i userMsg ls blocks (stopReason r) st
          else
            match run_calls forced (toolErrorCounts ls) (toolCalls r) st with
            | (Return x, st) => (Return x, st)
            | (Next (counts, results), st) =>
                match results with
                | [] => let '(x, st) := failStream LLMErrorCode (EPlain "ai/agent: tool turn produced no tool results") st in
                        (Return x, st)
                | _ =>
                    (Next (mkLoop (msgs ls ++ [mkMessage AssistantMsg blocks; mkMessage UserMsg results])
                             (emptyAnswerRetries ls) counts (collect_charts (producedCharts ls) results)
                             (chartRecallForced ls) forced (preservedAnswer ls)), st)
                end
            end
      end
  end.

Fixpoint loop (fuel : nat) (i : AgentInput) (userMsg : Message) (sys : string) (ls : loop_state) (st : state)
    : option error * state :=
  match fuel with
  | O => failStream MaxIterationsCode (EPlain ("ai/agent: reached maxIterations=" +:+ print_Z (MaxIterations a))) st
  | S fuel =>
      match iteration i userMsg sys ls st with
      | (Return r, st) => (r, st)
      | (Next ls, st) => loop fuel i userMsg sys ls st
      end
  end.

(** *** Process *)
Definition user_message (i : AgentInput) : Message :=
  mkMessage UserMsg (omap attachmentBlock (in_Attachments i) ++ [BlockText (in_Message i)]).

Definition Process (i : AgentInput) (st : state) : option error * state :=
  let loaded := if has_mem a then in_world (h_mem_load host (memory_key i)) st else (Ok [], st) in
  match loaded with
  | (Err e, st) => failStream MemoryLoadError e st
  | (Ok history, st) =>
      match h_render host (merged a) with
      | Err e => failStream RenderError e st
      | Ok sys =>
          let userMsg := user_message i in
          loop (Z.to_nat (MaxIterations a)) i userMsg sys
            (mkLoop (history ++ [userMsg]) 0 ∅ [] false false "") st
      end
  end.

(** ** Properties *)

(** *** What each part logs *)
Definition intermediate (e : client_event) : Prop :=
  match e with CComplete _ _ | CError _ _ => False | _ => True end.
Definition is_sent (x : action) : Prop := match x with Sent e => intermediate e | _ => False end.
Definition is_work (x : action) : Prop :=
  match x with Sent e => intermediate e | Invoked _ _ _ => True | _ => False end.
Definition not_closed (x : action) : Prop := match x with Closed _ => False | _ => True end.

(** [st'] extends the log of [st] by actions in [P]. *)
Definition extends (P : action -> Prop) (st st' : state) : Prop :=
  exists l, log st' = log st ++ l /\ Forall P l.

Lemma extends_refl P st : extends P st st.
Proof. exists []. by rewrite app_nil_r. Qed.
Lemma extends_trans P s1 s2 s3 : extends P s1 s2 -> extends P s2 s3 -> extends P s1 s3.
Proof.
  intros (l1 & H1 & F1) (l2 & H2 & F2). exists (l1 ++ l2). rewrite H2, H1, app_assoc. split; [done|]. by apply Forall_app.
Qed.
Lemma extends_weaken (P Q : action -> Prop) s1 s2 : (forall x, P x -> Q x) -> extends P s1 s2 -> extends Q s1 s2.
Proof. intros H (l & H1 & F1). exists l. split; [done|]. by eapply Forall_impl. Qed.

Lemma in_world_log {A} (f : W -> A * W) st : log (in_world f st).2 = log st.
Proof. unfold in_world. by destruct (f (world st)). Qed.

Lemma emit_log forced e st : log (emit forced e st) = log st ++ (if forced then [] else [Sent e]).
Proof. unfold emit. destruct forced; [by rewrite app_nil_r|]. by rewrite in_world_log. Qed.

Lemma emit_extends (P : action -> Prop) forced e st : P (Sent e) -> extends P st (emit forced e st).
Proof. intros He. eexists. split; [apply emit_log|]. destruct forced; by repeat constructor. Qed.

Lemma close_log e st : log (close_sink e st).2 = log st ++ [Closed e].
Proof. unfold close_sink. by rewrite in_world_log. Qed.

Lemma failStream_spec code cause st :
  (failStream code cause st).1 = Some cause /\ log (failStream code cause st).2 = log st ++ [Closed (CError code (Error cause))].
Proof.
  unfold failStream. pose proof (close_log (CError code (Error cause)) st) as H.
  destruct (close_sink _ st) as [x st']. by split.
Qed.

Lemma flush_extends forced p : extends is_sent p.2 (flushThought forced p).2.
Proof.
  destruct p as [r st]. unfold flushThought. destruct (str_empty _ || _); [apply extends_refl|]. by apply emit_extends.
Qed.

Lemma read_event_extends forced p ev : extends is_sent p.2 (read_event forced p ev).2.
Proof.
  destruct ev; simpl; try (destruct p; apply extends_refl); try apply extends_refl.
  - pose proof (flush_extends forced p) as H. destruct (flushThought forced p) as [r st].
    eapply extends_trans; [exact H|]. by apply emit_extends.
  - pose proof (flush_extends forced p) as H. destruct (flushThought forced p) as [r st].
    eapply extends_trans; [exact H|]. by apply emit_extends.
  - generalize (split_after delta). intros parts. revert p. induction parts as [|x parts IH]; intros [r st]; simpl; [apply extends_refl|].
    eapply extends_trans; [|apply IH].
    destruct (has_suffix newline x); [|apply extends_refl].
    apply (flush_extends forced (set_thought (thought r +:+ x) r, st)).
Qed.

Lemma read_events_extends forced evs st : extends is_sent st (read_events forced evs st).2.
Proof.
  unfold read_events. eapply extends_trans; [|apply flush_extends].
  change st with (mkReading [] "" [] None "", st).2 at 1. generalize (mkReading [] "" [] None "", st).
  induction evs as [|ev evs IH]; intros p; [apply extends_refl|]. simpl.
  eapply extends_trans; [apply read_event_extends|apply IH].
Qed.

Lemma llm_events_log req st : log (llm_events req st).2 = log st ++ [Asked req].
Proof.
  unfold llm_events. destruct (Do _ _ _) as [[r [w evs]]|]; [|done].
  destruct (Err_ r); [|done]. destruct (h_ctx_err host w); [|done]. by destruct (h_choose host w).
Qed.

Lemma run_tool_extends forced id p l : extends is_sent (mkState (world (run_tool forced id p l).2) l) (run_tool forced id p l).2.
Proof.
  revert l. induction p as [out err w|att w k IH]; intros l; simpl; [apply extends_refl|].
  destruct forced; [apply IH|]. destruct (h_send host _ w) as [err w'].
  specialize (IH err w' (l ++ [Sent (CAttachment id (ta_Kind att) (ta_Payload att))])).
  destruct IH as (l' & H1 & H2). simpl in H1. eexists. split; [rewrite H1; simpl; by rewrite <- app_assoc|].
  by constructor.
Qed.

Lemma invoke_extends forced t tc st : extends is_sent st (invoke forced t tc st).2.
Proof.
  unfold invoke. destruct (t_ClientOnly t).
  - pose proof (in_world_log (h_await host (tu_ID tc) human_timeout) st) as H.
    destruct (in_world _ st) as [[raw|e] st']; exists []; by rewrite app_nil_r.
  - destruct (Do (tool_env forced t tc) (t_RetryPolicy t) st) as [[r st']|] eqn:E; [|apply extends_refl]. simpl.
    eapply (Do_preserves (tool_env forced t tc) (extends is_sent st)); [| | |apply extends_refl|exact E].
    + intros d n st1 H1. eapply extends_trans; [exact H1|]. simpl.
      apply (run_tool_extends forced (tu_ID tc) _ (log st1)).
    + intros st1 H1. destruct H1 as (l & H1 & H2). exists l. simpl. by rewrite in_world_log.
    + intros d st1 H1. destruct H1 as (l & H1 & H2). exists l. simpl. by rewrite in_world_log.
Qed.

Lemma invoke_extends_log forced t tc st out err n cls st' :
  invoke forced t tc st = ((out, err, n, cls), st') -> extends is_sent st st'.
Proof. intros H. pose proof (invoke_extends forced t tc st) as He. by rewrite H in He. Qed.

(** The turn is still open after [Next], closed once and last after [Return]. *)
Definition closes (P : action -> Prop) (st : state) (r : option error) (st' : state) : Prop :=
  exists l e, log st' = log st ++ l ++ [Closed e] /\ Forall P l
    /\ match e with
       | CComplete _ _ => True
       | CError code msg => exists cause, r = Some cause /\ msg = Error cause
       | _ => False
       end.

Lemma failStream_closes P code cause st0 st :
  extends P st0 st -> closes P st0 (failStream code cause st).1 (failStream code cause st).2.
Proof.
  intros (l & H1 & H2). destruct (failStream_spec code cause st) as [Hr Hl]. rewrite Hr.
  exists l, (CError code (Error cause)). rewrite Hl, H1, <- app_assoc. split_and!; try done. by exists cause.
Qed.

Definition flow_ok {A} (P : action -> Prop) (st : state) (p : flow A * state) : Prop :=
  match p with
  | (Next _, st') => extends P st st'
  | (Return r, st') => closes P st r st'
  end.

Lemma extends_closes P s1 s2 r s3 : extends P s1 s2 -> closes P s2 r s3 -> closes P s1 r s3.
Proof.
  intros (l1 & H1 & F1) (l2 & e & H2 & F2 & He). exists (l1 ++ l2), e. rewrite H2, H1, <- !app_assoc.
  split_and!; try done. by apply Forall_app.
Qed.

Lemma closes_weaken (P Q : action -> Prop) s1 r s2 : (forall x, P x -> Q x) -> closes P s1 r s2 -> closes Q s1 r s2.
Proof. intros H (l & e & H1 & F1 & He). exists l, e. split_and!; try done. by eapply Forall_impl. Qed.

Lemma record_extends (P : action -> Prop) x st0 st : extends P st0 st -> P x -> extends P st0 (record x st).
Proof.
  intros (l & H1 & H2) Hx. exists (l ++ [x]). simpl. rewrite H1, app_assoc. split; [done|].
  apply Forall_app. split; [done|]. by constructor.
Qed.

Lemma run_call_flow forced counts tc st : flow_ok is_work st (run_call forced counts tc st).
Proof.
  unfold run_call. destruct (lookupTool (tu_Name tc)) as [t|]; [|apply extends_refl].
  destruct (maxToolRetries a <? _); [simpl; by apply emit_extends|].
  destruct (invoke forced t tc st) as [[[[out err] n] cls] st1] eqn:Ei.
  apply invoke_extends_log in Ei. apply (extends_weaken is_sent is_work) in Ei; [|by intros []].
  destruct err as [e|].
  - destruct (t_FailurePolicy t).
    + simpl. eapply extends_trans; [|by apply emit_extends]. by apply record_extends.
    + pose proof (failStream_closes is_work ToolErrorCode e st (record (Invoked (tu_Name tc) (tu_ID tc) true) st1)) as H.
      destruct (failStream _ _ _) as [r st2]. apply H. by apply record_extends.
  - simpl. eapply extends_trans; [|by apply emit_extends]. by apply record_extends.
Qed.

Lemma run_calls_flow forced counts calls st : flow_ok is_work st (run_calls forced counts calls st).
Proof.
  revert counts st. induction calls as [|tc calls IH]; intros counts st; simpl; [apply extends_refl|].
  pose proof (run_call_flow forced counts tc st) as H.
  destruct (run_call forced counts tc st) as [[[counts1 b]|r] st1]; simpl in H; [|done].
  specialize (IH counts1 st1). destruct (run_calls forced counts1 calls st1) as [[[counts2 bs]|r] st2]; simpl in *.
  - by eapply extends_trans.
  - by eapply extends_closes.
Qed.

Definition is_persist (x : action) : Prop := match x with Persisted _ _ => True | _ => False end.
Lemma completeStream_closes i userMsg finalMsg stop st :
  closes is_persist st (completeStream i userMsg finalMsg stop st).1 (completeStream i userMsg finalMsg stop st).2.
Proof.
  unfold completeStream.
  assert (forall st1, extends is_persist st st1 ->
    closes is_persist st (close_sink (CComplete (lastText finalMsg) (messageStopOf stop)) st1).1
      (close_sink (CComplete (lastText finalMsg) (messageStopOf stop)) st1).2) as Hc.
  { intros st1 (l & H1 & H2). exists l, (CComplete (lastText finalMsg) (messageStopOf stop)).
    by rewrite close_log, H1, <- app_assoc. }
  destruct (has_mem a); [|apply Hc, extends_refl].
  set (turn := mkTurn _ _ _).
  pose proof (in_world_log (h_mem_append host (memory_key i) turn) (record (Persisted (memory_key i) turn) st)) as Hl.
  destruct (in_world _ _) as [[err|] st1]; simpl in Hl.
  - apply failStream_closes. exists [Persisted (memory_key i) turn]. split; [done|by constructor].
  - apply Hc. exists [Persisted (memory_key i) turn]. split; [done|by constructor].
Qed.

Lemma finish_turn_flow i userMsg ls blocks stop st : flow_ok is_persist st (finish_turn i userMsg ls blocks stop st).
Proof.
  unfold finish_turn. destruct (negb _ && _ && _); [apply extends_refl|].
  destruct ((List.length _ =? 1)%nat && _); [apply extends_refl|].
  destruct (appendMissingCharts _ _) as [withCharts appended].
  pose proof (completeStream_closes i userMsg
    (if String.eqb (if (0 <? appended)%nat then withCharts else
       correctChartRefs (if forcedRecallActive ls then preservedAnswer ls else lastText (mkMessage AssistantMsg blocks)) (producedCharts ls))
       (if forcedRecallActive ls then preservedAnswer ls else lastText (mkMessage AssistantMsg blocks))
     then (if forcedRecallActive ls then assistant_text (preservedAnswer ls) else mkMessage AssistantMsg blocks)
     else assistant_text (if (0 <? appended)%nat then withCharts else
       correctChartRefs (if forcedRecallActive ls then preservedAnswer ls else lastText (mkMessage AssistantMsg blocks)) (producedCharts ls)))
    stop st) as H.
  destruct (completeStream _ _ _ _ st) as [r st']. exact H.
Qed.

(** *** Tool failures *)
Definition failures (name : string) (l : list action) : Z :=
  Z.of_nat (List.length (List.filter (fun x => match x with
    | Invoked n _ true => String.eqb n name
    | _ => false
    end) l)).
Lemma failures_app name l1 l2 : failures name (l1 ++ l2) = failures name l1 + failures name l2.
Proof. unfold failures. rewrite List.filter_app, length_app. lia. Qed.
Lemma failures_none name l : Forall (fun x => match x with Invoked _ _ _ => False | _ => True end) l -> failures name l = 0.
Proof. unfold failures. induction 1 as [|x l Hx _ IH]; [done|]. by destruct x. Qed.
Lemma failures_sent name l : Forall is_sent l -> failures name l = 0.
Proof. intros H. apply failures_none. eapply Forall_impl; [exact H|]. by intros []. Qed.

(** The bound on a tool's failures in a turn. *)
Definition failure_cap : Z := Z.max 0 (maxToolRetries a + 1).

(** [l] keeps the counts within the cap, and [counts'] counts it. *)
Definition counted (counts : gmap string Z) (l : list action) (after : option (gmap string Z)) : Prop :=
  forall name, count_of counts name <= failure_cap ->
    count_of counts name + failures name l <= failure_cap
    /\ forall counts', after = Some counts' -> count_of counts' name = count_of counts name + failures name l.

Lemma counted_nothing counts l : (forall name, failures name l = 0) -> counted counts l (Some counts).
Proof. intros H name Hc. rewrite H. split; [lia|]. intros c' [= <-]. lia. Qed.

Lemma counted_app counts l1 counts1 l2 after :
  counted counts l1 (Some counts1) -> counted counts1 l2 after -> counted counts (l1 ++ l2) after.
Proof.
  intros H1 H2 name Hc. destruct (H1 name Hc) as [Hb He]. specialize (He counts1 eq_refl).
  destruct (H2 name ltac:(lia)) as [Hb2 He2]. rewrite failures_app. split; [lia|].
  intros c' Hc'. rewrite (He2 c' Hc'). lia.
Qed.

Lemma count_insert counts name x n : count_of (<[name := x]> counts) n = if String.eqb n name then x else count_of counts n.
Proof.
  unfold count_of. destruct (String.eqb_spec n name) as [->|Hn]; [by rewrite lookup_insert_eq|by rewrite lookup_insert_ne].
Qed.

Lemma counted_failure counts name id l1 l2 after :
  Forall is_sent l1 -> Forall (fun x => match x with Invoked _ _ _ => False | _ => True end) l2 ->
  count_of counts name <= maxToolRetries a ->
  (after = None \/ after = Some (<[name := count_of counts name + 1]> counts)) ->
  counted counts (l1 ++ [Invoked name id true] ++ l2) after.
Proof.
  intros F1 F2 Hcap Ha n Hn. rewrite !failures_app, (failures_sent _ l1 F1), (failures_none _ l2 F2).
  assert (failures n [Invoked name id true] = if String.eqb n name then 1 else 0) as ->.
  { unfold failures. simpl. rewrite String.eqb_sym. by destruct (String.eqb n name). }
  unfold failure_cap in *. destruct (String.eqb_spec n name) as [->|Hne]; (split; [lia|]); intros c' Hc';
    (destruct Ha as [Ha|Ha]; [congruence|]); rewrite Ha in Hc'; injection Hc' as <-; rewrite count_insert.
  - rewrite String.eqb_refl. lia.
  - apply String.eqb_neq in Hne. rewrite Hne. lia.
Qed.

Definition next_counts {B} (f : flow (gmap string Z * B)) : option (gmap string Z) :=
  match f with Next (c, _) => Some c | Return _ => None end.

Lemma run_call_counted forced counts tc st :
  exists l, log (run_call forced counts tc st).2 = log st ++ l
    /\ counted counts l (next_counts (run_call forced counts tc st).1).
Proof.
  unfold run_call. destruct (lookupTool (tu_Name tc)) as [t|].
  2:{ exists []. rewrite app_nil_r. split; [done|]. by apply counted_nothing. }
  destruct (Z.ltb_spec (maxToolRetries a) (count_of counts (tu_Name tc))) as [Hcap|Hcap].
  { cbn [fst snd next_counts]. eexists. split; [apply emit_log|]. apply counted_nothing. intros n. by destruct forced. }
  destruct (invoke forced t tc st) as [[[[out err] n] cls] st1] eqn:Ei.
  apply invoke_extends_log in Ei as (l1 & H1 & F1).
  assert (forall e b, log (emit forced e (record (Invoked (tu_Name tc) (tu_ID tc) b) st1))
     = log st ++ (l1 ++ [Invoked (tu_Name tc) (tu_ID tc) b] ++ (if forced then [] else [Sent e]))) as He.
  { intros e b. rewrite emit_log. simpl. by rewrite H1, <- !app_assoc. }
  destruct err as [e|].
  - destruct (t_FailurePolicy t).
    + cbn [fst snd next_counts]. eexists. split; [apply He|]. apply counted_failure; auto.
      destruct forced; by repeat constructor.
    + destruct (failStream_spec ToolErrorCode e (record (Invoked (tu_Name tc) (tu_ID tc) true) st1)) as [_ Hl].
      destruct (failStream _ _ _) as [r st2]. cbn [fst snd next_counts] in *. eexists.
      split; [rewrite Hl; simpl; by rewrite H1, <- !app_assoc|]. by apply counted_failure; auto.
  - cbn [fst snd next_counts]. eexists. split; [apply He|]. apply counted_nothing. intros n0.
    rewrite !failures_app, (failures_sent _ l1 F1). by destruct forced.
Qed.

Lemma run_calls_counted forced counts calls st :
  exists l, log (run_calls forced counts calls st).2 = log st ++ l
    /\ counted counts l (next_counts (run_calls forced counts calls st).1).
Proof.
  revert counts st. induction calls as [|tc calls IH]; intros counts st; simpl.
  - exists []. rewrite app_nil_r. split; [done|]. by apply counted_nothing.
  - destruct (run_call_counted forced counts tc st) as (l1 & H1 & C1).
    destruct (run_call forced counts tc st) as [[[counts1 b]|r] st1]; [|by exists l1].
    destruct (IH counts1 st1) as (l2 & H2 & C2). exists (l1 ++ l2).
    simpl in *. rewrite app_assoc, <- H1, <- H2.
    destruct (run_calls forced counts1 calls st1) as [[[counts2 bs]|r] st2]; (split; [done|]);
      by eapply counted_app.
Qed.

(** *** Conversations *)
Definition tool_ids (blocks : list ContentBlock) : list string :=
  omap (fun b => match b with BlockToolUse id _ _ => Some id | _ => None end) blocks.
Definition result_ids (blocks : list ContentBlock) : list string :=
  omap (fun b => match b with BlockToolResult id _ _ => Some id | _ => None end) blocks.

(** The conversations a turn builds on [base], with the number of re-prompts for an
    empty answer and of chart recalls: every assistant message has content and is
    answered by a user message, tool calls by one result each, in order. *)
Inductive conversation (base : list Message) : Z -> Z -> list Message -> Prop :=
| conv_start : conversation base 0 0 base
| conv_tools n k l blocks results :
    conversation base n k l -> tool_ids blocks <> [] -> result_ids results = tool_ids blocks ->
    List.length results = List.length (tool_ids blocks) ->
    conversation base n k (l ++ [mkMessage AssistantMsg blocks; mkMessage UserMsg results])
| conv_nudge n k l blocks :
    conversation base n k l -> blocks <> [] ->
    (trim_space (lastText (mkMessage AssistantMsg blocks)) = "" \/ blocks = [BlockText "(no answer)"]) ->
    conversation base (n + 1) k (l ++ [mkMessage AssistantMsg blocks; user_text emptyAnswerNudge])
| conv_recall n k l blocks :
    conversation base n k l -> blocks <> [] -> extractChartKeys (lastText (mkMessage AssistantMsg blocks)) <> [] ->
    conversation base n (k + 1) (l ++ [mkMessage AssistantMsg blocks; user_text chartRecallNudge]).

Definition reading_ok (r : reading) : Prop := List.map tu_ID (toolCalls r) = tool_ids (assistantBlocks r).

Lemma tool_ids_app l1 l2 : tool_ids (l1 ++ l2) = tool_ids l1 ++ tool_ids l2.
Proof. unfold tool_ids. apply omap_app. Qed.

Lemma tool_ids_extend blocks delta : tool_ids (appendOrExtendText blocks delta) = tool_ids blocks.
Proof.
  induction blocks as [|b blocks IH]; [done|]. destruct b as [t|id name input|id r e|m f d|m f d].
  - destruct blocks as [|b' blocks]; [done|]. change (tool_ids (appendOrExtendText (b' :: blocks) delta) = tool_ids (b' :: blocks)).
    exact IH.
  - change (id :: tool_ids (appendOrExtendText blocks delta) = id :: tool_ids blocks). by rewrite IH.
  - change (tool_ids (appendOrExtendText blocks delta) = tool_ids blocks). exact IH.
  - change (tool_ids (appendOrExtendText blocks delta) = tool_ids blocks). exact IH.
  - change (tool_ids (appendOrExtendText blocks delta) = tool_ids blocks). exact IH.
Qed.

Lemma flush_reading forced p : reading_ok p.1 -> reading_ok (flushThought forced p).1.
Proof. destruct p as [r st]. unfold flushThought. by destruct (str_empty _ || _). Qed.

Lemma read_event_reading forced p ev : reading_ok p.1 -> reading_ok (read_event forced p ev).1.
Proof.
  intros Hp. destruct ev; simpl; try (by destruct p); try done.
  - pose proof (flush_reading forced p Hp) as H. destruct (flushThought forced p) as [r st]. simpl in *.
    unfold reading_ok in *. simpl. by rewrite tool_ids_extend.
  - pose proof (flush_reading forced p Hp) as H. destruct (flushThought forced p) as [r st]. simpl in *.
    unfold reading_ok in *. simpl. by rewrite tool_ids_app, <- H, map_app.
  - revert p Hp. induction (split_after delta) as [|x parts IH]; intros [r st] Hp; simpl; [done|]. apply IH.
    destruct (has_suffix newline x); [|done]. by apply (flush_reading forced (set_thought (thought r +:+ x) r, st)).
Qed.

Lemma read_events_reading forced evs st : reading_ok (read_events forced evs st).1.
Proof.
  unfold read_events. apply flush_reading.
  assert (reading_ok (mkReading [] "" [] None "", st).1) as H by done. revert H. generalize (mkReading [] "" [] None "", st).
  induction evs as [|ev evs IH]; intros p Hp; [done|]. simpl. apply IH. by apply read_event_reading.
Qed.

Lemma run_call_result forced counts tc st counts' b st' :
  run_call forced counts tc st = (Next (counts', b), st') -> exists r e, b = BlockToolResult (tu_ID tc) r e.
Proof.
  unfold run_call. intros H. destruct (lookupTool (tu_Name tc)) as [t|]; [|injection H as <- <- <-; by eexists _, _].
  destruct (_ <? _); [injection H as <- <- <-; by eexists _, _|].
  destruct (invoke forced t tc st) as [[[[out err] n] cls] st1]. destruct err as [e|].
  - destruct (t_FailurePolicy t); [injection H as <- <- <-; by eexists _, _|]. by destruct (failStream _ _ _).
  - injection H as <- <- <-. by eexists _, _.
Qed.

Lemma run_calls_results forced counts calls st counts' bs st' :
  run_calls forced counts calls st = (Next (counts', bs), st') ->
  result_ids bs = List.map tu_ID calls /\ List.length bs = List.length calls.
Proof.
  revert counts st counts' bs st'. induction calls as [|tc calls IH]; intros counts st counts' bs st' H; simpl in H.
  - by injection H as <- <- <-.
  - destruct (run_call forced counts tc st) as [[[c1 b]|r] st1] eqn:Ec; [|done].
    destruct (run_calls forced c1 calls st1) as [[[c2 bs2]|r] st2] eqn:Er; [|done].
    injection H as <- <- <-. destruct (IH _ _ _ _ _ Er) as [H1 H2].
    destruct (run_call_result _ _ _ _ _ _ _ Ec) as (res & e & ->). split; [|simpl; by rewrite H2].
    change (tu_ID tc :: result_ids bs2 = tu_ID tc :: List.map tu_ID calls). by rewrite H1.
Qed.

(** *** The turn as a whole *)
Definition requests (l : list action) : list LLMRequest :=
  omap (fun x => match x with Asked q => Some q | _ => None end) l.
Lemma requests_app l1 l2 : requests (l1 ++ l2) = requests l1 ++ requests l2.
Proof. unfold requests. apply omap_app. Qed.
Lemma requests_none l : Forall (fun x => match x with Asked _ => False | _ => True end) l -> requests l = [].
Proof. unfold requests. induction 1 as [|x l Hx _ IH]; [done|]. by destruct x; try exact IH. Qed.

Definition is_open (x : action) : Prop :=
  match x with Closed _ | Persisted _ _ => False | Sent e => intermediate e | _ => True end.

Definition good_request (base : list Message) (q : LLMRequest) : Prop :=
  h_render host (merged a) = Ok (System q) /\ Tools q = List.map t_Spec (tools a)
  /\ exists n k, conversation base n k (Messages q) /\ 0 <= n <= Z.max 0 (maxEmptyAnswerRetries a) /\ 0 <= k <= 1.

Record turn_inv (base : list Message) (l : list action) (ls : loop_state) : Prop := {
  ti_open : Forall is_open l;
  ti_conv : conversation base (emptyAnswerRetries ls) (if chartRecallForced ls then 1 else 0) (msgs ls);
  ti_budget : 0 <= emptyAnswerRetries ls <= Z.max 0 (maxEmptyAnswerRetries a);
  ti_recall : forcedRecallActive ls = true -> chartRecallForced ls = true;
  ti_counts : forall name, count_of (toolErrorCounts ls) name = failures name l /\ failures name l <= failure_cap;
  ti_requests : Forall (good_request base) (requests l);
}.

(** How a turn's log ends. *)
Definition persisted_before (i : AgentInput) (tail : list action) (e : client_event) : Prop :=
  match tail with
  | [] => match e with CComplete _ _ => has_mem a = false | _ => True end
  | [Persisted k t] =>
      k = memory_key i /\ User t = messageForMemory (user_message i)
      /\ Forall (fun b => is_text b = true) (Content (User t)) /\ Forall (fun b => is_text b = true) (Content (Assistant t))
      /\ match e with CComplete text _ => lastText (Assistant t) = text | _ => True end
  | _ => False
  end.
Record turn_done (i : AgentInput) (base : list Message) (l : list action) (r : option error) : Prop := {
  td_shape : exists l1 tail e, l = l1 ++ tail ++ [Closed e] /\ Forall is_open l1 /\ persisted_before i tail e
    /\ match e with
       | CComplete _ _ => True
       | CError code msg => exists cause, r = Some cause /\ msg = Error cause
       | _ => False
       end;
  td_requests : Forall (good_request base) (requests l);
  td_failures : forall name, failures name l <= failure_cap;
}.

Lemma lastText_textOnly m : lastText (textOnlyMessage m) = lastText m.
Proof.
  unfold lastText, textOnlyMessage. simpl. induction (Content m) as [|b l IH]; [done|].
  destruct b; cbn [List.filter is_text List.map text_of]; rewrite !concat_nil_cons, IH; done.
Qed.

Lemma textOnly_all m : Forall (fun b => is_text b = true) (Content (textOnlyMessage m)).
Proof. apply Forall_forall. intros b Hb%list_elem_of_In. simpl in Hb. by apply filter_In in Hb as [_ ?]. Qed.
Lemma messageForMemory_all m : Forall (fun b => is_text b = true) (Content (messageForMemory m)).
Proof.
  unfold messageForMemory. pose proof (textOnly_all m) as H. simpl in H.
  destruct (List.map attachmentRef _); simpl; [done|]. by constructor.
Qed.

(** The end of the log when the stream is closed from an open turn. *)
Lemma done_fail i base l code cause :
  Forall is_open l -> Forall (good_request base) (requests l) -> (forall name, failures name l <= failure_cap) ->
  turn_done i base (l ++ [Closed (CError code (Error cause))]) (Some cause).
Proof.
  intros Ho Hr Hf. split.
  - exists l, [], (CError code (Error cause)). split_and!; try done. by exists cause.
  - by rewrite requests_app, app_nil_r.
  - intros name. rewrite failures_app. specialize (Hf name). unfold failures at 2. simpl. lia.
Qed.

Lemma completeStream_done i base l finalMsg stop st pre :
  log st = pre ++ l ->
  Forall is_open l -> Forall (good_request base) (requests l) -> (forall name, failures name l <= failure_cap) ->
  let '(r, st') := completeStream i (user_message i) finalMsg stop st in
  exists l', log st' = pre ++ l ++ l' /\ turn_done i base (l ++ l') r /\ requests l' = [].
Proof.
  intros Hlog Ho Hr Hf. unfold completeStream.
  set (fin := CComplete (lastText finalMsg) (messageStopOf stop)).
  destruct (has_mem a) eqn:Em.
  2:{ pose proof (close_log fin st) as Hc. destruct (close_sink fin st) as [r st'].
      exists [Closed fin]. simpl in Hc. rewrite Hc, Hlog, <- app_assoc. split_and!; try done.
      split; [exists l, [], fin; by rewrite app_nil_l|by rewrite requests_app, app_nil_r|].
      intros name. rewrite failures_app. specialize (Hf name). unfold failures at 2. simpl. lia. }
  set (turn := mkTurn _ _ _).
  pose proof (in_world_log (h_mem_append host (memory_key i) turn) (record (Persisted (memory_key i) turn) st)) as Hw.
  assert (forall e r, (e = fin \/ exists code cause, e = CError code (Error cause) /\ r = Some cause) ->
    turn_done i base (l ++ [Persisted (memory_key i) turn; Closed e]) r) as Hdone.
  { intros e r He. split.
    - exists l, [Persisted (memory_key i) turn], e. split_and!; try done.
      + split_and!; [done|done|apply messageForMemory_all|apply textOnly_all|].
        destruct He as [->|(code & cause & -> & _)]; [apply lastText_textOnly|done].
      + destruct He as [->|(code & cause & -> & ->)]; [done|by exists cause].
    - by rewrite requests_app, app_nil_r.
    - intros name. rewrite failures_app. specialize (Hf name). unfold failures at 2. simpl. lia. }
  destruct (in_world _ _) as [[err|] st1]; simpl in Hw.
  - destruct (failStream_spec MemoryAppendError err st1) as [H1 H2].
    destruct (failStream MemoryAppendError err st1) as [r st']. simpl in *. subst r.
    eexists. split; [rewrite H2, Hw, Hlog, <- !app_assoc; done|]. split; [|done].
    apply Hdone. right. by eexists _, _.
  - pose proof (close_log fin st1) as Hc. destruct (close_sink fin st1) as [r st']. simpl in Hc.
    eexists. split; [rewrite Hc, Hw, Hlog, <- !app_assoc; done|]. split; [|done].
    apply Hdone. by left.
Qed.

Lemma inv_extend base l l2 ls :
  turn_inv base l ls -> Forall is_open l2 -> Forall (good_request base) (requests l2) ->
  (forall name, failures name l2 = 0) -> turn_inv base (l ++ l2) ls.
Proof.
  intros [H1 H2 H3 H4 H5 H6] Ho Hr Hf. split; try done.
  - by apply Forall_app.
  - intros name. rewrite failures_app, Hf, Z.add_0_r. apply H5.
  - rewrite requests_app. by apply Forall_app.
Qed.

Lemma inv_failures base l ls name : turn_inv base l ls -> failures name l <= failure_cap.
Proof. intros H. apply (ti_counts _ _ _ H). Qed.

Definition iteration_ok (i : AgentInput) (base : list Message) (pre l : list action) (p : flow loop_state * state) : Prop :=
  exists l', log p.2 = pre ++ l ++ l' /\ (List.length (requests l') <= 1)%nat
    /\ match p.1 with
       | Next ls' => turn_inv base (l ++ l') ls'
       | Return r => turn_done i base (l ++ l') r
       end.

Lemma missing_one_keys finalText produced :
  List.length (missingChartKeys (extractChartKeys finalText) produced) = 1%nat -> extractChartKeys finalText <> [].
Proof. intros H E. by rewrite E in H. Qed.

Lemma finish_turn_inv i base pre l ls blocks stop st :
  turn_inv base l ls -> log st = pre ++ l ->
  let p := finish_turn i (user_message i) ls blocks stop st in
  exists l', log p.2 = pre ++ l ++ l' /\ requests l' = []
    /\ match p.1 with Next ls' => turn_inv base (l ++ l') ls' | Return r => turn_done i base (l ++ l') r end.
Proof.
  intros Hinv Hlog. unfold finish_turn.
  destruct (negb (forcedRecallActive ls) && _ && _) eqn:Enudge.
  - to_prop. exists []. rewrite !app_nil_r. split_and!; try done. destruct Hinv as [I1 I2 I3 I4 I5 I6].
    split; simpl; try done; [|lia]. destruct blocks as [|b bs].
    + apply conv_nudge; [done|done|by right].
    + apply conv_nudge; [done|done|by left].
  - destruct ((List.length _ =? 1)%nat && negb (chartRecallForced ls)) eqn:Erecall.
    + to_prop. exists []. rewrite !app_nil_r. split_and!; try done. simpl.
      pose proof (ti_recall _ _ _ Hinv) as Hrec. destruct Hinv as [I1 I2 I3 I4 I5 I6].
      match goal with H : chartRecallForced ls = false |- _ => rewrite H in * end.
      destruct (forcedRecallActive ls); [by specialize (Hrec eq_refl)|].
      match goal with H : List.length _ = 1%nat |- _ => apply missing_one_keys in H as Hk end.
      split; simpl; try done. apply (conv_recall base (emptyAnswerRetries ls) 0); [done| |done].
      intros ->. by apply Hk.
    + destruct (appendMissingCharts _ _) as [withCharts appended].
      set (fm := if String.eqb _ _ then _ else _).
      pose proof (completeStream_done i base l fm stop st pre Hlog (ti_open _ _ _ Hinv) (ti_requests _ _ _ Hinv)
        (fun name => inv_failures _ _ _ name Hinv)) as Hd.
      destruct (completeStream i (user_message i) fm stop st) as [r st']. destruct Hd as (l' & H1 & H2 & H3).
      by exists l'.
Qed.

Lemma sent_open l : Forall is_sent l -> Forall is_open l.
Proof. intros H. eapply Forall_impl; [exact H|]. by intros []. Qed.
Lemma work_open l : Forall is_work l -> Forall is_open l.
Proof. intros H. eapply Forall_impl; [exact H|]. by intros []. Qed.
Lemma work_requests l : Forall is_work l -> requests l = [].
Proof. intros H. apply requests_none. eapply Forall_impl; [exact H|]. by intros []. Qed.

(** A turn ended by a tool is closed with an error. *)
Lemma run_calls_return_error forced counts calls st r st' :
  run_calls forced counts calls st = (Return r, st') -> exists pre code msg, log st' = pre ++ [Closed (CError code msg)].
Proof.
  revert counts st. induction calls as [|tc calls IH]; intros counts st H; simpl in H; [done|].
  destruct (run_call forced counts tc st) as [[[c1 b]|r1] st1] eqn:Ec.
  - destruct (run_calls forced c1 calls st1) as [[[c2 bs2]|r2] st2] eqn:Er; [done|].
    injection H as <- <-. by eapply IH.
  - injection H as <- <-. unfold run_call in Ec. destruct (lookupTool _) as [t|]; [|done].
    destruct (_ <? _); [done|]. destruct (invoke forced t tc st) as [[[[out err] n] cls] st2].
    destruct err as [e|]; [|done]. destruct (t_FailurePolicy t); [done|].
    match type of Ec with context [failStream ToolErrorCode e ?s] =>
      destruct (failStream_spec ToolErrorCode e s) as [_ Hl]; destruct (failStream ToolErrorCode e s) as [r2 st3] end.
    injection Ec as <- <-. eexists _, _, _. exact Hl.
Qed.

(** The tool branch, from an open turn. *)
Lemma tools_inv i base pre l ls blocks calls st :
  turn_inv base l ls -> log st = pre ++ l -> calls <> [] -> List.map tu_ID calls = tool_ids blocks ->
  let p := match run_calls (forcedRecallActive ls) (toolErrorCounts ls) calls st with
           | (Return x, st) => (Return x, st)
           | (Next (counts, results), st) =>
               match results with
               | [] => let '(x, st) := failStream LLMErrorCode (EPlain "ai/agent: tool turn produced no tool results") st in
                       (Return x, st)
               | _ =>
                   (Next (mkLoop (msgs ls ++ [mkMessage AssistantMsg blocks; mkMessage UserMsg results])
                            (emptyAnswerRetries ls) counts (collect_charts (producedCharts ls) results)
                            (chartRecallForced ls) (forcedRecallActive ls) (preservedAnswer ls)), st)
               end
           end in
  exists l', log p.2 = pre ++ l ++ l' /\ requests l' = []
    /\ match p.1 with Next ls' => turn_inv base (l ++ l') ls' | Return r => turn_done i base (l ++ l') r end.
Proof.
  intros Hinv Hlog Hne Hids.
  pose proof (run_calls_flow (forcedRecallActive ls) (toolErrorCounts ls) calls st) as Hflow.
  destruct (run_calls_counted (forcedRecallActive ls) (toolErrorCounts ls) calls st) as (lc & Hc & Hcount).
  destruct (run_calls _ _ calls st) as [[[counts results]|r] st'] eqn:Er; simpl in Hflow, Hc, Hcount.
  - destruct (run_calls_results _ _ _ _ _ _ _ Er) as [Hres Hlen].
    destruct Hflow as (lw & Hw & Fw). rewrite Hc in Hw. apply app_inv_head in Hw as ->.
    destruct results as [|b bs].
    + destruct calls; [done|]. simpl in Hlen. lia.
    + exists lw. cbn [fst snd]. rewrite Hc, Hlog, <- app_assoc. split_and!; [done|by apply work_requests|].
      destruct Hinv as [H1 H2 H3 H4 H5 H6]. split; simpl; try done.
      * apply Forall_app. split; [done|by apply work_open].
      * apply conv_tools; [done| |by rewrite Hres|].
        -- rewrite <- Hids. by destruct calls.
        -- change (List.length (b :: bs) = List.length (tool_ids blocks)). by rewrite Hlen, <- Hids, length_map.
      * intros name. destruct (H5 name) as [H5a H5b]. destruct (Hcount name ltac:(lia)) as [Hb He].
        rewrite failures_app, (He counts eq_refl), H5a. split; [done|]. by rewrite <- H5a.
      * rewrite requests_app, (work_requests lw Fw), app_nil_r. done.
  - destruct Hflow as (lw & e & Hw & Fw & He). rewrite Hc in Hw. apply app_inv_head in Hw as ->.
    exists (lw ++ [Closed e]). cbn [fst snd]. rewrite Hc, Hlog, <- app_assoc. split_and!; [done| |].
    { by rewrite requests_app, (work_requests lw Fw). }
    destruct Hinv as [H1 H2 H3 H4 H5 H6]. split.
    + destruct e as [| | | | | |code msg]; try done.
      * exfalso. destruct (run_calls_return_error _ _ _ _ _ _ Er) as (pre' & code & msg & Hl).
        rewrite Hc in Hl. rewrite app_assoc in Hl. apply app_inj_tail in Hl as [_ ?]. done.
      * exists (l ++ lw), [], (CError code msg). rewrite <- app_assoc. split_and!; try done.
        apply Forall_app. split; [done|by apply work_open].
    + rewrite !requests_app, (work_requests lw Fw), !app_nil_r. done.
    + intros name. destruct (H5 name) as [H5a H5b]. destruct (Hcount name ltac:(lia)) as [Hb _].
      rewrite failures_app, <- H5a. done.
Qed.

Lemma ok_after i base pre l l1 (p : flow loop_state * state) :
  (List.length (requests l1) <= 1)%nat ->
  (exists l', log p.2 = pre ++ (l ++ l1) ++ l' /\ requests l' = []
    /\ match p.1 with Next ls' => turn_inv base ((l ++ l1) ++ l') ls' | Return r => turn_done i base ((l ++ l1) ++ l') r end) ->
  iteration_ok i base pre l p.
Proof.
  intros Hl (l' & H1 & H2 & H3). exists (l1 ++ l'). rewrite H1, requests_app, H2, app_nil_r, <- !app_assoc.
  split_and!; [done|done|]. by rewrite <- app_assoc in H3.
Qed.

Lemma fail_flow i base pre l code cause st :
  log st = pre ++ l -> Forall is_open l -> Forall (good_request base) (requests l) -> (forall name, failures name l <= failure_cap) ->
  let p := (let '(r, st) := failStream code cause st in (Return (A := loop_state) r, st)) in
  exists l', log p.2 = pre ++ l ++ l' /\ requests l' = []
    /\ match p.1 with Next ls' => turn_inv base (l ++ l') ls' | Return r => turn_done i base (l ++ l') r end.
Proof.
  intros Hlog Ho Hr Hf. destruct (failStream_spec code cause st) as [H1 H2].
  destruct (failStream code cause st) as [r st']. simpl in *. subst r.
  exists [Closed (CError code (Error cause))]. rewrite H2, Hlog, <- app_assoc. split_and!; [done|done|].
  by apply done_fail.
Qed.

Lemma iteration_inv i base pre l sys ls st :
  h_render host (merged a) = Ok sys -> turn_inv base l ls -> log st = pre ++ l -> iteration_ok i base pre l (iteration i (user_message i) sys ls st).
Proof.
  intros Hsys Hinv Hlog. unfold iteration. destruct (h_ctx_err host (world st)) as [e|].
  { apply (ok_after i base pre l []); [simpl; lia|]. rewrite app_nil_r.
    apply fail_flow; [done|apply Hinv|apply Hinv|intros name; by eapply inv_failures]. }
  set (req := mkRequest sys (msgs ls) _).
  pose proof (llm_events_log req st) as Hl1. destruct (llm_events req st) as [evs st1]. simpl in Hl1.
  destruct (read_events_extends (forcedRecallActive ls) evs st1) as (l2 & Hl2 & F2).
  pose proof (read_events_reading (forcedRecallActive ls) evs st1) as Hread.
  destruct (read_events (forcedRecallActive ls) evs st1) as [r st2]. simpl in Hl2, Hread.
  assert (log st2 = pre ++ (l ++ Asked req :: l2)) as Hlog2.
  { rewrite Hl2, Hl1, Hlog, <- !app_assoc. done. }
  assert (requests (Asked req :: l2) = [req]) as Hreq.
  { change (req :: requests l2 = [req]). rewrite work_requests; [done|]. eapply Forall_impl; [exact F2|]. by intros []. }
  assert (turn_inv base (l ++ Asked req :: l2) ls) as Hinv2.
  { apply inv_extend; [done|constructor; [done|by apply sent_open]| |].
    - rewrite Hreq. constructor; [|constructor]. split; [done|]. split; [done|]. exists (emptyAnswerRetries ls), (if chartRecallForced ls then 1 else 0).
      split_and!; [apply Hinv|apply Hinv|apply Hinv|by destruct (chartRecallForced ls)|by destruct (chartRecallForced ls)].
    - intros name. change (failures name l2 = 0). by apply failures_sent. }
  apply (ok_after i base pre l (Asked req :: l2)); [rewrite Hreq; simpl; lia|].
  destruct (llmErr r) as [e|].
  { apply fail_flow; [done|apply Hinv2|apply Hinv2|intros name; by eapply inv_failures]. }
  destruct (String.eqb (stopReason r) "end_turn" || _) eqn:Estop; [by apply finish_turn_inv|].
  apply orb_false_iff in Estop as [_ Ecalls].
  apply tools_inv; [done|done| |done]. by destruct (toolCalls r).
Qed.

Lemma loop_done fuel i base pre l sys ls st :
  h_render host (merged a) = Ok sys -> turn_inv base l ls -> log st = pre ++ l ->
  let '(r, st') := loop fuel i (user_message i) sys ls st in
  exists l', log st' = pre ++ l' /\ turn_done i base l' r
    /\ (List.length (requests l') <= List.length (requests l) + fuel)%nat.
Proof.
  intros Hsys. revert l ls st. induction fuel as [|fuel IH]; intros l ls st Hinv Hlog; simpl.
  - match goal with |- context [failStream ?c ?e st] =>
      destruct (failStream_spec c e st) as [H1 H2]; destruct (failStream c e st) as [r st'] end.
    cbn [fst snd] in H1, H2. subst r. eexists. split; [rewrite H2, Hlog, <- app_assoc; done|].
    split; [apply done_fail; [apply Hinv|apply Hinv|intros name; by eapply inv_failures]|].
    rewrite requests_app, app_nil_r. lia.
  - destruct (iteration_inv i base pre l sys ls st Hsys Hinv Hlog) as (l' & H1 & H2 & H3).
    destruct (iteration i (user_message i) sys ls st) as [[ls'|r] st']; simpl in *.
    + specialize (IH (l ++ l') ls' st' H3 H1). destruct (loop fuel i _ sys ls' st') as [r st2].
      destruct IH as (l2 & G1 & G2 & G3). exists l2. split_and!; [done|done|].
      rewrite requests_app, length_app in G3. lia.
    + exists (l ++ l'). split_and!; [done|done|]. rewrite requests_app, length_app. lia.
Qed.

(** The history a turn starts from. *)
Definition history (i : AgentInput) (st : state) : list Message :=
  if has_mem a then match (h_mem_load host (memory_key i) (world st)).1 with Ok h => h | Err _ => [] end else [].

Lemma Process_done i st :
  let '(r, st') := Process i st in
  exists l, log st' = log st ++ l /\ turn_done i (history i st ++ [user_message i]) l r
    /\ Z.of_nat (List.length (requests l)) <= Z.max 0 (MaxIterations a).
Proof.
  unfold Process, history.
  assert (forall code cause st1, log st1 = log st -> forall h,
    let '(r, st') := failStream code cause st1 in
    exists l, log st' = log st ++ l /\ turn_done i h l r /\ Z.of_nat (List.length (requests l)) <= Z.max 0 (MaxIterations a)) as Hfail.
  { intros code cause st1 Hl h. destruct (failStream_spec code cause st1) as [H1 H2].
    destruct (failStream code cause st1) as [r st']. simpl in *. subst r.
    exists ([] ++ [Closed (CError code (Error cause))]). rewrite H2, Hl. split_and!; [done| |simpl; lia].
    apply done_fail; [constructor|constructor|]. intros name. unfold failures, failure_cap. simpl. lia. }
  set (loaded := if has_mem a then _ else _).
  assert (log loaded.2 = log st /\ forall h, loaded.1 = Ok h ->
    (if has_mem a then match (h_mem_load host (memory_key i) (world st)).1 with Ok h => h | Err _ => [] end else []) = h) as [Hl Hh].
  { unfold loaded. destruct (has_mem a); [|split; [done|by intros h [= <-]]].
    unfold in_world. destruct (h_mem_load host (memory_key i) (world st)) as [[h|e] w]; simpl; (split; [done|]); by intros h' [= <-]. }
  destruct loaded as [[h|e] st1]; simpl in Hl; [|by apply Hfail].
  rewrite (Hh h eq_refl). destruct (h_render host (merged a)) as [sys|e] eqn:Hsys; [|by apply Hfail].
  set (ls := mkLoop _ 0 ∅ [] false false "").
  assert (turn_inv (h ++ [user_message i]) [] ls) as Hinv.
  { split; simpl; try done; [constructor|lia|]. intros name. unfold failures, count_of, failure_cap. simpl.
    rewrite lookup_empty. simpl. lia. }
  pose proof (loop_done (Z.to_nat (MaxIterations a)) i _ (log st1) [] sys ls st1 Hsys Hinv ltac:(by rewrite app_nil_r)) as Hd.
  destruct (loop _ i _ sys ls st1) as [r st']. destruct Hd as (l' & H1 & H2 & H3).
  exists l'. rewrite H1, Hl. split_and!; [done|done|]. simpl in H3. lia.
Qed.

(** C1: Every turn ends, closing the stream exactly once and last: with a complete
    event, or with an error event carrying the text of the error it returns; a
    completed turn was persisted right before, under the caller's identity, as text
    only and with the very text the client got. *)
Theorem Process_closes_once i st :
  let '(r, st') := Process i st in
  exists l tail e, log st' = log st ++ l ++ tail ++ [Closed e] /\ Forall is_open l /\ persisted_before i tail e
    /\ match e with
       | CComplete _ _ => True
       | CError code msg => exists cause, r = Some cause /\ msg = Error cause
       | _ => False
       end.
Proof.
  pose proof (Process_done i st) as H. destruct (Process i st) as [r st']. destruct H as (l & Hl & Hd & _).
  destruct Hd as [(l1 & tail & e & -> & H) _ _]. by exists l1, tail, e.
Qed.

(** C10: The model is called at most [maxIterations] times a turn, always with the system
    prompt rendered for the turn, all the agent's tools, the session's history, the user's
    message and a well-formed conversation after it: no empty message, every tool call of
    a tool round answered once and in order, at most the budgeted re-prompts for an empty
    answer and at most one chart recall.  (A re-prompt or a recall may follow an answer
    that ended the turn with tool calls in it; these are not answered,
    [AgentExamples.unanswered_call].) *)
Theorem requests_well_formed i st :
  let '(_, st') := Process i st in
  exists l, log st' = log st ++ l
    /\ Z.of_nat (List.length (requests l)) <= Z.max 0 (MaxIterations a)
    /\ Forall (good_request (history i st ++ [user_message i])) (requests l).
Proof.
  pose proof (Process_done i st) as H. destruct (Process i st) as [r st']. destruct H as (l & Hl & Hd & Hn).
  exists l. split_and!; [done|done|apply Hd].
Qed.

(** C39: No tool fails more than [maxToolRetries + 1] times a turn, however often the
    model calls it: from then on it is not run any more. *)
Theorem tool_failures_bounded i st name :
  let '(_, st') := Process i st in
  exists l, log st' = log st ++ l /\ failures name l <= Z.max 0 (maxToolRetries a + 1).
Proof.
  pose proof (Process_done i st) as H. destruct (Process i st) as [r st']. destruct H as (l & Hl & Hd & _).
  exists l. split; [done|apply Hd].
Qed.

Lemma lastText_assistant t : lastText (assistant_text t) = t.
Proof. unfold lastText. simpl. done. Qed.

Lemma completeStream_closed i userMsg finalMsg stop st pre text stp :
  log (completeStream i userMsg finalMsg stop st).2 = pre ++ [Closed (CComplete text stp)] ->
  text = lastText finalMsg /\ stp = messageStopOf stop.
Proof.
  unfold completeStream. set (fin := CComplete (lastText finalMsg) (messageStopOf stop)).
  assert (forall st1, log (close_sink fin st1).2 = pre ++ [Closed (CComplete text stp)] ->
    text = lastText finalMsg /\ stp = messageStopOf stop) as Hc.
  { intros st1 H. rewrite close_log in H. apply app_inj_tail in H as [_ H]. by injection H as -> ->. }
  destruct (has_mem a); [|apply Hc].
  destruct (in_world _ _) as [[err|] st1]; [|apply Hc].
  intros H. destruct (failStream_spec MemoryAppendError err st1) as [_ Hl]. rewrite Hl in H.
  by apply app_inj_tail in H as [_ ?].
Qed.

(** *** What a completed turn shows *)

(** What the agent said to the client since the model was last called. *)
Definition said (l : list action) : string :=
  String.concat "" (List.map (fun x => match x with Sent (CDelta t) => t | _ => "" end) l).
(** The texts of the successful tool results of a conversation, and the charts they
    rendered: each key once, at its first url. *)
Definition successes (l : list Message) : list string :=
  omap (fun b => match b with BlockToolResult _ r false => Some r | _ => None end) 
    (List.concat (List.map (fun m => match Role m with UserMsg => Content m | _ => [] end) l)).
Definition rendered (l : list Message) : list chartRef :=
  foldl add_chart [] (List.concat (List.map extractChartRefs (successes l))).
(** The answer a chart recall interrupted. *)
Definition is_recall (m : Message) : bool :=
  match m with mkMessage UserMsg [BlockText t] => String.eqb t chartRecallNudge | _ => false end.
Fixpoint recalled (l : list Message) : option string :=
  match l with
  | m :: l' => match l' with
               | n :: _ => if is_recall n then Some (lastText m) else recalled l'
               | [] => None
               end
  | [] => None
  end.

(** A turn on the messages [base] ended with the text [text]: [q] was the last call of the
    model, [rest] the conversation of the turn until then. *)
Definition answered (base : list Message) (l : list action) (text stop : string) : Prop :=
  exists before q after rest out,
    l = before ++ Asked q :: after /\ requests after = [] /\ Messages q = base ++ rest
    /\ (let answer := match recalled rest with Some t => t | None => said after end in
        corrected (rendered rest) (scan chartImgRe answer) out)
    /\ completed (rendered rest) out text
    /\ (forall c, c ∈ rendered rest -> ref_ok c -> mentions text (key c))
    /\ (Forall (fun r => str_lacks (ascii_of_nat 92) r = true) (successes rest) -> Forall ref_ok (rendered rest))
    /\ stop <> "" /\ stop <> "tool_use".

Lemma said_app l1 l2 : said (l1 ++ l2) = said l1 +:+ said l2.
Proof. unfold said. by rewrite map_app, concat_nil_app. Qed.
Lemma lastText_extend blocks d :
  lastText (mkMessage AssistantMsg (appendOrExtendText blocks d)) = lastText (mkMessage AssistantMsg blocks) +:+ d.
Proof.
  unfold lastText. cbn [Content]. induction blocks as [|b l IH]; [done|].
  destruct b as [t| | | |]; [destruct l as [|b l]; [done|]|..];
    match goal with |- context [appendOrExtendText (?b :: ?l) d] =>
      change (appendOrExtendText (b :: l) d) with (b :: appendOrExtendText l d) end;
    cbn [List.map]; rewrite !concat_nil_cons; cbn [List.map] in IH; rewrite ?concat_nil_cons in IH; rewrite IH;
    by rewrite ?str_app_assoc.
Qed.
Lemma lastText_call blocks id name input :
  lastText (mkMessage AssistantMsg (blocks ++ [BlockToolUse id name input])) = lastText (mkMessage AssistantMsg blocks).
Proof. unfold lastText. cbn [Content]. rewrite map_app, concat_nil_app. cbn. by rewrite str_app_nil_r. Qed.

(** What is read is what is said, unless the turn is silent. *)
Definition tells (p p' : reading * state) : Prop :=
  exists l, log p'.2 = log p.2 ++ l
    /\ lastText (mkMessage AssistantMsg (assistantBlocks p'.1)) = lastText (mkMessage AssistantMsg (assistantBlocks p.1)) +:+ said l.
Lemma tells_refl p : tells p p.
Proof. exists []. by rewrite app_nil_r, str_app_nil_r. Qed.
Lemma tells_trans p1 p2 p3 : tells p1 p2 -> tells p2 p3 -> tells p1 p3.
Proof.
  intros (l1 & H1 & T1) (l2 & H2 & T2). exists (l1 ++ l2). split; [by rewrite H2, H1, app_assoc|].
  by rewrite said_app, T2, T1, str_app_assoc.
Qed.
Lemma flush_tells p : tells p (flushThought false p).
Proof.
  destruct p as [r st]. unfold flushThought. destruct (str_empty _ || _); [apply (tells_refl (r, st))|].
  eexists. split; [apply (emit_log false)|]. cbn. by rewrite str_app_nil_r.
Qed.
Lemma read_event_tells p ev : tells p (read_event false p ev).
Proof.
  destruct ev; simpl; try (destruct p as [r st]; apply (tells_refl (r, st))); try apply tells_refl.
  - eapply tells_trans; [apply flush_tells|]. destruct (flushThought false p) as [r st].
    eexists. split; [apply (emit_log false)|]. apply lastText_extend.
  - eapply tells_trans; [apply flush_tells|]. destruct (flushThought false p) as [r st].
    eexists. split; [apply (emit_log false)|]. cbn [fst assistantBlocks]. rewrite lastText_call. cbn. by rewrite str_app_nil_r.
  - generalize (split_after delta). intros parts. revert p. induction parts as [|x parts IH]; intros [r st]; simpl; [apply tells_refl|].
    eapply tells_trans; [|apply IH].
    destruct (has_suffix newline x); [|apply (tells_refl (r, st))].
    apply (flush_tells (set_thought (thought r +:+ x) r, st)).
Qed.
Lemma read_events_tells evs st : tells (mkReading [] "" [] None "", st) (read_events false evs st).
Proof.
  unfold read_events. eapply tells_trans; [|apply flush_tells]. generalize (mkReading [] "" [] None "", st).
  induction evs as [|ev evs IH]; intros p; [apply tells_refl|]. simpl. eapply tells_trans; [apply read_event_tells|apply IH].
Qed.

(** *** The charts and the interrupted answer, read off the conversation *)
Lemma successes_app l1 l2 : successes (l1 ++ l2) = successes l1 ++ successes l2.
Proof. unfold successes. by rewrite map_app, concat_app, omap_app. Qed.
Lemma collect_rendered charts results :
  collect_charts charts results
  = foldl add_chart charts (List.concat (List.map extractChartRefs (successes [mkMessage UserMsg results]))).
Proof.
  unfold successes. cbn [List.map List.concat Content Role]. rewrite app_nil_r. unfold collect_charts. revert charts.
  induction results as [|b l IH]; intros charts; [done|].
  destruct b as [|id name input|id r [|]| |]; cbn [foldl omap list_omap List.map List.concat]; try apply IH.
  rewrite foldl_app. apply IH.
Qed.
Lemma rendered_snoc rest blocks m :
  rendered (rest ++ [mkMessage AssistantMsg blocks; m])
  = foldl add_chart (rendered rest) (List.concat (List.map extractChartRefs (successes [m]))).
Proof.
  unfold rendered. change ([mkMessage AssistantMsg blocks; m]) with ([mkMessage AssistantMsg blocks] ++ [m]).
  rewrite !successes_app. change (successes [mkMessage AssistantMsg blocks]) with (@nil string).
  by rewrite map_app, concat_app, foldl_app.
Qed.
Lemma recalled_snoc rest m n : is_recall m = false ->
  recalled (rest ++ [m; n]) = match recalled rest with
                              | Some t => Some t
                              | None => if is_recall n then Some (lastText m) else None
                              end.
Proof.
  intros Hm. induction rest as [|x rest IH]; [cbn; by destruct (is_recall n)|].
  cbn [app recalled]. destruct rest as [|y rest]; [cbn [app]; rewrite Hm; exact IH|]. cbn [app].
  destruct (is_recall y); [done|]. exact IH.
Qed.

(** What a turn has collected so far is what its conversation shows. *)
Record collected (base : list Message) (ls : loop_state) : Prop := mkCollected {
  co_rest : exists rest, msgs ls = base ++ rest /\ producedCharts ls = rendered rest
              /\ recalled rest = (if forcedRecallActive ls then Some (preservedAnswer ls) else None);
  co_recall : chartRecallForced ls = forcedRecallActive ls;
}.

Lemma collected_step base ls ls' rest am m :
  msgs ls = base ++ rest -> is_recall am = false -> Role am = AssistantMsg -> msgs ls' = msgs ls ++ [am; m] ->
  producedCharts ls' = foldl add_chart (rendered rest) (List.concat (List.map extractChartRefs (successes [m]))) ->
  chartRecallForced ls' = forcedRecallActive ls' ->
  (match recalled rest with Some t => Some t | None => if is_recall m then Some (lastText am) else None end)
    = (if forcedRecallActive ls' then Some (preservedAnswer ls') else None) ->
  collected base ls'.
Proof.
  intros Hm Ha Hrole Hm' Hc Hf Hr. split; [|done]. exists (rest ++ [am; m]). rewrite Hm', Hm, app_assoc. split; [done|].
  rewrite Hc. destruct am as [role blocks]. cbn in Hrole. subst role. rewrite rendered_snoc, recalled_snoc by done. done.
Qed.

Lemma completeStream_tail i userMsg finalMsg stop st : exists l,
  log (completeStream i userMsg finalMsg stop st).2 = log st ++ l /\ requests l = [] /\ said l = "".
Proof.
  destruct (completeStream_closes i userMsg finalMsg stop st) as (l & e & H & F & _). exists (l ++ [Closed e]). split; [exact H|].
  rewrite requests_app, said_app. clear H. assert (requests l = [] /\ said l = "") as [-> ->]; [|done].
  induction F as [|x l Hx F [IH1 IH2]]; [done|]. destruct x; try done.
  split; [exact IH1|]. unfold said in *. cbn [List.map]. rewrite concat_nil_cons. exact IH2.
Qed.

Lemma messageStopOf_ok stop : messageStopOf stop <> "" /\ messageStopOf stop <> "tool_use".
Proof.
  unfold messageStopOf. destruct (str_empty stop) eqn:E1; cbn [orb]; [done|]. to_prop.
  by destruct (String.eqb_spec stop "tool_use").
Qed.

Lemma rendered_ok rest :
  Forall (fun r => str_lacks (ascii_of_nat 92) r = true) (successes rest) -> Forall ref_ok (rendered rest).
Proof.
  intros H. unfold rendered. assert (Forall ref_ok (List.concat (List.map extractChartRefs (successes rest)))) as Hall.
  { induction H as [|r l Hr _ IH]; [constructor|]. cbn. apply Forall_app. split; [|exact IH]. by apply extracted_ok. }
  assert (forall charts, Forall ref_ok charts -> Forall ref_ok (foldl add_chart charts (List.concat (List.map extractChartRefs (successes rest))))) as Hg;
    [|by apply Hg].
  clear H. induction Hall as [|c l Hc _ IH]; intros charts Hcs; [done|]. cbn. apply IH. unfold add_chart.
  destruct (sliceContains _ _); [done|]. apply Forall_app. split; [done|by constructor].
Qed.

(** The end of a turn, from the model's last call. *)
Lemma finish_answered i userMsg base ls blocks stop st pre q l r st' text stp :
  collected base ls -> Messages q = msgs ls -> log st = pre ++ Asked q :: l -> requests l = [] ->
  (forcedRecallActive ls = false -> lastText (mkMessage AssistantMsg blocks) = said l) ->
  finish_turn i userMsg ls blocks stop st = (Return r, st') ->
  last (log st') = Some (Closed (CComplete text stp)) ->
  exists l', log st' = pre ++ l' /\ answered base l' text stp.
Proof.
  intros [(rest & Hm & Hp & Hrec) _] Hq Hlog Hreq Hsaid. unfold finish_turn.
  set (answer := if forcedRecallActive ls then preservedAnswer ls else _).
  destruct (negb _ && _ && _); [done|]. destruct ((List.length _ =? 1)%nat && _); [done|].
  pose proof (correctChartRefs_corrected (producedCharts ls) answer) as Hcor.
  set (cor := correctChartRefs answer (producedCharts ls)) in *.
  pose proof (charts_shown cor (producedCharts ls)) as Hshown.
  pose proof (fun c => append_shows_one cor (producedCharts ls) c) as Hone.
  pose proof (appendMissingCharts_completed cor (producedCharts ls)) as Happ.
  destruct (appendMissingCharts cor (producedCharts ls)) as [withCharts appended] eqn:Ea. destruct Hshown as [Hzero _].
  set (final := if (0 <? appended)%nat then withCharts else cor).
  assert (final = withCharts) as Hfinal.
  { unfold final. destruct (Nat.ltb_spec 0 appended); [done|]. symmetry. apply Hzero. lia. }
  set (fm := if String.eqb final answer then _ else _).
  assert (lastText fm = withCharts) as Hfm.
  { unfold fm. destruct (String.eqb_spec final answer) as [Heq|_]; [|by rewrite lastText_assistant].
    rewrite <- Hfinal, Heq. unfold answer. by destruct (forcedRecallActive ls). }
  destruct (completeStream_tail i userMsg fm stop st) as (tail & Htail & Hrt & Hst).
  pose proof (completeStream_closed i userMsg fm stop st) as Hc.
  destruct (completeStream i userMsg fm stop st) as [r' st1]. cbn [snd] in Htail. intros [= -> ->] Hlast.
  apply last_Some in Hlast as [front Hfront]. destruct (Hc _ _ _ Hfront) as [-> ->]. rewrite Hfm.
  exists (Asked q :: l ++ tail). rewrite Htail, Hlog, <- app_assoc. split; [done|].
  assert (match recalled rest with Some t => t | None => said (l ++ tail) end = answer) as Hans.
  { rewrite Hrec, said_app, Hst, str_app_nil_r. unfold answer. destruct (forcedRecallActive ls); [done|]. by rewrite Hsaid. }
  exists [], q, (l ++ tail), rest, cor. cbv zeta. rewrite Hans, <- Hp. split; [done|]. split; [by rewrite requests_app, Hreq, Hrt|].
  split; [by rewrite Hq, Hm|]. split; [exact Hcor|]. split; [exact Happ|]. split; [exact Hone|].
  split; [rewrite Hp; apply rendered_ok|]. apply messageStopOf_ok.
Qed.

Lemma failed_last code cause st text stp :
  last (log (failStream code cause st).2) <> Some (Closed (CComplete text stp)).
Proof. destruct (failStream_spec code cause st) as [_ ->]. rewrite last_snoc. congruence. Qed.
Lemma failed_extends code cause st : exists l, log (failStream code cause st).2 = log st ++ l.
Proof. destruct (failStream_spec code cause st) as [_ ->]. by eexists. Qed.
Lemma answered_after base l0 l text stp : answered base l text stp -> answered base (l0 ++ l) text stp.
Proof.
  intros (before & q & after & rest & out & -> & H). exists (l0 ++ before), q, after, rest, out. by rewrite app_assoc.
Qed.
Lemma flow_ok_log {A} P st (p : flow A * state) : flow_ok P st p -> exists l, log p.2 = log st ++ l.
Proof. destruct p as [[x|r] st']; [intros (l & H & _); by exists l|intros (l & e & H & _); by eexists]. Qed.

(** The next step of a turn: it goes on with what it has collected, or it is over. *)
Definition step_ok (base : list Message) (st : state) (p : flow loop_state * state) : Prop :=
  exists l, log p.2 = log st ++ l
  /\ match p.1 with
     | Next ls' => collected base ls'
     | Return r => forall text stp, last (log p.2) = Some (Closed (CComplete text stp)) -> answered base l text stp
     end.

Lemma failed_step base code cause st1 st l : log st1 = log st ++ l ->
  step_ok base st (let '(x, st') := failStream code cause st1 in (Return x, st')).
Proof.
  intros Hl. pose proof (failed_extends code cause st1) as (l1 & H1). pose proof (fun t s => failed_last code cause st1 t s) as H2.
  destruct (failStream code cause st1) as [x st']. cbn in H1, H2. exists (l ++ l1). cbn. split; [by rewrite H1, Hl, app_assoc|].
  intros text stp H. by destruct (H2 text stp).
Qed.

Lemma finish_step i base ls blocks stop st st0 q l :
  collected base ls -> Messages q = msgs ls -> log st = log st0 ++ Asked q :: l -> requests l = [] ->
  (forcedRecallActive ls = false -> lastText (mkMessage AssistantMsg blocks) = said l) ->
  step_ok base st0 (finish_turn i (user_message i) ls blocks stop st).
Proof.
  intros Hco Hq Hlog Hreq Hsaid. destruct (finish_turn i (user_message i) ls blocks stop st) as [[ls'|r] st'] eqn:Ef.
  - exists (Asked q :: l). cbn. revert Ef. unfold finish_turn. destruct Hco as [(rest & Hm & Hp & Hr) Hforced].
    destruct (negb (forcedRecallActive ls) && _ && _) eqn:En.
    + intros [= <- <-]. split; [done|]. to_prop. set (am := match blocks with [] => _ | _ => _ end).
      match goal with H : forcedRecallActive ls = false |- _ => rewrite H in * end.
      apply (collected_step base ls _ rest am (user_text emptyAnswerNudge)); try done; try (by destruct blocks).
      cbn. rewrite Hr. done.
    + destruct ((List.length _ =? 1)%nat && negb (chartRecallForced ls)) eqn:Er.
      * intros [= <- <-]. split; [done|]. to_prop.
        match goal with H : chartRecallForced ls = false |- _ => rewrite Hforced in H; rewrite H in * end.
        apply (collected_step base ls _ rest (mkMessage AssistantMsg blocks) (user_text chartRecallNudge)); try done.
        cbn [forcedRecallActive preservedAnswer]. rewrite Hr. done.
      * destruct (appendMissingCharts _ _) as [w n]. destruct (completeStream _ _ _ _ st) as [r st1]. done.
  - pose proof (flow_ok_log _ _ _ (finish_turn_flow i (user_message i) ls blocks stop st)) as (l' & Hl'). rewrite Ef in Hl'. cbn in Hl'.
    exists (Asked q :: l ++ l'). cbn. split; [by rewrite Hl', Hlog, <- app_assoc|]. intros text stp Hlast.
    destruct (finish_answered _ _ _ _ _ _ _ _ _ _ _ _ _ _ Hco Hq Hlog Hreq Hsaid Ef Hlast) as (l2 & Hl2 & Hans).
    rewrite Hl', Hlog, <- app_assoc in Hl2. apply app_inv_head in Hl2. by rewrite <- Hl2 in Hans.
Qed.

Lemma tools_step base ls blocks calls st st0 l :
  collected base ls -> log st = log st0 ++ l ->
  step_ok base st0
    (match run_calls (forcedRecallActive ls) (toolErrorCounts ls) calls st with
     | (Return x, st) => (Return x, st)
     | (Next (counts, results), st) =>
         match results with
         | [] => let '(x, st) := failStream LLMErrorCode (EPlain "ai/agent: tool turn produced no tool results") st in
                 (Return x, st)
         | _ =>
             (Next (mkLoop (msgs ls ++ [mkMessage AssistantMsg blocks; mkMessage UserMsg results])
                      (emptyAnswerRetries ls) counts (collect_charts (producedCharts ls) results)
                      (chartRecallForced ls) (forcedRecallActive ls) (preservedAnswer ls)), st)
         end
     end).
Proof.
  intros [(rest & Hm & Hp & Hr) Hforced] Hlog.
  destruct (flow_ok_log _ _ _ (run_calls_flow (forcedRecallActive ls) (toolErrorCounts ls) calls st)) as (l1 & H1).
  destruct (run_calls _ _ calls st) as [[[counts results]|x] st1] eqn:Er; cbn in H1.
  - destruct results as [|b bs]; [apply (failed_step base _ _ st1 st0 (l ++ l1)); by rewrite H1, Hlog, app_assoc|].
    exists (l ++ l1). cbn [fst snd]. split; [by rewrite H1, Hlog, app_assoc|].
    apply (collected_step base ls _ rest (mkMessage AssistantMsg blocks) (mkMessage UserMsg (b :: bs))); try done.
    + cbn [producedCharts]. by rewrite Hp, collect_rendered.
    + cbn [forcedRecallActive preservedAnswer]. rewrite Hr. destruct (forcedRecallActive ls); [done|].
      assert (is_recall (mkMessage UserMsg (b :: bs)) = false) as ->; [|done].
      apply run_calls_results in Er as [Hres Hlen]. destruct b as [t| | | |]; try done. exfalso.
      apply (f_equal (@List.length string)) in Hres. rewrite length_map, <- Hlen in Hres.
      assert (List.length (result_ids bs) <= List.length bs)%nat as Hle.
      { clear. induction bs as [|b bs IH]; [done|]. destruct b; simpl; unfold result_ids in *; simpl; lia. }
      change (result_ids (BlockText t :: bs)) with (result_ids bs) in Hres. simpl in Hres. lia.
  - destruct (run_calls_return_error _ _ _ _ _ _ Er) as (pre & code & msg & He). exists (l ++ l1). cbn.
    split; [by rewrite H1, Hlog, app_assoc|]. intros text stp. rewrite He, last_snoc. congruence.
Qed.

Lemma iteration_step i base sys ls st :
  collected base ls -> step_ok base st (iteration i (user_message i) sys ls st).
Proof.
  intros Hco. unfold iteration. destruct (h_ctx_err host (world st)) as [e|].
  { apply (failed_step base Cancelled e st st []). by rewrite app_nil_r. }
  set (req := mkRequest sys (msgs ls) _).
  pose proof (llm_events_log req st) as Hl1. destruct (llm_events req st) as [evs st1]. cbn [snd] in Hl1.
  destruct (read_events_extends (forcedRecallActive ls) evs st1) as (l2 & Hl2 & F2).
  assert (forcedRecallActive ls = false ->
    lastText (mkMessage AssistantMsg (assistantBlocks (read_events (forcedRecallActive ls) evs st1).1)) = said l2) as Hsaid.
  { intros Hf. rewrite Hf in *. destruct (read_events_tells evs st1) as (l2' & H & ->). rewrite Hl2 in H.
    apply app_inv_head in H as ->. done. }
  destruct (read_events (forcedRecallActive ls) evs st1) as [r st2]. cbn [fst snd] in *.
  assert (log st2 = log st ++ Asked req :: l2) as Hlog2 by (rewrite Hl2, Hl1, <- app_assoc; done).
  destruct (llmErr r) as [e|]; [by apply (failed_step base _ e st2 st (Asked req :: l2))|].
  destruct (String.eqb (stopReason r) "end_turn" || _).
  - apply (finish_step i base ls _ _ st2 st req l2); try done. apply work_requests. eapply Forall_impl; [exact F2|]. by intros [].
  - by apply (tools_step base ls (assistantBlocks r) (toolCalls r) st2 st (Asked req :: l2)).
Qed.

Lemma loop_answered fuel i base sys ls st text stp :
  collected base ls ->
  let '(r, st') := loop fuel i (user_message i) sys ls st in
  last (log st') = Some (Closed (CComplete text stp)) -> exists l, log st' = log st ++ l /\ answered base l text stp.
Proof.
  revert ls st. induction fuel as [|fuel IH]; intros ls st Hco; simpl.
  - match goal with |- context [failStream ?c ?e st] =>
      pose proof (failed_last c e st text stp) as H; destruct (failStream c e st) as [r st'] end. done.
  - destruct (iteration_step i base sys ls st Hco) as (l & H1 & H2).
    destruct (iteration i (user_message i) sys ls st) as [[ls'|r] st1]; cbn [fst snd] in *.
    + specialize (IH ls' st1 H2). destruct (loop fuel i _ sys ls' st1) as [r st2]. intros Hlast.
      destruct (IH Hlast) as (l2 & H3 & H4). exists (l ++ l2). rewrite H3, H1, <- app_assoc. split; [done|]. by apply answered_after.
    + intros Hlast. exists l. split; [done|by apply H2].
Qed.

(** C33: What a completed turn shows, in terms of its last call of the model: the answer is
    what the agent said to the client since that call - after a forced chart recall, the
    text of the answer the recall interrupted - with the charts the turn's successful tool
    results rendered.  Outside chart images the answer is as it was said; an image of a
    rendered chart has that chart's url, an image of any other key the url of the only
    chart there is, if there is one only; after it come, in order and a blank line between
    each two, images of exactly the charts it does not mention.  So every chart whose url
    spells its key is in the text, and all urls do when no tool result has a backslash in
    it (a JSON escape). *)
Theorem completed_answer i st r st' text stp :
  Process i st = (r, st') -> last (log st') = Some (Closed (CComplete text stp)) ->
  exists l, log st' = log st ++ l /\ answered (history i st ++ [user_message i]) l text stp.
Proof.
  unfold Process, history. intros Hp Hlast. revert Hp.
  assert (forall code cause st1, failStream code cause st1 <> (r, st')) as Hfail.
  { intros code cause st1 H. apply (failed_last code cause st1 text stp). by rewrite H. }
  set (loaded := if has_mem a then _ else _).
  assert (log loaded.2 = log st /\ forall h, loaded.1 = Ok h ->
    (if has_mem a then match (h_mem_load host (memory_key i) (world st)).1 with Ok h => h | Err _ => [] end else []) = h) as [Hl Hh].
  { unfold loaded. destruct (has_mem a); [|split; [done|by intros h [= <-]]].
    unfold in_world. destruct (h_mem_load host (memory_key i) (world st)) as [[h|e] w]; simpl; (split; [done|]); by intros h' [= <-]. }
  destruct loaded as [[h|e] st1]; cbn [fst snd] in Hl; [|intros H; by destruct (Hfail _ _ _ H)].
  rewrite (Hh h eq_refl). destruct (h_render host (merged a)) as [sys|e]; [|intros H; by destruct (Hfail _ _ _ H)].
  set (ls := mkLoop _ 0 ∅ [] false false ""). intros Hloop.
  pose proof (loop_answered (Z.to_nat (MaxIterations a)) i (h ++ [user_message i]) sys ls st1 text stp) as H.
  rewrite Hloop, Hl in H. apply H; [|done]. split; [|done]. exists []. cbn. by rewrite app_nil_r.
Qed.
End turn.
Arguments Next {A} _.
Arguments Return {A} _.

(** ** factory.go *)
Definition flexibleField : string := "systemMessageFlexible".

(** The part of the node that a hot update touches. *)
Record prompts := mkPrompts { SystemMessageFixed : string; merged_prompt : string }.
Definition setFlex (flex : string) (p : prompts) : prompts :=
  mkPrompts (SystemMessageFixed p)
    (if str_empty flex then SystemMessageFixed p else flex +:+ newline +:+ newline +:+ SystemMessageFixed p).
Definition Reconfigure (field value : string) (p : prompts) : res string prompts :=
  if negb (String.eqb field flexibleField) then Err ("ai/agent: field is not overridable")
  else Ok (setFlex value p).

Inductive agent_config_error := CE_parse | CE_no_prompt | CE_iterations (n : Z).

(** [Factory]: the validated configuration and the merged prompt; the budgets come from
    the environment. *)
Definition Factory (lookupEnv : string -> option string) (raw : option json)
    : res agent_config_error (Z * bool * Z * prompts * Z * Z) :=
  match raw with
  | None => Err CE_parse
  | Some v =>
      match (m ← dec_struct (Some v);
             iters ← dec_int (m !! "maxIterations");
             fixed ← dec_str (m !! "systemMessageFixed");
             flex ← dec_str (m !! "systemMessageFlexible");
             legacy ← dec_str (m !! "systemMessage");
             thoughts ← dec_bool (m !! "surfaceThoughts");
             human ← dec_int (m !! "humanResponseTimeoutSeconds");
             Some (default 0 iters, fixed, flex, legacy, default false thoughts, default 0 human)) with
      | None => Err CE_parse
      | Some (iters, fixed, flex, legacy, thoughts, human) =>
          let fixed := if str_empty fixed then legacy else fixed in
          if str_empty fixed then Err CE_no_prompt
          else
            let iters := if iters =? 0 then 15 else iters in
            if (iters <? 1) || (50 <? iters) then Err (CE_iterations iters)
            else Ok (iters, thoughts, human, setFlex flex (mkPrompts fixed ""),
                     resolveMaxEmptyAnswerRetries (lookupEnv "AICHAT_MAX_EMPTY_ANSWER_RETRIES"),
                     resolveMaxToolRetries (lookupEnv "AICHAT_MAX_TOOL_RETRIES"))
      end
  end.

Lemma envIntClamped_range raw def max : 0 <= def <= max -> 0 <= envIntClamped raw def max <= max.
Proof.
  intros H. unfold envIntClamped. destruct (str_empty _); [done|]. destruct (Atoi _) as [n|]; [|done].
  destruct (Z.ltb_spec n 0); [lia|]. destruct (Z.ltb_spec max n); lia.
Qed.

(** The prompt ends with the fixed part. *)
Definition backbone_last (p : prompts) : Prop := exists flex, merged_prompt p = flex +:+ SystemMessageFixed p.

Lemma setFlex_backbone flex p : backbone_last (setFlex flex p) /\ SystemMessageFixed (setFlex flex p) = SystemMessageFixed p.
Proof.
  unfold setFlex, backbone_last. simpl. split; [|done]. destruct (str_empty flex); [by exists ""|].
  exists (flex +:+ newline +:+ newline). by rewrite !str_app_assoc.
Qed.

Definition reconfigure_all (updates : list (string * string)) (p : prompts) : prompts :=
  foldl (fun p u => match Reconfigure u.1 u.2 p with Ok p => p | Err _ => p end) p updates.

(** Configuration bounds a turn: an accepted node runs at most 50 iterations, 5
    re-prompts and 11 attempts of a failing tool, and no sequence of hot updates can
    displace the fixed prompt, which stays last. *)
Theorem Factory_bounds lookupEnv raw iters thoughts human p empties retries updates :
  Factory lookupEnv raw = Ok (iters, thoughts, human, p, empties, retries) ->
  1 <= iters <= 50 /\ 0 <= empties <= 5 /\ 0 <= retries <= 10
  /\ SystemMessageFixed p <> ""
  /\ backbone_last (reconfigure_all updates p)
  /\ SystemMessageFixed (reconfigure_all updates p) = SystemMessageFixed p.
Proof.
  unfold Factory. intros H. destruct raw as [v|]; [|done].
  destruct (m ← dec_struct (Some v); _) as [[[[[[it fixed] flex] legacy] th] hu]|]; [|done].
  destruct (str_empty (if str_empty fixed then legacy else fixed)) eqn:Ef; [done|]. to_prop.
  destruct (_ || _) eqn:Ei; [done|]. apply orb_false_iff in Ei as [H1 H2]. to_prop.
  set (fx := if str_empty fixed then legacy else fixed) in *.
  injection H as <- <- <- <- <- <-.
  split_and!; try lia; try (by apply envIntClamped_range); [by rewrite (proj2 (setFlex_backbone flex _))|..].
  - induction updates as [|u updates IH] using rev_ind; [apply setFlex_backbone|].
    unfold reconfigure_all in *. rewrite foldl_snoc. unfold Reconfigure.
    destruct (negb (String.eqb u.1 flexibleField)); [exact IH|apply setFlex_backbone].
  - induction updates as [|u updates IH] using rev_ind; [done|].
    unfold reconfigure_all in *. rewrite foldl_snoc. unfold Reconfigure.
    destruct (negb (String.eqb u.1 flexibleField)); [exact IH|].
    by rewrite (proj2 (setFlex_backbone _ _)).
Qed.


(** ** Concrete turns *)
Module AgentExamples.

(** A world with the model's scripted replies; [cut] says that the context is done once
    the script is empty. *)
Record world := mkWorld { script : list (list LLMEvent * stream_end); cut : bool }.

Definition demo_host : Host (W := world) := {|
  h_ctx_err w := if cut w && match script w with [] => true | _ => false end then Some ECanceled else None;
  h_mem_load _ w := (Ok [], w);
  h_mem_append _ _ w := (None, w);
  h_render s := Ok s;
  h_stream _ _ _ w := match script w with
                      | r :: rest => (r, mkWorld rest (cut w))
                      | [] => (([], StreamReturned (Some (EPlain "script over"))), w)
                      end;
  h_choose w := (true, w);
  h_send _ w := (None, w);
  h_close _ w := (None, w);
  h_await _ _ w := (Err EDeadlineExceeded, w);
  h_now _ := 0;
  h_rng w := (2 ^ 54, w);
  h_wait _ w := (TimerFired, w);
|}.

Definition chart_out : string := "{u: s3/chart/" +:+ demo_key +:+ ".png}".
Definition demo_tool (name : string) (res : string + error) (fp : FailurePolicy) : Tool (W := world) :=
  mkTool (mkToolSpec name "" "") false fp None
    (fun args _ _ w => match res with
                       | inl out => TAttach (mkToolAttachment "k" "p") w (fun _ w => TDone out None w)
                       | inr e => TDone "" (Some e) w
                       end).
Definition demo_agent : agentNode (W := world) :=
  mkAgent 4 true 0 3 1 None true
    [demo_tool "QuickChart" (inl chart_out) FailureSurfaceToLLM; demo_tool "bad" (inr (EPlain "boom")) FailureSurfaceToLLM]
    "sys" "wf".
Definition demo_input : AgentInput := mkInput "hi" "s" "acc" "u" [].
Definition call (id name : string) : LLMEvent := LLMToolUseStop (mkToolUse id name "{}").
Definition reply (evs : list LLMEvent) : list LLMEvent * stream_end := (evs, StreamReturned None).
Definition demo_Process (script : list (list LLMEvent * stream_end)) (cut : bool) :=
  Process demo_host demo_agent demo_input (mkState (mkWorld script cut) []).

(** The closing event, the requests made and the failures of a tool. *)
Definition outcome (p : option error * state (W := world)) : option action * nat * Z :=
  (last (log p.2), List.length (requests (log p.2)), failures "bad" (log p.2)).

Definition fake_chart : string := "see ![c](chart/0000aaaa.png)".
Example Process_ex :
  (* a tool round, then an answer without the chart it produced *)
  outcome (demo_Process [reply [call "1" "QuickChart"; LLMMessageStop "tool_use"];
                         reply [LLMTextDelta "do"; LLMTextDelta "ne"; LLMMessageStop "end_turn"]] false)
    = (Some (Closed (CComplete ("done" +:+ blank_line +:+ "![chart](s3/chart/" +:+ demo_key +:+ ".png})") "end_turn")), 2%nat, 0)
  (* a fabricated chart: one silent recall, the first answer patched *)
  /\ outcome (demo_Process [reply [LLMTextDelta fake_chart; LLMMessageStop "end_turn"];
                            reply [call "1" "QuickChart"; LLMMessageStop "tool_use"];
                            reply [LLMTextDelta "other prose"; LLMMessageStop "end_turn"]] false)
    = (Some (Closed (CComplete ("see ![c](s3/chart/" +:+ demo_key +:+ ".png})") "end_turn")), 3%nat, 0)
  (* a failing tool is disabled; then the iterations run out *)
  /\ outcome (demo_Process (repeat (reply [call "1" "bad"; LLMMessageStop "tool_use"]) 9) false)
    = (Some (Closed (CError "max-iterations" "ai/agent: reached maxIterations=4")), 4%nat, 2)
  (* a provider error *)
  /\ outcome (demo_Process [] false) = (Some (Closed (CError "llm-error" "script over")), 1%nat, 0).
Proof. vm_compute. split_and!; reflexivity. Qed.

(** A turn whose context is cancelled in the middle of the model's answer can be
    reported - and persisted - as complete: the goroutine's select may drop the error
    once the context is done, and the loop takes the end of the events for the end of
    the answer. *)
Theorem cancelled_turn_completes :
  exists script t, log (demo_Process script true).2
    = [Asked (mkRequest "sys" [user_message demo_input] (List.map t_Spec (tools demo_agent)));
       Sent (CDelta "The total is 1"); Persisted (mkKey "wf" "acc" "u" "s") t;
       Closed (CComplete "The total is 1" "end_turn")]
  /\ script = [([LLMTextDelta "The total is 1"], AttemptDone ECanceled)].
Proof. eexists _, _. split; [|reflexivity]. vm_compute. reflexivity. Qed.

(** An answer that ends the turn with a tool call in it and no text is re-prompted with its
    call left unanswered: the next request has a tool call without a result. *)
Example unanswered_call :
  List.map Messages (requests (log (demo_Process
    [reply [call "1" "QuickChart"; LLMMessageStop "end_turn"]; reply [LLMTextDelta "done"; LLMMessageStop "end_turn"]] false).2))
  = [[user_message demo_input];
     [user_message demo_input; mkMessage AssistantMsg [BlockToolUse "1" "QuickChart" "{}"]; user_text emptyAnswerNudge]].
Proof. vm_compute. reflexivity. Qed.

(** A turn with a fabricated chart, the recall, and the answer patched. *)
Definition recall_turn : option error * state (W := world) :=
  demo_Process [reply [LLMTextDelta fake_chart; LLMMessageStop "end_turn"];
                reply [call "1" "QuickChart"; LLMMessageStop "tool_use"];
                reply [LLMTextDelta "other prose"; LLMMessageStop "end_turn"]] false.
Definition patched : string := "see ![c](s3/chart/" +:+ demo_key +:+ ".png})".
Lemma completed_answer_witness : answered [user_message demo_input] (log recall_turn.2) patched "end_turn".
Proof.
  destruct (completed_answer demo_host demo_agent demo_input (mkState (mkWorld [reply [LLMTextDelta fake_chart; LLMMessageStop "end_turn"];
                reply [call "1" "QuickChart"; LLMMessageStop "tool_use"];
                reply [LLMTextDelta "other prose"; LLMMessageStop "end_turn"]] false) []) recall_turn.1 recall_turn.2 patched "end_turn")
    as (l & Hl & H).
  - unfold recall_turn, demo_Process. apply surjective_pairing.
  - vm_compute. reflexivity.
  - rewrite Hl. exact H.
Defined.

Definition demo_config : json :=
  jobj [("systemMessageFixed", JStr "fixed"); ("systemMessageFlexible", JStr "flex"); ("maxIterations", JNum 7)].
Lemma Factory_bounds_witness :
  exists p, Factory (fun _ => Some "99") (Some demo_config) = Ok (7, false, 0, p, 5, 10)
  /\ backbone_last (reconfigure_all [("systemMessageFlexible", "new"); ("systemMessageFixed", "evil")] p).
Proof.
  eexists. split; [vm_compute; reflexivity|].
  refine (proj1 (proj2 (proj2 (proj2 (proj2 (Factory_bounds (fun _ => Some "99") (Some demo_config) 7 false 0 _ 5 10 _ _)))))).
  vm_compute. reflexivity.
Defined.
End AgentExamples.
