(* ===== verification/Idt.v ===== *)
(** * Delegation tokens (pkg/idt/validator.go)

    The validator a trigger asks before it serves a request: its configuration from the
    environment, the check against the identity service, and the bounded cache of
    allowed answers.  The hash, the clock readings and the service's answers are
    parameters. *)

From S2P Require Import Prelude Json.
From stdpp Require Import base tactics list strings gmap option fin_maps.
From Stdlib Require Import ZArith Lia Ascii String.
Local Open Scope string_scope.
Local Open Scope list_scope.
Local Open Scope Z_scope.

Definition HeaderIDT : string := "X-TRX-IDT".
Definition second : Z := 10 ^ 9.

Record ValidateResult := mkResult {
  Valid : bool;
  vr_UserID : string;
  vr_AccountID : string;
  FunctionGranted : bool;
  Reason : option string;
}.

Definition dec_result (v : option json) : option ValidateResult :=
  m ← match v with None => None | Some v => dec_struct (Some v) end;
  valid ← dec_bool (m !! "valid");
  user ← dec_str (m !! "userId");
  account ← dec_str (m !! "accountId");
  granted ← dec_bool (m !! "functionGranted");
  reason ← match m !! "reason" with None | Some JNull => Some None | v => option_map Some (dec_str v) end;
  Some (mkResult (default false valid) user account (default false granted) reason).

Record cacheEntry := mkEntry { ce_userID : string; ce_accountID : string; expires : Z }.

Record Validator := mkValidator {
  enabled : bool;
  failOpen : bool;
  observeOnly : bool;
  subject : string;
  agentId : string;
  functionId : string;
  requestTimeout : Z;
  cacheTTL : Z;
  cache : gmap string cacheEntry;
}.

Definition cacheMaxEntries : nat := 100 * 100.
Definition maxCacheSeconds : Z := 3600.

(** What the identity service's connection answers: an error, or a payload ([None] when
    it is not JSON). *)
Definition reply : Type := res string (option json).

(** Why a request is denied. *)
Inductive deny :=
| MISSING_IDT
| VALIDATE_ERROR (cause : string)
| DECODE_ERROR
| DENIED (reason : string)
| DENIED_FN.

Inductive verdict :=
| Allow (user account : string)
| Deny (reason : deny).

Section validator.
(** The hex digest of SHA-256. *)
Variable sha256_hex : string -> string.

Definition cacheKey (idt fn : string) : string := sha256_hex idt +:+ "|" +:+ fn.

Definition cached (v : Validator) (idt fn : string) (now : Z) : option (string * string) :=
  match cache v !! cacheKey idt fn with
  | Some e => if now <? expires e then Some (ce_userID e, ce_accountID e) else None
  | None => None
  end.

Definition with_cache (v : Validator) (c : gmap string cacheEntry) : Validator :=
  mkValidator (enabled v) (failOpen v) (observeOnly v) (subject v) (agentId v) (functionId v)
    (requestTimeout v) (cacheTTL v) c.

Definition live (now : Z) (kv : string * cacheEntry) : Prop := now < expires kv.2.
#[export] Instance live_dec now kv : Decision (live now kv).
Proof. unfold live. apply _. Defined.

(** [remember]: [sweep] and [now] are the clock's readings at eviction and insertion. *)
Definition remember (v : Validator) (idt fn user account : string) (sweep now : Z) : Validator :=
  let c := cache v in
  let c := if (cacheMaxEntries <=? size c)%nat then
             let c := filter (live sweep) c in
             if (cacheMaxEntries <=? size c)%nat then ∅ else c
           else c in
  with_cache v (<[cacheKey idt fn := mkEntry user account (now + cacheTTL v)]> c).

(** The request sent to the service. *)
Definition ask_body (v : Validator) (idt fn : string) : json :=
  jobj [("idt", JStr idt); ("agentId", JStr (agentId v)); ("functionId", JStr fn)].

(** The clock's readings during one validation. *)
Record instants := mkInstants { at_lookup : Z; at_sweep : Z; at_store : Z }.

Definition use_cache (v : Validator) : bool := (0 <? cacheTTL v) && negb (observeOnly v).

Definition validate (v : Validator) (ask : string -> json -> reply) (t : instants) (idt fn : string)
    : verdict * Validator :=
  let open_or d := if failOpen v then Allow "" "" else Deny d in
  if str_empty idt then (open_or MISSING_IDT, v)
  else match (if use_cache v then cached v idt fn (at_lookup t) else None) with
  | Some (user, account) => (Allow user account, v)
  | None =>
      match ask (subject v) (ask_body v idt fn) with
      | Err cause => (open_or (VALIDATE_ERROR cause), v)
      | Ok raw =>
          match dec_result raw with
          | None => (open_or DECODE_ERROR, v)
          | Some r =>
              if negb (Valid r) then (Deny (DENIED (default "" (Reason r))), v)
              else if negb (FunctionGranted r) then (Deny DENIED_FN, v)
              else (Allow (vr_UserID r) (vr_AccountID r),
                    if use_cache v then remember v idt fn (vr_UserID r) (vr_AccountID r) (at_sweep t) (at_store t)
                    else v)
          end
      end
  end.

Definition ValidateIfEnabled (v : Validator) (ask : string -> json -> reply) (t : instants) (idt fn : string)
    : verdict * Validator :=
  if negb (enabled v) then (Allow "" "", v)
  else validate v ask t idt (if str_empty (functionId v) then fn else functionId v).

Definition ValidateForFunction (v : Validator) (ask : string -> json -> reply) (t : instants) (idt fn : string)
    : verdict * Validator :=
  if negb (enabled v) then (Allow "" "", v) else validate v ask t idt fn.

(** ** Configuration *)

(** [strings.EqualFold(strings.TrimSpace(os.Getenv(name)), "true")]. *)
Definition env_true (getenv : string -> string) (name : string) : bool :=
  String.eqb (to_lower (trim_space (getenv name))) "true".
Definition env_or (getenv : string -> string) (name def : string) : string :=
  let s := trim_space (getenv name) in if str_empty s then def else s.

(** [fmt.Sscanf(raw, "%d", &secs)]: a sign and the digits after it, whatever follows. *)
Fixpoint take_digits (s : string) : string :=
  match s with
  | String c s => if is_digit c then String c (take_digits s) else ""
  | EmptyString => ""
  end.
Definition scan_d (s : string) : option Z :=
  match s with
  | String c rest =>
      if (nat_of_ascii c =? 43)%nat then Atoi (take_digits rest)
      else if (nat_of_ascii c =? 45)%nat then Atoi (String c (take_digits rest))
      else Atoi (take_digits s)
  | EmptyString => None
  end.

Definition cacheTTLFromEnv (raw : string) : Z :=
  let raw := trim_space raw in
  if str_empty raw then 0
  else match Atoi raw with
  | None => 0
  | Some secs => if secs <? 0 then 0 else Z.min secs maxCacheSeconds * second
  end.

Definition timeoutFromEnv (raw : string) : Z :=
  match scan_d (trim_space raw) with
  | Some secs => if 0 <? secs then wrap64 (secs * second) else 5 * second
  | None => 5 * second
  end.

Inductive config_error := CE_missing_ids (appID appFunctionID : string).

Definition disabled (open : bool) : Validator := mkValidator false open false "" "" "" 0 0 ∅.

Definition NewFromEnv (getenv : string -> string) (has_nc : bool) : res config_error Validator :=
  let failOpen := env_true getenv "IDT_FAIL_OPEN" in
  if negb (env_true getenv "IDT_VALIDATION") then Ok (disabled failOpen)
  else if negb has_nc then Ok (disabled failOpen)
  else
    let agentId := trim_space (getenv "APP_ID") in
    let functionId := trim_space (getenv "APP_FUNCTION_ID") in
    if str_empty agentId || str_empty functionId then Err (CE_missing_ids agentId functionId)
    else Ok (mkValidator true failOpen (env_true getenv "IDT_OBSERVE_ONLY")
               (env_or getenv "NATS_IDENTITY_BASE_PATH" "example.auth" +:+ "."
                +:+ env_or getenv "NATS_IDENTITY_VALIDATE_SUBJECT" "validateToken")
               agentId functionId (timeoutFromEnv (getenv "IDT_VALIDATE_TIMEOUT_SECONDS"))
               (cacheTTLFromEnv (getenv "IDT_VALIDATE_CACHE_SECONDS")) ∅).

(** [IdPrefix]: what of a token may be logged. *)
Fixpoint IdPrefix (wire : string) : string :=
  match wire with
  | String c s => if (nat_of_ascii c =? 46)%nat then "" else String c (IdPrefix s)
  | EmptyString => ""
  end.

(** ** Sequences of validations *)
Record call := mkCall { c_ask : string -> json -> reply; c_at : instants; c_idt : string; c_fn : string }.

Definition validate_call (v : Validator) (c : call) : verdict * Validator :=
  validate v (c_ask c) (c_at c) (c_idt c) (c_fn c).

Fixpoint validate_all (v : Validator) (l : list call) : list verdict * Validator :=
  match l with
  | [] => ([], v)
  | c :: l =>
      let '(r, v) := validate_call v c in
      let '(rs, v) := validate_all v l in (r :: rs, v)
  end.

(** The ways in: a request may come through either of them. *)
Inductive way_in := IfEnabled | ForFunction.
Definition enter (v : Validator) (e : way_in) (c : call) : verdict * Validator :=
  match e with
  | IfEnabled => ValidateIfEnabled v (c_ask c) (c_at c) (c_idt c) (c_fn c)
  | ForFunction => ValidateForFunction v (c_ask c) (c_at c) (c_idt c) (c_fn c)
  end.
Fixpoint enter_all (v : Validator) (l : list (way_in * call)) : list verdict * Validator :=
  match l with
  | [] => ([], v)
  | (e, c) :: l =>
      let '(r, v) := enter v e c in
      let '(rs, v) := enter_all v l in (r :: rs, v)
  end.

(** *** Properties *)

(** The function a token must be granted: the one asked for, which the configured one
    replaces on the way in that lets it. *)
Definition required_fn (v : Validator) (e : way_in) (c : call) : string :=
  match e with
  | ForFunction => c_fn c
  | IfEnabled => if bool_decide (functionId v = "") then c_fn c else functionId v
  end.
Definition as_required (v : Validator) (ec : way_in * call) : call :=
  mkCall (c_ask ec.2) (c_at ec.2) (c_idt ec.2) (required_fn v ec.1 ec.2).

(** The service said, when asked for call [c], that the token is valid for the function
    and whose it is. *)
Definition granted (v : Validator) (c : call) (user account : string) : Prop :=
  exists raw r, c_ask c (subject v) (ask_body v (c_idt c) (c_fn c)) = Ok raw /\ dec_result raw = Some r
    /\ Valid r = true /\ FunctionGranted r = true /\ vr_UserID r = user /\ vr_AccountID r = account.

(** A cache holds only answers the service gave, each with its expiry. *)
Definition entry_ok (v : Validator) (done : list call) (k : string) (e : cacheEntry) : Prop :=
  exists c, c ∈ done /\ k = cacheKey (c_idt c) (c_fn c) /\ expires e = at_store (c_at c) + cacheTTL v
    /\ granted v c (ce_userID e) (ce_accountID e).
Definition cache_ok (v : Validator) (done : list call) : Prop :=
  map_Forall (entry_ok v done) (cache v) /\ (size (cache v) <= cacheMaxEntries)%nat.

(** Two validators of the same configuration. *)
Definition same_config (v v' : Validator) : Prop := with_cache v ∅ = with_cache v' ∅.

Lemma same_config_refl v : same_config v v.
Proof. done. Qed.

Lemma with_cache_config v c : same_config v (with_cache v c).
Proof. done. Qed.

Lemma same_config_eq v v' : same_config v v' ->
  failOpen v' = failOpen v /\ cacheTTL v' = cacheTTL v /\ use_cache v' = use_cache v
  /\ subject v' = subject v /\ agentId v' = agentId v.
Proof. destruct v, v'. unfold same_config, with_cache, use_cache. simpl. intros H. by injection H as -> -> -> -> -> -> -> ->. Qed.

Lemma granted_config v v' c u a : same_config v v' -> granted v c u a -> granted v' c u a.
Proof.
  intros (_ & _ & _ & Hs & Ha)%same_config_eq (raw & r & H1 & H2). exists raw, r.
  by rewrite Hs; unfold ask_body in *; rewrite Ha.
Qed.

Lemma entry_ok_more v v' done done' k e :
  same_config v v' -> done ⊆ done' -> entry_ok v done k e -> entry_ok v' done' k e.
Proof.
  intros Hv Hd (c & Hc & Hk & He & Hg). exists c. split_and!; auto.
  - by rewrite (proj1 (proj2 (same_config_eq _ _ Hv))).
  - by eapply granted_config.
Qed.

Lemma cache_ok_more v v' done done' :
  same_config v v' -> cache v' = cache v -> done ⊆ done' -> cache_ok v done -> cache_ok v' done'.
Proof.
  intros Hv Hc Hd [H1 H2]. split; rewrite Hc; [|done]. eapply map_Forall_impl; [exact H1|].
  intros k e. by apply entry_ok_more.
Qed.

Lemma remember_ok v done c user account sweep now :
  cache_ok v done -> c ∈ done -> now = at_store (c_at c) -> granted v c user account ->
  cache_ok (remember v (c_idt c) (c_fn c) user account sweep now) done.
Proof.
  intros [He Hs] Hc -> Hg.
  assert (exists m, remember v (c_idt c) (c_fn c) user account sweep (at_store (c_at c))
      = with_cache v (<[cacheKey (c_idt c) (c_fn c) := mkEntry user account (at_store (c_at c) + cacheTTL v)]> m)
    /\ m ⊆ cache v /\ (size m < cacheMaxEntries)%nat) as (m & -> & Hm & Hlt).
  { unfold remember. eexists. split; [reflexivity|].
    destruct (Nat.leb_spec cacheMaxEntries (size (cache v))); [|done].
    destruct (Nat.leb_spec cacheMaxEntries (size (filter (live sweep) (cache v)))).
    - split; [apply map_empty_subseteq|]. rewrite map_size_empty. unfold cacheMaxEntries. lia.
    - split; [apply map_filter_subseteq|done]. }
  split; simpl.
  - apply map_Forall_insert_2.
    + by exists c.
    + apply map_Forall_lookup. intros k e Hk. eapply entry_ok_more; [..|apply He]; [done|done|].
      by eapply lookup_weaken.
  - rewrite map_size_insert. destruct (m !! _); simpl; lia.
Qed.

(** What one validation may answer. *)
Lemma validate_step v done c r v' :
  cache_ok v done -> validate_call v c = (r, v') ->
  same_config v v' /\ cache_ok v' (done ++ [c])
  /\ match r with
     | Allow u a =>
         (failOpen v = true /\ u = "" /\ a = "")
         \/ (c_idt c <> "" /\ granted v c u a)
         \/ (c_idt c <> "" /\ use_cache v = true
             /\ exists e, cache v !! cacheKey (c_idt c) (c_fn c) = Some e /\ at_lookup (c_at c) < expires e
                  /\ u = ce_userID e /\ a = ce_accountID e)
     | Deny _ => True
     end.
Proof.
  intros Hok. assert (cache_ok v (done ++ [c])) as Hok'.
  { eapply cache_ok_more; [done|done| |exact Hok]. set_solver. }
  unfold validate_call, validate. destruct (c_idt c) as [|ch tok] eqn:Et; simpl.
  { intros [= <- <-]. split_and!; [done|done|]. destruct (failOpen v); simpl; auto. }
  rewrite <- Et. assert (c_idt c <> "") as Hne by (by rewrite Et). clear Et.
  destruct (if use_cache v then _ else None) as [[u a]|] eqn:Ec.
  { intros [= <- <-]. split_and!; [done|done|]. right; right.
    destruct (use_cache v); [|done]. unfold cached in Ec.
    destruct (cache v !! _) as [e|] eqn:Ek; [|done].
    destruct (Z.ltb_spec (at_lookup (c_at c)) (expires e)); [|done]. injection Ec as <- <-. eauto 10. }
  destruct (c_ask c (subject v) (ask_body v (c_idt c) (c_fn c))) as [raw|cause] eqn:Ea;
    [|intros [= <- <-]; split_and!; [done|done|]; destruct (failOpen v); simpl; auto].
  destruct (dec_result raw) as [res|] eqn:Er;
    [|intros [= <- <-]; split_and!; [done|done|]; destruct (failOpen v); simpl; auto].
  destruct (Valid res) eqn:Ev; [|by intros [= <- <-]]. destruct (FunctionGranted res) eqn:Eg; [|by intros [= <- <-]].
  assert (granted v c (vr_UserID res) (vr_AccountID res)) as Hg by (exists raw, res; auto 10).
  intros [= <- <-]. split_and!.
  - destruct (use_cache v); done.
  - destruct (use_cache v); [|done]. apply remember_ok; auto. set_solver.
  - auto.
Qed.

Lemma validate_all_spec l v done rs v' :
  cache_ok v done -> validate_all v l = (rs, v') ->
  same_config v v' /\ cache_ok v' (done ++ l)
  /\ forall i c, l !! i = Some c -> exists r vi, rs !! i = Some r
       /\ same_config v vi /\ cache_ok vi (done ++ take i l) /\ (validate_call vi c).1 = r.
Proof.
  revert v done rs v'. induction l as [|c l IH]; intros v done rs v' Hok; simpl.
  - intros [= <- <-]. rewrite app_nil_r. split_and!; [done|done|]. intros i c. by rewrite lookup_nil.
  - destruct (validate_call v c) as [r v1] eqn:Ec. destruct (validate_all v1 l) as [rs1 v2] eqn:El.
    intros [= <- <-]. destruct (validate_step v done c r v1 Hok Ec) as (Hc & Hok1 & _).
    destruct (IH _ _ _ _ Hok1 El) as (Hc2 & Hok2 & Hi).
    assert (forall vi, same_config v1 vi -> same_config v vi) as Htr by (unfold same_config in *; congruence).
    rewrite <- app_assoc in Hok2. split_and!; [by apply Htr|done|].
    intros [|i] c' Hl; simpl in *.
    + injection Hl as <-. exists r, v. rewrite app_nil_r, Ec. by split_and!.
    + destruct (Hi i c' Hl) as (r' & vi & H1 & H2 & H3 & H4). exists r', vi. rewrite <- app_assoc in H3.
      split_and!; auto.
Qed.

Lemma validate_all_config l v rs v' : cache v = ∅ -> validate_all v l = (rs, v') -> cache_ok v [].
Proof. intros Hv _. split; rewrite Hv; [apply map_Forall_empty|]. rewrite map_size_empty. lia. Qed.

Lemma append_split (a b c d : string) :
  String.length a = String.length b -> a +:+ c = b +:+ d -> a = b /\ c = d.
Proof.
  revert b. induction a as [|x a IH]; intros [|y b] Hl H; simpl in *; try lia; [done|].
  injection H as -> H. destruct (IH b ltac:(lia) H) as [-> ->]. done.
Qed.

Lemma cacheKey_parts i f i' f' :
  (forall s, String.length (sha256_hex s) = 64%nat) ->
  cacheKey i f = cacheKey i' f' -> sha256_hex i = sha256_hex i' /\ f = f'.
Proof.
  unfold cacheKey. intros Hsha H. apply append_split in H as [H1 H2]; [|by rewrite !Hsha].
  split; [done|]. by injection H2.
Qed.

(** What an allowed validation of a validator that remembers only [done] rests on. *)
Lemma validate_backed v vi done c user account :
  (forall s, String.length (sha256_hex s) = 64%nat) ->
  (forall c', c' ∈ done -> sha256_hex (c_idt c) = sha256_hex (c_idt c') -> c_idt c' = c_idt c) ->
  same_config v vi -> cache_ok vi done -> failOpen v = false -> (validate_call vi c).1 = Allow user account ->
  c_idt c <> ""
  /\ (granted v c user account
      \/ exists cj, cj ∈ done /\ c_idt cj = c_idt c /\ c_fn cj = c_fn c /\ granted v cj user account
           /\ use_cache v = true /\ at_lookup (c_at c) < at_store (c_at cj) + cacheTTL v).
Proof.
  intros Hsha Hinj Hc Hoki Hf Hr. destruct (validate_call vi c) as [r v2] eqn:Ev. simpl in Hr. subst r.
  destruct (validate_step _ _ _ _ _ Hoki Ev) as (_ & _ & Hcase).
  destruct (same_config_eq _ _ Hc) as (Hf' & Ht' & Hu' & _).
  assert (forall c u a, granted vi c u a -> granted v c u a) as Hg by (intros *; by apply granted_config).
  destruct Hcase as [(? & _)|[(Hne & Hgr)|(Hne & Hu & e & He & Hlt & -> & ->)]]; [congruence| |].
  - split; [done|]. left. auto.
  - split; [done|]. destruct Hoki as [Hall' _]. apply (map_Forall_lookup_1 _ _ _ _ Hall') in He as (cj & Hcj & Hk & Hexp & Hgr).
    apply (cacheKey_parts _ _ _ _ Hsha) in Hk as [H1 H2]. right. exists cj. split_and!; auto; [congruence|].
    rewrite <- Ht'. lia.
Qed.

Lemma allowed_backed v l rs v' i c user account :
  (forall s, String.length (sha256_hex s) = 64%nat) ->
  (forall c c', c ∈ l -> c' ∈ l -> sha256_hex (c_idt c) = sha256_hex (c_idt c') -> c_idt c = c_idt c') ->
  cache v = ∅ -> failOpen v = false -> validate_all v l = (rs, v') ->
  l !! i = Some c -> rs !! i = Some (Allow user account) ->
  (size (cache v') <= cacheMaxEntries)%nat
  /\ c_idt c <> ""
  /\ exists j cj, (j <= i)%nat /\ l !! j = Some cj /\ c_idt cj = c_idt c /\ c_fn cj = c_fn c
       /\ granted v cj user account
       /\ (j = i \/ (use_cache v = true /\ at_lookup (c_at c) < at_store (c_at cj) + cacheTTL v)).
Proof.
  intros Hsha Hinj Hv Hf Hall Hl Hr. pose proof (validate_all_config _ _ _ _ Hv Hall) as Hok.
  destruct (validate_all_spec _ _ _ _ _ Hok Hall) as (_ & [_ Hs] & Hi). split; [done|].
  destruct (Hi i c Hl) as (r & vi & Hri & Hc & Hoki & Hstep). rewrite Hr in Hri. injection Hri as <-.
  destruct (validate_backed v vi (take i l) c user account) as (Hne & Hcase); try done.
  { intros c' Hc' Hh. symmetry. apply Hinj; [by eapply list_elem_of_lookup_2| |done].
    apply list_elem_of_lookup in Hc' as [j [Hj _]%lookup_take_Some]. by eapply list_elem_of_lookup_2. }
  split; [done|]. destruct Hcase as [Hgr|(cj & Hcj & H1 & H2 & H3 & H4 & H5)].
  - exists i, c. split_and!; auto.
  - apply list_elem_of_lookup in Hcj as [j Hj]. apply lookup_take_Some in Hj as [Hj Hji].
    exists j, cj. split_and!; auto. lia.
Qed.

Lemma same_config_entries v v' :
  same_config v v' -> enabled v' = enabled v /\ functionId v' = functionId v.
Proof. destruct v, v'. unfold same_config, with_cache. simpl. intros H. by injection H as -> -> -> -> -> -> -> ->. Qed.

Lemma validate_call_config v c r v' : validate_call v c = (r, v') -> same_config v v'.
Proof.
  unfold validate_call, validate. destruct (str_empty _); [by intros [= _ <-]|].
  destruct (if use_cache v then _ else None) as [[u a]|]; [by intros [= _ <-]|].
  destruct (c_ask c _ _) as [raw|]; [|by intros [= _ <-]]. destruct (dec_result raw) as [res|]; [|by intros [= _ <-]].
  destruct (negb (Valid res)); [by intros [= _ <-]|]. destruct (negb (FunctionGranted res)); [by intros [= _ <-]|].
  intros [= _ <-]. by destruct (use_cache v).
Qed.

(** Of an enabled validator either way in is the check of the required function. *)
Lemma enter_required v e c : enabled v = true -> enter v e c = validate_call v (as_required v (e, c)).
Proof.
  intros He. unfold enter, ValidateIfEnabled, ValidateForFunction, validate_call, as_required, required_fn. rewrite He.
  destruct e; [|done]. cbn. unfold str_empty. by destruct (functionId v).
Qed.

Lemma enter_all_required v l : enabled v = true -> enter_all v l = validate_all v (List.map (as_required v) l).
Proof.
  revert v. induction l as [|[e c] l IH]; intros v He; [done|]. cbn [enter_all List.map validate_all].
  rewrite enter_required by done. destruct (validate_call v _) as [r v1] eqn:Ec.
  pose proof (same_config_entries _ _ (validate_call_config _ _ _ _ Ec)) as [He1 Hf1].
  rewrite IH by congruence.
  assert (List.map (as_required v1) l = List.map (as_required v) l) as ->; [|done].
  apply map_ext. intros [e' c']. unfold as_required, required_fn. by rewrite Hf1.
Qed.

(** C7: Of an enabled validator without the fail-open switch, every request allowed through
    either way in is backed by a grant of the identity service for the very same token
    and the function required there - the given one, or the configured one where that is
    meant to replace it - which names the user and account returned: given for this
    request, or for an earlier one less than the cache lifetime ago; and whatever the
    requests, the cache stays within its bound.  The digest has 64 digits and does not
    collide on the tokens presented.  (A disabled validator, the default, allows
    everything and names nobody.) *)
Theorem allow_backed v l rs v' i e c user account :
  (forall s, String.length (sha256_hex s) = 64%nat) ->
  (forall x y, x ∈ l -> y ∈ l -> sha256_hex (c_idt x.2) = sha256_hex (c_idt y.2) -> c_idt x.2 = c_idt y.2) ->
  enabled v = true -> failOpen v = false -> cache v = ∅ -> enter_all v l = (rs, v') ->
  l !! i = Some (e, c) -> rs !! i = Some (Allow user account) ->
  (size (cache v') <= cacheMaxEntries)%nat
  /\ c_idt c <> ""
  /\ exists j ej cj, (j <= i)%nat /\ l !! j = Some (ej, cj) /\ c_idt cj = c_idt c
       /\ required_fn v ej cj = required_fn v e c
       /\ granted v (as_required v (ej, cj)) user account
       /\ (j = i \/ (use_cache v = true /\ at_lookup (c_at c) < at_store (c_at cj) + cacheTTL v)).
Proof.
  intros Hsha Hinj He Hf Hv Hall Hl Hr. rewrite enter_all_required in Hall by done.
  destruct (allowed_backed v (List.map (as_required v) l) rs v' i (as_required v (e, c)) user account)
    as (Hs & Hne & j & cj & Hji & Hj & Htok & Hfn & Hg & Hfresh); try done.
  - intros x y (x' & -> & Hx)%list_elem_of_fmap (y' & -> & Hy)%list_elem_of_fmap. by apply Hinj.
  - by rewrite list_lookup_fmap, Hl.
  - split; [done|]. split; [done|]. rewrite list_lookup_fmap in Hj. destruct (l !! j) as [[ej cj']|] eqn:Ej; [|done].
    injection Hj as <-. exists j, ej, cj'. by split_and!.
Qed.

Lemma cacheTTL_bounds raw : 0 <= cacheTTLFromEnv raw <= 3600 * second.
Proof.
  unfold cacheTTLFromEnv. assert (second = 1000000000) as -> by done. destruct (str_empty _); [lia|].
  destruct (Atoi _) as [n|]; [|lia]. destruct (Z.ltb_spec n 0); unfold maxCacheSeconds; lia.
Qed.

(** Enabling validation without saying which agent and which function asks is
    refused; an accepted configuration starts with an empty cache, reuses an answer for
    at most an hour, and with no switch set denies rather than lets through. *)
Theorem NewFromEnv_secure getenv has_nc :
  match NewFromEnv getenv has_nc with
  | Err (CE_missing_ids app fn) => env_true getenv "IDT_VALIDATION" = true /\ has_nc = true /\ (app = "" \/ fn = "")
  | Ok v =>
      enabled v = (env_true getenv "IDT_VALIDATION" && has_nc)
      /\ cache v = ∅ /\ 0 <= cacheTTL v <= 3600 * second
      /\ (enabled v = true -> agentId v <> "" /\ functionId v <> "")
      /\ (failOpen v = true -> env_true getenv "IDT_FAIL_OPEN" = true)
      /\ (observeOnly v = true -> env_true getenv "IDT_OBSERVE_ONLY" = true)
  end.
Proof.
  unfold NewFromEnv. destruct (env_true getenv "IDT_VALIDATION") eqn:Ee; simpl;
    [|split_and!; simpl; unfold second; auto; lia || done].
  destruct has_nc; simpl; [|split_and!; simpl; unfold second; auto; lia || done].
  destruct (str_empty (trim_space (getenv "APP_ID"))) eqn:Ea; simpl.
  { split_and!; auto. left. by destruct (trim_space (getenv "APP_ID")). }
  destruct (str_empty (trim_space (getenv "APP_FUNCTION_ID"))) eqn:Ef; simpl.
  { split_and!; auto. right. by destruct (trim_space (getenv "APP_FUNCTION_ID")). }
  split_and!; auto.
  - apply cacheTTL_bounds.
  - apply cacheTTL_bounds.
  - intros _. by apply str_empty_false in Ea, Ef.
Qed.
End validator.

(** ** A concrete run *)
Module IdtExamples.

Definition granting (user account : string) (_ : string) (_ : json) : reply :=
  Ok (Some (jobj [("valid", JBool true); ("functionGranted", JBool true);
                  ("userId", JStr user); ("accountId", JStr account)])).
Definition silent (_ : string) (_ : json) : reply := Err "timeout".
Definition at_time (t : Z) : instants := mkInstants t t t.
Definition demo_validator : Validator := mkValidator true false false "auth.validate" "app" "fn" (5 * second) (60 * second) ∅.
(** A stand-in for the digest that tells apart the tokens used here. *)
Definition sixty_four (c : ascii) : string := string_of_list_ascii (repeat c 64).
Definition demo_sha (s : string) : string := if String.eqb s "tok" then sixty_four "a" else sixty_four "b".
Definition demo_env (n : string) : string :=
  if String.eqb n "IDT_VALIDATION" then " TRUE" else if String.eqb n "APP_ID" then "app"
  else if String.eqb n "APP_FUNCTION_ID" then "fn" else if String.eqb n "IDT_VALIDATE_CACHE_SECONDS" then "60" else "".
Example NewFromEnv_ex : exists v, NewFromEnv demo_env true = Ok v /\ cacheTTL v = 60 * second.
Proof. eexists. split; [vm_compute; reflexivity|done]. Qed.

Definition demo_calls : list call :=
  [mkCall (granting "u" "acc") (at_time 0) "tok" "fn"; mkCall silent (at_time (59 * second)) "tok" "fn";
   mkCall silent (at_time (59 * second)) "tok" "other"; mkCall silent (at_time (60 * second)) "tok" "fn"].
(** The second request rides the first one's answer, the others do not. *)
Example validate_all_ex :
  (validate_all demo_sha demo_validator demo_calls).1
  = [Allow "u" "acc"; Allow "u" "acc"; Deny (VALIDATE_ERROR "timeout"); Deny (VALIDATE_ERROR "timeout")].
Proof. vm_compute. reflexivity. Qed.

(** The same requests, of which the second comes through the way in that puts the
    configured function in place of the one asked for. *)
Definition demo_entries : list (way_in * call) :=
  [(ForFunction, mkCall (granting "u" "acc") (at_time 0) "tok" "fn");
   (IfEnabled, mkCall silent (at_time (59 * second)) "tok" "wf");
   (ForFunction, mkCall silent (at_time (59 * second)) "tok" "wf")].
Example enter_all_ex :
  (enter_all demo_sha demo_validator demo_entries).1
  = [Allow "u" "acc"; Allow "u" "acc"; Deny (VALIDATE_ERROR "timeout")].
Proof. vm_compute. reflexivity. Qed.

Lemma allow_backed_witness : exists j ej cj, (j <= 1)%nat /\ demo_entries !! j = Some (ej, cj)
  /\ c_idt cj = "tok" /\ granted demo_validator (as_required demo_validator (ej, cj)) "u" "acc".
Proof.
  destruct (enter_all demo_sha demo_validator demo_entries) as [rs v'] eqn:E.
  edestruct (allow_backed demo_sha demo_validator demo_entries rs v' 1) as (_ & _ & j & ej & cj & H1 & H2 & H3 & _ & H5 & _).
  - intros s. unfold demo_sha. by destruct (String.eqb s "tok").
  - assert (forall x, x ∈ demo_entries -> c_idt x.2 = "tok") as H.
    { apply Forall_forall. repeat constructor. }
    intros x y Hx Hy _. by rewrite !H.
  - reflexivity.
  - reflexivity.
  - reflexivity.
  - exact E.
  - reflexivity.
  - assert (rs = (enter_all demo_sha demo_validator demo_entries).1) as -> by (by rewrite E). vm_compute. reflexivity.
  - exists j, ej, cj. auto.
Defined.
End IdtExamples.
