(* ===== verification/Chat.v ===== *)
(** * The chat trigger (pkg/workflow/builtin/natschat)

    A request from the bus to its answer: the trigger's configuration, the token check,
    the decoding of the request, and the two ways of answering it - an event stream, or
    one reply collected from it.  The executor runs in between, and at the end the agent
    and the session are put together. *)

From S2P Require Import Prelude Json Scan Template Node Engine Events Executor Stream Retry Charts Agent Idt.
From stdpp Require Import base tactics list strings gmap option fin_maps.
From Stdlib Require Import ZArith Lia Ascii String.
Local Open Scope string_scope.
Local Open Scope list_scope.
Local Open Scope Z_scope.
Local Open Scope go_scope.

(** ** factory.go *)
Module Config.

Record IdentitySource := mkIdentitySource {
  NatsUserHeader : string;
  UserHeader : string;
  AccountHeader : string;
  UserNameHeader : string;
  TimeZoneHeader : string;
  RequireAccount : bool;
  RequireUser : bool;
}.
Record Config := mkConfig {
  Subject : string;
  ResponseMode : string;
  Source : IdentitySource;
  RequestTimeoutSeconds : Z;
  AllowResponseModeOverride : bool;
}.

Definition responseModeStreaming : string := "streaming".
Definition responseModeSingle : string := "single".
Definition defaultRequestTimeout : Z := 600.

Inductive config_error := CE_parse | CE_mode.

Definition known_mode (m : string) : bool :=
  String.eqb m responseModeStreaming || String.eqb m responseModeSingle.
Definition str_or (s def : string) : string := if str_empty s then def else s.

Definition dec_source (v : option json) : option IdentitySource :=
  m ← dec_struct v;
  nats ← dec_str (m !! "natsUserHeader");
  user ← dec_str (m !! "userHeader");
  account ← dec_str (m !! "accountHeader");
  name ← dec_str (m !! "userNameHeader");
  tz ← dec_str (m !! "timeZoneHeader");
  reqAccount ← dec_bool (m !! "requireAccount");
  reqUser ← dec_bool (m !! "requireUser");
  Some (mkIdentitySource (str_or nats "_User_Id") (str_or user "X-User-Id") (str_or account "X-Account-Id")
          (str_or name "X-User-Name") (str_or tz "X-Time-Zone") (default true reqAccount) (default true reqUser)).

(** [Factory]: the decoded configuration with its defaults. *)
Definition Factory (raw : option json) : res config_error Config :=
  let! m := ok_or CE_parse (match raw with None => None | Some v => dec_struct (Some v) end) in
  let! subject := ok_or CE_parse (dec_str (m !! "subject")) in
  let! mode := ok_or CE_parse (dec_str (m !! "responseMode")) in
  let! source := ok_or CE_parse (dec_source (m !! "identitySource")) in
  let! timeout := ok_or CE_parse (dec_int (m !! "requestTimeoutSeconds")) in
  let! override := ok_or CE_parse (dec_bool (m !! "allowResponseModeOverride")) in
  if negb (known_mode mode) then Err CE_mode
  else
    let timeout := default 0 timeout in
    Ok (mkConfig subject mode source (if timeout =? 0 then defaultRequestTimeout else timeout)
          (default false override)).

(** [resolveResponseMode]: [None] is the caller's error. *)
Definition resolveResponseMode (cfg : Config) (requested : string) : option string :=
  if negb (AllowResponseModeOverride cfg) || str_empty requested then Some (ResponseMode cfg)
  else if negb (known_mode requested) then None
  else Some requested.

Lemma Factory_ok raw cfg :
  Factory raw = Ok cfg ->
  known_mode (ResponseMode cfg) = true /\ UserHeader (Source cfg) <> "" /\ AccountHeader (Source cfg) <> "".
Proof.
  unfold Factory. destruct (match raw with None => None | Some v => dec_struct (Some v) end) as [m|]; simpl; [|done].
  destruct (dec_str (m !! "subject")); simpl; [|done].
  destruct (dec_str (m !! "responseMode")) as [mode|]; simpl; [|done].
  destruct (dec_source _) as [src|] eqn:Es; simpl; [|done].
  destruct (dec_int _); simpl; [|done]. destruct (dec_bool _); simpl; [|done].
  destruct (known_mode mode) eqn:Em; simpl; [|done]. intros [= <-]. simpl. split; [done|].
  unfold dec_source in Es.
  repeat match type of Es with (_ ≫= _) = Some _ => apply bind_Some in Es as (? & ? & Es) end.
  injection Es as <-. simpl. unfold str_or.
  split; (match goal with |- context [str_empty ?s] => destruct (str_empty s) eqn:E end; [done|by apply str_empty_false]).
Qed.
End Config.

(** ** collectsink.go and the stream adapter *)
Module Sinks.

(** [nats_service]'s errors: [NewValidationError] answers with status 400,
    [NewServerError] with 500, whatever the API status they carry. *)
Record service_error := mkServiceError {
  se_status : Z;
  se_api : Z;
  se_code : string;
  se_message : string;
}.
Definition validationErr (code message : string) (api : Z) : service_error := mkServiceError 400 api code message.
Definition serverErr (code message : string) (api : Z) : service_error := mkServiceError 500 api code message.

Definition ExecutorFailed : string := "executor-failed".

Inductive singleResult :=
| ResultBody (body : json)
| ResultErr (code message : string).

Record collectSink := mkCollect {
  cs_sessionID : string;
  cs_closed : bool;
  attachments : list json;
  done : option singleResult;
}.
Definition newCollectSink (sessionID : string) : collectSink := mkCollect sessionID false [] None.

Definition singleResponseBody (sessionID finalText stop : string) (atts : list json) : json :=
  jobj [("sessionId", JStr sessionID); ("finalText", JStr finalText); ("stopReason", JStr stop);
        ("attachments", JArr atts)].

(** [CompletePayload], decoded strictly. *)
Definition dec_complete (d : json) : option (string * string) :=
  m ← dec_struct (Some d);
  text ← dec_str (m !! "finalText");
  stop ← dec_str (m !! "messageStop");
  Some (text, stop).

(** A string field of a payload whose decoding errors are ignored. *)
Definition field_of (d : json) (name : string) : string := as_str (as_obj (Some d) !! name).

Definition result_of (sessionID : string) (atts : list json) (term : Events.StreamEvent) : singleResult :=
  if bool_decide (ev_Type term = Events.StreamComplete) then
    match dec_complete (ev_Data term) with
    | None => ResultErr ExecutorFailed "malformed complete payload"
    | Some (text, stop) => ResultBody (singleResponseBody sessionID text stop atts)
    end
  else ResultErr (Config.str_or (field_of (ev_Data term) "code") ExecutorFailed)
                 (Config.str_or (field_of (ev_Data term) "message") "workflow failed").

Definition collect_send (evt : Events.StreamEvent) (c : collectSink) : option string * collectSink :=
  if bool_decide (ev_Type evt = StreamAttachment) && negb (cs_closed c)
  then (None, mkCollect (cs_sessionID c) (cs_closed c) (attachments c ++ [ev_Data evt]) (done c))
  else (None, c).
Definition collect_close (term : Events.StreamEvent) (c : collectSink) : option string * collectSink :=
  if cs_closed c then (None, c)
  else (None, mkCollect (cs_sessionID c) true (attachments c)
                (Some (result_of (cs_sessionID c) (attachments c) term))).
#[export] Instance collect_sink : StreamSink collectSink := {
  sink_send := collect_send; sink_close := collect_close }.

(** What a sequence of calls leaves in a collecting sink: the attachments sent before
    the first close, and that close's result. *)
Fixpoint collected (atts : list json) (l : trace) : list json * option Events.StreamEvent :=
  match l with
  | [] => (atts, None)
  | (true, term) :: _ => (atts, Some term)
  | (false, e) :: l =>
      collected (if bool_decide (ev_Type e = StreamAttachment) then atts ++ [ev_Data e] else atts) l
  end.

Lemma collect_closed {A} (p : sink_prog A) c : cs_closed c = true -> (run_prog p c).2 = c.
Proof.
  intros Hc. induction p as [a|close e k IH]; simpl; [done|].
  assert (sink_call close e c = (None, c)) as ->.
  { destruct close; simpl; unfold collect_close, collect_send; rewrite Hc; [done|]. by rewrite andb_false_r. }
  apply IH.
Qed.

Lemma collect_run {A} (p : sink_prog A) c :
  cs_closed c = false -> done c = None ->
  let '(atts, term) := collected (attachments c) (calls_of p c) in
  (run_prog p c).2 = mkCollect (cs_sessionID c) (match term with Some _ => true | None => false end) atts
                       (result_of (cs_sessionID c) atts <$> term).
Proof.
  revert c. induction p as [a|close e k IH]; intros c Hc Hd; simpl.
  - destruct c; simpl in *; by subst.
  - destruct close; simpl.
    + unfold collect_close. rewrite Hc. simpl. by rewrite collect_closed.
    + unfold collect_send. rewrite Hc. simpl. rewrite andb_true_r.
      destruct (bool_decide (ev_Type e = StreamAttachment)) eqn:Eb; cbn [collected]; rewrite Eb; [|by apply IH].
      set (c1 := mkCollect _ _ _ _). specialize (IH None c1). by apply IH.
Qed.

(** *** streamSinkAdapter *)
Section adapter.
Variable streamID cancelSubj toolPrefix : string.
Variable conn_error : Z -> option string.

Definition session_error_text (e : Server.session_error) : string :=
  match e with
  | Server.ErrClosed => "natsstream: session already closed"
  | Server.ErrPublish cause => cause
  end.

(** The session operation behind one call of the sink. *)
Definition op_of (c : bool * Events.StreamEvent) : Server.op :=
  let '(close, e) := c in
  if close then
    if bool_decide (ev_Type e = Events.StreamComplete)
    then Server.OpComplete (field_of (ev_Data e) "finalText") (field_of (ev_Data e) "messageStop")
    else Server.OpFail (field_of (ev_Data e) "code") (field_of (ev_Data e) "message") (field_of (ev_Data e) "internal")
  else Server.OpSend (Stream.mkStreamEvent (type_name (ev_Type e)) 0 "" (ev_Data e) (ev_Header e)).

Definition adapter_call (close : bool) (e : Events.StreamEvent) (s : Server.StreamSession)
    : option string * Server.StreamSession :=
  let '(err, s) := Server.step streamID cancelSubj toolPrefix conn_error (op_of (close, e)) s in
  (session_error_text <$> err, s).
#[export] Instance streamSinkAdapter : StreamSink Server.StreamSession := {
  sink_send := adapter_call false; sink_close := adapter_call true }.

Lemma adapter_run {A} (p : sink_prog A) (s : Server.StreamSession) :
  (run_prog p s).2 = foldl (fun s o => (Server.step streamID cancelSubj toolPrefix conn_error o s).2) s
                       (List.map op_of (calls_of p s)).
Proof.
  revert s. induction p as [a|close e k IH]; intros s; [done|].
  assert (sink_call close e s = adapter_call close e s) as Hc by (by destruct close).
  cbn [run_prog calls_of]. rewrite Hc. unfold adapter_call.
  destruct (Server.step _ _ _ _ (op_of (close, e)) s) as [err s1] eqn:E. cbn [List.map foldl]. rewrite E. apply IH.
Qed.
End adapter.
End Sinks.

(** ** trigger.go *)
Module Trigger.
Import Sinks Access.

Definition BadBody : string := "bad-body".
Definition BadRequest : string := "bad-request".
Definition AccountIDMissing : string := "account-id-missing".
Definition UserIDMissing : string := "USER_ID_MISSING".
Definition StreamInitFailed : string := "stream-init-failed".
Definition reasonIndexFunctionUnbound : string := "INDEX_FUNCTION_UNBOUND".

(** A request on the bus; header values in order. *)
Record NatsMessage := mkNatsMessage {
  nm_Header : gmap string (list string);
  nm_Body : option json;       (* [None]: not JSON *)
  nm_MessageId : string;
  nm_Reply : string;
}.
Definition Get (h : gmap string (list string)) (k : string) : string := default "" (head (default [] (h !! k))).
Definition natsHeaderMap (h : gmap string (list string)) : gmap string string := omap head h.

(** *** Which function a request's token is checked against *)
Record idtTarget := mkTarget {
  perIndex : bool;
  functionID : string;
  unboundCause : string;
}.
Definition currentIDTTarget (a : IndexAccess) : idtTarget :=
  match Status a with
  | IndexAccessBound =>
      if str_empty (trim_space (FunctionID a)) then mkTarget false "" "bound access has no function id"
      else mkTarget true (FunctionID a) ""
  | IndexAccessUnbound => mkTarget false "" (if str_empty (Cause a) then "no usable function" else Cause a)
  | IndexAccessNone => mkTarget false "" ""
  end.

Section trigger.
Variable cfg : Config.Config.
Variable workflowID : string.
Variable access : IndexAccess.
Variable sha256_hex : string -> string.

Definition validateToken (v : Validator) (ask : string -> json -> reply) (t : instants) (tok : string) (tgt : idtTarget)
    : verdict * Validator :=
  if negb (str_empty (unboundCause tgt)) then (Deny (DENIED reasonIndexFunctionUnbound), v)
  else if perIndex tgt then ValidateForFunction sha256_hex v ask t tok (functionID tgt)
  else ValidateIfEnabled sha256_hex v ask t tok workflowID.

Definition deny_text (d : deny) : string :=
  match d with
  | MISSING_IDT => "MISSING_IDT"
  | VALIDATE_ERROR cause => "VALIDATE_ERROR:" +:+ cause
  | DECODE_ERROR => "DECODE_ERROR:"            (* the decoder's own text left out *)
  | DENIED reason => reason
  | DENIED_FN => "DENIED_FN"
  end.

(** The user and account to serve as, or the refusal.  An observe-only check runs aside
    and leaves no trace: it never uses the cache. *)
Definition authorizeIDT (v : Validator) (ask : string -> json -> reply) (t : instants)
    (msg : NatsMessage) (hdrUser hdrAccount : string) : res service_error (string * string) * Validator :=
  if negb (enabled v) then (Ok (hdrUser, hdrAccount), v)
  else if observeOnly v then (Ok (hdrUser, hdrAccount), v)
  else
    let '(r, v) := validateToken v ask t (Get (nm_Header msg) HeaderIDT) (currentIDTTarget access) in
    match r with
    | Deny d => (Err (validationErr BadRequest ("IDT validation failed: " +:+ deny_text d) 403), v)
    | Allow user account => (Ok (Config.str_or user hdrUser, Config.str_or account hdrAccount), v)
    end.

(** *** The request *)
Record chatRequestBody := mkBody { cb_Message : string; cb_SessionID : string; cb_ResponseMode : string }.
Definition dec_body (raw : option json) : option chatRequestBody :=
  m ← match raw with None => None | Some v => dec_struct (Some v) end;
  message ← dec_str (m !! "message");
  session ← dec_str (m !! "sessionId");
  mode ← dec_str (m !! "responseMode");
  Some (mkBody message session mode).

Definition request_event (msg : NatsMessage) (sessionID : string) (id : Identity) : Exec.TriggerEvt :=
  Exec.mkTriggerEvt (nm_MessageId msg) id sessionID (nm_Body msg) (natsHeaderMap (nm_Header msg)).

Inductive outcome :=
| Refused (e : service_error)
| Streaming (s : Server.StreamSession)     (* status 302: answered on the stream *)
| Answered (body : json).

(** The workflow behind the trigger: the executor's parameters. *)
Context {Time : Type}.
Variable process : string -> Identity -> Exec.AgentInput (Time := Time) -> sink_prog (option string).
Variable mapping : string -> option (res string string).
Variable uploader : option (string -> string -> string -> string -> res string string).
Variable now : Time.
Variable wf : Loading.Workflow.
Variable clock : nat -> Z.

Definition Emit {S} {K : StreamSink S} (evt : Exec.TriggerEvt) (s : S) : option string * S :=
  let '(err, s, _) := Exec.Run process mapping uploader now wf clock evt s in (err, s).

(** The bus for one request: fresh ids, the subscription of the cancel subject, the
    outcome of each publish. *)
Record bus := mkBus {
  basePath : string;
  fresh_session : string;
  fresh_stream : string;
  fresh_cancel : string;
  subscribe_error : option string;
  publish_error : Z -> option string;
}.
Variable net : bus.

Definition stream_id (msg : NatsMessage) : string := Config.str_or (nm_MessageId msg) (fresh_stream net).
Definition cancel_subject : string := basePath net +:+ "_.stream_cancel." +:+ fresh_cancel net.
Definition tool_prefix (msg : NatsMessage) : string := basePath net +:+ "_.tool_result." +:+ stream_id msg.

(** [NewStreamSession]: the reason it fails, if it does. *)
Definition session_refused (msg : NatsMessage) : option string :=
  if str_empty (nm_Reply msg) then Some "natsstream: request has no reply inbox; not a request/reply call"
  else match subscribe_error net with
       | Some cause => Some ("natsstream: subscribe to cancel subject: " +:+ cause)
       | None => None
       end.

Definition handleStreaming (msg : NatsMessage) (sessionID : string) (id : Identity) : outcome :=
  match session_refused msg with
  | Some cause => Refused (serverErr StreamInitFailed cause 500)
  | None =>
      let sid := stream_id msg in
      let prefix := tool_prefix msg in
      match Server.Start sid cancel_subject prefix (publish_error net) sessionID workflowID (nm_MessageId msg)
              Server.NewStreamSession with
      | (Some err, _) => Refused (serverErr StreamInitFailed (session_error_text err) 500)
      | (None, s) =>
          let '(emitErr, s) := Emit (K := streamSinkAdapter sid cancel_subject prefix (publish_error net))
                                 (request_event msg sessionID id) s in
          Streaming (match emitErr with
                     | Some cause =>
                         (Server.Fail sid cancel_subject prefix (publish_error net) ExecutorFailed cause "" s).2
                     | None => s
                     end)
      end
  end.

(** [expired]: whether the request's context is done once the workflow has run. *)
Definition toReply (expired : bool) (r : singleResult) : outcome :=
  match r with
  | ResultErr code message =>
      if String.eqb code Agent.Timeout || (String.eqb code Agent.Cancelled && expired)
      then Refused (serverErr Agent.Timeout "request timeout" 504)
      else Refused (serverErr code message 500)
  | ResultBody body => Answered body
  end.
Definition handleSingle (expired : bool) (msg : NatsMessage) (sessionID : string) (id : Identity) : outcome :=
  let '(emitErr, cs) := Emit (request_event msg sessionID id) (newCollectSink sessionID) in
  match done cs with
  | Some r => toReply expired r
  | None =>
      match emitErr with
      | Some cause => Refused (serverErr ExecutorFailed cause 500)
      | None => Refused (serverErr Agent.Timeout "request timeout" 504)   (* nobody is left to close the sink *)
      end
  end.

Definition mode_message : string :=
  "responseMode must be " +:+ dquote +:+ Config.responseModeStreaming +:+ dquote +:+ " or "
  +:+ dquote +:+ Config.responseModeSingle +:+ dquote.

(** [handle]; [wired]: the engine has subscribed its sink. *)
Definition handle (wired expired : bool) (v : Validator) (ask : string -> json -> reply) (t : instants)
    (msg : NatsMessage) : outcome * Validator :=
  let src := Config.Source cfg in
  let get := Get (nm_Header msg) in
  let hdrAccount := get (Config.AccountHeader src) in
  if Config.RequireAccount src && str_empty hdrAccount
  then (Refused (validationErr AccountIDMissing "account id header missing" 400), v)
  else
  let hdrUser := get (Config.UserHeader src) in
  if Config.RequireUser src && str_empty hdrUser
  then (Refused (validationErr UserIDMissing "user id header missing" 400), v)
  else match authorizeIDT v ask t msg hdrUser hdrAccount with
  | (Err e, v) => (Refused e, v)
  | (Ok (user, account), v) =>
      match dec_body (nm_Body msg) with
      | None => (Refused (validationErr BadBody "malformed body" 400), v)
      | Some body =>
          if str_empty (cb_Message body) then (Refused (validationErr BadRequest "message required" 400), v)
          else
          let sessionID := Config.str_or (cb_SessionID body) (fresh_session net) in
          let id := mkIdentity (get (Config.NatsUserHeader src)) user account
                      (get (Config.UserNameHeader src)) (get (Config.TimeZoneHeader src)) in
          if negb wired then (Refused (serverErr ExecutorFailed "trigger sink not yet wired" 500), v)
          else match Config.resolveResponseMode cfg (cb_ResponseMode body) with
          | None => (Refused (validationErr BadRequest mode_message 400), v)
          | Some mode =>
              (if String.eqb mode Config.responseModeStreaming
               then handleStreaming msg sessionID id
               else handleSingle expired msg sessionID id, v)
          end
      end
  end.

(** *** Properties *)
Definition error_event (cause : string) : Events.StreamEvent := mkEvent Events.StreamError (Exec.failure_body cause).

(** What the workflow does to a sink: the agent's calls, then the executor's error. *)
Definition emitted {S} {K : StreamSink S} (evt : Exec.TriggerEvt) (s : S) : trace :=
  match Exec.resolveAgent wf with
  | None => [(true, error_event (Exec.no_agent wf))]
  | Some a =>
      let agent := process a (Exec.te_Identity evt) (Exec.agent_input mapping uploader now wf evt) in
      calls_of agent s ++ (match (run_prog agent s).1 with Some cause => [(true, error_event cause)] | None => [] end)
  end.

Lemma Emit_spec {S} {K : StreamSink S} evt (s : S) :
  Emit evt s = run_prog (Exec.run_body process mapping uploader now wf evt) s
  /\ calls_of (Exec.run_body process mapping uploader now wf evt) s = emitted evt s.
Proof.
  split.
  - unfold Emit, Exec.Run.
    pose proof (RunTimer.timer_run clock (Exec.run_body process mapping uploader now wf evt) s 0) as Ht.
    destruct (run_prog (S := RunTimer.runTimer) _ _) as [err timer]. by destruct Ht as [-> _].
  - unfold Exec.run_body, emitted. destruct (Exec.resolveAgent wf) as [a|]; simpl.
    + rewrite Exec.calls_bind. destruct (run_prog _ s) as [[cause|] s']; simpl; [|done].
      by destruct (sink_close _ s') as [? ?].
    + by destruct (sink_close _ s) as [? ?].
Qed.

Lemma emitted_error {S} {K : StreamSink S} evt (s : S) cause :
  (Emit evt s).1 = Some cause -> exists l, emitted evt s = l ++ [(true, error_event cause)].
Proof.
  destruct (Emit_spec evt s) as [-> _]. unfold Exec.run_body, emitted.
  destruct (Exec.resolveAgent wf) as [a|]; simpl.
  - rewrite run_bind. destruct (run_prog _ s) as [[cause'|] s']; simpl; [|done].
    destruct (sink_close _ s'); simpl. intros [= ->]. by eexists.
  - destruct (sink_close _ s); simpl. intros [= <-]. by exists [].
Qed.

Lemma collected_app atts l l' :
  collected atts (l ++ l') = match collected atts l with
                             | (a, Some t) => (a, Some t)
                             | (a, None) => collected a l'
                             end.
Proof. revert atts. induction l as [|[[] e] l IH]; intros atts; simpl; auto. Qed.

Lemma single_result expired msg sessionID id :
  let evt := request_event msg sessionID id in
  let c := newCollectSink sessionID in
  handleSingle expired msg sessionID id
  = match collected [] (emitted evt c) with
    | (atts, Some term) => toReply expired (result_of sessionID atts term)
    | (_, None) => Refused (serverErr Agent.Timeout "request timeout" 504)
    end.
Proof.
  intros evt c. unfold handleSingle. fold evt c. pose proof (emitted_error evt c) as He.
  destruct (Emit_spec evt c) as [Hr Hc]. rewrite <- Hc in He |- *.
  pose proof (collect_run (Exec.run_body process mapping uploader now wf evt) c eq_refl eq_refl) as Hrun.
  rewrite Hr in He |- *. destruct (run_prog _ c) as [emitErr cs]. simpl in He, Hrun.
  set (l := calls_of _ c) in *. destruct (collected [] l) as [atts [term|]] eqn:Ecol; rewrite Hrun; simpl; [done|].
  destruct emitErr as [cause|]; [|done]. destruct (He cause eq_refl) as [l' El].
  rewrite El, collected_app in Ecol. by destruct (collected [] l') as [a [t|]].
Qed.

(** A single-mode request is answered exactly once, by the first way its workflow
    ended: with the agent's first closing event and the attachments sent before it, or
    with the executor's error when there is no agent or it failed without closing; only
    an agent that neither closes nor fails is reported as a timeout. *)
Theorem single_reply expired msg sessionID id :
  let evt := request_event msg sessionID id in
  let c := newCollectSink sessionID in
  let failed cause := Refused (serverErr ExecutorFailed cause 500) in
  handleSingle expired msg sessionID id
  = match Exec.resolveAgent wf with
    | None => failed (Exec.no_agent wf)
    | Some a =>
        let agent := process a id (Exec.agent_input mapping uploader now wf evt) in
        match collected [] (calls_of agent c), (run_prog agent c).1 with
        | (atts, Some term), _ => toReply expired (result_of sessionID atts term)
        | (_, None), Some cause => failed (Config.str_or cause "workflow failed")
        | (_, None), None => Refused (serverErr Agent.Timeout "request timeout" 504)
        end
    end.
Proof.
  intros evt c failed. rewrite single_result. fold evt c.
  assert (forall atts cause, toReply expired (result_of sessionID atts (error_event cause))
            = failed (Config.str_or cause "workflow failed")) as Hf.
  { intros atts cause. unfold result_of, error_event, Exec.failure_body, field_of. simpl.
    unfold failed. destruct cause; reflexivity. }
  unfold emitted. destruct (Exec.resolveAgent wf) as [a|]; [|apply (Hf [])].
  simpl. rewrite collected_app. set (agent := process a _ _).
  destruct (collected [] (calls_of agent c)) as [atts [term|]]; [done|].
  destruct (run_prog agent c).1 as [cause|]; [|done]. apply Hf.
Qed.

(** The event that goes out for a call of the sink. *)
Definition wire_event (c : bool * Events.StreamEvent) : Stream.StreamEvent :=
  let '(close, e) := c in
  if close then
    if bool_decide (ev_Type e = Events.StreamComplete)
    then Server.complete_event (field_of (ev_Data e) "finalText") (field_of (ev_Data e) "messageStop")
    else Server.error_event (field_of (ev_Data e) "code") (field_of (ev_Data e) "message") (field_of (ev_Data e) "internal")
  else Stream.mkStreamEvent (type_name (ev_Type e)) 0 "" (ev_Data e) (ev_Header e).

Lemma wire_event_one c : Server.op_event (op_of c) = Some (wire_event c).
Proof. destruct c as [[] e]; simpl; [by destruct (bool_decide _)|done]. Qed.
Lemma wire_event_op l : omap Server.op_event (List.map op_of l) = List.map wire_event l.
Proof.
  induction l as [|c l IH]; [done|]. cbn [List.map]. rewrite <- IH.
  change (omap Server.op_event (op_of c :: List.map op_of l))
    with (match Server.op_event (op_of c) with
          | Some e => e :: omap Server.op_event (List.map op_of l)
          | None => omap Server.op_event (List.map op_of l)
          end).
  by rewrite wire_event_one.
Qed.

(** The calls that end a stream. *)
Definition ends_stream (c : bool * Events.StreamEvent) : bool := c.1 || is_terminator (type_name (ev_Type c.2)).
Lemma wire_event_ends c : is_terminator (se_Type (wire_event c)) = ends_stream c.
Proof. destruct c as [[] e]; simpl; [by destruct (bool_decide _)|done]. Qed.

Lemma terminated_cons x l : l <> [] -> Server.terminated (x :: l) = Server.terminated l.
Proof. unfold Server.terminated. by destruct l. Qed.

Lemma terminated_until l :
  Server.terminated (Server.until_terminator l) = existsb (fun e => is_terminator (se_Type e)) l.
Proof.
  induction l as [|e l IH]; simpl; [done|].
  destruct (is_terminator (se_Type e)) eqn:Ee; simpl; [unfold Server.terminated; simpl; by rewrite Ee|].
  rewrite <- IH. destruct (Server.until_terminator l) as [|x l'] eqn:El; [unfold Server.terminated; simpl; by rewrite Ee|].
  by apply terminated_cons.
Qed.

Lemma terminated_wire l :
  Server.terminated (Server.until_terminator (List.map wire_event l)) = existsb ends_stream l.
Proof.
  rewrite terminated_until. induction l as [|c l IH]; [done|]. cbn [List.map existsb]. by rewrite wire_event_ends, IH.
Qed.

(** The session of a healthy connection that accepted the request. *)
Definition accepted (msg : NatsMessage) : Prop :=
  nm_Reply msg <> "" /\ subscribe_error net = None /\ forall n, publish_error net n = None.
Definition open_session (msg : NatsMessage) (sessionID : string) : Server.StreamSession :=
  (Server.Start (stream_id msg) cancel_subject (tool_prefix msg) (publish_error net) sessionID workflowID
     (nm_MessageId msg) Server.NewStreamSession).2.

Lemma streaming_session msg sessionID id :
  accepted msg ->
  let K := streamSinkAdapter (stream_id msg) cancel_subject (tool_prefix msg) (publish_error net) in
  let s0 := open_session msg sessionID in
  exists s ops,
    handleStreaming msg sessionID id = Streaming s
    /\ s = Server.run_session (stream_id msg) cancel_subject (tool_prefix msg) (publish_error net)
             sessionID workflowID (nm_MessageId msg) ops
    /\ Server.until_terminator (omap Server.op_event ops)
       = Server.until_terminator (List.map wire_event (emitted (request_event msg sessionID id) s0)).
Proof.
  intros (Hr & Hs & Hp). cbv zeta. set (s0 := open_session msg sessionID).
  set (K := streamSinkAdapter (stream_id msg) cancel_subject (tool_prefix msg) (publish_error net)).
  unfold handleStreaming, session_refused. rewrite (proj2 (str_empty_false _) Hr), Hs.
  assert (Server.Start (stream_id msg) cancel_subject (tool_prefix msg) (publish_error net) sessionID workflowID
            (nm_MessageId msg) Server.NewStreamSession = (None, s0)) as ->.
  { unfold s0, open_session, Server.Start, Server.publish. simpl. by rewrite Hp. }
  set (evt := request_event msg sessionID id). pose proof (emitted_error evt s0) as He.
  destruct (Emit_spec evt s0) as [Hr0 Hc]. fold K.
  pose proof (adapter_run (stream_id msg) cancel_subject (tool_prefix msg) (publish_error net)
                (Exec.run_body process mapping uploader now wf evt) s0) as Ha.
  rewrite Hr0 in He |- *. fold K in Ha, Hc. rewrite Hc in Ha.
  destruct (run_prog _ s0) as [emitErr s]. simpl in He, Ha.
  set (l := emitted evt s0) in *.
  assert (forall extra, foldl (fun s o => (Server.step (stream_id msg) cancel_subject (tool_prefix msg) (publish_error net) o s).2) s0
            (List.map op_of l ++ extra)
          = Server.run_session (stream_id msg) cancel_subject (tool_prefix msg) (publish_error net)
              sessionID workflowID (nm_MessageId msg) (List.map op_of l ++ extra)) as Hrun by done.
  destruct emitErr as [cause|].
  - exists (Server.Fail (stream_id msg) cancel_subject (tool_prefix msg) (publish_error net) ExecutorFailed cause "" s).2,
      (List.map op_of l ++ [Server.OpFail ExecutorFailed cause ""]). split_and!; [done| |].
    + rewrite <- Hrun, foldl_app, <- Ha. done.
    + destruct (He cause eq_refl) as [l' ->]. rewrite omap_app, wire_event_op. simpl.
      rewrite Server.until_terminator_snoc, terminated_wire, existsb_app. simpl. by rewrite orb_true_r.
  - exists s, (List.map op_of l ++ []). split_and!; [done|by rewrite <- Hrun, app_nil_r|].
    by rewrite app_nil_r, wire_event_op.
Qed.

(** A streaming request on a healthy connection is answered by one stream: the start
    event, what the agent emitted in order, and at most one terminator, which is the
    agent's own if it ended the stream and the executor's error if it failed without;
    the stream ends exactly when the agent ended it or failed. *)
Theorem streaming_reply msg sessionID id :
  accepted msg ->
  let K := streamSinkAdapter (stream_id msg) cancel_subject (tool_prefix msg) (publish_error net) in
  let s0 := open_session msg sessionID in
  let calls := emitted (request_event msg sessionID id) s0 in
  let evts := Server.start_event sessionID workflowID (nm_MessageId msg)
                :: Server.until_terminator (List.map wire_event calls) in
  exists s, handleStreaming msg sessionID id = Streaming s
    /\ Server.published s = Server.numbered (stream_id msg) cancel_subject (tool_prefix msg) evts
    /\ Server.closed s = Server.terminated evts
    /\ Server.closed s = existsb ends_stream calls.
Proof.
  intros Ha. cbv zeta. destruct (streaming_session msg sessionID id Ha) as (s & ops & H1 & H2 & H3).
  destruct Ha as (_ & _ & Hp).
  destruct (Server.session_facts (stream_id msg) cancel_subject (tool_prefix msg) (publish_error net) sessionID workflowID
              (nm_MessageId msg) ops Hp) as (F1 & _ & F3 & _).
  rewrite <- H2 in F1, F3. unfold Server.session_events in F1, F3. rewrite H3 in F1, F3.
  exists s. split_and!; try done. rewrite F3, <- terminated_wire.
  clear. destruct (Server.until_terminator _) as [|x l]; [reflexivity|]. by apply terminated_cons.
Qed.

Lemma str_or_ne s def : def <> "" -> Config.str_or s def <> "".
Proof. unfold Config.str_or. destruct (str_empty s) eqn:E; [done|by apply str_empty_false in E]. Qed.
Lemma str_or_keeps s def : s <> "" -> Config.str_or s def = s.
Proof. unfold Config.str_or. intros H. by rewrite (proj2 (str_empty_false s) H). Qed.

(** The message the trigger checked is the one the executor hands to the agent. *)
Lemma checked_message msg body sessionID id :
  dec_body (nm_Body msg) = Some body ->
  Exec.in_Message (Exec.agent_input mapping uploader now wf (request_event msg sessionID id)) = cb_Message body.
Proof.
  intros H. unfold Exec.agent_input, request_event. simpl. unfold dec_body in H.
  destruct (nm_Body msg) as [v|]; [|done]. destruct v; simpl in H; try done.
  { injection H as <-. reflexivity. }
  apply bind_Some in H as (message & Hm & H). apply bind_Some in H as (session & _ & H).
  apply bind_Some in H as (mode & _ & H). injection H as <-. simpl.
  unfold dec_str in Hm. destruct (m !! "message") as [[]|]; simpl; simplify_eq; reflexivity.
Qed.

(** Every refusal is the caller's fault or the service's. *)
Definition graded (e : service_error) : Prop := se_status e = 400 \/ se_status e = 500.

Lemma streaming_graded msg sessionID id e : handleStreaming msg sessionID id = Refused e -> graded e.
Proof.
  unfold handleStreaming. destruct (session_refused msg); [intros [= <-]; by right|].
  destruct (Server.Start _ _ _ _ _ _ _ _) as [[err|] s]; [intros [= <-]; by right|].
  by destruct (Emit (request_event msg sessionID id) s) as [[?|] ?].
Qed.
Lemma single_graded expired msg sessionID id e : handleSingle expired msg sessionID id = Refused e -> graded e.
Proof.
  assert (forall r, toReply expired r = Refused e -> graded e) as Hr.
  { intros [b|code m]; [done|]. cbn. destruct (_ || _); intros [= <-]; by right. }
  unfold handleSingle. destruct (Emit _ _) as [emitErr cs]. destruct (done cs) as [r|]; [apply Hr|].
  destruct emitErr; intros [= <-]; by right.
Qed.
Lemma handle_graded wired expired v ask t msg e v' : handle wired expired v ask t msg = (Refused e, v') -> graded e.
Proof.
  unfold handle. set (src := Config.Source cfg).
  destruct (_ && _); [intros [= <- _]; by left|]. destruct (_ && _); [intros [= <- _]; by left|].
  destruct (authorizeIDT v ask t msg _ _) as [[[user account]|e'] v1] eqn:Ea.
  - destruct (dec_body _) as [body|]; [|intros [= <- _]; by left].
    destruct (str_empty (cb_Message body)); [intros [= <- _]; by left|].
    destruct wired; cbn [negb]; [|intros [= <- _]; by right].
    destruct (Config.resolveResponseMode cfg _) as [mode|]; [|intros [= <- _]; by left].
    destruct (String.eqb mode _); intros [= H _]; [by eapply streaming_graded|by eapply single_graded].
  - intros [= <- _]. revert Ea. unfold authorizeIDT. destruct (negb (enabled v)); [done|].
    destruct (observeOnly v); [done|]. destruct (validateToken _ _ _ _ _) as [[|d] ?]; [done|]. intros [= <- _]. by left.
Qed.

(** A request that passes the checks, under the default header names. *)
Lemma handle_streams expired v ask t msg body user account v' :
  Config.dec_source None = Some (Config.Source cfg) ->
  dec_body (nm_Body msg) = Some body -> cb_Message body <> "" ->
  Config.resolveResponseMode cfg (cb_ResponseMode body) = Some Config.responseModeStreaming ->
  Get (nm_Header msg) "X-Account-Id" <> "" -> Get (nm_Header msg) "X-User-Id" <> "" ->
  authorizeIDT v ask t msg (Get (nm_Header msg) "X-User-Id") (Get (nm_Header msg) "X-Account-Id") = (Ok (user, account), v') ->
  handle true expired v ask t msg
  = (handleStreaming msg (Config.str_or (cb_SessionID body) (fresh_session net))
       (mkIdentity (Get (nm_Header msg) "_User_Id") user account (Get (nm_Header msg) "X-User-Name")
          (Get (nm_Header msg) "X-Time-Zone")), v').
Proof.
  intros Hd Hb Hm Hmode Hacc Huser Hauth.
  assert (Config.Source cfg = Config.mkIdentitySource "_User_Id" "X-User-Id" "X-Account-Id" "X-User-Name" "X-Time-Zone" true true) as E.
  { apply Some_inj. rewrite <- Hd. vm_compute. reflexivity. }
  unfold handle. rewrite E. cbn [Config.AccountHeader Config.UserHeader Config.RequireAccount
    Config.RequireUser Config.NatsUserHeader Config.UserNameHeader Config.TimeZoneHeader].
  rewrite (proj2 (str_empty_false _) Hacc), (proj2 (str_empty_false _) Huser), Hauth, Hb, (proj2 (str_empty_false _) Hm).
  cbn [andb negb]. by rewrite Hmode, String.eqb_refl.
Qed.

(** C4: Nothing reaches the workflow unchecked: a request that is not refused has the
    identity its headers must carry - the one the token check returned - a session, a
    non-empty message, which is the one the agent gets, and is answered in a mode the
    configuration allows. *)
Theorem handle_serves raw wired expired v ask t msg out v' :
  Config.Factory raw = Ok cfg -> fresh_session net <> "" ->
  handle wired expired v ask t msg = (out, v') ->
  (exists e, out = Refused e)
  \/ exists id sessionID mode,
       (if String.eqb mode Config.responseModeStreaming then handleStreaming msg sessionID id
        else handleSingle expired msg sessionID id) = out
       /\ wired = true
       /\ Config.known_mode mode = true
       /\ (Config.AllowResponseModeOverride cfg = false -> mode = Config.ResponseMode cfg)
       /\ sessionID <> ""
       /\ Exec.in_Message (Exec.agent_input mapping uploader now wf (request_event msg sessionID id)) <> ""
       /\ (Config.RequireUser (Config.Source cfg) = true -> id_UserID id <> "")
       /\ (Config.RequireAccount (Config.Source cfg) = true -> AccountID id <> "")
       /\ authorizeIDT v ask t msg (Get (nm_Header msg) (Config.UserHeader (Config.Source cfg)))
            (Get (nm_Header msg) (Config.AccountHeader (Config.Source cfg)))
          = (Ok (id_UserID id, AccountID id), v').
Proof.
  intros Hcfg Hfresh. unfold handle. set (src := Config.Source cfg).
  set (hdrAccount := Get _ (Config.AccountHeader src)). set (hdrUser := Get _ (Config.UserHeader src)).
  destruct (Config.RequireAccount src && str_empty hdrAccount) eqn:Era; [intros [= <- _]; eauto|].
  destruct (Config.RequireUser src && str_empty hdrUser) eqn:Eru; [intros [= <- _]; eauto|].
  destruct (authorizeIDT v ask t msg hdrUser hdrAccount) as [[[user account]|e] v1] eqn:Eauth; [|intros [= <- _]; eauto].
  destruct (dec_body (nm_Body msg)) as [body|] eqn:Eb; [|intros [= <- _]; eauto].
  destruct (str_empty (cb_Message body)) eqn:Em; [intros [= <- _]; eauto|].
  destruct wired; simpl; [|intros [= <- _]; eauto].
  destruct (Config.resolveResponseMode cfg (cb_ResponseMode body)) as [mode|] eqn:Emode; [|intros [= <- _]; eauto].
  intros [= <- <-]. right.
  assert (forall x y, x = false \/ str_empty y = false -> x = true -> y <> "") as Hreq.
  { intros x y [H|H] Hx; [congruence|by apply str_empty_false]. }
  assert ((hdrUser <> "" -> user <> "") /\ (hdrAccount <> "" -> account <> "")) as [Hu Ha].
  { revert Eauth. unfold authorizeIDT. destruct (negb (enabled v)); [by intros [= -> ->]|].
    destruct (observeOnly v); [by intros [= -> ->]|]. destruct (validateToken _ _ _ _ _) as [[vu va|d] v2]; [|done].
    intros [= <- <- _]. split; apply str_or_ne. }
  eexists (mkIdentity _ user account _ _), _, mode. split; [reflexivity|]. simpl.
  unfold Config.resolveResponseMode in Emode. split_and!; try done.
  - destruct (negb (Config.AllowResponseModeOverride cfg) || str_empty (cb_ResponseMode body)).
    + injection Emode as <-. by destruct (Config.Factory_ok raw cfg Hcfg).
    + destruct (negb (Config.known_mode (cb_ResponseMode body))) eqn:Ek; [done|]. injection Emode as <-.
      by apply negb_false_iff in Ek.
  - intros Ho. rewrite Ho in Emode. simpl in Emode. congruence.
  - by apply str_or_ne.
  - rewrite (checked_message msg body _ _ Eb). by apply str_empty_false.
  - intros Hr. apply Hu. apply andb_false_iff in Eru. by apply (Hreq _ _ Eru).
  - intros Hr. apply Ha. apply andb_false_iff in Era. by apply (Hreq _ _ Era).
Qed.
End trigger.

(** *** The whole check: who may use a guarded index *)
Section guarded.
Context {Time : Type}.
Variable cfg : Config.Config.
Variable workflowID : string.
Variable access : IndexAccess.
Variable sha256_hex : string -> string.
Variable process : string -> Identity -> Exec.AgentInput (Time := Time) -> sink_prog (option string).
Variable mapping : string -> option (res string string).
Variable uploader : option (string -> string -> string -> string -> res string string).
Variable wf : Loading.Workflow.

(** A request as it reaches the trigger: the bus and the clock it finds, what the
    identity service answers for it and when. *)
Record arrival := mkArrival {
  ar_net : bus;
  ar_now : Time;
  ar_clock : nat -> Z;
  ar_wired : bool;
  ar_expired : bool;
  ar_ask : string -> json -> reply;
  ar_at : instants;
  ar_msg : NatsMessage;
}.
Definition token (q : arrival) : string := Get (nm_Header (ar_msg q)) HeaderIDT.
Definition claimed_user (q : arrival) : string := Get (nm_Header (ar_msg q)) (Config.UserHeader (Config.Source cfg)).
Definition claimed_account (q : arrival) : string := Get (nm_Header (ar_msg q)) (Config.AccountHeader (Config.Source cfg)).
Definition as_call (fn : string) (q : arrival) : Idt.call := mkCall (ar_ask q) (ar_at q) (token q) fn.

Definition arrive (v : Validator) (q : arrival) : outcome * Validator :=
  handle cfg workflowID access sha256_hex process mapping uploader (ar_now q) wf (ar_clock q) (ar_net q)
    (ar_wired q) (ar_expired q) v (ar_ask q) (ar_at q) (ar_msg q).
(** The workflow run as [id] in session [sid], in the mode asked for. *)
Definition run_as (q : arrival) (sid : string) (id : Identity) (mode : string) : outcome :=
  if String.eqb mode Config.responseModeStreaming
  then handleStreaming workflowID process mapping uploader (ar_now q) wf (ar_clock q) (ar_net q) (ar_msg q) sid id
  else handleSingle process mapping uploader (ar_now q) wf (ar_clock q) (ar_expired q) (ar_msg q) sid id.

(** The trigger's requests, one after the other; the validator is what they share. *)
Fixpoint arrive_all (v : Validator) (l : list arrival) : list outcome * Validator :=
  match l with
  | [] => ([], v)
  | q :: l =>
      let '(o, v) := arrive v q in
      let '(os, v) := arrive_all v l in (o :: os, v)
  end.

Definition refused (o : outcome) : Prop := exists e, o = Refused e.
Definition checked (v : Validator) (q : arrival) : res service_error (string * string) * Validator :=
  authorizeIDT workflowID access sha256_hex v (ar_ask q) (ar_at q) (ar_msg q) (claimed_user q) (claimed_account q).

Lemma arrive_cases v q o v' : arrive v q = (o, v') ->
  (refused o /\ (v' = v \/ v' = (checked v q).2))
  \/ exists id sid mode, checked v q = (Ok (id_UserID id, AccountID id), v') /\ o = run_as q sid id mode.
Proof.
  unfold arrive, handle, checked, claimed_user, claimed_account. set (src := Config.Source cfg).
  destruct (_ && _); [intros [= <- <-]; left; split; [by eexists|by left]|].
  destruct (_ && _); [intros [= <- <-]; left; split; [by eexists|by left]|].
  destruct (authorizeIDT _ _ _ v _ _ _ _ _) as [[[user account]|e] v1]; [|intros [= <- <-]; left; split; [by eexists|by right]].
  destruct (dec_body _) as [body|]; [|intros [= <- <-]; left; split; [by eexists|by right]].
  destruct (str_empty (cb_Message body)); [intros [= <- <-]; left; split; [by eexists|by right]|].
  destruct (ar_wired q); cbn [negb]; [|intros [= <- <-]; left; split; [by eexists|by right]].
  destruct (Config.resolveResponseMode cfg _) as [mode|]; [|intros [= <- <-]; left; split; [by eexists|by right]].
  intros [= <- <-]. right. eexists (mkIdentity _ user account _ _), _, mode. split; [reflexivity|]. reflexivity.
Qed.

Lemma checked_bound v q :
  enabled v = true -> observeOnly v = false -> currentIDTTarget access = mkTarget true (FunctionID access) "" ->
  checked v q = let '(r, v1) := validate_call sha256_hex v (as_call (FunctionID access) q) in
                (match r with
                 | Deny d => Err (validationErr BadRequest ("IDT validation failed: " +:+ deny_text d) 403)
                 | Allow user account => Ok (Config.str_or user (claimed_user q), Config.str_or account (claimed_account q))
                 end, v1).
Proof.
  intros He Ho Ht. unfold checked, authorizeIDT, validateToken, ValidateForFunction, validate_call. rewrite He, Ho, Ht. simpl.
  fold (token q). by destruct (validate _ _ _ _ _ _) as [[] ?].
Qed.

Lemma unbound_refused v q :
  enabled v = true -> observeOnly v = false -> unboundCause (currentIDTTarget access) <> "" ->
  exists e, checked v q = (Err e, v).
Proof.
  intros He Ho Hc. unfold checked, authorizeIDT, validateToken. rewrite He, Ho. simpl.
  rewrite (proj2 (str_empty_false _) Hc). simpl. by eexists.
Qed.

(** With no usable function every request is refused. *)
Lemma arrive_all_unbound v l os v1 :
  enabled v = true -> observeOnly v = false -> unboundCause (currentIDTTarget access) <> "" ->
  arrive_all v l = (os, v1) -> Forall refused os.
Proof.
  intros He Ho Hc. revert os v1. induction l as [|q l IH]; intros os v1; [by intros [= <- _]|]. cbn [arrive_all].
  destruct (arrive v q) as [o v2] eqn:Ea. destruct (unbound_refused v q He Ho Hc) as [e Hk].
  assert (refused o /\ v2 = v) as [Hr ->].
  { destruct (arrive_cases _ _ _ _ Ea) as [[Hr Hv]|(id & sid & mode & H & _)]; rewrite Hk in *; [|done].
    split; [done|by destruct Hv]. }
  destruct (arrive_all v l) as [os2 v3] eqn:El. intros [= <- <-]. constructor; [done|by eapply IH].
Qed.

(** A validator that enforces the bound function: it keeps its configuration and
    remembers only what was asked. *)
Definition enforces (v : Validator) : Prop :=
  enabled v = true /\ observeOnly v = false /\ currentIDTTarget access = mkTarget true (FunctionID access) "".

Lemma enforces_config v v' : same_config v v' -> enforces v -> enforces v'.
Proof.
  destruct v, v'. unfold enforces, same_config, with_cache. simpl. intros H. injection H as -> -> -> -> -> -> -> ->. done.
Qed.

Lemma arrive_keeps v q o v' done :
  enforces v -> cache_ok sha256_hex v done -> arrive v q = (o, v') ->
  same_config v v' /\ cache_ok sha256_hex v' (done ++ [as_call (FunctionID access) q]).
Proof.
  intros (He & Ho & Ht) Hok E.
  assert (same_config v v /\ cache_ok sha256_hex v (done ++ [as_call (FunctionID access) q])) as Hv
    by (split; [done|]; eapply cache_ok_more; [done|done| |exact Hok]; set_solver).
  assert (same_config v (checked v q).2 /\ cache_ok sha256_hex (checked v q).2 (done ++ [as_call (FunctionID access) q])) as Hc.
  { rewrite checked_bound by done. destruct (validate_call _ _ _) as [r v2] eqn:Ev.
    destruct (validate_step _ _ _ _ _ _ Hok Ev) as (H1 & H2 & _). by split. }
  destruct (arrive_cases _ _ _ _ E) as [[_ [->| ->]]|(id & sid & mode & Hk & _)]; [done|done|].
  rewrite Hk in Hc. exact Hc.
Qed.

Lemma arrive_all_spec v l os v1 done :
  enforces v -> cache_ok sha256_hex v done -> arrive_all v l = (os, v1) ->
  forall i q o, l !! i = Some q -> os !! i = Some o ->
  exists vi, same_config v vi /\ cache_ok sha256_hex vi (done ++ List.map (as_call (FunctionID access)) (take i l))
    /\ (arrive vi q).1 = o.
Proof.
  revert v os v1 done. induction l as [|q l IH]; intros v os v1 done Hen Hok; [by intros _ i q' o; rewrite lookup_nil|].
  cbn [arrive_all]. destruct (arrive v q) as [o v2] eqn:Ea. destruct (arrive_all v2 l) as [os2 v3] eqn:El.
  destruct (arrive_keeps _ _ _ _ _ Hen Hok Ea) as [Hc Hok2].
  intros [= <- <-] [|i] q' o' Hl Ho; cbn in Hl, Ho; simplify_eq.
  - exists v. rewrite Ea, app_nil_r. by split_and!.
  - destruct (IH _ _ _ _ (enforces_config _ _ Hc Hen) Hok2 El i q' o' Hl Ho) as (vi & H1 & H2 & H3).
    exists vi. split_and!; [unfold same_config in *; congruence| |done]. cbn [take List.map]. by rewrite <- app_assoc in H2.
Qed.

(** A guarded node leaves the trigger two targets: its function, or none. *)
Lemma guarded_target nodes conns id pattern p :
  access = resolveIndexAccess nodes conns -> scoped nodes id pattern -> asks nodes conns id p -> p pattern <> Err "" ->
  unboundCause (currentIDTTarget access) <> ""
  \/ (currentIDTTarget access = mkTarget true (FunctionID access) ""
      /\ exists answer, p pattern = Ok answer /\ FunctionID access = trim_space answer /\ FunctionID access <> "").
Proof.
  intros Hacc Hsc Hask Hp. unfold currentIDTTarget. destruct (Status access) eqn:Es.
  - exfalso. rewrite Hacc in Es. destruct (proj1 (access_none nodes conns) Es id pattern Hsc) as [_ H]. by apply (H p).
  - destruct (str_empty (trim_space (FunctionID access))) eqn:Etr; [by left|right]. split; [done|].
    assert (FunctionID access <> "") as Hfn by (intros E; by rewrite E in Etr).
    destruct (access_admits nodes conns (FunctionID access) Hfn) as [Ha _]; [rewrite <- Hacc; by split|].
    destruct Hsc as (n & Hn & Hpat). destruct (Ha id ltac:(by exists n) pattern ltac:(by exists n)) as [_ Hg].
    destruct (Hg p Hask) as [?|(answer & Hans & Htrim)]; [done|]. exists answer. by split_and!.
  - left. cbn. destruct (str_empty (Cause access)) eqn:Ec; [done|]. by apply str_empty_false.
Qed.

(** C5: The whole check holds together, from the policy node to the bus.  Take a workflow
    with an index-scoped node whose policy peer is asked for its function and does not
    fail with an empty error text, and a validator that is enabled, neither observing
    only nor failing open.  A request the trigger does not refuse runs the workflow as the
    user and account the identity service named (the claimed one where it named none)
    when it granted exactly the function of that peer to exactly the token of the request
    - for this request, or for an earlier one less than the cache lifetime ago, the cache
    being empty at the start.  The digest has 64 digits and does not collide on the tokens
    presented. *)
Theorem guarded_requests nodes conns id pattern p v l os v1 i q o :
  access = resolveIndexAccess nodes conns -> scoped nodes id pattern -> asks nodes conns id p -> p pattern <> Err "" ->
  enabled v = true -> observeOnly v = false -> failOpen v = false -> cache v = ∅ ->
  (forall s, String.length (sha256_hex s) = 64%nat) ->
  (forall q q', q ∈ l -> q' ∈ l -> sha256_hex (token q) = sha256_hex (token q') -> token q = token q') ->
  arrive_all v l = (os, v1) -> l !! i = Some q -> os !! i = Some o -> (forall e, o <> Refused e) ->
  exists answer fn j qj vu va who sid mode, p pattern = Ok answer /\ fn = trim_space answer /\ fn <> ""
    /\ (j <= i)%nat /\ l !! j = Some qj /\ token qj = token q /\ token q <> ""
    /\ granted v (as_call fn qj) vu va
    /\ (j = i \/ at_lookup (ar_at q) < at_store (ar_at qj) + cacheTTL v)
    /\ o = run_as q sid who mode
    /\ id_UserID who = Config.str_or vu (claimed_user q) /\ AccountID who = Config.str_or va (claimed_account q).
Proof.
  intros Hacc Hsc Hask Hp He Ho Hf Hcache Hsha Hinj Hall Hl Hos Hserved.
  destruct (guarded_target nodes conns id pattern p Hacc Hsc Hask Hp) as [Hc|(Ht & answer & Hans & Hfn & Hne)].
  { pose proof (arrive_all_unbound v l os v1 He Ho Hc Hall) as Hr. rewrite Forall_forall in Hr.
    destruct (Hr o) as [e ->]; [by eapply list_elem_of_lookup_2|by destruct (Hserved e)]. }
  assert (enforces v) as Hen by done.
  assert (cache_ok sha256_hex v []) as Hok by (split; rewrite Hcache; [apply map_Forall_empty|rewrite map_size_empty; lia]).
  destruct (arrive_all_spec v l os v1 [] Hen Hok Hall i q o Hl Hos) as (vi & Hcfg & Hoki & Hq).
  destruct (enforces_config _ _ Hcfg Hen) as (Hei & Hoi & _).
  destruct (arrive vi q) as [o' v'] eqn:Ea. cbn in Hq. subst o'.
  destruct (arrive_cases _ _ _ _ Ea) as [[[e ->] _]|(who & sid & mode & Hk & ->)]; [by destruct (Hserved e)|].
  rewrite checked_bound in Hk by done.
  destruct (validate_call sha256_hex vi (as_call (FunctionID access) q)) as [[vu va|d] v2] eqn:Ev; [|done].
  injection Hk as Hu Ha _.
  destruct (validate_backed sha256_hex v vi (List.map (as_call (FunctionID access)) (take i l)) (as_call (FunctionID access) q) vu va)
    as [Htok Hcase]; try done.
  { intros c' (q' & -> & Hq')%list_elem_of_fmap Hh. symmetry. apply Hinj; [by eapply list_elem_of_lookup_2| |done].
    apply list_elem_of_lookup in Hq' as [j [Hj _]%lookup_take_Some]. by eapply list_elem_of_lookup_2. }
  { by rewrite Ev. }
  destruct Hcase as [Hg|(cj & Hcj & H1 & _ & H3 & _ & H5)].
  - exists answer, (FunctionID access), i, q, vu, va, who, sid, mode. split_and!; auto.
  - apply list_elem_of_fmap in Hcj as (qj & -> & Hj). apply list_elem_of_lookup in Hj as [j [Hj Hji]%lookup_take_Some].
    exists answer, (FunctionID access), j, qj, vu, va, who, sid, mode. split_and!; auto. lia.
Qed.
End guarded.
End Trigger.

(** ** A concrete trigger *)
Module ChatExamples.
Import Trigger Sinks IdtExamples.

Definition demo_raw : json := jobj [("responseMode", JStr "single"); ("allowResponseModeOverride", JBool true)].
Definition demo_cfg : Config.Config :=
  Config.mkConfig "" "single" (Config.mkIdentitySource "_User_Id" "X-User-Id" "X-Account-Id" "X-User-Name" "X-Time-Zone" true true)
    600 true.
Example Factory_ex : Config.Factory (Some demo_raw) = Ok demo_cfg.
Proof. vm_compute. reflexivity. Qed.

Definition demo_access : Access.IndexAccess :=
  Access.resolveIndexAccess (EngineExamples.access_nodes "sales-*") EngineExamples.access_conns.
Definition demo_net : bus := mkBus "svc" "session-1" "stream-1" "cancel-1" None (fun _ => None).
Definition demo_msg (tok : string) (fields : list (string * json)) : NatsMessage :=
  mkNatsMessage (list_to_map [("X-User-Id", ["u"]); ("X-Account-Id", ["acc"]); (HeaderIDT, [tok])])
    (Some (jobj (("message", JStr "hi") :: fields))) "req-1" "inbox".

(** A workflow whose agent answers with one delta and the text "done". *)
Definition demo_process (_ : string) (_ : Identity) (_ : Exec.AgentInput (Time := nat)) : sink_prog (option string) :=
  Call false (mkEvent StreamDelta (jobj [("text", JStr "do")])) (fun _ =>
    Call true (mkEvent Events.StreamComplete (jobj [("finalText", JStr "done"); ("messageStop", JStr "end_turn")]))
      (fun _ => Ret None)).
Definition demo_handle (v : Validator) (ask : string -> json -> reply) (t : Z) (msg : NatsMessage) : outcome * Validator :=
  handle demo_cfg "wf" demo_access demo_sha demo_process (fun _ => None) None 0%nat ExecutorExamples.demo_workflow
    (fun _ => 0) demo_net true false v ask (at_time t) msg.

Example handle_ex :
  (* one reply *)
  (demo_handle demo_validator (granting "u2" "") 0 (demo_msg "tok" [])).1
    = Answered (singleResponseBody "session-1" "done" "end_turn" [])
  (* one stream *)
  /\ match (demo_handle demo_validator (granting "u2" "") 0 (demo_msg "tok" [("responseMode", JStr "streaming")])).1 with
     | Streaming s => List.map (fun m => header m HdrStreamEvent) (Server.published s) = ["start"; "delta"; "complete"]
     | _ => False
     end
  (* no token, no answer *)
  /\ (demo_handle demo_validator (granting "u2" "") 0 (demo_msg "" [])).1
    = Refused (validationErr BadRequest "IDT validation failed: MISSING_IDT" 403)
  /\ (demo_handle demo_validator (granting "u2" "") 0 (demo_msg "tok" [("responseMode", JStr "x")])).1
    = Refused (validationErr BadRequest mode_message 400).
Proof. vm_compute. split_and!; reflexivity. Qed.

Lemma streaming_reply_witness : exists s,
  handleStreaming "wf" demo_process (fun _ => None) None 0%nat ExecutorExamples.demo_workflow (fun _ => 0) demo_net
    (demo_msg "tok" []) "s" (mkIdentity "" "u" "acc" "" "") = Streaming s /\ Server.closed s = true.
Proof.
  destruct (streaming_reply "wf" demo_process (fun _ => None) None 0%nat ExecutorExamples.demo_workflow (fun _ => 0) demo_net
              (demo_msg "tok" []) "s" (mkIdentity "" "u" "acc" "" "")) as (s & H1 & _ & _ & H2).
  - split_and!; [discriminate|reflexivity|reflexivity].
  - exists s. split; [exact H1|]. rewrite H2. vm_compute. reflexivity.
Defined.

Lemma handle_serves_witness : exists id sessionID, id_UserID id = "u2" /\ AccountID id = "acc" /\ sessionID <> "".
Proof.
  destruct (demo_handle demo_validator (granting "u2" "") 0 (demo_msg "tok" [])) as [out v'] eqn:E.
  pose proof (handle_serves demo_cfg "wf" demo_access demo_sha demo_process (fun _ => None) None 0%nat
    ExecutorExamples.demo_workflow (fun _ => 0) demo_net (Some demo_raw) true false demo_validator (granting "u2" "")
    (at_time 0) (demo_msg "tok" []) out v') as H.
  destruct H as [[e ->]|(id & sessionID & mode & _ & _ & _ & _ & Hs & _ & _ & _ & Ha)].
  - vm_compute. reflexivity.
  - discriminate.
  - exact E.
  - exfalso. assert ((demo_handle demo_validator (granting "u2" "") 0 (demo_msg "tok" [])).1 = Refused e) as H by (by rewrite E).
    vm_compute in H. discriminate H.
  - exists id, sessionID. assert (Ok (E := service_error) (id_UserID id, AccountID id) = Ok ("u2", "acc")) as H.
    { transitivity (authorizeIDT "wf" demo_access demo_sha demo_validator (granting "u2" "") (at_time 0) (demo_msg "tok" [])
        "u" "acc").1; [|vm_compute; reflexivity]. exact (eq_sym (f_equal fst Ha)). }
    injection H as -> ->. split_and!; [reflexivity|reflexivity|exact Hs].
Defined.

Definition demo_arrival (ask : string -> json -> reply) (t : Z) : arrival (Time := nat) :=
  mkArrival demo_net 0%nat (fun _ => 0) true false ask (at_time t) (demo_msg "tok" []).
Definition demo_arrivals : list (arrival (Time := nat)) :=
  [demo_arrival (granting "u2" "") 0; demo_arrival silent (59 * second); demo_arrival silent (60 * second)].
Definition demo_arrive_all : list outcome * Validator :=
  arrive_all demo_cfg "wf" demo_access demo_sha demo_process (fun _ => None) None ExecutorExamples.demo_workflow
    demo_validator demo_arrivals.
(** The second rides on the first one's grant; the third comes too late for it. *)
Example arrive_all_ex :
  demo_arrive_all.1 = [Answered (singleResponseBody "session-1" "done" "end_turn" []);
                       Answered (singleResponseBody "session-1" "done" "end_turn" []);
                       Refused (validationErr BadRequest "IDT validation failed: VALIDATE_ERROR:timeout" 403)].
Proof. vm_compute. reflexivity. Qed.

Lemma guarded_requests_witness : exists j qj va, (j <= 1)%nat /\ demo_arrivals !! j = Some qj
  /\ granted demo_validator (as_call "fn-sales" qj) "u2" va.
Proof.
  destruct demo_arrive_all as [os v1] eqn:E.
  destruct (guarded_requests demo_cfg "wf" demo_access demo_sha demo_process (fun _ => None) None ExecutorExamples.demo_workflow
              (EngineExamples.access_nodes "sales-*") EngineExamples.access_conns
              "q" "sales-*" EngineExamples.answer demo_validator demo_arrivals os v1 1
              (demo_arrival silent (59 * second)) (Answered (singleResponseBody "session-1" "done" "end_turn" [])))
    as (ans & fn & j & qj & vu & va & who & sid & mode & H1 & H2 & _ & H3 & H4 & _ & _ & H5 & _).
  - reflexivity.
  - exists (EngineExamples.search_node "sales-*"). split; reflexivity.
  - exists ("p", "out"), (EngineExamples.policy_node EngineExamples.answer). split_and!; reflexivity.
  - discriminate.
  - reflexivity.
  - reflexivity.
  - reflexivity.
  - reflexivity.
  - intros s. unfold demo_sha. by destruct (String.eqb s "tok").
  - assert (forall q, q ∈ demo_arrivals -> token q = "tok") as H.
    { apply Forall_forall. do 3 (constructor; [reflexivity|]). constructor. }
    intros q q' Hq Hq' _. by rewrite !H.
  - exact E.
  - reflexivity.
  - assert (os = demo_arrive_all.1) as -> by (by rewrite E). vm_compute. reflexivity.
  - discriminate.
  - assert (fn = "fn-sales") as -> by (rewrite H2; injection H1 as <-; reflexivity).
    destruct j as [|[|j]]; [| |exfalso; lia]; injection H4 as <-.
    + exists 0%nat, (demo_arrival (granting "u2" "") 0), va. split; [lia|]. split; [reflexivity|].
      destruct H5 as (raw & r & Ha & Hd & Hv & Hg & Hu & Hva). injection Ha as <-. injection Hd as <-.
      eexists _, _. split; [reflexivity|]. split; [reflexivity|]. split_and!; [reflexivity|reflexivity|reflexivity|exact Hva].
    + exfalso. destruct H5 as (raw & r & Ha & _). discriminate Ha.
Defined.
End ChatExamples.
