(* ===== verification/Turn.v ===== *)
(** * A turn of the agent on an event stream

    The agent's loop (Agent.v) and the stream session (Stream.v) put together: the agent
    knows its sink through an interface, and every sink that honours it ends up as if it
    had been given the turn's logged events one by one.  On a session this makes one
    well-formed stream. *)

From S2P Require Import Prelude Json Charts JsonText Retry Events Stream Agent Idt Chat.
From stdpp Require Import base tactics list strings gmap option fin_maps.
From Stdlib Require Import ZArith Lia Ascii String.
Local Open Scope string_scope.
Local Open Scope list_scope.
Local Open Scope Z_scope.
Import Sinks.

(** ** Events as the agent marshals them ([mustJSON])

    [raw]: what a payload that is already JSON text decodes to; text that is not JSON
    makes the whole payload fail to marshal, and the event carries no data ([null]). *)
Section encode.
Variable raw : string -> option json.

Definition must (fields : list (string * option json)) : json :=
  match mapM (fun f => v ← f.2; Some (f.1, v)) fields with Some l => jobj l | None => JNull end.
Definition encode (e : client_event) : Events.StreamEvent :=
  let str s := Some (JStr s) in
  match e with
  | CDelta t => mkEvent StreamDelta (must [("text", str t)])
  | CThought t => mkEvent StreamThought (must [("text", str t)])
  | CToolCall id name input => mkEvent StreamToolCall (must [("toolUseId", str id); ("name", str name); ("input", raw input)])
  | CToolResult id output isError =>
      mkEvent StreamToolResult (must [("toolUseId", str id); ("output", raw output); ("isError", Some (JBool isError))])
  | CAttachment id kind payload =>
      mkEvent StreamAttachment (must [("toolUseId", str id); ("kind", str kind); ("payload", raw payload)])
  | CComplete text stop => mkEvent Events.StreamComplete (must [("finalText", str text); ("messageStop", str stop)])
  | CError code message => mkEvent Events.StreamError (must [("code", str code); ("message", str message)])
  end.

(** Whether the event's payload is JSON text; if not, the event is sent without data. *)
Definition is_json (text : string) : bool := match raw text with Some _ => true | None => false end.
Definition carries (e : client_event) : bool :=
  match e with
  | CToolCall _ _ payload | CToolResult _ payload _ | CAttachment _ _ payload => is_json payload
  | _ => true
  end.
Lemma encode_data e : if carries e then ev_Data (encode e) <> JNull else ev_Data (encode e) = JNull.
Proof. unfold carries, is_json. destruct e; cbn; unfold must; cbn; try done; by destruct (raw _). Qed.

(** ** The interface between the agent and its sink *)
Section turn.
Context {W S : Type} {K : StreamSink S}.
Variable host : Host (W := W).
Variable a : agentNode (W := W).
Variable sink_of : W -> S.

(** The tool leaves the sink alone: it reaches it only through its attachments. *)
Fixpoint keeps_sink (s : S) (p : tool_prog (W := W)) : Prop :=
  match p with
  | TDone _ _ w => sink_of w = s
  | TAttach _ w k => sink_of w = s /\ forall err w', keeps_sink (sink_of w') (k err w')
  end.

(** What the loop relies on: its sends and closes are the sink's, and nothing else it
    calls touches the sink. *)
Class SinkHost := {
  send_law e w : sink_of (h_send host e w).2 = (sink_send (encode e) (sink_of w)).2;
  close_law e w : sink_of (h_close host e w).2 = (sink_close (encode e) (sink_of w)).2;
  load_law k w : sink_of (h_mem_load host k w).2 = sink_of w;
  append_law k t w : sink_of (h_mem_append host k t w).2 = sink_of w;
  stream_law q d n w : sink_of (h_stream host q d n w).2 = sink_of w;
  choose_law w : sink_of (h_choose host w).2 = sink_of w;
  await_law id t w : sink_of (h_await host id t w).2 = sink_of w;
  rng_law w : sink_of (h_rng host w).2 = sink_of w;
  wait_law d w : sink_of (h_wait host d w).2 = sink_of w;
  tool_law t args d n w : t ∈ tools a -> keeps_sink (sink_of w) (t_Invoke t args d n w);
}.
(** The calls a log stands for, and what they do to a sink. *)
Definition call_of (x : action) : option (bool * Events.StreamEvent) :=
  match x with
  | Sent e => Some (false, encode e)
  | Closed e => Some (true, encode e)
  | _ => None
  end.
Definition feed (s : S) (c : bool * Events.StreamEvent) : S := (sink_call c.1 c.2 s).2.
Definition fed (s : S) (l : list action) : S := foldl feed s (omap call_of l).

Lemma fed_app s l l' : fed s (l ++ l') = fed (fed s l) l'.
Proof. unfold fed. by rewrite omap_app, foldl_app. Qed.
Lemma fed_silent s l : Forall (fun x => call_of x = None) l -> fed s l = s.
Proof. unfold fed. induction 1 as [|x l Hx _ IH]; [done|]. simpl. by rewrite Hx. Qed.

Context {laws : SinkHost}.
#[local] Set Default Proof Using "All".

(** The sink of a state is the initial one fed with the log. *)
Variable s0 : S.
Definition synced (st : state (W := W)) : Prop := sink_of (world st) = fed s0 (log st).

Lemma synced_quiet {A} (f : W -> A * W) st :
  (forall w, sink_of (f w).2 = sink_of w) -> synced st -> synced (in_world f st).2.
Proof. unfold synced, in_world. intros Hf H. specialize (Hf (world st)). destruct (f (world st)). simpl in *. congruence. Qed.

Lemma synced_record x st : call_of x = None -> synced st -> synced (record x st).
Proof. unfold synced, record. simpl. intros Hx H. rewrite fed_app, H. by destruct x. Qed.

Lemma synced_send e st : synced st -> synced (in_world (h_send host e) (record (Sent e) st)).2.
Proof.
  unfold synced, in_world, record. simpl. intros H. pose proof (send_law e (world st)) as Hl.
  destruct (h_send host e (world st)) as [err w]. simpl in *. rewrite Hl, fed_app, H. done.
Qed.

Lemma synced_emit forced e st : synced st -> synced (emit host forced e st).
Proof. unfold emit. destruct forced; [done|]. apply synced_send. Qed.

Lemma synced_close e st : synced st -> synced (close_sink host e st).2.
Proof.
  unfold synced, close_sink, in_world, record. simpl. intros H. pose proof (close_law e (world st)) as Hl.
  destruct (h_close host e (world st)) as [err w]. simpl in *. rewrite Hl, fed_app, H. done.
Qed.

Lemma synced_fail code cause st : synced st -> synced (failStream host code cause st).2.
Proof.
  intros H. unfold failStream. pose proof (synced_close (CError code (Error cause)) st H) as Hc.
  by destruct (close_sink _ _ st).
Qed.

Lemma synced_flush forced p : synced p.2 -> synced (flushThought host a forced p).2.
Proof.
  destruct p as [r st]. unfold flushThought. simpl. intros H. destruct (_ || _); [done|]. by apply synced_emit.
Qed.

Lemma synced_read forced p ev : synced p.2 -> synced (read_event host a forced p ev).2.
Proof.
  intros H. destruct ev; simpl; try (by destruct p); try done.
  - pose proof (synced_flush forced p H) as Hf. destruct (flushThought host a forced p). by apply synced_emit.
  - pose proof (synced_flush forced p H) as Hf. destruct (flushThought host a forced p). by apply synced_emit.
  - revert p H. induction (split_after delta) as [|x l IH]; intros [r st] H; simpl; [done|]. apply IH.
    destruct (has_suffix newline x); [|done]. by apply (synced_flush forced (set_thought (thought r +:+ x) r, st)).
Qed.

Lemma synced_events forced evs st : synced st -> synced (read_events host a forced evs st).2.
Proof.
  intros H. unfold read_events. apply synced_flush.
  assert (synced (mkReading [] "" [] None "", st).2) as H' by done. revert H'.
  generalize (mkReading [] "" [] None "", st). induction evs as [|ev evs IH]; intros p Hp; simpl; [done|].
  apply IH. by apply synced_read.
Qed.

Lemma synced_llm req st : synced st -> synced (llm_events host a req st).2.
Proof.
  intros H. unfold llm_events. pose proof (synced_record (Asked req) st eq_refl H) as Hq.
  set (st1 := record (Asked req) st) in *.
  destruct (Do (llm_env host req) (llmPolicy a) (world st1, [])) as [[r [w evs]]|] eqn:E; [|done].
  assert (sink_of w = sink_of (world st1)) as Hw.
  { change w with (w, evs).1.
    apply (Do_preserves (llm_env host req) (fun s => sink_of s.1 = sink_of (world st1)) (llmPolicy a) (world st1, []) r (w, evs));
      [| | |done|done].
    - intros d n [w1 l1] H1. simpl in *. pose proof (stream_law req d n w1). destruct (h_stream host req d n w1) as [[? ?] ?].
      simpl in *. congruence.
    - intros [w1 l1] H1. simpl in *. pose proof (rng_law w1). destruct (h_rng host w1). simpl in *. congruence.
    - intros d [w1 l1] H1. simpl in *. pose proof (wait_law d w1). destruct (h_wait host d w1). simpl in *. congruence. }
  clearbody st1. clear E. unfold synced in *.
  destruct (Err_ r); [|simpl; congruence]. destruct (h_ctx_err host w); [|simpl; congruence].
  pose proof (choose_law w) as Hch. destruct (h_choose host w) as [b w']. simpl in *. congruence.
Qed.

Lemma synced_tool forced id p l :
  keeps_sink (fed s0 l) p -> synced (run_tool host forced id p l).2.
Proof.
  revert l. induction p as [out err w|att w k IH]; intros l; simpl; [done|]. intros [Hw Hk].
  destruct forced; [apply IH; rewrite <- Hw; apply Hk|].
  set (e := CAttachment id (ta_Kind att) (ta_Payload att)). pose proof (send_law e w) as Hl.
  destruct (h_send host e w) as [err w'] eqn:E. simpl in Hl. apply IH.
  rewrite fed_app, <- Hw. assert (fed (sink_of w) [Sent e] = sink_of w') as -> by (by rewrite Hl).
  apply Hk.
Qed.

Lemma synced_invoke forced t tc st : t ∈ tools a -> synced st -> synced (invoke host a forced t tc st).2.
Proof.
  intros Ht H. unfold invoke. destruct (t_ClientOnly t).
  - pose proof (synced_quiet (h_await host (tu_ID tc) (human_timeout a)) st (await_law _ _) H) as Hw.
    by destruct (in_world _ st) as [[?|?] ?].
  - destruct (Do (tool_env host forced t tc) (t_RetryPolicy t) st) as [[r st']|] eqn:E; [|done]. simpl.
    eapply (Do_preserves (tool_env host forced t tc) synced); [| | |exact H|exact E].
    + intros d n st1 H1. simpl. apply synced_tool. unfold synced in H1. rewrite <- H1. by apply tool_law.
    + intros st1 H1. apply synced_quiet; [apply rng_law|done].
    + intros d st1 H1. apply synced_quiet; [apply wait_law|done].
Qed.

Lemma synced_flow {A} (p : flow A * state) : synced p.2 -> match p with (Next _, st) | (Return _, st) => synced st end.
Proof. by destruct p as [[]]. Qed.

Lemma lookup_in name t : lookupTool a name = Some t -> t ∈ tools a.
Proof using.
  unfold lookupTool. intros H. destruct (find_first_split _ _ _ H) as (pre & post & -> & _). apply elem_of_app. right. apply list_elem_of_here.
Qed.

Lemma synced_call forced counts tc st : synced st -> synced (run_call host a forced counts tc st).2.
Proof.
  intros H. unfold run_call. destruct (lookupTool a (tu_Name tc)) as [t|] eqn:Et; [|done].
  destruct (_ <? _); [by apply synced_emit|].
  pose proof (synced_invoke forced t tc st (lookup_in _ _ Et) H) as Hi.
  destruct (invoke host a forced t tc st) as [[[[out err] n] cls] st1]. simpl in Hi.
  set (st2 := record _ st1). assert (synced st2) as H2 by (by apply synced_record).
  destruct err as [e|]; [|by apply synced_emit].
  destruct (t_FailurePolicy t); [by apply synced_emit|].
  pose proof (synced_fail ToolErrorCode e st2 H2). by destruct (failStream _ _ _ st2).
Qed.

Lemma synced_calls forced counts calls st : synced st -> synced (run_calls host a forced counts calls st).2.
Proof.
  revert counts st. induction calls as [|tc calls IH]; intros counts st H; simpl; [done|].
  pose proof (synced_call forced counts tc st H) as Hc.
  destruct (run_call host a forced counts tc st) as [[[counts1 b]|r] st1]; [|done]. simpl in Hc.
  specialize (IH counts1 st1 Hc). by destruct (run_calls host a forced counts1 calls st1) as [[[? ?]|?] ?].
Qed.

Lemma synced_complete i userMsg finalMsg stop st :
  synced st -> synced (completeStream host a i userMsg finalMsg stop st).2.
Proof.
  intros H. unfold completeStream. destruct (has_mem a); [|by apply synced_close].
  set (turn := mkTurn _ _ _).
  pose proof (synced_quiet (h_mem_append host (memory_key a i) turn) (record (Persisted (memory_key a i) turn) st)
                (append_law _ _) (synced_record (Persisted (memory_key a i) turn) st eq_refl H)) as Ha.
  destruct (in_world _ _) as [[err|] st1]; [by apply synced_fail|by apply synced_close].
Qed.

Lemma synced_finish i userMsg ls blocks stop st :
  synced st -> synced (finish_turn host a i userMsg ls blocks stop st).2.
Proof.
  intros H. unfold finish_turn. destruct (_ && _); [done|]. destruct (_ && _); [done|].
  destruct (appendMissingCharts _ _) as [w n]. set (m := if String.eqb _ _ then _ else _).
  pose proof (synced_complete i userMsg m stop st H). by destruct (completeStream _ _ _ _ m _ _).
Qed.

Lemma synced_iteration i userMsg sys ls st : synced st -> synced (iteration host a i userMsg sys ls st).2.
Proof.
  intros H. unfold iteration.
  destruct (h_ctx_err host (world st)) as [e|].
  { pose proof (synced_fail Cancelled e st H). by destruct (failStream _ _ _ _). }
  set (req := mkRequest _ _ _). pose proof (synced_llm req st H) as H1.
  destruct (llm_events host a req st) as [evs st1]. simpl in H1.
  pose proof (synced_events (forcedRecallActive ls) evs st1 H1) as H2.
  destruct (read_events host a _ evs st1) as [r st2]. simpl in H2.
  destruct (llmErr r) as [e|].
  { pose proof (synced_fail (llm_error_code e) e st2 H2). by destruct (failStream _ _ _ _). }
  destruct (_ || _); [by apply synced_finish|].
  pose proof (synced_calls (forcedRecallActive ls) (toolErrorCounts ls) (toolCalls r) st2 H2) as H3.
  destruct (run_calls host a _ _ _ st2) as [[[counts results]|x] st3]; [|done]. simpl in H3.
  destruct results; [|done].
  set (err := EPlain _). pose proof (synced_fail LLMErrorCode err st3 H3). by destruct (failStream _ _ _ _).
Qed.

Lemma synced_loop fuel i userMsg sys ls st : synced st -> synced (loop host a fuel i userMsg sys ls st).2.
Proof.
  revert ls st. induction fuel as [|fuel IH]; intros ls st H; simpl; [by apply synced_fail|].
  pose proof (synced_iteration i userMsg sys ls st H) as Hi.
  destruct (iteration host a i userMsg sys ls st) as [[ls1|r] st1]; [by apply IH|done].
Qed.

Lemma synced_Process i st : synced st -> synced (Process host a i st).2.
Proof.
  intros H. unfold Process. set (loaded := if has_mem a then _ else _).
  assert (synced loaded.2) as Hl.
  { unfold loaded. destruct (has_mem a); [|done]. by apply synced_quiet; [apply load_law|]. }
  destruct loaded as [[h|e] st1]; simpl in Hl; [|by apply synced_fail].
  destruct (h_render host (merged a)) as [sys|e]; [|by apply synced_fail]. by apply synced_loop.
Qed.
End turn.

(** ** The stream of a turn *)
Section stream.
Context {W : Type}.
Variable host : Host (W := W).
Variable a : agentNode (W := W).
Variable session : W -> Server.StreamSession.
Variables streamID cancelSubj toolPrefix sessionID requestID workflow_id : string.
Variable conn_error : Z -> option string.
Definition K : StreamSink Server.StreamSession := streamSinkAdapter streamID cancelSubj toolPrefix conn_error.
Context {laws : SinkHost (K := K) host a session}.
#[local] Set Default Proof Using "Type".

Definition started : Server.StreamSession :=
  (Server.Start streamID cancelSubj toolPrefix conn_error sessionID workflow_id requestID Server.NewStreamSession).2.

(** A turn on a started session, and the executor's report of its error. *)
Definition stream_turn (i : AgentInput) (w : W) : Server.StreamSession :=
  let '(r, st) := Process host a i (mkState w []) in
  match r with
  | Some cause => (sink_close (StreamSink := K) (Trigger.error_event (Error cause)) (session (world st))).2
  | None => session (world st)
  end.

Lemma feed_session s l :
  foldl (feed (K := K)) s l
  = foldl (fun s o => (Server.step streamID cancelSubj toolPrefix conn_error o s).2) s (List.map op_of l).
Proof.
  revert s. induction l as [|c l IH]; intros s; [done|]. cbn [foldl List.map]. rewrite IH. f_equal.
  destruct c as [close e]. unfold feed, sink_call.
  assert (forall b, (adapter_call streamID cancelSubj toolPrefix conn_error b e s).2
                    = (Server.step streamID cancelSubj toolPrefix conn_error (op_of (b, e)) s).2) as H.
  { intros b. unfold adapter_call. by destruct (Server.step _ _ _ _ _ s). }
  destruct close; apply H.
Qed.

Definition wire (e : client_event) : Stream.StreamEvent := Trigger.wire_event (false, encode e).
Definition sent_of (x : action) : option client_event := match x with Sent e => Some e | _ => None end.

Lemma wire_intermediate e : intermediate e -> is_terminator (se_Type (wire e)) = false.
Proof. by destruct e. Qed.
Lemma encode_header e : ev_Header (encode e) = ∅.
Proof. by destruct e. Qed.
Lemma wire_event_carriable c : ev_Header c.2 = ∅ -> Client.carriable (Trigger.wire_event c).
Proof.
  destruct c as [close e]. simpl. intros He. split.
  - destruct close; [by destruct (bool_decide _)|by destruct (ev_Type e)].
  - intros k _. destruct close; [destruct (bool_decide _); apply lookup_empty|]. simpl. rewrite He. apply lookup_empty.
Qed.

Lemma calls_open l : Forall is_open l ->
  omap call_of l = List.map (fun e => (false, encode e)) (omap sent_of l) /\ Forall intermediate (omap sent_of l).
Proof.
  induction 1 as [|x l Hx _ [IH1 IH2]]; [done|]. destruct x as [q|e|n id b|k t|e]; try done.
  change (omap sent_of (Sent e :: l)) with (e :: omap sent_of l).
  change (omap call_of (Sent e :: l)) with ((false, encode e) :: omap call_of l).
  split; [by rewrite IH1|by constructor].
Qed.

Lemma persisted_silent i tail e : persisted_before a i tail e -> omap call_of tail = [] /\ omap sent_of tail = [].
Proof. destruct tail as [|[] [|? ?]]; done. Qed.

Lemma until_last l e : Forall (fun x => is_terminator (se_Type x) = false) l -> is_terminator (se_Type e) = true ->
  forall rest, Server.until_terminator (l ++ e :: rest) = l ++ [e].
Proof.
  intros Hl He rest. induction Hl as [|x l Hx _ IH]; simpl; [by rewrite He|]. by rewrite Hx, IH.
Qed.

(** What the agent sent in the turn, before its end. *)
Definition sent_by (i : AgentInput) (w : W) : list client_event := omap sent_of (log (Process host a i (mkState w [])).2).

(** The turn as a run of the session: its events, then one closing event. *)
Lemma turn_session i w :
  session w = started ->
  let l := sent_by i w in
  exists e ops,
    Forall intermediate l
    /\ (match e with CComplete _ _ => True | CError _ msg => exists cause, (Process host a i (mkState w [])).1 = Some cause /\ msg = Error cause | _ => False end)
    /\ stream_turn i w = Server.run_session streamID cancelSubj toolPrefix conn_error sessionID workflow_id requestID ops
    /\ Server.session_events sessionID workflow_id requestID ops
       = Server.start_event sessionID workflow_id requestID :: List.map wire l ++ [Trigger.wire_event (true, encode e)]
    /\ Forall Client.carriable (omap Server.op_event ops).
Proof using All.
  intros Hw l. unfold sent_by in l. pose proof (synced_Process (K := K) host a session started i (mkState w []) Hw) as Hs.
  pose proof (Process_done host a i (mkState w [])) as Hd. unfold stream_turn.
  destruct (Process host a i (mkState w [])) as [r st]. simpl in Hs.
  destruct Hd as (l0 & Hl & [(l1 & tail & e & -> & Ho & Hp & He) _ _] & _). simpl in Hl. unfold synced, fed in Hs.
  destruct (calls_open l1 Ho) as [Hcalls Hi]. destruct (persisted_silent i tail e Hp) as [Hp1 Hp2].
  cbn [snd] in l. assert (l = omap sent_of l1) as El by (unfold l; rewrite Hl, !omap_app, Hp2; simpl; by rewrite app_nil_r).
  clearbody l. subst l.
  rewrite Hl, omap_app, omap_app, Hcalls, Hp1 in Hs. simpl in Hs.
  set (calls := List.map (fun e => (false, encode e)) (omap sent_of l1) ++ [(true, encode e)]) in *.
  set (extra := match r with Some cause => [(true, Trigger.error_event (Error cause))] | None => [] end).
  exists e.
  assert (match r with
          | Some cause => (sink_close (StreamSink := K) (Trigger.error_event (Error cause)) (session (world st))).2
          | None => session (world st)
          end = foldl (feed (K := K)) started (calls ++ extra)) as ->.
  { unfold extra. destruct r as [cause|]; [|by rewrite app_nil_r]. by rewrite foldl_app, <- Hs. }
  rewrite feed_session. unfold started.
  fold (Server.run_session streamID cancelSubj toolPrefix conn_error sessionID workflow_id requestID
          (List.map op_of (calls ++ extra))).
  set (ops := List.map op_of (calls ++ extra)). exists ops.
  assert (omap Server.op_event ops = List.map wire (omap sent_of l1) ++ Trigger.wire_event (true, encode e)
            :: List.map Trigger.wire_event extra) as Hops.
  { unfold ops. rewrite Trigger.wire_event_op. unfold calls. rewrite !List.map_app, <- app_assoc. simpl.
    by rewrite List.map_map. }
  assert (Server.session_events sessionID workflow_id requestID ops
          = Server.start_event sessionID workflow_id requestID
              :: List.map wire (omap sent_of l1) ++ [Trigger.wire_event (true, encode e)]) as Hev.
  { unfold Server.session_events. f_equal. rewrite Hops. apply until_last.
    - apply Forall_fmap. eapply Forall_impl; [exact Hi|]. apply wire_intermediate.
    - rewrite Trigger.wire_event_ends. done. }
  assert (Forall Client.carriable (omap Server.op_event ops)) as Hcar.
  { rewrite Hops. apply Forall_app. split; [|constructor].
    - apply Forall_fmap, Forall_true. intros x. apply wire_event_carriable, encode_header.
    - apply wire_event_carriable, encode_header.
    - apply Forall_fmap. unfold extra. destruct r; repeat constructor; by apply wire_event_carriable. }
  by split_and!.
Qed.

(** C2: On a healthy connection a turn of the agent is one well-formed stream: the start
    event, the turn's events in order, and exactly one terminator, at the end - the
    agent's own, whatever the executor reports after it; and what a client receives of
    it, over any network, is a prefix of it in order, all of it if nothing is lost. *)
Theorem turn_streams i w :
  (forall n, conn_error n = None) -> session w = started ->
  let l := sent_by i w in
  exists e,
    let evts := Server.start_event sessionID workflow_id requestID
                  :: List.map wire l ++ [Trigger.wire_event (true, encode e)] in
    Forall intermediate l
    /\ (match e with CComplete _ _ => True | CError _ msg => exists cause, (Process host a i (mkState w [])).1 = Some cause /\ msg = Error cause | _ => False end)
    /\ Server.published (stream_turn i w) = Server.numbered streamID cancelSubj toolPrefix evts
    /\ Server.closed (stream_turn i w) = true
    /\ (Z.of_nat (List.length evts) < 2 ^ 63 ->
         forall net, Forall (fun m => m ∈ Server.published (stream_turn i w)) net ->
           exists k, Client.delivered (Client.receive net)
                     = imap (Client.as_received streamID cancelSubj toolPrefix) (take k evts)).
Proof using All.
  intros Hc Hw l. destruct (turn_session i w Hw) as (e & ops & Hi & He & Hrun & Hev & Hcar). fold l in Hi, Hev. exists e.
  destruct (Server.session_facts streamID cancelSubj toolPrefix conn_error sessionID workflow_id requestID ops Hc)
    as (F1 & _ & F3 & _).
  pose proof (Client.client_gets streamID cancelSubj toolPrefix conn_error sessionID workflow_id requestID ops Hc Hcar) as G.
  cbv zeta in G |- *. rewrite <- Hev, Hrun. split_and!; [done|exact He|exact F1| |].
  - rewrite F3, Hev. rewrite app_comm_cons. unfold Server.terminated. rewrite last_snoc. rewrite Trigger.wire_event_ends. by destruct e.
  - intros Hlen net Hnet. destruct (G Hlen) as [Hg _]. destruct (Hg net Hnet) as (k & Hk & _). by exists k.
Qed.
End stream.
End encode.

(** ** Every host has a sink: the world paired with it *)
Section lift.
Variable raw : string -> option json.
Context {W S : Type} {K : StreamSink S}.

Definition at_left {A} (f : W -> A * W) (ws : W * S) : A * (W * S) := let '(x, w) := f ws.1 in (x, (w, ws.2)).
Definition at_sink (close : bool) (e : client_event) (ws : W * S) : option error * (W * S) :=
  let '(err, s) := sink_call close (encode raw e) ws.2 in (EPlain <$> err, (ws.1, s)).

Definition lift_host (h : Host (W := W)) : Host (W := W * S) := {|
  h_ctx_err ws := h_ctx_err h ws.1;
  h_mem_load k := at_left (h_mem_load h k);
  h_mem_append k t := at_left (h_mem_append h k t);
  h_render := h_render h;
  h_stream q d n := at_left (h_stream h q d n);
  h_choose := at_left (h_choose h);
  h_send := at_sink false;
  h_close := at_sink true;
  h_await id t := at_left (h_await h id t);
  h_now ws := h_now h ws.1;
  h_rng := at_left (h_rng h);
  h_wait d := at_left (h_wait h d);
|}.

Fixpoint lift_prog (s : S) (p : tool_prog (W := W)) : tool_prog (W := W * S) :=
  match p with
  | TDone out err w => TDone out err (w, s)
  | TAttach att w k => TAttach att (w, s) (fun err ws => lift_prog ws.2 (k err ws.1))
  end.
Definition lift_tool (t : Tool (W := W)) : Tool (W := W * S) :=
  mkTool (t_Spec t) (t_ClientOnly t) (t_FailurePolicy t) (t_RetryPolicy t)
    (fun args d n ws => lift_prog ws.2 (t_Invoke t args d n ws.1)).
Definition lift_agent (a : agentNode (W := W)) : agentNode (W := W * S) :=
  mkAgent (MaxIterations a) (SurfaceThoughts a) (HumanResponseTimeoutSeconds a) (maxEmptyAnswerRetries a)
    (maxToolRetries a) (llmPolicy a) (has_mem a) (List.map lift_tool (tools a)) (merged a) (workflowID a).

Lemma lift_prog_keeps s p : keeps_sink snd s (lift_prog s p).
Proof. revert s. induction p as [|att w k IH]; intros s; simpl; [done|]. split; [done|]. intros err w'. apply IH. Qed.

Lemma at_left_sink {A} (f : W -> A * W) ws : snd (at_left f ws).2 = snd ws.
Proof. unfold at_left. by destruct (f ws.1). Qed.

#[export] Instance lift_laws h a : SinkHost raw (lift_host h) (lift_agent a) snd.
Proof.
  constructor; intros; simpl; try apply at_left_sink.
  - unfold at_sink. simpl. by destruct (sink_send _ _).
  - unfold at_sink. simpl. by destruct (sink_close _ _).
  - simpl in H. apply list_elem_of_In, in_map_iff in H as (t0 & <- & _). apply lift_prog_keeps.
Qed.
End lift.

Module TurnExamples.
Import AgentExamples.

Definition demo_raw : string -> option json := Text.parse.
Definition demo_conn (_ : Z) : option string := None.
Definition demo_start : Server.StreamSession := started "m1" "c" "p" "s" "m1" "wf" demo_conn.
Definition demo_turn (script : list (list LLMEvent * stream_end)) : Server.StreamSession :=
  stream_turn
    (lift_host (K := K "m1" "c" "p" demo_conn) demo_raw demo_host) (lift_agent demo_agent) snd "m1" "c" "p" demo_conn
    demo_input (mkWorld script false, demo_start).

Definition demo_script : list (list LLMEvent * stream_end) :=
  [reply [call "1" "bad"; LLMMessageStop "tool_use"]; reply [LLMTextDelta "sorry"; LLMMessageStop "end_turn"]].
Example turn_ex :
  List.map (fun m => header m HdrStreamEvent) (Server.published (demo_turn demo_script))
    = ["start"; "tool_call"; "tool_result"; "delta"; "complete"]
  /\ List.map (fun m => header m HdrStreamEvent) (Server.published (demo_turn [])) = ["start"; "error"].
Proof. vm_compute. split; reflexivity. Qed.

Lemma turn_streams_witness : Server.closed (demo_turn demo_script) = true.
Proof.
  destruct (turn_streams demo_raw (lift_host (K := K "m1" "c" "p" demo_conn) demo_raw demo_host) (lift_agent demo_agent)
              snd "m1" "c" "p" "s" "m1" "wf" demo_conn demo_input (mkWorld demo_script false, demo_start))
    as (e & _ & _ & _ & H & _); [reflexivity|reflexivity|exact H].
Defined.
End TurnExamples.
