(* ===== verification/Payloads.v ===== *)
(** * The payloads of a turn are JSON

    What the agent sends as data without looking into it - the arguments of a tool call,
    the output of a tool, the payload of an attachment - is JSON text if the parties it
    comes from write JSON text ([JsonSources]); what the agent writes itself (error and
    retry-cap payloads, the stand-in for a blank output) always is (JsonText.v).  So
    under [JsonSources] every event of a turn carries its data, which is what the bridge
    needs to show it (Journey.v). *)

From S2P Require Import Prelude Json Charts JsonText Retry Events Stream Agent Chat Turn.
From stdpp Require Import base tactics list strings gmap option fin_maps.
From Stdlib Require Import ZArith Lia Ascii String.
Local Open Scope string_scope.
Local Open Scope list_scope.
Local Open Scope Z_scope.

Module Payloads.
Local Notation is_json := (is_json Text.parse).
Local Notation carries := (carries Text.parse).

Lemma printed_json html v : is_json (marshal_with html v) = true.
Proof. unfold Turn.is_json. by rewrite Text.parse_printed. Qed.

Section turn.
Context {W : Type}.
Variable host : Host (W := W).
Variable a : agentNode (W := W).

(** A tool run whose attachments and successful output are JSON; a blank output is
    replaced by the agent. *)
Fixpoint prog_json (p : tool_prog (W := W)) : Prop :=
  match p with
  | TDone out err _ => err = None -> isBlankToolPayload out = true \/ is_json out = true
  | TAttach att _ k => is_json (ta_Payload att) = true /\ forall err w, prog_json (k err w)
  end.
Definition event_json (ev : LLMEvent) : Prop :=
  match ev with LLMToolUseStop t => is_json (tu_InputJSON t) = true | _ => True end.

(** The model, the browser and the tools write JSON. *)
Class JsonSources := {
  model_json q d n w : Forall event_json (h_stream host q d n w).1.1;
  browser_json id t w raw : (h_await host id t w).1 = Ok raw -> is_json (bytes raw) = true;
  tool_json t args d n w : t ∈ tools a -> prog_json (t_Invoke t args d n w);
}.
Context {sources : JsonSources}.

Definition carried (x : action) : Prop := match x with Sent e => carries e = true | _ => True end.
Local Notation extends := (extends (W := W) carried).

Lemma emit_carried forced e st : carries e = true -> extends st (emit host forced e st).
Proof using. exact (emit_extends host carried forced e st). Qed.

Lemma flush_carried forced p : extends p.2 (flushThought host a forced p).2.
Proof using.
  destruct p as [r st]. unfold flushThought. destruct (_ || _); [apply extends_refl|]. by apply emit_carried.
Qed.

Lemma read_carried forced p ev : event_json ev -> extends p.2 (read_event host a forced p ev).2.
Proof using.
  intros Hev. destruct ev; simpl; try (destruct p; apply extends_refl); try apply extends_refl.
  - pose proof (flush_carried forced p) as H. destruct (flushThought host a forced p) as [r st].
    eapply extends_trans; [exact H|]. by apply emit_carried.
  - pose proof (flush_carried forced p) as H. destruct (flushThought host a forced p) as [r st].
    eapply extends_trans; [exact H|]. by apply emit_carried.
  - revert p. induction (split_after delta) as [|x l IH]; intros [r st]; simpl; [apply extends_refl|].
    eapply extends_trans; [|apply IH]. destruct (has_suffix newline x); [|apply extends_refl].
    apply (flush_carried forced (set_thought (thought r +:+ x) r, st)).
Qed.

Definition calls_json (r : reading) : Prop := Forall (fun t => is_json (tu_InputJSON t) = true) (toolCalls r).

Lemma read_events_carried forced evs st : Forall event_json evs -> extends st (read_events host a forced evs st).2.
Proof using.
  intros Hev. unfold read_events. eapply extends_trans; [|apply flush_carried].
  change st with (mkReading [] "" [] None "", st).2 at 1. generalize (mkReading [] "" [] None "", st).
  induction Hev as [|ev evs H _ IH]; intros p; [apply extends_refl|]. simpl.
  eapply extends_trans; [by apply read_carried|apply IH].
Qed.

(** The events passed on by the retried model call. *)
Lemma llm_events_json req st : Forall event_json (llm_events host a req st).1.
Proof using sources.
  unfold llm_events. set (st1 := record _ st).
  destruct (Do (llm_env host req) (llmPolicy a) (world st1, [])) as [[r [w evs]]|] eqn:E; [|constructor].
  assert (Forall event_json evs) as Hevs.
  { change evs with (w, evs).2. eapply (Do_preserves (llm_env host req) (fun s => Forall event_json s.2)); [| | | |exact E].
    - intros d n [w1 l1] H1. simpl in *. pose proof (model_json req d n w1) as Hm.
      destruct (h_stream host req d n w1) as [[evs1 fin] w2]. simpl in *. apply Forall_app. split; [done|].
      apply Forall_forall. intros x Hx. apply list_elem_of_In in Hx. unfold passed_on in Hx. apply filter_In in Hx as [Hx _].
      rewrite Forall_forall in Hm. apply Hm. by apply list_elem_of_In.
    - intros [w1 l1] H1. simpl in *. by destruct (h_rng host w1).
    - intros d [w1 l1] H1. simpl in *. by destruct (h_wait host d w1).
    - constructor. }
  assert (Forall event_json (evs ++ [LLMError (Err_ r)])) as He by (apply Forall_app; by repeat constructor).
  destruct (Err_ r); [|done]. destruct (h_ctx_err host w); [|done]. by destruct (h_choose host w) as [[] ?].
Qed.

(** *** Tool calls *)
Lemma run_tool_carried forced id p l : prog_json p ->
  (exists l', log (run_tool host forced id p l).2 = l ++ l' /\ Forall carried l')
  /\ ((run_tool host forced id p l).1.2 = None ->
      isBlankToolPayload (run_tool host forced id p l).1.1 = true \/ is_json (run_tool host forced id p l).1.1 = true).
Proof using.
  revert l. induction p as [out err w|att w k IH]; intros l Hp; cbn [run_tool prog_json] in *.
  { split; [exists []; by rewrite app_nil_r|done]. }
  destruct Hp as [Ha Hk]. destruct forced; [by apply IH|]. destruct (h_send host _ w) as [err w'].
  destruct (IH err w' (l ++ [Sent (CAttachment id (ta_Kind att) (ta_Payload att))]) (Hk err w')) as [(l' & H1 & H2) H3].
  split; [|done]. eexists. split; [rewrite H1; by rewrite <- app_assoc|]. by constructor.
Qed.

Lemma invoke_carried forced t tc st out err n cls st' :
  t ∈ tools a -> invoke host a forced t tc st = ((out, err, n, cls), st') ->
  extends st st' /\ (err = None -> isBlankToolPayload out = true \/ is_json out = true).
Proof using sources.
  intros Ht. unfold invoke. destruct (t_ClientOnly t).
  - pose proof (in_world_log (h_await host (tu_ID tc) (human_timeout a)) st) as H.
    pose proof (browser_json (tu_ID tc) (human_timeout a) (world st)) as Hb. unfold in_world in *.
    destruct (h_await host _ _ (world st)) as [[raw|e] w]; intros [= <- <- _ _ <-]; (split; [exists []; by rewrite app_nil_r|]); [|done].
    intros _. right. by apply Hb.
  - destruct (Do (tool_env host forced t tc) (t_RetryPolicy t) st) as [[r st1]|] eqn:E; intros [= <- <- _ _ <-].
    2: { split; [apply extends_refl|by left]. }
    split.
    + eapply (Do_preserves (tool_env host forced t tc) (extends st)); [| | |apply extends_refl|exact E].
      * intros d k st2 H2. eapply extends_trans; [exact H2|]. simpl.
        exact (proj1 (run_tool_carried forced (tu_ID tc) _ (log st2) (tool_json t _ d k (world st2) Ht))).
      * intros st2 (l & H1 & H2). exists l. simpl. by rewrite in_world_log.
      * intros d st2 (l & H1 & H2). exists l. simpl. by rewrite in_world_log.
    + eapply (Do_outcome (tool_env host forced t tc) (fun out => isBlankToolPayload out = true \/ is_json out = true)); [|exact E].
      intros d k st2. simpl. pose proof (proj2 (run_tool_carried forced (tu_ID tc) _ (log st2) (tool_json t (tu_InputJSON tc) d k (world st2) Ht))) as H.
      destruct (run_tool _ _ _ _ _) as [[v e] s]. exact H.
Qed.

Lemma run_call_carried forced counts tc st : flow_ok carried st (run_call host a forced counts tc st).
Proof using sources.
  unfold run_call. destruct (lookupTool a (tu_Name tc)) as [t|] eqn:Et; [|apply extends_refl]. apply lookup_in in Et.
  destruct (_ <? _); [apply emit_carried, printed_json|].
  destruct (invoke host a forced t tc st) as [[[[out err] n] cls] st1] eqn:Ei.
  destruct (invoke_carried forced t tc st _ _ _ _ _ Et Ei) as [H1 H2].
  assert (forall b, extends st (record (Invoked (tu_Name tc) (tu_ID tc) b) st1)) as H3 by (intros b; by apply record_extends).
  destruct err as [e|].
  - destruct (t_FailurePolicy t).
    + eapply extends_trans; [apply H3|]. apply emit_carried. unfold error_payload.
      destruct (as_policy_denied _); apply printed_json.
    + pose proof (failStream_closes host carried ToolErrorCode e st _ (H3 true)) as H. by destruct (failStream _ _ _ _).
  - eapply extends_trans; [apply H3|]. apply emit_carried. destruct (isBlankToolPayload out) eqn:Eb; [apply printed_json|].
    destruct H2 as [H2|H2]; [done|congruence|done].
Qed.

Lemma run_calls_carried forced counts calls st : flow_ok carried st (run_calls host a forced counts calls st).
Proof using sources.
  revert counts st. induction calls as [|tc calls IH]; intros counts st; simpl; [apply extends_refl|].
  pose proof (run_call_carried forced counts tc st) as H.
  destruct (run_call host a forced counts tc st) as [[[counts1 b]|r] st1]; simpl in H; [|done].
  specialize (IH counts1 st1). destruct (run_calls host a forced counts1 calls st1) as [[[counts2 bs]|r] st2]; simpl in *.
  - by eapply extends_trans.
  - by eapply extends_closes.
Qed.

Lemma fail_carried {A} code cause st st' : extends st st' ->
  flow_ok (A := A) carried st (let '(r, st) := failStream host code cause st' in (Return r, st)).
Proof using.
  intros H. pose proof (failStream_closes host carried code cause st st' H) as Hc. by destruct (failStream _ _ _ _).
Qed.

Lemma iteration_carried i userMsg sys ls st : flow_ok carried st (iteration host a i userMsg sys ls st).
Proof using sources.
  unfold iteration. destruct (h_ctx_err host (world st)) as [e|]; [apply fail_carried, extends_refl|].
  set (req := mkRequest _ _ _). pose proof (llm_events_log host a req st) as Hl. pose proof (llm_events_json req st) as Hj.
  destruct (llm_events host a req st) as [evs st1]. cbn [fst snd] in Hl, Hj.
  pose proof (read_events_carried (forcedRecallActive ls) evs st1 Hj) as Hr.
  destruct (read_events host a _ evs st1) as [r st2]. cbn [snd] in Hr.
  assert (extends st st2) as H2.
  { eapply extends_trans; [|exact Hr]. exists [Asked req]. by split; [|repeat constructor]. }
  destruct (llmErr r) as [e|]; [by apply fail_carried|]. destruct (_ || _).
  - pose proof (finish_turn_flow host a i userMsg ls (assistantBlocks r) (stopReason r) st2) as H.
    destruct (finish_turn _ _ _ _ _ _ _ _) as [[x|x] st3]; cbn [flow_ok] in *.
    + eapply extends_trans; [exact H2|]. eapply extends_weaken; [|exact H]. by intros [].
    + eapply extends_closes; [exact H2|]. eapply closes_weaken; [|exact H]. by intros [].
  - pose proof (run_calls_carried (forcedRecallActive ls) (toolErrorCounts ls) (toolCalls r) st2) as H.
    destruct (run_calls host a _ _ _ st2) as [[[counts results]|x] st3]; cbn [flow_ok] in H |- *; [|by eapply extends_closes].
    assert (extends st st3) as H3 by (by eapply extends_trans). destruct results; [by apply fail_carried|exact H3].
Qed.

(** The log of a whole turn. *)
Definition all_carried (st : state (W := W)) : Prop := Forall carried (log st).
Lemma carried_log {A} (p : flow A * state (W := W)) st : all_carried st -> flow_ok carried st p -> all_carried p.2.
Proof using.
  unfold all_carried. intros H. destruct p as [[x|r] st']; cbn [flow_ok snd].
  - intros (l & -> & Hl). by apply Forall_app.
  - intros (l & e & -> & Hl & _). rewrite !Forall_app. by repeat constructor.
Qed.
Lemma failed_log code cause st : all_carried st -> all_carried (failStream host code cause st).2.
Proof using.
  unfold all_carried. rewrite (proj2 (failStream_spec host code cause st)), Forall_app. intros H. by repeat constructor.
Qed.

Lemma loop_carried fuel i userMsg sys ls st : all_carried st -> all_carried (loop host a fuel i userMsg sys ls st).2.
Proof using sources.
  revert ls st. induction fuel as [|fuel IH]; intros ls st H; cbn [loop]; [by apply failed_log|].
  pose proof (carried_log _ st H (iteration_carried i userMsg sys ls st)) as Hi.
  destruct (iteration host a i userMsg sys ls st) as [[ls'|r] st']; [by apply IH|done].
Qed.

(** Everything a turn sends carries its data. *)
Theorem turn_carries i w : Forall (fun e => carries e = true) (sent_by host a i w).
Proof using sources.
  assert (all_carried (Process host a i (mkState w [])).2) as H.
  { unfold Process. set (loaded := if has_mem a then _ else _).
    assert (all_carried loaded.2) as Hl.
    { unfold loaded, all_carried. destruct (has_mem a); [rewrite in_world_log|]; constructor. }
    destruct loaded as [[h|e] st1]; cbn [snd] in Hl; [|by apply failed_log].
    destruct (h_render host (merged a)) as [sys|e]; [|by apply failed_log]. by apply loop_carried. }
  unfold sent_by. apply Forall_forall. intros e (x & Hx & He)%list_elem_of_omap. unfold all_carried in H. rewrite Forall_forall in H.
  specialize (H x Hx). destruct x; try done. by injection He as ->.
Qed.
End turn.

(** The sink changes nothing. *)
Section lift.
Context {W S : Type} {K : StreamSink S}.

Lemma lift_prog_json s (p : tool_prog (W := W)) : prog_json p -> prog_json (lift_prog (S := S) s p).
Proof.
  revert s. induction p as [out err w|att w k IH]; intros s H; cbn in *; [done|]. destruct H as [H1 H2]. split; [done|].
  intros err ws. by apply IH.
Qed.

#[export] Instance lift_sources (h : Host (W := W)) (a : agentNode (W := W)) `{!JsonSources h a} :
  JsonSources (lift_host (K := K) Text.parse h) (lift_agent (S := S) a).
Proof.
  constructor; cbn.
  - intros q d n ws. pose proof (model_json h a q d n ws.1) as H. unfold at_left. by destruct (h_stream h q d n ws.1) as [[? ?] ?].
  - intros id t ws raw. pose proof (browser_json h a id t ws.1 raw) as H. unfold at_left. by destruct (h_await h id t ws.1).
  - intros t args d n ws Ht. apply list_elem_of_In, in_map_iff in Ht as (t0 & <- & Ht). apply lift_prog_json.
    apply (tool_json h a). by apply list_elem_of_In.
Qed.
End lift.
End Payloads.

Module PayloadExamples.
Import AgentExamples Payloads.

(** A model that calls a failing tool and then answers. *)
Definition json_host : Host (W := world) :=
  mkHost (fun _ => None) (h_mem_load demo_host) (h_mem_append demo_host) (h_render demo_host)
    (fun _ _ _ w => match script w with
                    | _ :: rest => (reply [call "1" "bad"; LLMMessageStop "tool_use"], mkWorld rest (cut w))
                    | [] => (reply [LLMTextDelta "sorry"; LLMMessageStop "end_turn"], w)
                    end)
    (h_choose demo_host) (h_send demo_host) (h_close demo_host) (h_await demo_host) (h_now demo_host) (h_rng demo_host) (h_wait demo_host).
Definition json_agent : agentNode (W := world) :=
  mkAgent 4 true 0 3 1 None true [demo_tool "bad" (inr (EPlain "boom")) FailureSurfaceToLLM] "sys" "wf".

#[export] Instance json_sources : JsonSources json_host json_agent.
Proof.
  constructor.
  - intros q d n w. cbn. destruct (script w) as [|x l]; cbn; repeat constructor.
  - done.
  - intros t args d n w Ht. apply list_elem_of_singleton in Ht as ->. cbn. discriminate.
Qed.
End PayloadExamples.
