(* ===== verification/Bridge.v ===== *)
(** * The browser's bridge (webbridge)

    The half that stands between a browser's WebSocket and the chat workflow on the bus:
    the one-time tokens, the frames the browser sends, the gate a conversation passes
    once, the bridge's own stream subscription, the large-request protocol, and the pump
    that moves one turn's events. *)

From S2P Require Import Prelude Json Events Stream.
From stdpp Require Import base tactics list strings gmap option fin_maps.
From Stdlib Require Import ZArith Lia Ascii String.
Local Open Scope string_scope.
Local Open Scope list_scope.
Local Open Scope Z_scope.
Local Open Scope go_scope.

(** ** natsstream.go: the bridge's own subscription *)
Module Inbox.

Record streamEvent := mkEvt {
  Type_ : string;
  Sequence : Z;
  StreamID : string;
  Data : json;
}.

(** A refusal of the bus service carries a status and no event; it becomes an error
    event.  The test is on the status alone. *)
Definition parseStreamMessage (m : Msg) : res parse_error streamEvent :=
  let status := header m HdrStatus in
  if negb (str_empty status) && negb (String.eqb status "200")
  then Ok (mkEvt StreamError 0 (header m HdrStreamId) (m_Data m))
  else
    let evtName := header m HdrStreamEvent in
    if str_empty evtName then Err PE_missing_event
    else match Atoi (header m HdrStreamSequence) with
    | None => Err (PE_bad_sequence (header m HdrStreamSequence))
    | Some seq => Ok (mkEvt evtName seq (header m HdrStreamId) (m_Data m))
    end.

Record streamSubscription := mkSubscription {
  nextSeq : Z;
  events : list streamEvent;       (* what the reader of [Events()] gets *)
  closed : bool;
  cancelSubj : option string;
  toolResultPrefix : option string;
}.
Definition new_subscription : streamSubscription := mkSubscription 0 [] false None None.

(** The inbox handler; a closed subscription is unsubscribed. *)
Definition on_message (c : streamSubscription) (m : Msg) : streamSubscription :=
  if closed c then c
  else match parseStreamMessage m with
  | Err _ => c
  | Ok evt =>
      if negb (Sequence evt =? nextSeq c) then c
      else
        let first := Sequence evt =? 0 in
        mkSubscription (nextSeq c + 1) (events c ++ [evt]) (is_terminator (Type_ evt))
          (if first then Some (header m HdrStreamCancelSubject) else cancelSubj c)
          (if first then Some (header m HdrStreamToolResultPrefix) else toolResultPrefix c)
  end.
Definition receive (net : list Msg) : streamSubscription := foldl on_message new_subscription net.

(** [Cancel] and [PublishToolResult]: the subject published to, if it is known. *)
Definition non_empty (s : option string) : option string :=
  match s with Some x => if str_empty x then None else Some x | None => None end.
Definition Cancel (c : streamSubscription) : option string := non_empty (cancelSubj c).
Definition ToolResultPrefix (c : streamSubscription) : string := default "" (toolResultPrefix c).
Definition PublishToolResult (c : streamSubscription) (toolCallID : string) : option string :=
  let prefix := ToolResultPrefix c in
  if str_empty prefix then None else Some (prefix +:+ "." +:+ toolCallID).

Section session.
Variables sid cancel prefix : string.
Local Notation message := (Server.message sid cancel prefix).
Local Notation numbered := (Server.numbered sid cancel prefix).

Definition is_error (e : StreamEvent) : bool := String.eqb (se_Type e) StreamError.
Definition as_received (n : nat) (e : StreamEvent) : streamEvent := mkEvt (se_Type e) (Z.of_nat n) sid (se_Data e).

Lemma inbox_parse e n :
  Client.carriable e -> int64_range n ->
  parseStreamMessage (message e n)
  = Ok (if is_error e then mkEvt StreamError 0 sid (se_Data e) else mkEvt (se_Type e) n sid (se_Data e)).
Proof.
  intros He Hn. unfold parseStreamMessage, is_error.
  assert (forall k, k ∈ protocol_headers ->
    header (message e n) k = default "" (Server.protocol_part sid cancel prefix (se_Type e) n !! k)) as Hh.
  { intros k Hk. by apply Client.header_message. }
  rewrite !Hh by (unfold protocol_headers; set_solver).
  assert (Server.protocol_part sid cancel prefix (se_Type e) n !! HdrStatus
          = Some (if String.eqb (se_Type e) StreamError then "500" else "200")) as ->
    by (unfold Server.protocol_part; by rewrite lookup_insert_eq).
  assert (forall k v, k <> HdrStatus -> k <> HdrStreamToolResultPrefix -> k <> HdrStreamCancelSubject ->
    (<[HdrMessageId := sid]> (<[HdrStreamId := sid]>
       (<[HdrStreamSequence := print_Z n]> (<[HdrStreamEvent := se_Type e]> (∅ : gmap string string)))) !! k = Some v) ->
    Server.protocol_part sid cancel prefix (se_Type e) n !! k = Some v) as Hp.
  { intros k v H1 H2 H3 H. unfold Server.protocol_part. rewrite lookup_insert_ne by done.
    destruct (n =? 0); [|done]. rewrite lookup_insert_ne by done. by rewrite lookup_insert_ne by done. }
  rewrite (Hp HdrStreamId sid), (Hp HdrStreamEvent (se_Type e)), (Hp HdrStreamSequence (print_Z n)); try done.
  simpl. destruct (String.eqb (se_Type e) StreamError); simpl; [done|].
  rewrite (proj2 (str_empty_false _) (proj1 He)). by rewrite Atoi_print.
Qed.

(** Events before the end, all delivered. *)
Lemma receive_running l :
  Forall Client.carriable l -> Forall (fun e => is_terminator (se_Type e) = false) l ->
  Z.of_nat (List.length l) < 2 ^ 63 ->
  exists cs tp, receive (numbered l) = mkSubscription (Z.of_nat (List.length l)) (imap as_received l) false cs tp.
Proof.
  induction l as [|e l IH] using rev_ind; intros Hc Ht Hl; [by do 2 eexists|].
  rewrite length_app in Hl. simpl in Hl. apply Forall_app in Hc as [Hc1 Hc2], Ht as [Ht1 Ht2].
  rewrite Forall_singleton in Hc2. rewrite Forall_singleton in Ht2.
  destruct (IH Hc1 Ht1 ltac:(lia)) as (cs & tp & Hr). unfold receive in *.
  rewrite Server.numbered_snoc, foldl_snoc, Hr. unfold on_message. simpl.
  rewrite (inbox_parse e (Z.of_nat (List.length l)) Hc2) by (unfold int64_range; lia).
  unfold is_terminator in Ht2. apply orb_false_iff in Ht2 as [Hcomp Herr]. unfold is_error. rewrite Herr. simpl.
  rewrite Z.eqb_refl. simpl. unfold is_terminator. rewrite Hcomp, Herr, imap_app, length_app. simpl.
  rewrite Nat.add_0_r. do 2 eexists. f_equal. lia.
Qed.

(** What the bridge shows of a session, with nothing lost: every event in order, and
    the stream closes with the complete event; but an error terminator never gets
    through once the session has started - it carries status 500, is taken for a
    refusal numbered 0, and is dropped as out of order, leaving the bridge waiting. *)
Theorem bridge_receives sessionID workflowID requestID ops :
  Forall Client.carriable (omap Server.op_event ops) ->
  let evts := Server.session_events sessionID workflowID requestID ops in
  Z.of_nat (List.length evts) < 2 ^ 63 ->
  let got := receive (numbered evts) in
  events got = imap as_received (List.filter (fun e => negb (is_error e)) evts)
  /\ closed got = match last evts with Some e => String.eqb (se_Type e) StreamComplete | None => false end.
Proof.
  intros Hops evts Hlen. pose proof (Client.carriable_events sessionID workflowID requestID ops Hops) as Hcar.
  assert (exists l tail, evts = l ++ tail /\ Forall (fun e => is_terminator (se_Type e) = false) l
    /\ (tail = [] \/ exists e, tail = [e] /\ is_terminator (se_Type e) = true) /\ l <> []) as (l & tail & Hev & Hl & Htail & Hne).
  { unfold evts, Server.session_events. generalize (omap Server.op_event ops). intros es.
    assert (exists l tail, Server.until_terminator es = l ++ tail /\ Forall (fun e => is_terminator (se_Type e) = false) l
      /\ (tail = [] \/ exists e, tail = [e] /\ is_terminator (se_Type e) = true)) as (l & tail & -> & H1 & H2).
    { induction es as [|e es IH]; simpl; [exists [], []; auto|].
      destruct (is_terminator (se_Type e)) eqn:Ee; [exists [], [e]; split_and!; eauto|].
      destruct IH as (l & tail & -> & H1 & H2). exists (e :: l), tail. split_and!; auto. }
    eexists (_ :: l), tail. split_and!; [reflexivity|by constructor|done|done]. }
  fold evts in Hcar. clearbody evts. subst evts. apply Forall_app in Hcar as [Hc1 Hc2]. rewrite length_app in Hlen.
  assert (List.filter (fun e => negb (is_error e)) l = l) as Hf.
  { clear -Hl. induction Hl as [|e l He _ IH]; simpl; [done|]. unfold is_terminator in He.
    apply orb_false_iff in He as [_ He]. change (is_error e = false) in He. by rewrite He, IH. }
  destruct (receive_running l Hc1 Hl ltac:(lia)) as (cs & tp & Hr). cbv zeta.
  destruct Htail as [->|(e & -> & He)].
  { rewrite app_nil_r, Hr, Hf. simpl. split; [done|].
    destruct (last l) as [x|] eqn:Ex; [|done]. apply last_Some in Ex as [l' ->].
    apply Forall_app in Hl as [_ Hl]. rewrite Forall_singleton in Hl. unfold is_terminator in Hl.
    by apply orb_false_iff in Hl as [-> _]. }
  rewrite Forall_singleton in Hc2. simpl in Hlen.
  unfold receive in *. rewrite Server.numbered_snoc, foldl_snoc, Hr, List.filter_app, Hf, last_snoc. unfold on_message. cbn [closed].
  rewrite (inbox_parse e (Z.of_nat (List.length l)) Hc2) by (unfold int64_range; lia).
  destruct (is_error e) eqn:Eerr; cbn [Sequence nextSeq List.filter]; rewrite Eerr.
  - assert (0 =? Z.of_nat (List.length l) = false) as ->.
    { apply Z.eqb_neq. destruct l; simpl; [done|lia]. }
    simpl. rewrite app_nil_r. split; [done|]. unfold is_error in Eerr. apply String.eqb_eq in Eerr. by rewrite Eerr.
  - rewrite Z.eqb_refl. simpl. unfold is_error in Eerr. unfold is_terminator in *. rewrite Eerr in He |- *.
    rewrite orb_false_r in He. rewrite He. simpl. split; [|done]. rewrite imap_app. simpl. by rewrite Nat.add_0_r.
Qed.
End session.
End Inbox.

(** ** natsstream.go, nats_stream.go: what a streaming request holds on the bus

    Its inbox, the subject its chunks are served on when the body is large, and the
    timer: from the request to the end, the timeout or [Close], whichever is first. *)
Module Lifetime.

Record held := mkHeld {
  inbox : bool;               (* the inbox is subscribed *)
  chunks : bool;              (* the chunk subject is subscribed *)
  closeOnce : bool;           (* [closeInternal] has run *)
  err : option string;
}.
Definition nothing : held := mkHeld false false false None.
Definition closeInternal (h : held) : held := if closeOnce h then h else mkHeld false false true (err h).
Definition setErr (e : string) (h : held) : held := mkHeld (inbox h) (chunks h) (closeOnce h) (Some e).

Definition streamRequestTimeout : Z := 5 * 60 * 10 ^ 9.
Definition timeout_text : string := "aichatviewer: timed out after 5m0s".

(** [chunked]: the body goes out in chunks; the bus's answers to the two subscriptions
    and to the publish. *)
Definition doNatsStreamingRequest (chunked : bool) (sub_err chunk_err pub_err : option string) : res string held * held :=
  match sub_err with
  | Some e => (Err ("aichatviewer: subscribe inbox: " +:+ e), nothing)
  | None =>
      let h := mkHeld true false false None in
      match (if chunked then chunk_err else None) with
      | Some e => (Err ("aichatviewer: subscribe chunk subject: " +:+ e), closeInternal h)
      | None =>
          let h := mkHeld true chunked false None in
          match pub_err with
          | Some e => (Err ("aichatviewer: publish request: " +:+ e), closeInternal h)
          | None => (Ok h, h)
          end
      end
  end.
(** [realDoStreamingRequest]: [conn_err] is [getNatsConn]'s. *)
Definition realDoStreamingRequest (conn_err : option string) (chunked : bool) (sub_err chunk_err pub_err : option string)
    : res string held * held :=
  match conn_err with
  | Some e => (Err e, nothing)
  | None => doNatsStreamingRequest chunked sub_err chunk_err pub_err
  end.

(** What ends it: the terminator's delivery, the timer, the bridge's [Close]. *)
Inductive ending := Terminator | TimedOut | Closed.
Definition end_with (h : held) (e : ending) : held :=
  match e with
  | Terminator | Closed => closeInternal h
  | TimedOut => closeInternal (setErr timeout_text h)
  end.
(** [Close]'s own result, after it has closed. *)
Definition Close (h : held) : option string * held := let h := closeInternal h in (err h, h).

Definition is_timeout (e : ending) : bool := match e with TimedOut => true | _ => false end.

Lemma ends_closed h es : closeOnce h = true -> inbox h = false -> chunks h = false ->
  let h' := foldl end_with h es in
  inbox h' = false /\ chunks h' = false /\ closeOnce h' = true
  /\ err h' = if existsb is_timeout es then Some timeout_text else err h.
Proof.
  revert h. induction es as [|e es IH]; intros h Hc Hi Hk; [by split_and!|]. cbn [foldl existsb].
  assert (closeOnce (end_with h e) = true /\ inbox (end_with h e) = false /\ chunks (end_with h e) = false
          /\ err (end_with h e) = if is_timeout e then Some timeout_text else err h) as (H1 & H2 & H3 & H4)
    by (destruct e; unfold end_with, closeInternal; cbn; rewrite Hc; by split_and!).
  destruct (IH _ H1 H2 H3) as (G1 & G2 & G3 & G4). split_and!; try done. rewrite G4, H4.
  by destruct (is_timeout e), (existsb is_timeout es).
Qed.

(** A request that fails to open holds nothing; one that opened holds its inbox, and the
    chunk subject when it needs one, until something ends it, and nothing after that,
    however often it is ended; [Close] reports the timeout exactly if it struck. *)
Theorem request_releases conn_err chunked sub_err chunk_err pub_err es :
  let '(r, h) := realDoStreamingRequest conn_err chunked sub_err chunk_err pub_err in
  match r with
  | Err _ => inbox h = false /\ chunks h = false
  | Ok h' =>
      h' = h /\ inbox h = true /\ chunks h = chunked
      /\ let '(e, h1) := Close (foldl end_with h es) in
         inbox h1 = false /\ chunks h1 = false
         /\ e = (if existsb is_timeout es then Some timeout_text else None)
         /\ (es <> [] -> foldl end_with h es = h1)
  end.
Proof.
  unfold realDoStreamingRequest. destruct conn_err; [by split|]. unfold doNatsStreamingRequest.
  destruct sub_err; [by split|]. destruct (if chunked then chunk_err else None); [by split|]. destruct pub_err; [by split|].
  split_and!; try done. destruct es as [|e es]; [done|]. cbn [foldl existsb].
  set (h1 := end_with _ e). assert (closeOnce h1 = true /\ inbox h1 = false /\ chunks h1 = false
    /\ err h1 = if is_timeout e then Some timeout_text else None) as (H1 & H2 & H3 & H4) by (by destruct e).
  destruct (ends_closed h1 es H1 H2 H3) as (G1 & G2 & G3 & G4). unfold Close, closeInternal. rewrite G3. split_and!; try done.
  rewrite G4, H4. by destruct (is_timeout e), (existsb is_timeout es).
Qed.
End Lifetime.

(** ** bridge.go: one-time stream tokens *)
Module Tokens.

Record tokenEntry := mkToken {
  accountId : string;
  userId : string;
  userName : string;
  timeZone : string;
  sessionID : string;
}.
Definition tokenTTL : Z := 60 * 10 ^ 9.

(** The store: an entry and when it expires. *)
Abbreviation store := (gmap string (tokenEntry * Z)).

Definition fresh_at (now : Z) (kv : string * (tokenEntry * Z)) : Prop := now <= kv.2.2.
#[export] Instance fresh_at_dec now kv : Decision (fresh_at now kv).
Proof. unfold fresh_at. apply _. Defined.

(** [issueToken] past authentication: [token] is the new id, [now] and [sweep] the
    clock's two readings. *)
Definition issueToken (token : string) (e : tokenEntry) (now sweep : Z) (m : store) : store :=
  filter (fresh_at sweep) (<[token := (e, now + tokenTTL)]> m).

Definition consumeToken (token : string) (now : Z) (m : store) : option tokenEntry * store :=
  if str_empty token then (None, m)
  else match m !! token with
  | None => (None, m)
  | Some (e, expires) =>
      if expires <? now then (None, delete token m) else (Some e, delete token m)
  end.

(** *** Sequences of requests *)
Inductive op :=
| Issue (token : string) (e : tokenEntry) (now sweep : Z)
| Consume (token : string) (now : Z).

Definition step (st : list (option tokenEntry) * store) (o : op) : list (option tokenEntry) * store :=
  let '(rs, m) := st in
  match o with
  | Issue token e now sweep => (rs ++ [None], issueToken token e now sweep m)
  | Consume token now => let '(r, m) := consumeToken token now m in (rs ++ [r], m)
  end.
Definition run (ops : list op) : list (option tokenEntry) * store := foldl step ([], ∅) ops.

Definition issues (token : string) (o : op) : Prop := match o with Issue t _ _ _ => t = token | _ => False end.

(** What the store and the answers of a run say about its requests. *)
Record token_inv (ops : list op) (rs : list (option tokenEntry)) (m : store) : Prop := {
  ti_length : List.length rs = List.length ops;
  ti_store : forall token e x, m !! token = Some (e, x) ->
    (exists j now sweep, ops !! j = Some (Issue token e now sweep) /\ x = now + tokenTTL)
    /\ forall k now r, ops !! k = Some (Consume token now) -> rs !! k = Some (Some r) -> False;
  ti_used : forall k token now e, ops !! k = Some (Consume token now) -> rs !! k = Some (Some e) ->
    (exists j now0 sweep, (j < k)%nat /\ ops !! j = Some (Issue token e now0 sweep) /\ now <= now0 + tokenTTL)
    /\ (forall k' now' e', ops !! k' = Some (Consume token now') -> rs !! k' = Some (Some e') -> k' = k);
}.

Definition issued_once (ops : list op) : Prop :=
  forall token j j' o o', ops !! j = Some o -> ops !! j' = Some o' -> issues token o -> issues token o' -> j = j'.

Lemma issued_once_prefix l l' : issued_once (l ++ l') -> issued_once l.
Proof. intros H token j j' o o' H1 H2. apply (H token j j' o o'); by apply lookup_app_l_Some. Qed.

Lemma snoc_lookup {A} (l : list A) x k y :
  (l ++ [x]) !! k = Some y -> l !! k = Some y \/ (k = List.length l /\ x = y).
Proof.
  intros H. apply lookup_app_Some in H as [H|[Hk H]]; [by left|right].
  destruct (k - List.length l)%nat as [|n] eqn:E; simpl in H; [|done]. injection H as ->. split; [lia|done].
Qed.

Lemma answered_snoc ops o rs (x : option tokenEntry) k now r token :
  List.length rs = List.length ops ->
  (ops ++ [o]) !! k = Some (Consume token now) -> (rs ++ [x]) !! k = Some (Some r) ->
  (ops !! k = Some (Consume token now) /\ rs !! k = Some (Some r))
  \/ (k = List.length ops /\ o = Consume token now /\ x = Some r).
Proof.
  intros Hlen Ho Hr. apply snoc_lookup in Ho as [Ho|[-> ->]].
  - left. split; [done|]. apply snoc_lookup in Hr as [Hr|[Hk _]]; [done|].
    apply lookup_lt_Some in Ho. lia.
  - right. apply snoc_lookup in Hr as [Hr|[_ ->]]; [|done]. apply lookup_lt_Some in Hr. lia.
Qed.

Lemma inv_issue ops rs m token e now sweep :
  issued_once (ops ++ [Issue token e now sweep]) -> token_inv ops rs m ->
  token_inv (ops ++ [Issue token e now sweep]) (rs ++ [None]) (issueToken token e now sweep m).
Proof.
  intros Honce [Hlen Hst Hus].
  assert (forall k now', ops !! k = Some (Consume token now') -> forall r, rs !! k = Some (Some r) -> False) as Hno.
  { intros k now' Hk r Hr. destruct (proj1 (Hus k token now' r Hk Hr)) as (j & now0 & sweep0 & Hj & Hi & _).
    assert (j = List.length ops) as ->.
    { apply (Honce token j (List.length ops) (Issue token r now0 sweep0) (Issue token e now sweep)); simpl; auto.
      - by apply lookup_app_l_Some.
      - by rewrite list_lookup_middle. }
    apply lookup_lt_Some in Hi. lia. }
  split.
  - rewrite !length_app. simpl. lia.
  - intros t e' x Ht. unfold issueToken in Ht. apply map_lookup_filter_Some in Ht as [Ht _].
    apply lookup_insert_Some in Ht as [[-> [= -> <-]]|[Hne Ht]].
    + split; [exists (List.length ops), now, sweep; by rewrite list_lookup_middle|].
      intros k now' r Ho Hr. destruct (answered_snoc _ _ _ _ _ _ _ _ Hlen Ho Hr) as [[H1 H2]|(_ & H & _)]; [by eapply Hno|done].
    + destruct (Hst t e' x Ht) as [(j & now' & sweep' & Hj & ->) Hc].
      split; [exists j, now', sweep'; split; [by apply lookup_app_l_Some|done]|].
      intros k now'' r Ho Hr. destruct (answered_snoc _ _ _ _ _ _ _ _ Hlen Ho Hr) as [[H1 H2]|(_ & H & _)]; [by eapply Hc|done].
  - intros k t now' r Ho Hr. destruct (answered_snoc _ _ _ _ _ _ _ _ Hlen Ho Hr) as [[H1 H2]|(_ & H & _)]; [|done].
    destruct (Hus k t now' r H1 H2) as [(j & now0 & sweep0 & Hj & Hi & Hle) Hun]. split.
    + exists j, now0, sweep0. split_and!; [done|by apply lookup_app_l_Some|done].
    + intros k' now'' e' Ho' Hr'.
      destruct (answered_snoc _ _ _ _ _ _ _ _ Hlen Ho' Hr') as [[H3 H4]|(_ & H & _)]; [by eapply Hun|done].
Qed.

(** Presenting a token removes it from the store, whatever the answer. *)
Lemma consume_spec token now m r m' :
  consumeToken token now m = (r, m') ->
  m' ⊆ m /\ (m' !! token = None \/ r = None)
  /\ forall e, r = Some e -> exists x, m !! token = Some (e, x) /\ now <= x.
Proof.
  unfold consumeToken. destruct (str_empty token); [intros [= <- <-]; split_and!; auto; done|].
  destruct (m !! token) as [[e x]|] eqn:Em; [|intros [= <- <-]; split_and!; auto; done].
  destruct (Z.ltb_spec x now); intros [= <- <-]; (split; [apply delete_subseteq|]);
    (split; [left; apply lookup_delete_eq|]); intros e' H'; [done|].
  injection H' as <-. exists x. split; [done|lia].
Qed.

Lemma inv_consume ops rs m token now r m' :
  token_inv ops rs m -> consumeToken token now m = (r, m') ->
  token_inv (ops ++ [Consume token now]) (rs ++ [r]) m'.
Proof.
  intros [Hlen Hst Hus] (Hsub & Hgone & Hsome)%consume_spec. split.
  - rewrite !length_app. simpl. lia.
  - intros t e' x Ht. destruct (Hst t e' x (lookup_weaken _ _ _ _ Ht Hsub)) as [(j & now' & sweep' & Hj & ->) Hc].
    split; [exists j, now', sweep'; split; [by apply lookup_app_l_Some|done]|].
    intros k now'' r' Ho Hr.
    destruct (answered_snoc _ _ _ _ _ _ _ _ Hlen Ho Hr) as [[H1 H2]|(_ & [= -> ->] & ->)]; [by eapply Hc|].
    destruct Hgone as [Hg|]; [congruence|done].
  - intros k t now' e Ho Hr. destruct (answered_snoc _ _ _ _ _ _ _ _ Hlen Ho Hr) as [[H1 H2]|(-> & [= -> ->] & ->)].
    + destruct (Hus k t now' e H1 H2) as [(j & now0 & sweep0 & Hj & Hi & Hle) Hun]. split.
      { exists j, now0, sweep0. split_and!; [done|by apply lookup_app_l_Some|done]. }
      intros k' now'' e' Ho' Hr'.
      destruct (answered_snoc _ _ _ _ _ _ _ _ Hlen Ho' Hr') as [[H3 H4]|(_ & [= -> ->] & ->)]; [by eapply Hun|].
      destruct (Hsome e' eq_refl) as (x & Hm & _). destruct (Hst t e' x Hm) as [_ Hc]. by destruct (Hc k now' e H1 H2).
    + destruct (Hsome e eq_refl) as (x & Hm & Hle). destruct (Hst t e x Hm) as [(j & now0 & sweep0 & Hj & ->) Hc]. split.
      { exists j, now0, sweep0. split_and!; [by apply lookup_lt_Some in Hj|by apply lookup_app_l_Some|done]. }
      intros k' now'' e' Ho' Hr'.
      destruct (answered_snoc _ _ _ _ _ _ _ _ Hlen Ho' Hr') as [[H3 H4]|(-> & _)]; [|done].
      by destruct (Hc k' now'' e' H3 H4).
Qed.

Lemma run_inv ops : issued_once ops -> token_inv ops (run ops).1 (run ops).2.
Proof.
  unfold run. induction ops as [|o ops IH] using rev_ind; intros Honce.
  { split; simpl; [done|intros token e x H; by rewrite lookup_empty in H|by intros k]. }
  specialize (IH (issued_once_prefix _ _ Honce)). rewrite foldl_snoc.
  destruct (foldl step ([], ∅) ops) as [rs m]. destruct o as [token e now sweep|token now]; cbn [step].
  - by apply inv_issue.
  - destruct (consumeToken token now m) as [r m'] eqn:Ec. by eapply inv_consume.
Qed.

(** A stream token opens at most one WebSocket, only within a minute of being
    issued, and as the identity it was issued to: whatever the requests, as long as no
    two tokens are issued alike. *)
Theorem token_single_use ops k token now e :
  issued_once ops ->
  ops !! k = Some (Consume token now) -> (run ops).1 !! k = Some (Some e) ->
  (exists j now0 sweep, (j < k)%nat /\ ops !! j = Some (Issue token e now0 sweep) /\ now <= now0 + tokenTTL)
  /\ (forall k' now' e', ops !! k' = Some (Consume token now') -> (run ops).1 !! k' = Some (Some e') -> k' = k).
Proof. intros Hi. apply run_inv. exact Hi. Qed.
End Tokens.

(** ** clientframe.go: what a browser may send *)
Module Frames.

Record UserMessageData := mkUser {
  um_Text : string;
  um_SessionId : string;
  um_WorkflowId : string;
  um_IndexName : string;
  um_TimeZone : string;
  um_Attachments : list Attachment;
}.
Inductive ClientFrame :=
| FrameUser (d : UserMessageData)
| FrameToolResult (toolCallID : string) (result : option json)
| FrameCancel.

Inductive frame_error := FE_parse | FE_user_data | FE_tool_data | FE_no_call_id | FE_unknown (event : string).

(** A [[]byte] field, decoded strictly. *)
Definition dec_byte (v : json) : option ascii :=
  match v with
  | JNum n => if (0 <=? n) && (n <? 256) then Some (ascii_of_nat (Z.to_nat n)) else None
  | JNull => Some (ascii_of_nat 0)
  | _ => None
  end.
Definition dec_bytes (v : option json) : option string :=
  match v with
  | None | Some JNull => Some ""
  | Some (JStr s) => base64_decode s
  | Some (JArr l) => string_of_list_ascii <$> mapM dec_byte l
  | _ => None
  end.
Definition dec_attachment (v : json) : option Attachment :=
  m ← dec_struct (Some v);
  url ← dec_str (m !! "url");
  media ← dec_str (m !! "mediaType");
  name ← dec_str (m !! "filename");
  size ← dec_int (m !! "size");
  data ← dec_bytes (m !! "data");
  Some (mkAttachment url media name (default 0 size) data).

Definition dec_user (v : option json) : option UserMessageData :=
  m ← dec_struct v;
  text ← dec_str (m !! "text");
  session ← dec_str (m !! "sessionId");
  workflow ← dec_str (m !! "workflowId");
  index ← dec_str (m !! "indexName");
  tz ← dec_str (m !! "timeZone");
  atts ← dec_list dec_attachment (m !! "attachments");
  Some (mkUser text session workflow index tz (default [] atts)).

Definition ParseClientFrame (raw : option json) : res frame_error ClientFrame :=
  let! m := ok_or FE_parse (match raw with None => None | Some v => dec_struct (Some v) end) in
  let! event := ok_or FE_parse (dec_str (m !! "event")) in
  let data := m !! "data" in
  if String.eqb event "user_message" then
    let! d := ok_or FE_user_data (dec_user data) in Ok (FrameUser d)
  else if String.eqb event "tool_result_from_client" then
    match data with
    | None => Err FE_tool_data
    | Some _ =>
        let! m := ok_or FE_tool_data (dec_struct data) in
        let! id := ok_or FE_tool_data (dec_str (m !! "toolCallId")) in
        if str_empty id then Err FE_no_call_id else Ok (FrameToolResult id (m !! "result"))
    end
  else if String.eqb event "cancel" then Ok FrameCancel
  else Err (FE_unknown event).

(** *** bridge.go: helpers *)
Definition workflow_char (c : ascii) : bool :=
  is_upper c || is_lower c || is_digit c || (nat_of_ascii c =? 95)%nat || (nat_of_ascii c =? 45)%nat.
Definition resolveWorkflowID (raw : string) : string := if str_all workflow_char raw then raw else "".

Fixpoint bytes_prefix (n : nat) (s : string) : string :=
  match n, s with
  | S n, String c s => String c (bytes_prefix n s)
  | _, _ => ""
  end.
Definition ellipsis : string := string_of_list_ascii (List.map ascii_of_nat [226; 128; 166]%nat).
Definition truncateForAudit (s : string) (max : nat) : string :=
  if (String.length s <=? max)%nat then s else bytes_prefix max s +:+ ellipsis.
End Frames.

(** ** bridge.go: one turn's events *)
Module Pump.
Import Inbox Frames.

Record wsFrame := mkWs { ws_Event : string; ws_Sequence : Z; ws_Data : json }.
Definition wsErrorFrame (code msg : string) : wsFrame :=
  mkWs "error" 0 (jobj [("code", JStr code); ("message", JStr msg)]).
Definition ping : wsFrame := mkWs "ping" 0 JNull.
Definition session_expired : wsFrame :=
  wsErrorFrame "session-expired" "Your session is no longer valid. Please reload the page.".

(** A string field of the start payload; decoding errors leave it empty. *)
Definition start_field (d : json) (name : string) : string := as_str (as_obj (Some d) !! name).

Definition buildWSFrame (requestId : string) (evt : streamEvent) : wsFrame :=
  if String.eqb (Type_ evt) StreamStart then
    mkWs (Type_ evt) (Sequence evt)
      (jobj [("sessionId", JStr (start_field (Data evt) "sessionId"));
             ("workflowId", JStr (start_field (Data evt) "workflowId")); ("requestId", JStr requestId)])
  else mkWs (Type_ evt) (Sequence evt) (Data evt).

Definition isTerminalStreamError (data : json) : bool :=
  match (m ← dec_struct (Some data); dec_int (m !! "status")) with
  | Some (Some n) => (n =? 401) || (n =? 403)
  | _ => false
  end.

(** [WriteJSON] marshals the frame: data that is no JSON text fails it.  Events without
    data ([JNull]: a message with an empty payload) are of that kind - the payload is an
    empty [json.RawMessage], not a nil one; a start frame has data of its own. *)
Definition encodable (f : wsFrame) : bool := match ws_Data f with JNull => false | _ => true end.

(** The session a start event announces. *)
Definition announced (evt : streamEvent) (cur : string) : string :=
  if String.eqb (Type_ evt) StreamStart then
    match (m ← dec_struct (Some (Data evt)); s ← dec_str (m !! "sessionId");
           _ ← dec_str (m !! "workflowId"); _ ← dec_str (m !! "requestId"); Some s) with
    | Some s => if str_empty s then cur else s
    | None => cur
    end
  else cur.

(** What the select loop may see next. *)
Inductive input :=
| InClosed                      (* the browser is gone *)
| InTick                        (* the keepalive timer *)
| InFrame (f : ClientFrame)
| InEvent (e : streamEvent)
| InEof.                        (* the stream was closed *)

Inductive exit := ExClosed | ExKeepaliveErr | ExClientCancel | ExEof | ExWriteErr | ExFatal | ExTerminal.
Inductive upstream := UpCancel | UpToolResult (toolCallID : string) (result : option json).

Record pump_state := mkPump {
  captured : string;
  writes : list wsFrame;       (* the frames handed to the socket *)
  ups : list upstream;
}.
Definition write (f : wsFrame) (st : pump_state) : pump_state := mkPump (captured st) (writes st ++ [f]) (ups st).
Definition up (u : upstream) (st : pump_state) : pump_state := mkPump (captured st) (writes st) (ups st ++ [u]).
Definition capture (s : string) (st : pump_state) : pump_state := mkPump s (writes st) (ups st).

Section pump.
Variable requestId : string.
(** Whether the n-th write succeeds. *)
Variable write_ok : nat -> bool.
Definition next_ok (st : pump_state) : bool := write_ok (List.length (writes st)).

(** One round of the loop. *)
Definition pump_step (i : input) (st : pump_state) : option exit * pump_state :=
  match i with
  | InClosed => (Some ExClosed, up UpCancel st)
  | InTick => if next_ok st then (None, write ping st) else (Some ExKeepaliveErr, up UpCancel (write ping st))
  | InFrame (FrameToolResult id r) => (None, up (UpToolResult id r) st)
  | InFrame FrameCancel => (Some ExClientCancel, up UpCancel st)
  | InFrame (FrameUser _) => (None, st)
  | InEof => (Some ExEof, st)
  | InEvent e =>
      let ok := next_ok st && encodable (buildWSFrame requestId e) in
      let st := write (buildWSFrame requestId e) (capture (announced e (captured st)) st) in
      if negb ok then (Some ExWriteErr, up UpCancel st)
      else if String.eqb (Type_ e) StreamError && isTerminalStreamError (Data e)
      then (Some ExFatal, write session_expired st)
      else if is_terminator (Type_ e) then (Some ExTerminal, st)
      else (None, st)
  end.

Fixpoint pump_loop (ins : list input) (st : pump_state) : option exit * pump_state :=
  match ins with
  | [] => (None, st)     (* still waiting *)
  | i :: ins =>
      match pump_step i st with
      | (Some ex, st) => (Some ex, st)
      | (None, st) => pump_loop ins st
      end
  end.
Definition pumpEvents (ins : list input) : option exit * pump_state := pump_loop ins (mkPump "" [] []).

(** *** Properties *)
Definition cancels (ex : option exit) : bool :=
  match ex with
  | Some ExClosed | Some ExKeepaliveErr | Some ExClientCancel | Some ExWriteErr => true
  | _ => false
  end.
Definition event_of (i : input) : option streamEvent := match i with InEvent e => Some e | _ => None end.
Definition tool_of (i : input) : option upstream :=
  match i with InFrame (FrameToolResult id r) => Some (UpToolResult id r) | _ => None end.
Definition is_ping (f : wsFrame) : bool := String.eqb (ws_Event f) "ping".
Definition shown (fs : list wsFrame) : list wsFrame := List.filter (fun f => negb (is_ping f)) fs.

Lemma shown_app l l' : shown (l ++ l') = shown l ++ shown l'.
Proof. apply List.filter_app. Qed.

Lemma step_spec i st :
  let '(ex, st') := pump_step i st in
  (match event_of i with Some e => Type_ e <> "ping" | None => True end ->
   shown (writes st') = shown (writes st) ++ List.map (buildWSFrame requestId) (omap event_of [i])
                        ++ (match ex with Some ExFatal => [session_expired] | _ => [] end))
  /\ ups st' = ups st ++ omap tool_of [i] ++ (if cancels ex then [UpCancel] else [])
  /\ captured st' = foldl (fun s e => announced e s) (captured st) (omap event_of [i]).
Proof.
  assert (forall e, Type_ e <> "ping" -> shown [buildWSFrame requestId e] = [buildWSFrame requestId e]) as Hb.
  { intros e He. unfold shown, is_ping, buildWSFrame. simpl.
    destruct (String.eqb (Type_ e) StreamStart); simpl; by rewrite (proj2 (String.eqb_neq _ _) He). }
  destruct i as [| |[d|id r|]|e|]; cbn [pump_step].
  - simpl. rewrite !app_nil_r. by split_and!.
  - destruct (next_ok st); simpl; rewrite shown_app; simpl; rewrite !app_nil_r; by split_and!.
  - simpl. rewrite !app_nil_r. by split_and!.
  - simpl. rewrite !app_nil_r. by split_and!.
  - simpl. rewrite !app_nil_r. by split_and!.
  - simpl. destruct (next_ok st && encodable (buildWSFrame requestId e)); simpl.
    + destruct (_ && _); [|destruct (is_terminator (Type_ e))]; simpl; rewrite !shown_app;
        (split_and!; [intros He; rewrite (Hb e He), ?app_nil_r, <- ?app_assoc; done|by rewrite app_nil_r|done]).
    + split_and!; [intros He; by rewrite shown_app, (Hb e He)|done|done].
  - simpl. rewrite !app_nil_r. by split_and!.
Qed.

(** The pump of a turn shows the browser every event the agent streamed, in order
    and as is, passes every tool result of the browser on, remembers the session, and
    cancels the agent's run exactly when the browser is gone or asked for it. *)
Theorem pump_forwards ins :
  Forall (fun i => match event_of i with Some e => Type_ e <> "ping" | None => True end) ins ->
  let '(ex, st) := pumpEvents ins in
  exists seen rest, ins = seen ++ rest
    /\ (ex = None -> rest = [])
    /\ shown (writes st) = List.map (buildWSFrame requestId) (omap event_of seen)
                           ++ (match ex with Some ExFatal => [session_expired] | _ => [] end)
    /\ ups st = omap tool_of seen ++ (if cancels ex then [UpCancel] else [])
    /\ captured st = foldl (fun s e => announced e s) "" (omap event_of seen).
Proof.
  unfold pumpEvents. intros Hp.
  assert (forall st, let '(ex, st') := pump_loop ins st in
    exists seen rest, ins = seen ++ rest /\ (ex = None -> rest = [])
      /\ shown (writes st') = shown (writes st) ++ List.map (buildWSFrame requestId) (omap event_of seen)
                              ++ (match ex with Some ExFatal => [session_expired] | _ => [] end)
      /\ ups st' = ups st ++ omap tool_of seen ++ (if cancels ex then [UpCancel] else [])
      /\ captured st' = foldl (fun s e => announced e s) (captured st) (omap event_of seen)) as G.
  { induction Hp as [|i ins Hi _ IH]; intros st; simpl.
    - exists [], []. simpl. rewrite !app_nil_r. by split_and!.
    - pose proof (step_spec i st) as Hs. destruct (pump_step i st) as [[ex|] st1]; destruct Hs as (H1 & H2 & H3).
      + exists [i], ins. split_and!; [done|done|by apply H1|done|done].
      + specialize (IH st1). destruct (pump_loop ins st1) as [ex st2].
        destruct IH as (seen & rest & -> & Hr & I1 & I2 & I3). exists (i :: seen), rest.
        change (i :: seen) with ([i] ++ seen). rewrite !omap_app, List.map_app, foldl_app.
        split_and!; [done|done| | |].
        * rewrite I1, (H1 Hi), app_nil_r. by rewrite <- !app_assoc.
        * rewrite I2, H2, app_nil_r. by rewrite <- !app_assoc.
        * by rewrite I3, H3. }
  specialize (G (mkPump "" [] [])). exact G.
Qed.
End pump.
End Pump.

(** ** bridge.go: a conversation over one WebSocket *)
Module Conversation.
Import Tokens Frames Pump.

(** The legacy one-shot body. *)
Record ChatStreamRequest := mkLegacy { lg_Message : string; lg_SessionId : string; lg_WorkflowId : string }.
Definition dec_legacy (raw : option json) : option ChatStreamRequest :=
  m ← match raw with None => None | Some v => dec_struct (Some v) end;
  message ← dec_str (m !! "message");
  session ← dec_str (m !! "sessionId");
  workflow ← dec_str (m !! "workflowId");
  Some (mkLegacy message session workflow).

(** What a conversation starts with. *)
Record opening := mkOpening {
  op_text : string;
  op_session : string;
  op_workflow : string;
  op_index : string;
  op_tz : string;
  op_atts : list Attachment;
}.

Section conversation.
Variable natsBasePath : string.
Variable Authorize : string -> string -> string -> bool.   (* account, index, workflow *)
Variable who : tokenEntry.

(** The first message: a typed frame, or the legacy body. *)
Definition first_message (raw : option json) : option opening :=
  match ParseClientFrame raw with
  | Ok (FrameUser d) =>
      Some (mkOpening (um_Text d) (um_SessionId d) (um_WorkflowId d) (um_IndexName d)
              (if str_empty (um_TimeZone d) then timeZone who else um_TimeZone d) (um_Attachments d))
  | _ =>
      match dec_legacy raw with
      | Some r => if str_empty (trim_space (lg_Message r)) then None
                  else Some (mkOpening (lg_Message r) (lg_SessionId r) (lg_WorkflowId r) "" (timeZone who) [])
      | None => None
      end
  end.

(** The gate: passed once per conversation, or refused with a frame. *)
Definition admission (raw : option json) : res wsFrame opening :=
  match first_message raw with
  | None => Err (wsErrorFrame "invalid-body" "Invalid request body")
  | Some o =>
      if str_empty (op_workflow o) then Err (wsErrorFrame "workflow-required" "No workflow selected for this Search")
      else
        let wf := resolveWorkflowID (op_workflow o) in
        if str_empty wf then Err (wsErrorFrame "invalid-workflow" "Invalid workflow identifier")
        else if negb (Authorize (accountId who) (op_index o) wf)
        then Err (wsErrorFrame "workflow-not-authorized" "This AI assistant is not available for this Search")
        else Ok (mkOpening (op_text o) (op_session o) wf (op_index o) (op_tz o) (op_atts o))
  end.

(** A request published to the bus, before the host attaches its credential. *)
Record outbound := mkOutbound {
  ob_subject : string;
  ob_headers : list (string * string);
  ob_text : string;
  ob_session : string;
  ob_atts : list Attachment;
}.
Definition turn_request (o : opening) : outbound :=
  mkOutbound (natsBasePath +:+ "." +:+ op_workflow o)
    [("X-Account-Id", accountId who); ("X-User-Id", userId who); ("X-User-Name", userName who); ("X-Time-Zone", op_tz o)]
    (op_text o) (op_session o) (op_atts o).

(** What one turn meets: whether the stream opens, what its pump sees, and the frames
    the browser sends afterwards, before it goes away or the next turn starts. *)
Record turn_env := mkTurnEnv {
  opens : bool;
  seen : list input;
  afterwards : list ClientFrame;
}.

(** [runOneTurn]: the session announced, and whether the conversation is over. *)
Definition runOneTurn (requestId : string) (write_ok : nat -> bool) (t : turn_env) : string * bool :=
  if opens t then
    let '(ex, st) := pumpEvents requestId write_ok (seen t) in
    (captured st, match ex with Some ExFatal => true | _ => false end)
  else ("", false).

Fixpoint next_user (fs : list ClientFrame) : option UserMessageData :=
  match fs with
  | [] => None
  | FrameUser d :: _ => Some d
  | _ :: fs => next_user fs
  end.

(** The loop of [streamChat]: the requests published, one per turn. *)
Fixpoint converse (requestId : string) (write_ok : nat -> bool) (o : opening) (ts : list turn_env) : list outbound :=
  match ts with
  | [] => []
  | t :: ts =>
      let '(sid, fatal) := runOneTurn requestId write_ok t in
      let session := if str_empty sid then op_session o else sid in
      turn_request o ::
      (if fatal then []
       else match next_user (afterwards t) with
       | None => []
       | Some d =>
           converse requestId write_ok
             (mkOpening (um_Text d) session (op_workflow o) (op_index o)
                (if str_empty (um_TimeZone d) then op_tz o else um_TimeZone d) (um_Attachments d)) ts
       end)
  end.
Definition streamChat (requestId : string) (write_ok : nat -> bool) (raw : option json) (ts : list turn_env)
    : res wsFrame (list outbound) :=
  let! o := admission raw in Ok (converse requestId write_ok o ts).

(** *** Properties *)
Lemma resolveWorkflowID_safe raw :
  resolveWorkflowID raw <> "" -> resolveWorkflowID raw = raw /\ str_all workflow_char raw = true.
Proof. unfold resolveWorkflowID. by destruct (str_all workflow_char raw). Qed.

Lemma admit_ok raw o :
  admission raw = Ok o ->
  op_workflow o <> "" /\ str_all workflow_char (op_workflow o) = true
  /\ Authorize (accountId who) (op_index o) (op_workflow o) = true.
Proof.
  unfold admission. destruct (first_message raw) as [o'|]; [|done].
  destruct (str_empty (op_workflow o')); [done|].
  destruct (str_empty (resolveWorkflowID (op_workflow o'))) eqn:Ew; [done|].
  destruct (Authorize (accountId who) (op_index o') (resolveWorkflowID (op_workflow o'))) eqn:Ea; simpl; [|done].
  intros [= <-]. simpl. apply str_empty_false in Ew. destruct (resolveWorkflowID_safe _ Ew) as [E ?].
  rewrite E in Ew, Ea |- *. by split_and!.
Qed.

(** The session a turn continues with. *)
Definition carried (requestId : string) (write_ok : nat -> bool) (session : string) (t : turn_env) : string :=
  let '(sid, _) := runOneTurn requestId write_ok t in if str_empty sid then session else sid.

Lemma converse_spec requestId write_ok o ts k ob :
  converse requestId write_ok o ts !! k = Some ob ->
  ob_subject ob = natsBasePath +:+ "." +:+ op_workflow o
  /\ (exists tz, ob_headers ob = [("X-Account-Id", accountId who); ("X-User-Id", userId who);
                                  ("X-User-Name", userName who); ("X-Time-Zone", tz)])
  /\ ob_session ob = foldl (carried requestId write_ok) (op_session o) (take k ts).
Proof.
  revert o k. induction ts as [|t ts IH]; intros o k H; simpl in H; [by rewrite lookup_nil in H|].
  destruct (runOneTurn requestId write_ok t) as [sid fatal] eqn:Et.
  destruct k as [|k]; simpl in H; [injection H as <-; simpl; by eauto|].
  destruct fatal; [by rewrite lookup_nil in H|].
  destruct (next_user (afterwards t)) as [d|]; [|by rewrite lookup_nil in H].
  destruct (IH _ k H) as (H1 & H2 & H3). simpl in *. split_and!; [done|done|].
  unfold carried at 2. by rewrite Et.
Qed.

(** A conversation reaches one workflow only, the one it was authorized for: every
    request it publishes goes to that workflow's subject, which no character of the
    browser's input can escape from, carries the identity of its token, and continues
    the session the agent announced last. *)
Theorem conversation_gated requestId write_ok raw ts reqs :
  streamChat requestId write_ok raw ts = Ok reqs ->
  exists o wf, admission raw = Ok o /\ wf <> "" /\ str_all workflow_char wf = true
    /\ Authorize (accountId who) (op_index o) wf = true
    /\ forall k ob, reqs !! k = Some ob ->
         ob_subject ob = natsBasePath +:+ "." +:+ wf
         /\ (exists tz, ob_headers ob = [("X-Account-Id", accountId who); ("X-User-Id", userId who);
                                         ("X-User-Name", userName who); ("X-Time-Zone", tz)])
         /\ ob_session ob = foldl (carried requestId write_ok) (op_session o) (take k ts).
Proof.
  unfold streamChat. destruct (admission raw) as [o|e] eqn:Ea; [|done]. simpl. intros [= <-].
  destruct (admit_ok raw o Ea) as (H1 & H2 & H3). exists o, (op_workflow o). split_and!; try done.
  intros k ob Hk. by apply converse_spec.
Qed.
End conversation.
End Conversation.

(** ** chunked_request.go: large requests *)
Module Chunked.

Definition compressThreshold : nat := 2 * 1024.
Definition chunkPayloadSize : nat := 200 * 1024.

Section chunked.
(** The bus library's compression and chunking. *)
Variable gzip : string -> string.
Variable ChunkByteArray : string -> nat -> list string.

(** How the body goes out: in the message, or fetched chunk by chunk. *)
Inductive payload := Inline (data : string) | Chunks (data : list string).
Record prepared := mkPrepared { compressed : bool; body : payload }.

Definition prepareLargeRequest (data : string) : prepared :=
  let big := (compressThreshold <? String.length data)%nat in
  let data := if big then gzip data else data in
  if (String.length data <=? chunkPayloadSize)%nat then mkPrepared big (Inline data)
  else mkPrepared big (Chunks (ChunkByteArray data chunkPayloadSize)).

(** The chunk subject's answer to a requested index (the header's text). *)
Inductive chunk_reply := ChunkData (data : string) | ChunkError (idx : Z) (total : nat).
Definition serve_chunk (chunks : list string) (idxStr : string) : chunk_reply :=
  match Atoi idxStr with
  | Some idx => if (idx <? 0) || (Z.of_nat (List.length chunks) <=? idx) then ChunkError idx (List.length chunks)
                else ChunkData (nth (Z.to_nat idx) chunks "")
  | None => ChunkError 0 (List.length chunks)
  end.

(** A receiver that asks for the announced number of chunks in order. *)
Definition fetched (p : payload) : option string :=
  match p with
  | Inline d => Some d
  | Chunks cs =>
      String.concat "" <$> mapM (fun i => match serve_chunk cs (print_Z (Z.of_nat i)) with
                                          | ChunkData d => Some d
                                          | ChunkError _ _ => None
                                          end) (seq 0 (List.length cs))
  end.

Hypothesis chunk_concat : forall d n, (0 < n)%nat -> String.concat "" (ChunkByteArray d n) = d.
Hypothesis chunk_small : forall d n, (0 < n)%nat -> Forall (fun c => String.length c <= n)%nat (ChunkByteArray d n).
Hypothesis chunk_count : forall d n, (0 < n)%nat -> (List.length (ChunkByteArray d n) <= String.length d)%nat.

Lemma serve_index cs i :
  Z.of_nat (List.length cs) < 2 ^ 63 -> (i < List.length cs)%nat ->
  serve_chunk cs (print_Z (Z.of_nat i)) = ChunkData (nth i cs "").
Proof using Type.
  intros Hl Hi. unfold serve_chunk. rewrite Atoi_print by (unfold int64_range; lia).
  destruct (Z.ltb_spec (Z.of_nat i) 0); [lia|]. destruct (Z.leb_spec (Z.of_nat (List.length cs)) (Z.of_nat i)); [lia|].
  simpl. by rewrite Nat2Z.id.
Qed.

Lemma fetched_chunks cs :
  Z.of_nat (List.length cs) < 2 ^ 63 -> fetched (Chunks cs) = Some (String.concat "" cs).
Proof using Type.
  intros Hl. unfold fetched.
  assert (forall l, Forall (fun i => i < List.length cs)%nat l ->
    mapM (fun i => match serve_chunk cs (print_Z (Z.of_nat i)) with ChunkData d => Some d | ChunkError _ _ => None end) l
    = Some (List.map (fun i => nth i cs "") l)) as H.
  { induction 1 as [|i l Hi _ IH]; [done|]. cbn [mapM]. rewrite serve_index by done. simpl. by rewrite IH. }
  rewrite H.
  - simpl. f_equal. f_equal. apply nth_ext with "" "".
    + by rewrite length_map, length_seq.
    + rewrite length_map, length_seq. intros n Hn. rewrite nth_indep with (d' := nth 0 cs "").
      * rewrite (map_nth (fun i => nth i cs "") (seq 0 (List.length cs)) 0%nat n). by rewrite seq_nth.
      * by rewrite length_map, length_seq.
  - apply Forall_forall. intros i Hi%elem_of_seq. lia.
Qed.

(** However large a request, what is fetched for it is its body, compressed exactly
    when it exceeds 2 KiB, in pieces of at most 200 KiB. *)
Theorem large_request_fetched data :
  Z.of_nat (String.length data) < 2 ^ 63 -> Z.of_nat (String.length (gzip data)) < 2 ^ 63 ->
  let p := prepareLargeRequest data in
  fetched (body p) = Some (if compressed p then gzip data else data)
  /\ (compressed p = true <-> (compressThreshold < String.length data)%nat)
  /\ match body p with
     | Inline d => (String.length d <= chunkPayloadSize)%nat
     | Chunks cs => Forall (fun c => String.length c <= chunkPayloadSize)%nat cs
     end.
Proof using All.
  intros Hd Hg. unfold prepareLargeRequest. set (big := (compressThreshold <? String.length data)%nat).
  assert (big = true <-> (compressThreshold < String.length data)%nat) as Hb by apply Nat.ltb_lt.
  clearbody big. set (d := if big then gzip data else data).
  destruct (Nat.leb_spec (String.length d) chunkPayloadSize); cbn [body compressed]; (split_and!; [|done|]); try done.
  - assert (0 < chunkPayloadSize)%nat as Hpos by (unfold chunkPayloadSize; lia).
    pose proof (chunk_count d chunkPayloadSize Hpos) as Hn.
    assert (Z.of_nat (String.length d) < 2 ^ 63) as Hl by (unfold d; by destruct big).
    rewrite fetched_chunks, chunk_concat by (done || lia). done.
  - apply chunk_small. unfold chunkPayloadSize. lia.
Qed.
End chunked.
End Chunked.

(** ** Concrete runs *)
Module BridgeExamples.
Import Tokens Frames Pump Conversation Chunked.

Definition demo_ops (last : Server.op) : list Server.op :=
  [Server.OpSend (mkStreamEvent "delta" 0 "" (jobj [("text", JStr "hi")]) ∅); last].
Definition demo_session (last : Server.op) : list Msg :=
  Server.numbered "id" "cancel" "tools" (Server.session_events "s" "wf" "r" (demo_ops last)).
Example bridge_receives_ex :
  let got l := (List.map Inbox.Type_ (Inbox.events (Inbox.receive (demo_session l))), Inbox.closed (Inbox.receive (demo_session l))) in
  got (Server.OpComplete "hi" "end_turn") = (["start"; "delta"; "complete"], true)
  /\ got (Server.OpFail "llm-error" "boom" "") = (["start"; "delta"], false).
Proof. vm_compute. split; reflexivity. Qed.

Lemma bridge_receives_witness :
  Inbox.closed (Inbox.receive (demo_session (Server.OpFail "llm-error" "boom" ""))) = false.
Proof.
  destruct (Inbox.bridge_receives "id" "cancel" "tools" "s" "wf" "r" (demo_ops (Server.OpFail "llm-error" "boom" "")))
    as [_ H].
  - repeat constructor; try discriminate; intros k _; apply lookup_empty.
  - vm_compute. reflexivity.
  - etransitivity; [exact H|]. vm_compute. reflexivity.
Defined.

Definition demo_who : tokenEntry := mkToken "acc" "u" "User" "UTC" "sess".
Definition demo_tokens : list Tokens.op :=
  [Issue "t1" demo_who 0 0; Consume "t1" 5; Consume "t1" 6; Issue "t2" demo_who 10 10; Consume "t2" (11 + tokenTTL)].
Example tokens_ex : (Tokens.run demo_tokens).1 = [None; Some demo_who; None; None; None].
Proof. vm_compute. reflexivity. Qed.
Lemma token_single_use_witness : exists j now0 sweep,
  (j < 1)%nat /\ demo_tokens !! j = Some (Issue "t1" demo_who now0 sweep) /\ 5 <= now0 + tokenTTL.
Proof.
  apply (token_single_use demo_tokens 1 "t1" 5 demo_who).
  - intros t j j' o o' H1 H2 H3 H4.
    destruct j as [|[|[|[|[|j]]]]]; simpl in H1; simplify_eq; simpl in H3; try done;
    destruct j' as [|[|[|[|[|j']]]]]; simpl in H2; simplify_eq; simpl in H4; simplify_eq; done.
  - reflexivity.
  - vm_compute. reflexivity.
Defined.

Definition demo_event (ty : string) (n : Z) (d : json) : Inbox.streamEvent := Inbox.mkEvt ty n "id" d.
Definition demo_inputs : list input :=
  [InEvent (demo_event "start" 0 (jobj [("sessionId", JStr "s1")])); InTick;
   InFrame (FrameToolResult "call-1" (Some (JStr "yes"))); InEvent (demo_event "delta" 1 (JStr "x")); InClosed; InTick].
Lemma pump_forwards_witness : exists seen rest,
  demo_inputs = seen ++ rest /\ captured (pumpEvents "req" (fun _ => true) demo_inputs).2 = "s1".
Proof.
  pose proof (pump_forwards "req" (fun _ => true) demo_inputs) as H.
  destruct (pumpEvents "req" (fun _ => true) demo_inputs) as [ex st] eqn:E.
  destruct H as (seen & rest & H & _ & _ & _ & _); [repeat constructor; discriminate|].
  exists seen, rest. split; [exact H|]. rewrite <- E. vm_compute. reflexivity.
Defined.

Definition demo_frame (wf : string) : json :=
  jobj [("event", JStr "user_message"); ("data", jobj [("text", JStr "hi"); ("workflowId", JStr wf)])].
Definition demo_chat (wf : string) : res wsFrame (list outbound) :=
  streamChat "svc" (fun _ _ w => String.eqb w "sales-bot") demo_who "req" (fun _ => true) (Some (demo_frame wf))
    [mkTurnEnv true demo_inputs [FrameCancel; FrameUser (mkUser "more" "" "other" "" "" [])]; mkTurnEnv true [] []].
Example chat_ex :
  match demo_chat "sales-bot" with
  | Ok reqs => List.map (fun r => (ob_subject r, ob_session r)) reqs = [("svc.sales-bot", ""); ("svc.sales-bot", "s1")]
  | Err _ => False
  end
  /\ demo_chat "sales.*" = Err (wsErrorFrame "invalid-workflow" "Invalid workflow identifier")
  /\ demo_chat "hr-bot" = Err (wsErrorFrame "workflow-not-authorized" "This AI assistant is not available for this Search").
Proof. vm_compute. split_and!; reflexivity. Qed.
Lemma conversation_gated_witness : exists reqs wf, demo_chat "sales-bot" = Ok reqs /\ str_all workflow_char wf = true /\ wf <> "".
Proof.
  destruct (demo_chat "sales-bot") as [reqs|e] eqn:E; [|vm_compute in E; discriminate E].
  destruct (conversation_gated "svc" (fun _ _ w => String.eqb w "sales-bot") demo_who "req" (fun _ => true)
              (Some (demo_frame "sales-bot")) _ reqs E) as (o & wf & _ & H1 & H2 & _).
  exists reqs, wf. split_and!; [reflexivity|exact H2|exact H1].
Defined.

(** A chunker with the library's contract. *)
Fixpoint chop (fuel : nat) (d : string) (n : nat) : list string :=
  match fuel, d with
  | S fuel, String _ _ => bytes_prefix n d :: chop fuel (str_drop n d) n
  | _, _ => []
  end.
Definition demo_chunk (d : string) (n : nat) : list string := chop (String.length d) d n.

Lemma concat_cons x l : String.concat "" (x :: l) = x +:+ String.concat "" l.
Proof.
  destruct l; [|done]. simpl. induction x as [|c x IH]; [done|].
  change (String c x = String c (x +:+ "")). by rewrite <- IH.
Qed.
Lemma prefix_drop n d : bytes_prefix n d +:+ str_drop n d = d.
Proof. revert d. induction n as [|n IH]; intros [|c d]; [done..|].
  change (String c (bytes_prefix n d +:+ str_drop n d) = String c d). by rewrite IH.
Qed.
Lemma prefix_length n d : (String.length (bytes_prefix n d) <= n)%nat.
Proof. revert d. induction n as [|n IH]; intros [|c d]; simpl; try lia. specialize (IH d). lia. Qed.
Lemma drop_length n d : String.length (str_drop n d) = (String.length d - n)%nat.
Proof. revert d. induction n as [|n IH]; intros [|c d]; simpl; try lia. apply IH. Qed.

Lemma chop_concat fuel d n : (0 < n)%nat -> (String.length d <= fuel)%nat -> String.concat "" (chop fuel d n) = d.
Proof.
  intros Hn. revert d. induction fuel as [|fuel IH]; intros [|c d] Hl; try done; [simpl in Hl; lia|].
  cbn [chop]. rewrite concat_cons, IH; [apply prefix_drop|]. rewrite drop_length. simpl in *. lia.
Qed.
Lemma chop_small fuel d n : Forall (fun c => String.length c <= n)%nat (chop fuel d n).
Proof.
  revert d. induction fuel as [|fuel IH]; intros [|c d]; try constructor; [apply prefix_length|apply IH].
Qed.
Lemma chop_count fuel d n : (List.length (chop fuel d n) <= fuel)%nat.
Proof. revert d. induction fuel as [|fuel IH]; intros [|c d]; simpl; try lia. specialize (IH (str_drop n (String c d))). lia. Qed.

Lemma large_request_fetched_witness :
  fetched (body (prepareLargeRequest (fun d => d) demo_chunk "a small body")) = Some "a small body".
Proof.
  refine (proj1 (large_request_fetched (fun d => d) demo_chunk
    (fun d n Hn => chop_concat (String.length d) d n Hn (le_n _)) (fun d n _ => chop_small _ d n)
    (fun d n _ => chop_count _ d n) "a small body" _ _)); reflexivity.
Defined.
End BridgeExamples.
