(* ===== verification/Journey.v ===== *)
(** * A turn from the browser to the agent and back

    The parts of a chat put together: the bridge's request (Bridge.v) on the bus, the
    trigger that serves it (Chat.v), the stream of the agent behind it (Stream.v), and
    the frames the browser is shown.  [Round] is one turn, [Talk] a conversation, and
    [Shown] the agent's own turn (Turn.v) as the browser sees it. *)

From S2P Require Import Prelude Json Template Node Engine Events Executor Stream Retry Charts JsonText Agent Idt Chat Turn Payloads Bridge.
From stdpp Require Import base tactics list strings gmap option fin_maps.
From Stdlib Require Import ZArith Lia Ascii String.
Local Open Scope string_scope.
Local Open Scope list_scope.
Local Open Scope Z_scope.
Local Open Scope go_scope.

(** ** The request on the bus (models.go, clientframe.go, natsstream.go) *)
Module Wire.
Import Conversation Trigger.

(** A field marked [omitempty]. *)
Definition unless_empty (name : string) (v : string) : list (string * json) :=
  if str_empty v then [] else [(name, JStr v)].

Definition ClientAttachment (a : Attachment) : json :=
  jobj ([("url", JStr (att_URL a)); ("mediaType", JStr (att_MediaType a)); ("filename", JStr (att_Filename a));
         ("size", JNum (att_Size a))]
        ++ unless_empty "data" (base64_encode (att_Data a))).

Definition streamRequestEnvelope (ob : outbound) : json :=
  jobj ([("message", JStr (ob_text ob))] ++ unless_empty "sessionId" (ob_session ob)
        ++ match ob_atts ob with [] => [] | atts => [("attachments", JArr (List.map ClientAttachment atts))] end).

(** The message published for a turn: [attach] is the host's [OutboundMessage], which
    turns the identity headers into the message's; [fresh] is the id it gets if it has
    none. *)
Definition doNatsStreamingRequest (attach : list (string * string) -> gmap string (list string)) (inbox fresh : string)
    (ob : outbound) : NatsMessage :=
  let h := attach (ob_headers ob) in
  let h := if str_empty (Get h HdrMessageId) then <[HdrMessageId := [fresh]]> h else h in
  mkNatsMessage h (Some (streamRequestEnvelope ob)) (Get h HdrMessageId) inbox.

Lemma attachment_back a : int64_range (att_Size a) -> Exec.dec_attachment (ClientAttachment a) = a.
Proof.
  intros Hs. unfold Exec.dec_attachment, ClientAttachment, unless_empty, jobj. simpl. destruct a as [url media name size data]. simpl in *.
  assert (Exec.soft_int (Some (JNum size)) = size) as Hi by (unfold Exec.soft_int; by rewrite bool_decide_true by done).
  destruct (str_empty (base64_encode data)) eqn:Ed; simpl; simplify_map_eq; unfold Exec.soft_int; rewrite bool_decide_true by done; f_equal.
  - apply str_empty_true in Ed. pose proof (base64_roundtrip data) as H. rewrite Ed in H. injection H as <-. reflexivity.
  - unfold Exec.dec_bytes. by rewrite base64_roundtrip.
Qed.

(** The trigger and the executor both read the envelope back as it was meant. *)
Lemma body_back ob : dec_body (Some (streamRequestEnvelope ob)) = Some (mkBody (ob_text ob) (ob_session ob) "").
Proof.
  unfold dec_body, streamRequestEnvelope, unless_empty, jobj.
  destruct ob as [subject headers text session atts]. cbn [ob_text ob_session ob_atts] in *.
  destruct (str_empty session) eqn:Es; [apply str_empty_true in Es as ->|]; (destruct atts as [|a atts]);
    cbn [app list_to_map foldr uncurry dec_struct mbind option_bind]; by simplify_map_eq.
Qed.
Lemma chat_back ob :
  Forall (fun a => int64_range (att_Size a)) (ob_atts ob) ->
  Exec.parseChatBody (Some (streamRequestEnvelope ob)) = (ob_text ob, ob_atts ob).
Proof.
  intros Hs. assert (List.map Exec.dec_attachment (List.map ClientAttachment (ob_atts ob)) = ob_atts ob) as Ha.
  { induction Hs as [|a l H _ IH]; [done|]. cbn [List.map]. by rewrite attachment_back, IH. }
  unfold Exec.parseChatBody, streamRequestEnvelope, unless_empty, jobj.
  destruct ob as [subject headers text session atts]. cbn [ob_text ob_session ob_atts] in *.
  destruct (str_empty session) eqn:Es; [apply str_empty_true in Es as ->|]; (destruct atts as [|a atts]);
    cbn [app list_to_map foldr uncurry]; simplify_map_eq; try done.
  all: by repeat f_equal.
Qed.

(** A header the host attached is still there. *)
Lemma request_header attach inbox fresh ob k v :
  k <> HdrMessageId -> Get (attach (ob_headers ob)) k = v ->
  Get (nm_Header (doNatsStreamingRequest attach inbox fresh ob)) k = v.
Proof.
  intros Hk H. unfold doNatsStreamingRequest. cbn [nm_Header]. destruct (str_empty _); [|done].
  unfold Get in *. by rewrite lookup_insert_ne.
Qed.
End Wire.

(** ** What the browser is shown of a stream *)
Module Shown.
Import Inbox Pump.

(** The browser says nothing while the turn runs: there are the stream's events and the
    keepalive. *)
Definition quiet (i : input) : Prop := match i with InTick | InEvent _ => True | _ => False end.

(** An event the pump shows and goes on (or ends normally) with. *)
Definition showable (requestId : string) (e : streamEvent) : Prop :=
  Type_ e <> "ping" /\ String.eqb (Type_ e) StreamError && isTerminalStreamError (Data e) = false
  /\ encodable (buildWSFrame requestId e) = true.

Lemma pump_quiet requestId ins (st : pump_state) evs :
  Forall quiet ins -> omap event_of ins = evs ->
  Forall (showable requestId) evs ->
  (forall i e, evs !! i = Some e -> is_terminator (Type_ e) = true -> S i = List.length evs) ->
  let '(ex, st') := pump_loop requestId (fun _ => true) ins st in
  ex = (match last evs with Some e => if is_terminator (Type_ e) then Some ExTerminal else None | None => None end)
  /\ shown (writes st') = shown (writes st) ++ List.map (buildWSFrame requestId) evs
  /\ ups st' = ups st
  /\ captured st' = foldl (fun s e => announced e s) (captured st) evs.
Proof.
  intros Hq. revert st evs. induction Hq as [|i ins Hi Hq IH]; intros st evs <- Hf Hl; cbn [pump_loop].
  { simpl. by rewrite app_nil_r. }
  pose proof (step_spec requestId (fun _ => true) i st) as Hs. destruct i as [| |f|e|]; try done.
  - cbn [pump_step next_ok] in Hs |- *. destruct Hs as (H1 & H2 & H3). specialize (H1 I).
    specialize (IH (write ping st) _ eq_refl Hf Hl). destruct (pump_loop _ _ ins (write ping st)) as [ex st'].
    destruct IH as (I1 & I2 & I3 & I4). cbn in H1. rewrite app_nil_r in H1. cbn in I2. rewrite I2, I3, I4, H1. by split_and!.
  - change (omap event_of (InEvent e :: ins)) with (e :: omap event_of ins) in *.
    apply Forall_cons in Hf as [(Hp & He & Hd) Hf]. cbn [pump_step next_ok] in Hs |- *. change (next_ok (fun _ => true) st) with true in *.
    rewrite Hd in Hs |- *. cbn [andb negb] in Hs |- *. rewrite He in Hs |- *. cbn [andb] in Hs |- *.
    set (st1 := write _ _) in *. destruct (is_terminator (Type_ e)) eqn:Et; destruct Hs as (H1 & H2 & H3); specialize (H1 Hp).
    + pose proof (Hl 0%nat e eq_refl Et) as Hlen. simpl in Hlen. destruct (omap event_of ins); [|done].
      simpl in H1, H2, H3 |- *. rewrite Et, H1, H2, app_nil_r. by split_and!.
    + assert (forall i e, omap event_of ins !! i = Some e -> is_terminator (Type_ e) = true -> S i = List.length (omap event_of ins)) as Hl'.
      { intros i e' Hi' He'. specialize (Hl (S i) e' Hi' He'). simpl in Hl. lia. }
      specialize (IH st1 _ eq_refl Hf Hl'). destruct (pump_loop _ _ ins st1) as [ex st'].
      destruct IH as (I1 & I2 & I3 & I4). rewrite I2, I3, I4, H1, H2, H3. cbn [omap list_omap event_of tool_of cancels app List.map foldl]. rewrite !app_nil_r, <- app_assoc.
      split_and!; try done. rewrite I1. destruct (omap event_of ins) as [|x l]; [simpl; by rewrite Et|]. done.
Qed.

(** What the pump has not returned by then, it returns when the stream is closed. *)
Lemma pump_eof requestId write_ok ins :
  pumpEvents requestId write_ok (ins ++ [InEof])
  = let '(ex, st) := pumpEvents requestId write_ok ins in (Some (default ExEof ex), st).
Proof.
  unfold pumpEvents. generalize (mkPump "" [] []). induction ins as [|i ins IH]; intros st; [done|].
  cbn [app pump_loop]. destruct (pump_step _ _ i st) as [[ex|] st']; [done|]. apply IH.
Qed.

Lemma pump_loop_app requestId write_ok ins ins' st :
  pump_loop requestId write_ok (ins ++ ins') st
  = match pump_loop requestId write_ok ins st with
    | (None, st') => pump_loop requestId write_ok ins' st'
    | r => r
    end.
Proof.
  revert st. induction ins as [|i ins IH]; intros st; [done|]. cbn [app pump_loop].
  destruct (pump_step _ _ i st) as [[ex|] st']; [done|apply IH].
Qed.

Lemma omap_split {A B} (f : A -> option B) l l1 y l2 :
  omap f l = l1 ++ y :: l2 -> exists k1 x k2, l = k1 ++ x :: k2 /\ omap f k1 = l1 /\ f x = Some y.
Proof.
  revert l1. induction l as [|a l IH]; intros l1 H; [by destruct l1|]. cbn in H. destruct (f a) as [z|] eqn:Ea.
  - destruct l1 as [|z' l1]; injection H as -> H; [by exists [], a, l|].
    destruct (IH _ H) as (k1 & x & k2 & -> & <- & Hx). exists (a :: k1), x, k2. cbn. by rewrite Ea.
  - destruct (IH _ H) as (k1 & x & k2 & -> & <- & Hx). exists (a :: k1), x, k2. cbn. by rewrite Ea.
Qed.

(** The first event without data stops the pump: the browser is shown nothing from there
    on, and the agent's run is cancelled. *)
Lemma pump_blank requestId ins (st : pump_state) evs e evs' :
  Forall quiet ins -> omap event_of ins = evs ++ e :: evs' ->
  Forall (showable requestId) evs -> Forall (fun e => is_terminator (Type_ e) = false) evs ->
  Type_ e <> "ping" -> encodable (buildWSFrame requestId e) = false ->
  let '(ex, st') := pump_loop requestId (fun _ => true) ins st in
  ex = Some ExWriteErr
  /\ shown (writes st') = shown (writes st) ++ List.map (buildWSFrame requestId) (evs ++ [e])
  /\ ups st' = ups st ++ [UpCancel]
  /\ captured st' = foldl (fun s e => announced e s) (captured st) (evs ++ [e]).
Proof.
  intros Hq Hev Hs Ht Hp Hd. apply omap_split in Hev as (ins1 & i & ins2 & -> & Hev & Hi).
  apply Forall_app in Hq as [Hq1 _]. destruct i as [| | |e'|]; try done. injection Hi as ->.
  rewrite Forall_lookup in Ht. pose proof (pump_quiet requestId ins1 st evs Hq1 Hev Hs) as G. rewrite pump_loop_app.
  destruct (pump_loop _ _ ins1 st) as [ex st1]. destruct G as (G1 & G2 & G3 & G4); [by intros i x Hi Hx; rewrite (Ht i x Hi) in Hx|].
  assert (ex = None) as ->.
  { rewrite G1. destruct (last evs) as [x|] eqn:E; [|done]. rewrite last_lookup in E. by rewrite (Ht _ _ E). }
  pose proof (step_spec requestId (fun _ => true) (InEvent e) st1) as Hstep. cbn [pump_loop pump_step] in Hstep |- *.
  rewrite Hd, andb_false_r in Hstep |- *. cbn [negb] in Hstep |- *. destruct Hstep as (H1 & H2 & H3). specialize (H1 Hp).
  rewrite H1, H2, H3, G2, G3, G4, List.map_app, foldl_app. cbn. rewrite <- app_assoc. by split_and!.
Qed.

(** The events of a stream that get through to the bridge. *)
Definition visible (l : list Stream.StreamEvent) : list Stream.StreamEvent := List.filter (fun e => negb (is_error e)) l.

Lemma until_split es : exists l tail,
  Server.until_terminator es = l ++ tail /\ Forall (fun e => is_terminator (se_Type e) = false) l
  /\ (tail = [] \/ exists e, tail = [e] /\ is_terminator (se_Type e) = true).
Proof.
  induction es as [|e es (l & tail & E & H1 & H2)]; cbn [Server.until_terminator]; [exists [], []; auto|].
  destruct (is_terminator (se_Type e)) eqn:Ee; [exists [], [e]; split_and!; eauto|].
  rewrite E. exists (e :: l), tail. split_and!; auto.
Qed.

(** A visible terminator is the last event. *)
Lemma visible_terminator es i e :
  visible (Server.until_terminator es) !! i = Some e -> is_terminator (se_Type e) = true ->
  S i = List.length (visible (Server.until_terminator es)).
Proof.
  destruct (until_split es) as (l & tail & -> & Hl & Ht). unfold visible. rewrite List.filter_app, length_app. intros Hi He.
  assert (Forall (fun e => is_terminator (se_Type e) = false) (List.filter (fun e => negb (is_error e)) l)) as Hf.
  { clear -Hl. induction Hl as [|x l Hx _ IH]; [done|]. simpl. destruct (is_error x); simpl; [done|by constructor]. }
  apply lookup_app_Some in Hi as [Hi|[Hi Hj]].
  { rewrite Forall_lookup in Hf. by rewrite (Hf _ _ Hi) in He. }
  destruct Ht as [->|(x & -> & _)]; [done|]. simpl in Hj |- *. destruct (is_error x); simpl in *; [done|].
  apply list_lookup_singleton_Some in Hj as [Hj _]. lia.
Qed.

Lemma announced_other l s :
  Forall (fun e => String.eqb (Type_ e) StreamStart = false) l -> foldl (fun s e => announced e s) s l = s.
Proof. induction 1 as [|e l He _ IH]; [done|]. simpl. unfold announced at 2. by rewrite He. Qed.

(** The pump ends with the stream's own end, if that gets through. *)
Lemma last_visible es :
  match last (visible (Server.until_terminator es)) with Some e => is_terminator (se_Type e) | None => false end
  = match last (Server.until_terminator es) with Some e => String.eqb (se_Type e) StreamComplete | None => false end.
Proof.
  destruct (until_split es) as (l & tail & -> & Hl & Ht).
  assert (visible l = l) as Hv.
  { clear -Hl. induction Hl as [|x l Hx _ IH]; [done|]. unfold visible in *. simpl. unfold is_terminator in Hx.
    apply orb_false_iff in Hx as [_ Hx]. unfold is_error at 1. by rewrite Hx, IH. }
  assert (match last l with Some e => is_terminator (se_Type e) | None => false end = false) as Hlast.
  { destruct (last l) as [x|] eqn:E; [|done]. apply last_Some in E as [l' ->]. apply Forall_app in Hl as [_ Hl].
    by rewrite Forall_singleton in Hl. }
  unfold visible in *. rewrite List.filter_app, Hv. destruct Ht as [->|(e & -> & He)].
  - rewrite !app_nil_r. destruct (last l) as [x|]; [|done]. rewrite Hlast. unfold is_terminator in Hlast.
    by apply orb_false_iff in Hlast as [-> _].
  - rewrite last_snoc. simpl. unfold is_terminator in He. destruct (is_error e) eqn:Ee; simpl.
    + rewrite app_nil_r, Hlast. unfold is_error in Ee. apply String.eqb_eq in Ee. by rewrite Ee.
    + rewrite last_snoc. unfold is_terminator. unfold is_error in Ee. by rewrite Ee, orb_false_r.
Qed.

Lemma visible_in l e : e ∈ visible l -> e ∈ l /\ is_error e = false.
Proof. rewrite !list_elem_of_In. unfold visible. rewrite filter_In. by rewrite negb_true_iff. Qed.
Lemma until_in l e : e ∈ Server.until_terminator l -> e ∈ l.
Proof.
  induction l as [|x l IH]; cbn [Server.until_terminator]; [done|].
  destruct (is_terminator (se_Type x)); [intros ->%list_elem_of_singleton; by left|].
  intros [->|H]%elem_of_cons; [by left|right; auto].
Qed.

Lemma last_of_imap {A B} (f : nat -> A -> B) l : last (imap f l) = f (pred (List.length l)) <$> last l.
Proof.
  induction l as [|x l _] using rev_ind; [done|]. rewrite imap_app, length_app, last_snoc. simpl. rewrite last_snoc.
  simpl. do 2 f_equal. lia.
Qed.

Lemma last_after {A} (P : A -> bool) l x :
  P x = false ->
  match last (x :: l) with Some e => P e | None => false end = match last l with Some e => P e | None => false end.
Proof. intros H. by destruct l. Qed.

Lemma announced_start streamID sid wfid reqid cur :
  sid <> "" -> announced (as_received streamID 0 (Server.start_event sid wfid reqid)) cur = sid.
Proof.
  intros Hs. transitivity (if str_empty sid then cur else sid); [reflexivity|]. by rewrite (proj2 (str_empty_false _) Hs).
Qed.

(** What the bridge can show: it has data, or announces the session. *)
Definition fit (x : Stream.StreamEvent) : Prop :=
  se_Type x <> "ping" /\ (se_Type x = StreamStart \/ se_Data x <> JNull) /\ is_error x = false.

Lemma imap_Forall {A B} (f : nat -> A -> B) (P : A -> Prop) (Q : B -> Prop) l :
  (forall n x, P x -> Q (f n x)) -> Forall P l -> Forall Q (imap f l).
Proof.
  intros H Hl. revert f H. induction Hl as [|x l Hx _ IH]; intros f H; cbn [imap]; constructor; [by apply H|].
  apply IH. intros n y. apply H.
Qed.

Lemma received_showable requestId streamID l : Forall fit l -> Forall (showable requestId) (imap (as_received streamID) l).
Proof.
  apply imap_Forall. intros n x (Hp & Hd & He). unfold showable, encodable, buildWSFrame. cbn [as_received Type_ Data Sequence].
  unfold is_error in He. rewrite He. split_and!; [done|done|]. destruct Hd as [->|Hd]; [done|].
  destruct (String.eqb (se_Type x) StreamStart); [done|]. cbn [ws_Data]. by destruct (se_Data x).
Qed.

(** The bridge receives the visible events of a stream, in order. *)
Lemma received streamID cancel prefix sid wfid reqid es :
  Forall Client.carriable es ->
  let evts := Server.start_event sid wfid reqid :: Server.until_terminator es in
  Z.of_nat (List.length evts) < 2 ^ 63 ->
  events (receive (Server.numbered streamID cancel prefix evts)) = imap (as_received streamID) (visible evts).
Proof.
  intros Hcar evts Hlen. assert (omap Server.op_event (List.map Server.OpSend es) = es) as Hops.
  { clear. induction es as [|e es IH]; [done|]. cbn [List.map]. rewrite <- IH at 2. done. }
  pose proof (bridge_receives streamID cancel prefix sid wfid reqid (List.map Server.OpSend es)) as Hb.
  unfold Server.session_events in Hb. rewrite Hops in Hb. exact (proj1 (Hb Hcar Hlen)).
Qed.

Lemma open_prefix es es' :
  Forall (fun e => is_terminator (se_Type e) = false) es ->
  Server.until_terminator (es ++ es') = es ++ Server.until_terminator es' /\ visible es = es.
Proof.
  induction 1 as [|e es He _ [IH1 IH2]]; [done|]. cbn [app Server.until_terminator]. rewrite He, IH1. split; [done|].
  unfold visible in *. cbn [List.filter]. unfold is_terminator in He. apply orb_false_iff in He as [_ He].
  unfold is_error at 1. by rewrite He, IH2.
Qed.

(** An event without data in a stream, as the browser sees it. *)
Lemma stream_blank streamID cancel prefix requestId sid wfid reqid es x es' ins :
  sid <> "" -> Forall Client.carriable (es ++ x :: es') ->
  Forall (fun e => se_Type e <> "ping" /\ se_Type e <> StreamStart) (es ++ [x]) ->
  Forall (fun e => is_terminator (se_Type e) = false) (es ++ [x]) ->
  Forall (fun e => se_Data e <> JNull) es -> se_Data x = JNull ->
  let evts := Server.start_event sid wfid reqid :: Server.until_terminator (es ++ x :: es') in
  Z.of_nat (List.length evts) < 2 ^ 63 ->
  Forall quiet ins -> omap event_of ins = events (receive (Server.numbered streamID cancel prefix evts)) ->
  let '(ex, st) := pumpEvents requestId (fun _ => true) ins in
  shown (writes st)
    = List.map (buildWSFrame requestId) (imap (as_received streamID) (Server.start_event sid wfid reqid :: es ++ [x]))
  /\ ups st = [UpCancel] /\ captured st = sid /\ ex = Some ExWriteErr.
Proof.
  intros Hsid Hcar Hty Hterm Hd Hx evts Hlen Hq Hev. rewrite (received _ _ _ _ _ _ _ Hcar Hlen) in Hev.
  apply Forall_app in Hty as [Hty Htx], Hterm as [Hterm Hxt]. rewrite Forall_singleton in Htx. rewrite Forall_singleton in Hxt.
  assert (visible evts = (Server.start_event sid wfid reqid :: es) ++ x :: visible (Server.until_terminator es')) as Hv.
  { unfold evts. rewrite (proj1 (open_prefix es (x :: es') Hterm)). cbn [Server.until_terminator]. rewrite Hxt.
    unfold visible at 1. cbn [List.filter]. rewrite List.filter_app. fold (visible es). rewrite (proj2 (open_prefix es [] Hterm)).
    assert (is_error x = false) as Hxe by (unfold is_terminator in Hxt; by apply orb_false_iff in Hxt as [_ ?]).
    cbn [List.filter app negb]. by rewrite Hxe. }
  fold evts in Hev. rewrite Hv, imap_app in Hev. cbn [imap] in Hev.
  assert (Forall fit es) as Hfit.
  { clear -Hty Hterm Hd. induction es as [|e es IH]; [done|]. apply Forall_cons in Hty as [[? ?] Hty], Hterm as [Ht Hterm], Hd as [? Hd].
    constructor; [|by apply IH]. unfold is_terminator in Ht. apply orb_false_iff in Ht as [_ Ht]. by split_and!; [|right|]. }
  destruct Htx as [Hxp Hxs].
  pose proof (pump_blank requestId ins (mkPump "" [] []) _ _ _ Hq Hev) as G. unfold pumpEvents.
  destruct (pump_loop _ _ ins _) as [ex st]. destruct G as (G1 & G2 & G3 & G4).
  - apply (received_showable requestId streamID (Server.start_event sid wfid reqid :: es)). constructor; [by split_and!; [|left|]|done].
  - apply (imap_Forall _ (fun e => is_terminator (se_Type e) = false) _ (Server.start_event sid wfid reqid :: es)); [done|by constructor].
  - done.
  - unfold encodable, buildWSFrame. cbn [as_received Type_ Data]. by rewrite (proj2 (String.eqb_neq _ _) Hxs), Hx.
  - split_and!; [|done| |done].
    + rewrite G2. cbn [shown writes List.filter app]. f_equal.
      change (Server.start_event sid wfid reqid :: es ++ [x]) with ((Server.start_event sid wfid reqid :: es) ++ [x]).
      by rewrite imap_app.
    + rewrite G4. cbn [app foldl]. rewrite announced_other; [by apply announced_start|]. apply Forall_app. split.
      * apply (imap_Forall _ (fun e => se_Type e <> "ping" /\ se_Type e <> StreamStart)); [|done].
        intros n y [_ Hy]. by apply String.eqb_neq.
      * constructor; [|done]. by apply String.eqb_neq.
Qed.

(** A stream whose first event announces its session, whatever follows up to the
    terminator, as the browser sees it. *)
Lemma stream_shown streamID cancel prefix requestId sid wfid reqid es ins :
  sid <> "" ->
  Forall Client.carriable es ->
  Forall (fun e => se_Type e <> "ping" /\ se_Type e <> StreamStart /\ se_Data e <> JNull) es ->
  let evts := Server.start_event sid wfid reqid :: Server.until_terminator es in
  Z.of_nat (List.length evts) < 2 ^ 63 ->
  Forall quiet ins -> omap event_of ins = events (receive (Server.numbered streamID cancel prefix evts)) ->
  let '(ex, st) := pumpEvents requestId (fun _ => true) ins in
  shown (writes st) = List.map (buildWSFrame requestId) (imap (as_received streamID) (visible evts))
  /\ ups st = [] /\ captured st = sid
  /\ ex = (match last evts with
           | Some e => if String.eqb (se_Type e) StreamComplete then Some ExTerminal else None
           | None => None
           end).
Proof.
  intros Hsid Hcar Hty evts Hlen Hq Hev.
  rewrite (received _ _ _ _ _ _ _ Hcar Hlen) in Hev. fold evts in Hev.
  assert (forall i e, imap (as_received streamID) (visible evts) !! i = Some e ->
            exists x, visible evts !! i = Some x /\ Type_ e = se_Type x) as Hlook.
  { intros i e Hi. rewrite list_lookup_imap in Hi. destruct (visible evts !! i) as [x|]; [|done]. injection Hi as <-. by exists x. }
  change (visible evts) with (Server.start_event sid wfid reqid :: visible (Server.until_terminator es)) in Hev, Hlook |- *.
  assert (forall x, x ∈ visible (Server.until_terminator es) ->
            (se_Type x <> "ping" /\ se_Type x <> StreamStart /\ se_Data x <> JNull) /\ is_error x = false) as Hin.
  { intros x [Hx He]%visible_in. apply until_in in Hx. rewrite Forall_forall in Hty. split; [by apply Hty|done]. }
  pose proof (pump_quiet requestId ins (mkPump "" [] []) _ Hq Hev) as G. unfold pumpEvents.
  destruct (pump_loop requestId (fun _ => true) ins (mkPump "" [] [])) as [ex st].
  destruct G as (G1 & G2 & G3 & G4).
  - apply received_showable. constructor; [by split_and!; [|left|]|]. apply Forall_forall. intros x Hx.
    destruct (Hin x Hx) as [(? & ? & ?) He]. by split_and!; [|right|].
  - intros i e Hi He. destruct (Hlook i e Hi) as (x & Hx & E). rewrite E in He. rewrite length_imap.
    destruct i as [|i]; [by injection Hx as <-|]. cbn [List.length]. f_equal. by apply (visible_terminator es i x).
  - split_and!; [done|done| |].
    + rewrite G4. cbn [imap foldl]. rewrite announced_other; [by apply announced_start|].
      apply Forall_forall. intros e (i & Hi)%list_elem_of_lookup. destruct (Hlook (S i) e Hi) as (x & Hx & ->).
      apply (list_elem_of_lookup_2 (visible _) i x) in Hx. destruct (Hin x Hx) as [(_ & Hs & _) _]. by apply String.eqb_neq.
    + rewrite G1, last_of_imap. pose proof (last_visible es) as Hl. unfold evts.
      rewrite <- (last_after (fun e => is_terminator (se_Type e)) _ (Server.start_event sid wfid reqid)) in Hl by done.
      rewrite <- (last_after (fun e => String.eqb (se_Type e) StreamComplete) _ (Server.start_event sid wfid reqid)) in Hl by done.
      revert Hl. destruct (last (_ :: visible _)) as [x|]; destruct (last (_ :: Server.until_terminator _)) as [y|]; cbn;
        intros E; first [done|by rewrite E|by rewrite <- E].
Qed.
End Shown.

(** ** The agent's own turn as the browser sees it *)
Module AgentTurn.
Import Inbox Pump Shown Sinks Trigger.

Section turn.
Variable raw : string -> option json.
Context {W : Type}.
Variable host : Host (W := W).
Variable a : agentNode (W := W).
Variable session : W -> Server.StreamSession.
Variables streamID cancelSubj toolPrefix sessionID requestID workflow_id : string.
Variable conn_error : Z -> option string.
Context {laws : SinkHost (K := K streamID cancelSubj toolPrefix conn_error) raw host a session}.

Lemma visible_wire (l : list client_event) : Forall intermediate l -> visible (List.map (wire raw) l) = List.map (wire raw) l.
Proof using.
  induction 1 as [|e l He _ IH]; [done|]. unfold visible in *. cbn [List.map List.filter].
  assert (is_error (wire raw e) = false) as -> by (by destruct e). cbn [negb]. by rewrite IH.
Qed.

Lemma agent_carriable l e : Forall Client.carriable (List.map (wire raw) l ++ [wire_event (true, Turn.encode raw e)]).
Proof using.
  apply Forall_app. split; [|constructor; [|done]]; [apply Forall_fmap, Forall_true; intros x|]; apply wire_event_carriable, encode_header.
Qed.
Lemma agent_types l e :
  Forall (fun x => se_Type x <> "ping" /\ se_Type x <> StreamStart) (List.map (wire raw) l ++ [wire_event (true, Turn.encode raw e)]).
Proof using.
  apply Forall_app. split; [|constructor; [|done]]; [apply Forall_fmap, Forall_true; intros x; by destruct x|by destruct e].
Qed.
Lemma visible_app l l' : visible (l ++ l') = visible l ++ visible l'.
Proof using. apply List.filter_app. Qed.

Local Notation carries := (carries raw).
Lemma wire_data e : if carries e then se_Data (wire raw e) <> JNull else se_Data (wire raw e) = JNull.
Proof using. exact (encode_data raw e). Qed.

(** The events before the first without data, and that one. *)
Fixpoint until_blank (l : list client_event) : list client_event * option client_event :=
  match l with
  | [] => ([], None)
  | e :: l => if carries e then let '(l', b) := until_blank l in (e :: l', b) else ([], Some e)
  end.
Lemma until_blank_spec l :
  let '(l', b) := until_blank l in
  Forall (fun e => se_Data e <> JNull) (List.map (wire raw) l')
  /\ match b with
     | None => l' = l
     | Some x => carries x = false /\ exists r, l = l' ++ x :: r
     end.
Proof using.
  induction l as [|e l IH]; cbn [until_blank]; [by split|]. pose proof (wire_data e) as Hd. destruct (carries e) eqn:E.
  - destruct (until_blank l) as [l' b]. destruct IH as [H1 H2]. split; [by constructor|].
    destruct b as [x|]; [|by subst]. destruct H2 as (Hx & r & ->). split; [done|]. by exists r.
  - split; [constructor|]. split; [done|]. by exists l.
Qed.

(** What the bridge makes of a turn's stream. *)
Lemma turn_seen i w :
  (forall n, conn_error n = None) -> sessionID <> "" ->
  session w = started streamID cancelSubj toolPrefix sessionID requestID workflow_id conn_error ->
  let l := sent_by host a i w in
  exists e, Forall intermediate l
  /\ (match e with
      | CComplete _ _ => True
      | CError _ msg => exists cause, (Process host a i (mkState w [])).1 = Some cause /\ msg = Error cause
      | _ => False
      end)
  /\ let published := Server.published (stream_turn host a session streamID cancelSubj toolPrefix conn_error i w) in
     let sent l := Server.start_event sessionID workflow_id requestID :: List.map (wire raw) l in
     let frames evts := List.map (buildWSFrame requestID) (imap (as_received streamID) evts) in
     Z.of_nat (List.length published) < 2 ^ 63 ->
     forall ins, Forall quiet ins -> omap event_of ins = events (receive published) ->
     let '(ex, st) := pumpEvents requestID (fun _ => true) ins in
     captured st = sessionID
     /\ match until_blank l, e with
        | (l', Some x), _ => shown (writes st) = frames (sent (l' ++ [x])) /\ ups st = [UpCancel] /\ ex = Some ExWriteErr
        | (_, None), CComplete _ _ =>
            shown (writes st) = frames (sent l ++ [wire_event (true, Turn.encode raw e)]) /\ ups st = [] /\ ex = Some ExTerminal
        | (_, None), _ => shown (writes st) = frames (sent l) /\ ups st = [] /\ ex = None
        end.
Proof using laws.
  intros Hc Hs Hw l.
  destruct (turn_session raw host a session streamID cancelSubj toolPrefix sessionID requestID workflow_id conn_error i w Hw)
    as (e & ops & Hi & He & Hrun & Hev & Hcar). fold l in Hi, Hev. clearbody l.
  exists e. split_and!; [done|done|]. intros published sent frames Hlen ins Hq Hin.
  set (term := wire_event (true, Turn.encode raw e)) in *.
  assert (is_terminator (se_Type term) = true) as Ht by (unfold term; by rewrite wire_event_ends).
  assert (Forall (fun e => is_terminator (se_Type e) = false) (List.map (wire raw) l)) as Hopen
    by (apply Forall_fmap; eapply Forall_impl; [exact Hi|]; apply wire_intermediate).
  assert (Server.until_terminator (List.map (wire raw) l ++ [term]) = List.map (wire raw) l ++ [term]) as Hu by (by apply until_last).
  destruct (Server.session_facts streamID cancelSubj toolPrefix conn_error sessionID workflow_id requestID ops Hc) as (Hp & _).
  rewrite <- Hrun, Hev, <- Hu in Hp. fold published in Hp. rewrite Hp in Hin, Hlen.
  unfold Server.numbered in Hlen. rewrite length_imap in Hlen. pose proof (agent_carriable l e) as Hcarr. fold term in Hcarr.
  pose proof (agent_types l e) as Hty. fold term in Hty.
  pose proof (until_blank_spec l) as Hb. destruct (until_blank l) as [l' [x|]]; destruct Hb as [Hd Hb].
  - destruct Hb as (Hx & r & ->). rewrite List.map_app in Hcarr, Hty, Hopen, Hlen, Hin. cbn [List.map] in Hcarr, Hty, Hopen, Hlen, Hin.
    rewrite <- app_assoc in Hcarr, Hty, Hlen, Hin. cbn [app] in Hcarr, Hty, Hlen, Hin.
    pose proof (stream_blank streamID cancelSubj toolPrefix requestID sessionID workflow_id requestID
                  (List.map (wire raw) l') (wire raw x) (List.map (wire raw) r ++ [term]) ins Hs Hcarr) as G.
    destruct (pumpEvents _ _ ins) as [ex st]. destruct G as (G1 & G2 & G3 & G4); try done; [| |by pose proof (wire_data x) as Hwx; rewrite Hx in Hwx|].
    + rewrite cons_middle, app_assoc in Hty. by apply Forall_app in Hty as [? _].
    + rewrite cons_middle, app_assoc in Hopen. by apply Forall_app in Hopen as [? _].
    + split_and!; try done. unfold frames, sent. rewrite G1, List.map_app. done.
  - subst l'. pose proof (stream_shown streamID cancelSubj toolPrefix requestID sessionID workflow_id requestID
                (List.map (wire raw) l ++ [term]) ins Hs Hcarr) as G. cbv zeta in G. rewrite Hu in G, Hin, Hlen.
    destruct (pumpEvents _ _ ins) as [ex st]. destruct G as (G1 & G2 & G3 & G4); [|done|done|done|].
    { apply Forall_app in Hty as [Hty1 Hty2]. apply Forall_app. split.
      - apply Forall_forall. intros y Hy. rewrite Forall_forall in Hty1, Hd. destruct (Hty1 y Hy). split_and!; auto.
      - rewrite Forall_singleton in Hty2. destruct Hty2. constructor; [|done]. split_and!; [done|done|by destruct e]. }
    assert (visible (Server.start_event sessionID workflow_id requestID :: List.map (wire raw) l ++ [term]) = sent l ++ visible [term]) as Hv.
    { transitivity (Server.start_event sessionID workflow_id requestID :: visible (List.map (wire raw) l ++ [term])); [done|].
      by rewrite visible_app, visible_wire. }
    rewrite Hv in G1. rewrite app_comm_cons, last_snoc in G4. split_and!; [done|]. rewrite G1, G2, G4. unfold frames.
    destruct e; try done. change (visible [term]) with (@nil Stream.StreamEvent). by rewrite app_nil_r.
Qed.

(** C16: What the browser sees of the agent's turn: the start of the answer, everything
    the agent streamed in order, and its end if it completed; but the end of a failed
    turn never comes - the bridge drops the error and goes on waiting - and neither does
    anything after a payload that is no JSON text (the arguments of a tool call that has
    none are the empty text): that event has no data, the bridge fails to write it and
    cancels the agent's run. *)
Theorem turn_shown i w :
  (forall n, conn_error n = None) -> sessionID <> "" ->
  session w = started streamID cancelSubj toolPrefix sessionID requestID workflow_id conn_error ->
  let l := sent_by host a i w in
  exists e, Forall intermediate l
  /\ (match e with
      | CComplete _ _ => True
      | CError _ msg => exists cause, (Process host a i (mkState w [])).1 = Some cause /\ msg = Error cause
      | _ => False
      end)
  /\ let published := Server.published (stream_turn host a session streamID cancelSubj toolPrefix conn_error i w) in
     let sent l := Server.start_event sessionID workflow_id requestID :: List.map (wire raw) l in
     let frames evts := List.map (buildWSFrame requestID) (imap (as_received streamID) evts) in
     Z.of_nat (List.length published) < 2 ^ 63 ->
     forall ins, Forall quiet ins -> omap event_of ins = events (receive published) ->
     let '(ex, st) := pumpEvents requestID (fun _ => true) ins in
     captured st = sessionID
     /\ match until_blank l, e with
        | (l', Some x), _ => shown (writes st) = frames (sent (l' ++ [x])) /\ ups st = [UpCancel] /\ ex = Some ExWriteErr
        | (_, None), CComplete _ _ =>
            shown (writes st) = frames (sent l ++ [wire_event (true, Turn.encode raw e)]) /\ ups st = [] /\ ex = Some ExTerminal
        | (_, None), _ => shown (writes st) = frames (sent l) /\ ups st = [] /\ ex = None
        end.
Proof using laws. apply turn_seen. Qed.
Lemma all_carry l : Forall (fun e => carries e = true) l -> until_blank l = (l, None).
Proof using. induction 1 as [|e l He _ IH]; [done|]. cbn [until_blank]. by rewrite He, IH. Qed.
End turn.

Section sources.
Context {W : Type}.
Variable host : Host (W := W).
Variable a : agentNode (W := W).
Variable session : W -> Server.StreamSession.
Variables streamID cancelSubj toolPrefix sessionID requestID workflow_id : string.
Variable conn_error : Z -> option string.
Context {laws : SinkHost (K := K streamID cancelSubj toolPrefix conn_error) Text.parse host a session}.
Context {sources : Payloads.JsonSources host a}.

(** C35: Nothing of a turn is lost on the way to the browser but the end of a failure: if
    the model's tool calls, the tools' outputs and the browser's answers are JSON text,
    then every event the agent sends - its own error and retry payloads included - has
    its data and is shown, in order, after the start of the answer; a turn that completes
    ends with its answer, and the run is not cancelled. *)
Theorem all_shown i w :
  (forall n, conn_error n = None) -> sessionID <> "" ->
  session w = started streamID cancelSubj toolPrefix sessionID requestID workflow_id conn_error ->
  let published := Server.published (stream_turn host a session streamID cancelSubj toolPrefix conn_error i w) in
  let sent := Server.start_event sessionID workflow_id requestID :: List.map (wire Text.parse) (sent_by host a i w) in
  let frames evts := List.map (buildWSFrame requestID) (imap (as_received streamID) evts) in
  Z.of_nat (List.length published) < 2 ^ 63 ->
  forall ins, Forall quiet ins -> omap event_of ins = events (receive published) ->
  let '(ex, st) := pumpEvents requestID (fun _ => true) ins in
  captured st = sessionID /\ ups st = []
  /\ ((exists text stop, shown (writes st) = frames (sent ++ [wire_event (true, Turn.encode Text.parse (CComplete text stop))])
                         /\ ex = Some ExTerminal)
      \/ (shown (writes st) = frames sent /\ ex = None /\ (Process host a i (mkState w [])).1 <> None)).
Proof using laws sources.
  intros Hc Hs Hw published sent frames Hlen ins Hq Hin.
  destruct (turn_seen Text.parse host a session streamID cancelSubj toolPrefix sessionID requestID workflow_id conn_error
              i w Hc Hs Hw) as (e & _ & He & H). specialize (H Hlen ins Hq Hin). destruct (pumpEvents _ _ ins) as [ex st].
  rewrite (all_carry _ _ (Payloads.turn_carries host a i w)) in H. destruct H as [H1 H2]. split; [done|].
  destruct e as [| | | | |text stop|code msg]; try done; destruct H2 as (H2 & H3 & H4); (split; [done|]).
  - left. by exists text, stop.
  - right. destruct He as (cause & -> & _). by split_and!.
Qed.
End sources.
End AgentTurn.

(** ** One turn, from the browser's words to the frames it is shown *)
Module Round.
Import Conversation Trigger Tokens Inbox Pump Wire Shown Sinks.

Section round.
(** The trigger, its workflow and the host's bus adapter. *)
Variable cfg : Config.Config.
Variable workflowID : string.
Variable access : Access.IndexAccess.
Variable sha256_hex : string -> string.
Context {Time : Type}.
Variable mapping : string -> option (res string string).
Variable uploader : option (string -> string -> string -> string -> res string string).
Variable wf : Loading.Workflow.
Variable clock : nat -> Z.
(** The headers the host sends: its credential and the ones the bridge asks for. *)
Variable attach : string -> list (string * string) -> gmap string (list string).

(** What differs from turn to turn: the agent's behaviour, the time, the bus, the token
    service, and what the bridge meets while it pumps. *)
Record serving := mkServing {
  sv_process : string -> Identity -> Exec.AgentInput (Time := Time) -> sink_prog (option string);
  sv_now : Time;
  sv_net : bus;
  sv_ask : string -> json -> reply;
  sv_at : instants;
  sv_idt : string;
  sv_inbox : string;
  sv_fresh : string;
  sv_inputs : list streamEvent -> list input;
  sv_after : list Frames.ClientFrame;
}.

(** A refusal as the bus library sends it. *)
Variable respond : service_error -> Msg.

Definition serve (sv : serving) (v : Validator) (msg : NatsMessage) : outcome * Validator :=
  handle cfg workflowID access sha256_hex (sv_process sv) mapping uploader (sv_now sv) wf clock (sv_net sv)
    true false v (sv_ask sv) (sv_at sv) msg.

(** What reaches the bridge's inbox; a single reply carries no event and is dropped. *)
Definition inbox_of (o : outcome) : list Msg :=
  match o with
  | Streaming s => Server.published s
  | Refused e => [respond e]
  | Answered body => [mkMsg {[HdrStatus := "200"]} body]
  end.

Section who.
Variable natsBasePath : string.
Variable who : tokenEntry.

Definition request_of (sv : serving) (o : opening) : NatsMessage :=
  doNatsStreamingRequest (attach (sv_idt sv)) (sv_inbox sv) (sv_fresh sv) (turn_request natsBasePath who o).
(** The subscription's timeout closes it in the end, whatever the answer was. *)
Definition env_of (sv : serving) (out : outcome) : turn_env :=
  mkTurnEnv true (sv_inputs sv (events (receive (inbox_of out))) ++ [InEof]) (sv_after sv).

(** The session and the identity the agent is given. *)
Definition session_of (sv : serving) (o : opening) : string := Config.str_or (op_session o) (fresh_session (sv_net sv)).

(** The host attaches the identity headers, its credential under a header of its own, and the trigger reads the ones it expects. *)
Hypothesis attach_law : forall idt hs k v, NoDup hs.*1 -> (k, v) ∈ hs -> k <> HeaderIDT -> Get (attach idt hs) k = v.
Hypothesis default_headers : Config.dec_source None = Some (Config.Source cfg).
Hypothesis streaming_mode : Config.resolveResponseMode cfg "" = Some Config.responseModeStreaming.

Lemma headers_back sv o :
  let get := Get (nm_Header (request_of sv o)) in
  get "X-Account-Id" = accountId who /\ get "X-User-Id" = userId who
  /\ get "X-User-Name" = userName who /\ get "X-Time-Zone" = op_tz o.
Proof using attach_law.
  cbv zeta. assert (NoDup (ob_headers (turn_request natsBasePath who o)).*1) as Hn
    by (cbn; apply (bool_decide_unpack _); vm_compute; exact I).
  split_and!; apply request_header; try discriminate; apply attach_law; try exact Hn; cbn; try discriminate; repeat (apply list_elem_of_here || apply list_elem_of_further).
Qed.

(** The identity the workflow runs as, after the token check. *)
Definition identity_of sv o (user account : string) : Identity :=
  mkIdentity (Get (nm_Header (request_of sv o)) "_User_Id") user account (userName who) (op_tz o).

(** The request of an admitted opening is served as a stream, under its session and
    with what the user said. *)
Lemma request_served sv v o user account v' :
  op_text o <> "" -> accountId who <> "" -> userId who <> "" ->
  Forall (fun a => int64_range (att_Size a)) (op_atts o) ->
  authorizeIDT workflowID access sha256_hex v (sv_ask sv) (sv_at sv) (request_of sv o) (userId who) (accountId who)
    = (Ok (user, account), v') ->
  serve sv v (request_of sv o)
  = (handleStreaming workflowID (sv_process sv) mapping uploader (sv_now sv) wf clock (sv_net sv)
       (request_of sv o) (session_of sv o) (identity_of sv o user account), v').
Proof using attach_law default_headers streaming_mode.
  intros Ht Hacc Huser Hs Hauth. destruct (headers_back sv o) as (Ha & Hu & Hn & Hz).
  unfold serve. erewrite handle_streams; [|exact default_headers|apply body_back|exact Ht|exact streaming_mode|by rewrite Ha|by rewrite Hu|
    by rewrite Ha, Hu].
  unfold identity_of, session_of. by rewrite Hn, Hz.
Qed.

Lemma wire_not_ping c : se_Type (wire_event c) <> "ping".
Proof. destruct c as [[] e]; cbn; [by destruct (bool_decide _)|by destruct (ev_Type e)]. Qed.

(** The agent's calls are carried as they are: they set no header of the protocol's,
    none of them is another start, and each has data. *)
Definition plain (c : bool * Events.StreamEvent) : Prop :=
  Client.carriable (wire_event c) /\ se_Type (wire_event c) <> StreamStart /\ se_Data (wire_event c) <> JNull.

(** A stream that is opened is shown. *)
Lemma answer_shown requestId sv msg sid id :
  let s0 := open_session workflowID (sv_net sv) msg sid in
  let calls := emitted (K := streamSinkAdapter (stream_id (sv_net sv) msg) (cancel_subject (sv_net sv))
                               (tool_prefix (sv_net sv) msg) (publish_error (sv_net sv)))
                 (sv_process sv) mapping uploader (sv_now sv) wf (request_event msg sid id) s0 in
  let evts := Server.start_event sid workflowID (nm_MessageId msg) :: Server.until_terminator (List.map wire_event calls) in
  sid <> "" -> accepted (sv_net sv) msg -> Forall plain calls -> Z.of_nat (List.length evts) < 2 ^ 63 ->
  exists s, handleStreaming workflowID (sv_process sv) mapping uploader (sv_now sv) wf clock (sv_net sv) msg sid id = Streaming s
     /\ forall ins, Forall quiet ins -> omap event_of ins = events (receive (Server.published s)) ->
        let '(ex, st) := pumpEvents requestId (fun _ => true) ins in
        shown (writes st)
          = List.map (buildWSFrame requestId) (imap (as_received (stream_id (sv_net sv) msg)) (visible evts))
        /\ ups st = [] /\ captured st = sid
        /\ ex = match last evts with
                | Some e => if String.eqb (se_Type e) StreamComplete then Some ExTerminal else None
                | None => None
                end.
Proof using.
  intros s0 calls evts Hsid Hok Hplain Hlen.
  destruct (streaming_session workflowID (sv_process sv) mapping uploader (sv_now sv) wf clock (sv_net sv) msg sid id Hok)
    as (s & ops & H1 & H2 & H3).
  exists s. split; [exact H1|]. intros ins Hq Hev. destruct Hok as (_ & _ & Hp).
  destruct (Server.session_facts (stream_id (sv_net sv) msg) (cancel_subject (sv_net sv)) (tool_prefix (sv_net sv) msg)
              (publish_error (sv_net sv)) sid workflowID (nm_MessageId msg) ops Hp) as (F1 & _).
  rewrite <- H2 in F1. unfold Server.session_events in F1. rewrite H3 in F1.
  change (emitted _ _ _ _ _ _ _) with calls in F1. rewrite F1 in Hev.
  apply (stream_shown _ (cancel_subject (sv_net sv)) (tool_prefix (sv_net sv) msg)); try done.
  - apply Forall_fmap. eapply Forall_impl; [exact Hplain|]. by intros c [? _].
  - apply Forall_fmap. eapply Forall_impl; [exact Hplain|]. intros c (_ & ? & ?). split_and!; [apply wire_not_ping|done|done].
Qed.

(** C3: A question answered.  Take a workflow with the default header names that streams, a
    bus that accepts the start and the events, and a turn whose events the transport can
    carry: each has a type and data, sets no header of the protocol, and is no second
    start.  The non-empty message of an admitted browser is then served under the identity
    the token check returns, and the agent is given its words, its files and its session.
    When all that is published arrives, and neither the browser nor the clock cuts in, the
    browser is shown the start frame and then, in order and up to the first end of the
    answer, every event the agent sends which is not an error event (those are published
    but the bridge does not show them, [visible]); and the bridge keeps the session for
    the next turn. *)
Theorem question_answered requestId sv v o user account v' :
  let msg := request_of sv o in
  let sid := session_of sv o in
  let evt := request_event msg sid (identity_of sv o user account) in
  let s0 := open_session workflowID (sv_net sv) msg sid in
  let calls := emitted (K := streamSinkAdapter (stream_id (sv_net sv) msg) (cancel_subject (sv_net sv))
                               (tool_prefix (sv_net sv) msg) (publish_error (sv_net sv)))
                 (sv_process sv) mapping uploader (sv_now sv) wf evt s0 in
  let evts := Server.start_event sid workflowID (nm_MessageId msg) :: Server.until_terminator (List.map wire_event calls) in
  op_text o <> "" -> accountId who <> "" -> userId who <> "" -> sid <> "" ->
  Forall (fun a => int64_range (att_Size a)) (op_atts o) ->
  authorizeIDT workflowID access sha256_hex v (sv_ask sv) (sv_at sv) msg (userId who) (accountId who)
    = (Ok (user, account), v') ->
  accepted (sv_net sv) msg -> Forall plain calls -> Z.of_nat (List.length evts) < 2 ^ 63 ->
  let agent := Exec.agent_input mapping uploader (sv_now sv) wf evt in
  (Exec.in_Message agent = op_text o /\ Exec.in_SessionID agent = sid /\ Exec.in_UserID agent = user
   /\ Exec.in_Attachments agent = match uploader with
                                  | Some up => Exec.persistAttachments up sid (op_atts o)
                                  | None => op_atts o
                                  end)
  /\ exists s, serve sv v msg = (Streaming s, v')
     /\ forall ins, Forall quiet ins -> omap event_of ins = events (receive (Server.published s)) ->
        let '(ex, st) := pumpEvents requestId (fun _ => true) ins in
        shown (writes st)
          = List.map (buildWSFrame requestId) (imap (as_received (stream_id (sv_net sv) msg)) (visible evts))
        /\ ups st = [] /\ captured st = sid
        /\ ex = match last evts with
                | Some e => if String.eqb (se_Type e) StreamComplete then Some ExTerminal else None
                | None => None
                end.
Proof using attach_law default_headers streaming_mode.
  intros msg sid evt s0 calls evts Ht Hacc Huser Hsid Hs Hauth Hok Hplain Hlen agent. split.
  - pose proof (chat_back (turn_request natsBasePath who o) Hs) as Hb. unfold agent, Exec.agent_input.
    change (Exec.te_Body evt) with (Some (streamRequestEnvelope (turn_request natsBasePath who o))). rewrite Hb.
    by destruct uploader.
  - destruct (answer_shown requestId sv msg sid (identity_of sv o user account) Hsid Hok Hplain Hlen) as (s & H1 & H2).
    exists s. split; [|exact H2]. unfold msg. rewrite (request_served sv v o user account v') by done. by f_equal.
Qed.

(** *** Refusals *)
Hypothesis respond_status : forall e, header (respond e) HdrStatus = print_Z (se_status e).
Hypothesis respond_data : forall e, dec_struct (Some (m_Data (respond e))) = Some (as_obj (Some (m_Data (respond e))))
  /\ as_obj (Some (m_Data (respond e))) !! "status" = Some (JNum (se_status e)).

Lemma serve_cases sv v o out v' :
  serve sv v (request_of sv o) = (out, v') ->
  (exists e, out = Refused e /\ graded e)
  \/ exists id, out = handleStreaming workflowID (sv_process sv) mapping uploader (sv_now sv) wf clock (sv_net sv)
                       (request_of sv o) (session_of sv o) id.
Proof using streaming_mode.
  intros Hs. destruct out as [e|s|r]; [left; exists e; split; [done|by eapply handle_graded]|right|right];
    revert Hs; unfold serve, handle; destruct (_ && _); try done; destruct (_ && _); try done;
    destruct (authorizeIDT _ _ _ _ _ _ _ _ _) as [[[user account]|e] v1]; try done;
    change (nm_Body (request_of sv o)) with (Some (streamRequestEnvelope (turn_request natsBasePath who o)));
    rewrite body_back; cbn [cb_Message cb_SessionID cb_ResponseMode turn_request ob_text ob_session negb];
    (destruct (str_empty (op_text o)); [done|]); rewrite streaming_mode, String.eqb_refl; intros [= <- _]; by eexists.
Qed.

Lemma refused_inbox e : graded e -> events (receive [respond e]) = [mkEvt StreamError 0 (header (respond e) HdrStreamId) (m_Data (respond e))].
Proof using respond_status.
  intros He. unfold receive. cbn [foldl]. unfold on_message, parseStreamMessage. cbn [closed new_subscription].
  rewrite respond_status. by destruct He as [-> | ->].
Qed.

Lemma not_terminal e : graded e -> isTerminalStreamError (m_Data (respond e)) = false.
Proof using respond_data.
  intros He. unfold isTerminalStreamError. destruct (respond_data e) as [-> H2]. cbn [mbind option_bind]. rewrite H2.
  by destruct He as [-> | ->].
Qed.

Lemma refused_turn requestId sv v o e v' :
  serve sv v (request_of sv o) = (Refused e, v') ->
  let t := env_of sv (Refused e) in
  let evs := events (receive (inbox_of (Refused e))) in
  Forall quiet (sv_inputs sv evs) -> omap event_of (sv_inputs sv evs) = evs ->
  runOneTurn requestId (fun _ => true) t = ("", false)
  /\ shown (writes (pumpEvents requestId (fun _ => true) (seen t)).2) = [mkWs StreamError 0 (m_Data (respond e))]
  /\ (pumpEvents requestId (fun _ => true) (seen t)).1 = Some ExTerminal.
Proof using streaming_mode respond_status respond_data.
  intros Hs t evs Hq Hev.
  assert (graded e) as He.
  { destruct (serve_cases sv v o _ v' Hs) as [(e' & [= <-] & H)|(id & H)]; [done|]. symmetry in H. by eapply streaming_graded. }
  assert (evs = [mkEvt StreamError 0 (header (respond e) HdrStreamId) (m_Data (respond e))]) as E by exact (refused_inbox e He).
  rewrite E in Hev at 2.
  unfold runOneTurn, t, env_of. cbn [opens seen]. rewrite pump_eof. unfold pumpEvents. fold evs.
  pose proof (pump_quiet requestId _ (mkPump "" [] []) _ Hq Hev) as G.
  destruct (pump_loop requestId (fun _ => true) _ (mkPump "" [] [])) as [ex st]. destruct G as (-> & G2 & _ & G4).
  - constructor; [|constructor]. split_and!; [done|cbn [Type_ Data]; by rewrite (not_terminal e He)|].
    unfold encodable. cbn. pose proof (proj2 (respond_data e)) as Hd. by destruct (m_Data (respond e)).
  - by intros [|i] e' [= <-] _.
  - cbn [fst snd]. rewrite G2, G4. by split_and!.
Qed.

(** C9: A refused turn is never the end of a conversation: whatever the trigger refuses
    it for - a token the identity service denies included - the browser is shown one
    error frame, the turn announces no session and the bridge takes the next message.
    The trigger's errors carry status 400 or 500, and the bridge closes only on 401 or
    403. *)
Theorem denial_not_fatal requestId sv v o e v' :
  serve sv v (request_of sv o) = (Refused e, v') ->
  let t := env_of sv (Refused e) in
  let evs := events (receive (inbox_of (Refused e))) in
  Forall quiet (sv_inputs sv evs) -> omap event_of (sv_inputs sv evs) = evs ->
  runOneTurn requestId (fun _ => true) t = ("", false)
  /\ shown (writes (pumpEvents requestId (fun _ => true) (seen t)).2) = [mkWs StreamError 0 (m_Data (respond e))]
  /\ (pumpEvents requestId (fun _ => true) (seen t)).1 = Some ExTerminal.
Proof using streaming_mode respond_status respond_data. apply refused_turn. Qed.

(** *** A conversation: the bridge's loop against the service *)
Record exchange := mkExchange {
  xc_message : NatsMessage;
  xc_session : string;         (* the session the agent runs under *)
  xc_outcome : outcome;
  xc_frames : list wsFrame;
}.
Fixpoint talk (requestId : string) (v : Validator) (o : opening) (l : list serving) : list exchange :=
  match l with
  | [] => []
  | sv :: l =>
      let '(out, v) := serve sv v (request_of sv o) in
      let t := env_of sv out in
      let '(sid, fatal) := runOneTurn requestId (fun _ => true) t in
      mkExchange (request_of sv o) (session_of sv o) out (writes (pumpEvents requestId (fun _ => true) (seen t)).2) ::
      (if fatal then []
       else match next_user (afterwards t) with
       | None => []
       | Some d =>
           talk requestId v
             (mkOpening (Frames.um_Text d) (if str_empty sid then op_session o else sid) (op_workflow o) (op_index o)
                (if str_empty (Frames.um_TimeZone d) then op_tz o else Frames.um_TimeZone d) (Frames.um_Attachments d)) l
       end)
  end.

(** The bridge's side of it is the conversation of Bridge.v. *)
Lemma talk_converse requestId v o l :
  exists ts, List.map (fun x => nm_Body (xc_message x)) (talk requestId v o l)
             = List.map (fun ob => Some (streamRequestEnvelope ob)) (converse natsBasePath who requestId (fun _ => true) o ts).
Proof using.
  revert v o. induction l as [|sv l IH]; intros v o; [by exists []|]. cbn [talk].
  destruct (serve sv v (request_of sv o)) as [out v1]. set (t := env_of sv out).
  destruct (runOneTurn requestId (fun _ => true) t) as [sid fatal] eqn:Et.
  destruct fatal; [exists [t]; cbn [converse]; by rewrite Et|].
  destruct (next_user (afterwards t)) as [d|] eqn:Ed; [|exists [t]; cbn [converse]; by rewrite Et, Ed].
  destruct (IH v1 (mkOpening (Frames.um_Text d) (if str_empty sid then op_session o else sid) (op_workflow o) (op_index o)
                (if str_empty (Frames.um_TimeZone d) then op_tz o else Frames.um_TimeZone d) (Frames.um_Attachments d))) as [ts Hts].
  exists (t :: ts). cbn [converse List.map]. by rewrite Et, Ed, Hts.
Qed.

(** A turn nothing disturbs: its bus is healthy, its agent's stream is plain, and the
    browser waits for all of it. *)
Record undisturbed (sv : serving) : Prop := {
  un_bus : sv_inbox sv <> "" /\ subscribe_error (sv_net sv) = None /\ forall n, publish_error (sv_net sv) n = None;
  un_session : fresh_session (sv_net sv) <> "";
  un_agent : forall o id,
    let msg := request_of sv o in
    let sid := session_of sv o in
    let calls := emitted (K := streamSinkAdapter (stream_id (sv_net sv) msg) (cancel_subject (sv_net sv))
                                 (tool_prefix (sv_net sv) msg) (publish_error (sv_net sv)))
                   (sv_process sv) mapping uploader (sv_now sv) wf (request_event msg sid id)
                   (open_session workflowID (sv_net sv) msg sid) in
    Forall plain calls /\ Z.of_nat (List.length calls) < 2 ^ 62;
  un_waits : forall evs, Forall quiet (sv_inputs sv evs) /\ omap event_of (sv_inputs sv evs) = evs;
}.

Lemma until_length l : (List.length (Server.until_terminator l) <= List.length l)%nat.
Proof using. induction l as [|e l IH]; cbn [Server.until_terminator]; [done|]. destruct (is_terminator _); simpl; lia. Qed.

(** What the bridge takes from an undisturbed turn: the session, if it was served. *)
Lemma bridge_takes requestId sv v o out v' :
  undisturbed sv -> serve sv v (request_of sv o) = (out, v') ->
  runOneTurn requestId (fun _ => true) (env_of sv out)
  = (match out with Streaming _ => session_of sv o | _ => "" end, false).
Proof using streaming_mode respond_status respond_data.
  intros [(Hi & Hsub & Hpub) Hfresh Hagent Hwait] Hs. destruct (serve_cases sv v o out v' Hs) as [(e & -> & _)|(id & Eo)].
  { destruct (Hwait (events (receive (inbox_of (Refused e))))). exact (proj1 (refused_turn requestId sv v o e v' Hs ltac:(done) ltac:(done))). }
  destruct (Hagent o id) as [Hplain Hlen].
  assert (session_of sv o <> "") as Hsid by (by apply str_or_ne).
  destruct (answer_shown requestId sv (request_of sv o) (session_of sv o) id Hsid ltac:(by split_and!) Hplain) as (s & H1 & H2).
  { cbn [List.length]. pose proof (until_length (List.map wire_event (emitted (K := streamSinkAdapter (stream_id (sv_net sv) (request_of sv o)) (cancel_subject (sv_net sv))
                                 (tool_prefix (sv_net sv) (request_of sv o)) (publish_error (sv_net sv)))
                   (sv_process sv) mapping uploader (sv_now sv) wf (request_event (request_of sv o) (session_of sv o) id)
                   (open_session workflowID (sv_net sv) (request_of sv o) (session_of sv o))))) as Hu.
    rewrite length_map in Hu. lia. }
  rewrite H1 in Eo. subst out. destruct (Hwait (events (receive (Server.published s)))) as [Hq Hev].
  specialize (H2 _ Hq Hev). unfold runOneTurn, env_of. cbn [opens seen inbox_of]. rewrite pump_eof.
  destruct (pumpEvents _ _ _) as [ex st]. destruct H2 as (_ & _ & -> & ->). f_equal.
  by destruct (last _) as [e|]; [destruct (String.eqb _ _)|].
Qed.

Lemma talk_keeps requestId v o l k x :
  Forall undisturbed l -> op_session o <> "" ->
  talk requestId v o l !! k = Some x -> xc_session x = op_session o.
Proof using streaming_mode respond_status respond_data.
  intros Hl. revert v o k. induction Hl as [|sv l Hu _ IH]; intros v o k Ho Hk; cbn [talk] in Hk; [done|].
  destruct (serve sv v (request_of sv o)) as [out v1] eqn:Es.
  pose proof (bridge_takes requestId sv v o out v1 Hu Es) as Ht.
  assert (session_of sv o = op_session o) as Hso by (by apply str_or_keeps).
  destruct (runOneTurn _ _ _) as [sid fatal]. injection Ht as -> ->.
  destruct k as [|k]; [by injection Hk as <-|]. cbn in Hk.
  destruct (next_user _) as [d|]; [|done]. apply IH in Hk; cbn in *.
  - rewrite Hk. destruct out; cbn; try done. rewrite Hso. by rewrite (proj2 (str_empty_false _) Ho).
  - destruct out; cbn; try done. rewrite Hso. by rewrite (proj2 (str_empty_false _) Ho).
Qed.

(** C8: One conversation is one session: once a turn of an undisturbed conversation has
    been answered, every later turn runs under the same session - the id the agent
    announced, minted for the first turn if the browser brought none - whatever the
    turns in between were refused for; so the agent finds its memory again. *)
Theorem one_session requestId v o l j k x y :
  Forall undisturbed l ->
  talk requestId v o l !! j = Some x -> talk requestId v o l !! k = Some y -> (j <= k)%nat ->
  (exists s, xc_outcome x = Streaming s) -> xc_session y = xc_session x.
Proof using streaming_mode respond_status respond_data.
  intros Hl. revert v o j k. induction Hl as [|sv l Hu Hl IH]; intros v o j k Hj Hk Hjk Hx; cbn [talk] in Hj, Hk; [done|].
  destruct (serve sv v (request_of sv o)) as [out v1] eqn:Es.
  pose proof (bridge_takes requestId sv v o out v1 Hu Es) as Ht.
  destruct (runOneTurn _ _ _) as [sid fatal]. injection Ht as -> ->.
  destruct k as [|k]; [destruct j; [congruence|lia]|]. cbn in Hk.
  destruct (next_user _) as [d|]; [|done].
  destruct j as [|j]; cbn in Hj; [|apply (IH _ _ j k Hj Hk); [lia|done]].
  injection Hj as <-. destruct Hx as [s Hx]. cbn in Hx. subst out. cbn in *.
  assert (session_of sv o <> "") as Hsid by (apply str_or_ne, un_session, Hu).
  rewrite (proj2 (str_empty_false _) Hsid) in Hk. by apply (talk_keeps _ _ _ _ _ _ Hl) in Hk.
Qed.
End who.
End round.
End Round.

(** ** A concrete conversation *)
Module JourneyExamples.
Import Conversation Trigger Tokens Inbox Pump Wire Shown Round Sinks ChatExamples IdtExamples TurnExamples.
Import Payloads.Payloads Payloads.PayloadExamples.

Definition demo_chat_cfg : Config.Config :=
  Config.mkConfig "" "streaming" (Config.mkIdentitySource "_User_Id" "X-User-Id" "X-Account-Id" "X-User-Name" "X-Time-Zone" true true)
    600 false.
Definition demo_attach (idt : string) (hs : list (string * string)) : gmap string (list string) :=
  list_to_map (List.map (fun kv => (kv.1, [kv.2])) ((HeaderIDT, idt) :: hs)).
Definition demo_respond (e : service_error) : Msg :=
  mkMsg {[HdrStatus := print_Z (se_status e)]}
    (jobj [("status", JNum (se_status e)); ("errorMessage", JStr (se_message e)); ("apiStatusCode", JNum (se_api e));
           ("internalError", JStr (se_code e))]).
Definition demo_serving (minted : string) (ask : string -> json -> reply) (at_ : Z) (after : list Frames.ClientFrame) : serving (Time := nat) :=
  mkServing demo_process 0%nat (mkBus "svc" minted "stream-1" "cancel-1" None (fun _ => None)) ask (at_time (at_ * second))
    "tok" "inbox" "req-1" (fun evs => InTick :: List.map InEvent evs) after.
Definition demo_opening : opening := mkOpening "hi" "" "sales-bot" "" "UTC" [mkAttachment "u" "text/plain" "a.txt" 5 "hello"].
Definition again (text : string) : Frames.ClientFrame := Frames.FrameUser (Frames.mkUser text "" "" "" "" []).
Definition demo_who : tokenEntry := mkToken "acc" "u" "User" "UTC" "sess".

Definition demo_servings : list (serving (Time := nat)) :=
  [demo_serving "session-1" (granting "u2" "") 0 [again "more"]; demo_serving "session-2" silent 120 [again "once more"];
   demo_serving "session-3" (granting "u2" "") 130 []].
Definition demo_talk : list exchange :=
  talk demo_chat_cfg "wf" demo_access demo_sha (fun _ => None) None ExecutorExamples.demo_workflow (fun _ => 0)
    demo_attach demo_respond "svc" demo_who "req" demo_validator demo_opening demo_servings.
(** The second turn's token is denied; the conversation goes on, under its session. *)
Example talk_ex :
  List.map (fun x => (xc_session x, List.map ws_Event (xc_frames x))) demo_talk
  = [("session-1", ["ping"; "start"; "delta"; "complete"]); ("session-1", ["ping"; "error"]);
     ("session-1", ["ping"; "start"; "delta"; "complete"])].
Proof. vm_compute. reflexivity. Qed.

Lemma attach_all idt hs k v : NoDup hs.*1 -> (k, v) ∈ hs -> k <> HeaderIDT -> Get (demo_attach idt hs) k = v.
Proof.
  intros Hn Hin Hk. unfold demo_attach, Get. cbn. rewrite lookup_insert_ne by done.
  assert ((list_to_map (List.map (fun kv : string * string => (kv.1, [kv.2])) hs) : gmap string (list string)) !! k = Some [v]) as ->; [|done].
  apply elem_of_list_to_map_1.
  - change (NoDup ((fun kv : string * string => (kv.1, [kv.2])) <$> hs).*1). by rewrite <- list_fmap_compose.
  - apply list_elem_of_In, in_map_iff. exists (k, v). split; [done|]. by apply list_elem_of_In.
Qed.

Lemma respond_ok e :
  dec_struct (Some (m_Data (demo_respond e))) = Some (as_obj (Some (m_Data (demo_respond e))))
  /\ as_obj (Some (m_Data (demo_respond e))) !! "status" = Some (JNum (se_status e)).
Proof. split; reflexivity. Qed.

Lemma demo_emitted {S} {K : StreamSink S} (evt : Exec.TriggerEvt) (s : S) :
  emitted demo_process (fun _ => None) None 0%nat ExecutorExamples.demo_workflow evt s
  = [(false, mkEvent StreamDelta (jobj [("text", JStr "do")]));
     (true, mkEvent Events.StreamComplete (jobj [("finalText", JStr "done"); ("messageStop", JStr "end_turn")]))].
Proof.
  unfold emitted. assert (Exec.resolveAgent ExecutorExamples.demo_workflow <> None) as Hr by (vm_compute; discriminate).
  destruct (Exec.resolveAgent ExecutorExamples.demo_workflow) as [a|]; [|done]. cbn.
  destruct (sink_send _ s) as [err s1]. cbn. by destruct (sink_close _ s1) as [err' s2].
Qed.
Lemma demo_plain {S} {K : StreamSink S} (evt : Exec.TriggerEvt) (s : S) :
  Forall plain (emitted demo_process (fun _ => None) None 0%nat ExecutorExamples.demo_workflow evt s).
Proof.
  rewrite demo_emitted. repeat constructor; try discriminate; intros k _; apply lookup_empty.
Qed.

Definition first_serving : serving (Time := nat) := demo_serving "session-1" (granting "u2" "") 0 [again "more"].
Lemma question_answered_witness : exists s,
  (serve demo_chat_cfg "wf" demo_access demo_sha (fun _ => None) None ExecutorExamples.demo_workflow (fun _ => 0)
     first_serving demo_validator (request_of demo_attach "svc" demo_who first_serving demo_opening)).1 = Streaming s.
Proof.
  pose (checked := authorizeIDT "wf" demo_access demo_sha demo_validator (granting "u2" "") (at_time (0 * second))
              (request_of demo_attach "svc" demo_who first_serving demo_opening) "u" "acc").
  pose proof (question_answered demo_chat_cfg "wf" demo_access demo_sha (fun _ => None) None ExecutorExamples.demo_workflow (fun _ => 0)
              demo_attach "svc" demo_who attach_all ltac:(vm_compute; reflexivity) ltac:(reflexivity) "req" first_serving
              demo_validator demo_opening "u2" "acc" checked.2) as G.
  cbv zeta in G. destruct G as (_ & s & Hs & _); [discriminate|discriminate|discriminate|vm_compute; discriminate| | | | | |].
  - repeat constructor; vm_compute; discriminate.
  - vm_compute. reflexivity.
  - split_and!; [discriminate|reflexivity|reflexivity].
  - apply demo_plain.
  - rewrite demo_emitted. vm_compute. reflexivity.
  - exists s. by rewrite Hs.
Defined.

Lemma all_events evs : Forall quiet (List.map InEvent evs) /\ omap event_of (List.map InEvent evs) = evs.
Proof.
  split; [by apply Forall_fmap, Forall_true|]. induction evs as [|e evs IH]; [done|]. cbn in *. by rewrite IH.
Qed.
Lemma demo_waits evs : Forall quiet (InTick :: List.map InEvent evs) /\ omap event_of (InTick :: List.map InEvent evs) = evs.
Proof.
  destruct (all_events evs). split; [by constructor|done].
Qed.
Lemma demo_undisturbed minted ask t after :
  minted <> "" ->
  undisturbed "wf" (fun _ => None) None ExecutorExamples.demo_workflow demo_attach "svc" demo_who (demo_serving minted ask t after).
Proof.
  intros Hm. split; cbn [demo_serving sv_inbox sv_net sv_process sv_now sv_inputs subscribe_error publish_error fresh_session].
  - by split_and!.
  - done.
  - intros o id. cbv zeta. split; [apply demo_plain|]. rewrite demo_emitted. done.
  - apply demo_waits.
Qed.
Definition answered_at (k : nat) : bool :=
  match demo_talk !! k with Some x => match xc_outcome x with Streaming _ => true | _ => false end | None => false end.
Lemma answered_some k : answered_at k = true -> exists x, demo_talk !! k = Some x /\ exists s, xc_outcome x = Streaming s.
Proof.
  unfold answered_at. destruct (demo_talk !! k) as [x|]; [|done]. destruct (xc_outcome x) as [e|s|j] eqn:E; try done. eauto.
Qed.
Lemma one_session_witness : exists x y,
  demo_talk !! 0%nat = Some x /\ demo_talk !! 2%nat = Some y /\ xc_session y = xc_session x.
Proof.
  destruct (answered_some 0) as (x & Ex & Hx); [vm_compute; reflexivity|].
  destruct (answered_some 2) as (y & Ey & _); [vm_compute; reflexivity|].
  exists x, y. split; [exact Ex|]. split; [exact Ey|].
  apply (one_session demo_chat_cfg "wf" demo_access demo_sha (fun _ => None) None ExecutorExamples.demo_workflow (fun _ => 0)
           demo_attach demo_respond "svc" demo_who ltac:(reflexivity) ltac:(reflexivity) respond_ok "req" demo_validator demo_opening
           demo_servings 0 2).
  - do 3 (constructor; [by apply demo_undisturbed|]). constructor.
  - exact Ex.
  - exact Ey.
  - lia.
  - exact Hx.
Defined.

Definition denied_serving : serving (Time := nat) := demo_serving "session-2" silent 120 [].
Definition denial : service_error := validationErr BadRequest "IDT validation failed: VALIDATE_ERROR:timeout" 403.
Lemma denial_not_fatal_witness :
  runOneTurn "req" (fun _ => true) (env_of demo_respond denied_serving (Refused denial)) = ("", false).
Proof.
  pose (v' := (serve demo_chat_cfg "wf" demo_access demo_sha (fun _ => None) None ExecutorExamples.demo_workflow (fun _ => 0)
                denied_serving demo_validator (request_of demo_attach "svc" demo_who denied_serving demo_opening)).2).
  destruct (denial_not_fatal demo_chat_cfg "wf" demo_access demo_sha (fun _ => None) None ExecutorExamples.demo_workflow (fun _ => 0)
              demo_attach demo_respond "svc" demo_who ltac:(reflexivity) ltac:(reflexivity) respond_ok "req" denied_serving
              demo_validator demo_opening denial v') as [H _].
  - vm_compute. reflexivity.
  - apply demo_waits.
  - apply demo_waits.
  - exact H.
Defined.

(** The agent of Turn.v: a turn that completes, one whose error never arrives, and one
    whose model calls a tool with no arguments at all. *)
Definition watch (script : list (list LLMEvent * stream_end)) : option exit * pump_state :=
  pumpEvents "m1" (fun _ => true) (List.map InEvent (events (receive (Server.published (demo_turn script))))).
Definition no_arguments : list (list LLMEvent * stream_end) :=
  [AgentExamples.reply [LLMToolUseStop (mkToolUse "1" "bad" ""); LLMMessageStop "tool_use"];
   AgentExamples.reply [LLMTextDelta "sorry"; LLMMessageStop "end_turn"]].
Example watch_ex :
  ((watch demo_script).1, List.map ws_Event (writes (watch demo_script).2))
    = (Some ExTerminal, ["start"; "tool_call"; "tool_result"; "delta"; "complete"])
  /\ ((watch []).1, List.map ws_Event (writes (watch []).2)) = (None, ["start"])
  /\ ((watch no_arguments).1, List.map ws_Event (writes (watch no_arguments).2), ups (watch no_arguments).2)
     = (Some ExWriteErr, ["start"; "tool_call"], [UpCancel]).
Proof. vm_compute. split_and!; reflexivity. Qed.
Lemma turn_shown_witness : captured (watch demo_script).2 = "s".
Proof.
  destruct (AgentTurn.turn_shown demo_raw (lift_host (K := K "m1" "c" "p" demo_conn) demo_raw AgentExamples.demo_host)
              (lift_agent AgentExamples.demo_agent) snd "m1" "c" "p" "s" "m1" "wf" demo_conn AgentExamples.demo_input
              (AgentExamples.mkWorld demo_script false, demo_start)) as (e & _ & _ & H); [reflexivity|discriminate|reflexivity|].
  specialize (H ltac:(vm_compute; reflexivity) _ (proj1 (all_events _)) (proj2 (all_events _))).
  unfold watch. destruct (pumpEvents "m1" _ _) as [ex st]. exact (proj1 H).
Defined.

Definition json_turn : Server.StreamSession :=
  stream_turn (lift_host (K := K "m1" "c" "p" demo_conn) Text.parse PayloadExamples.json_host)
    (lift_agent PayloadExamples.json_agent) snd "m1" "c" "p" demo_conn
    AgentExamples.demo_input (AgentExamples.mkWorld [AgentExamples.reply []] false, demo_start).
Definition json_watch : option exit * pump_state :=
  pumpEvents "m1" (fun _ => true) (List.map InEvent (events (receive (Server.published json_turn)))).
Example json_watch_ex :
  (json_watch.1, List.map ws_Event (writes json_watch.2))
    = (Some ExTerminal, ["start"; "tool_call"; "tool_result"; "delta"; "complete"]).
Proof. vm_compute. reflexivity. Qed.
Lemma all_shown_witness : captured json_watch.2 = "s" /\ ups json_watch.2 = [].
Proof.
  pose proof (AgentTurn.all_shown (lift_host (K := K "m1" "c" "p" demo_conn) Text.parse PayloadExamples.json_host)
              (lift_agent PayloadExamples.json_agent) snd "m1" "c" "p" "s" "m1" "wf" demo_conn AgentExamples.demo_input
              (AgentExamples.mkWorld [AgentExamples.reply []] false, demo_start) ltac:(reflexivity) ltac:(discriminate) ltac:(reflexivity)
              ltac:(vm_compute; reflexivity) _ (proj1 (all_events _)) (proj2 (all_events _))) as H.
  unfold json_watch, json_turn. destruct (pumpEvents "m1" _ _) as [ex st]. destruct H as (H1 & H2 & _). by split.
Defined.
End JourneyExamples.
