(* ===== verification/Walk.v ===== *)
(** * Walking documents and texts, as the guards of the built-in tools do

    A guard looks for something forbidden anywhere in a document the model supplied;
    this file says what "anywhere" means ([within]) and proves, once, that a recursive
    search finds it.  It also holds the text helpers those tools share. *)

From S2P Require Import Prelude Json.
From stdpp Require Import base tactics list strings gmap option fin_maps.
From Stdlib Require Import ZArith Lia Ascii String.
Local Open Scope string_scope.
Local Open Scope list_scope.

(** ** Sub-documents *)
Inductive within : json -> json -> Prop :=
| within_here v : within v v
| within_obj m k x v : m !! k = Some x -> within v x -> within v (JObj m)
| within_arr l x v : x ∈ l -> within v x -> within v (JArr l).

Lemma within_trans u v w : within u v -> within v w -> within u w.
Proof.
  intros Hu Hv. induction Hv as [|m k x v Hk Hv IH|l x v Hx Hv IH]; [done| |];
    [eapply within_obj|eapply within_arr]; eauto.
Qed.

(** Any entry of a map satisfies a test: the loops [for _, c := range m { if f(c) {...} }]. *)
Definition any_entry {A} (f : string -> A -> bool) (m : gmap string A) : bool :=
  map_fold (fun k x acc => f k x || acc) false m.

Lemma any_entry_spec {A} (f : string -> A -> bool) m :
  any_entry f m = true <-> exists k x, m !! k = Some x /\ f k x = true.
Proof.
  unfold any_entry. induction m as [|k y m Hk Hf IH] using map_first_key_ind.
  - rewrite map_fold_empty. split; [done|]. by intros (k & x & H & _).
  - rewrite map_fold_insert_first_key by done. rewrite orb_true_iff, IH. split.
    + intros [H|(k' & x & H & Hx)]; [exists k, y; by rewrite lookup_insert_eq|].
      exists k', x. rewrite lookup_insert_ne; [done|]. by intros <-; simplify_map_eq.
    + intros (k' & x & [[<- <-]|[_ H]]%lookup_insert_Some & Hx); [by left|]. right. eauto.
Qed.

Lemma any_entry_false {A} (f : string -> A -> bool) m :
  any_entry f m = false <-> forall k x, m !! k = Some x -> f k x = false.
Proof.
  rewrite <- not_true_iff_false, any_entry_spec. split.
  - intros H k x Hk. apply not_true_iff_false. intros Hx. apply H. eauto.
  - intros H (k & x & Hk & Hx). by rewrite (H k x Hk) in Hx.
Qed.

(** A search through the whole of a document. *)
Section search.
Variable here : json -> bool.
Variable f : json -> bool.
Hypothesis f_obj : forall m, f (JObj m) = here (JObj m) || any_entry (fun _ => f) m.
Hypothesis f_arr : forall l, f (JArr l) = here (JArr l) || existsb f l.
Hypothesis f_leaf : forall v, match v with JObj _ | JArr _ => True | _ => f v = here v end.

Lemma search_spec v : f v = true <-> exists u, within u v /\ here u = true.
Proof using All.
  induction v as [|b|n|s|l IH|m IH] using json_ind'.
  1-4: (match goal with |- f ?v = _ <-> _ => pose proof (f_leaf v) as E end; simpl in E; rewrite E;
        split; [intros H; eexists; by split; [constructor|]|intros (u & Hu & H); by inversion Hu; subst]).
  - rewrite f_arr, orb_true_iff, existsb_exists. rewrite Forall_forall in IH. split.
    + intros [H|(x & Hx & H)]; [eexists; by split; [constructor|]|].
      apply list_elem_of_In in Hx. apply (IH x Hx) in H as (u & Hu & H). exists u. split; [by eapply within_arr|done].
    + intros (u & Hu & H). inversion Hu as [|?|? x ? Hx Hw]; subst; [by left|]. right.
      exists x. split; [by apply list_elem_of_In|]. apply (IH x Hx). eauto.
  - rewrite f_obj, orb_true_iff, any_entry_spec. split.
    + intros [H|(k & x & Hk & H)]; [eexists; by split; [constructor|]|].
      apply (IH k x Hk) in H as (u & Hu & H). exists u. split; [by eapply within_obj|done].
    + intros (u & Hu & H). inversion Hu as [|? k x ? Hk Hw|]; subst; [by left|]. right.
      exists k, x. split; [done|]. apply (IH k x Hk). eauto.
Qed.
End search.

(** ** Texts *)

(** [strings.Split] on a one-character separator *)
Fixpoint str_split (sep : ascii) (s : string) : list string :=
  match s with
  | EmptyString => [""]
  | String c s' =>
      if Ascii.eqb c sep then "" :: str_split sep s'
      else match str_split sep s' with
           | [] => [String c ""]
           | x :: l => String c x :: l
           end
  end.

Lemma str_split_join sep s : String.concat (String sep "") (str_split sep s) = s.
Proof.
  induction s as [|c s IH]; [done|]. simpl. destruct (Ascii.eqb_spec c sep) as [->|Hc].
  - destruct (str_split sep s) as [|x l] eqn:E; [by destruct s as [|c' s']; simpl in E; [|destruct (Ascii.eqb c' sep); [|destruct (str_split sep s')]]|].
    rewrite <- IH. done.
  - destruct (str_split sep s) as [|x [|y l]]; simpl in *; by rewrite <- IH.
Qed.

(** [strings.TrimLeft] and [strings.TrimRight] with a one-character set *)
Fixpoint trim_left_of (c0 : ascii) (s : string) : string :=
  match s with
  | String c s' => if Ascii.eqb c c0 then trim_left_of c0 s' else s
  | EmptyString => ""
  end.
Fixpoint trim_right_of (c0 : ascii) (s : string) : string :=
  match s with
  | EmptyString => ""
  | String c s' =>
      match trim_right_of c0 s' with
      | EmptyString => if Ascii.eqb c c0 then "" else String c ""
      | r => String c r
      end
  end.

Fixpoint count_char (c0 : ascii) (s : string) : nat :=
  match s with
  | EmptyString => 0
  | String c s => (if Ascii.eqb c c0 then 1 else 0) + count_char c0 s
  end.

(** [strings.TrimSuffix] *)
Definition trim_suffix (suf s : string) : string :=
  if has_suffix suf s then substring 0 (String.length s - String.length suf) s else s.

Example texts_ex :
  str_split "," "a, b,,c" = ["a"; " b"; ""; "c"] /\ str_split "," "" = [""]
  /\ trim_right_of "/" "http://h//" = "http://h" /\ trim_left_of "/" "//x/" = "x/"
  /\ trim_suffix "*" "dev.cpe-*" = "dev.cpe-" /\ trim_suffix "*" "dev" = "dev".
Proof. vm_compute. by split_and!. Qed.
