(* ===== verification/Search.v ===== *)
(** * The search tool (pkg/workflow/builtin/opensearch)

    - [IndexPattern]: indexpattern.go, the pattern every element of an index path
      must match;
    - [Aggs]: aggallowlist.go, the aggregations that stay inside the query;
    - [Docs]: docread.go, the queries that read a stored document;
    - [Tool]: factory.go and tool.go, the whole of [Invoke] up to the request it sends;
    - [Mapping]: mapping.go, the index schema shown to the model, cached per day.

    Documents are decoded documents: a [json.RawMessage] is its value.  The regular
    expressions the package compiles have two shapes only, which are matched directly. *)

From S2P Require Import Prelude Json Scan Events Walk.
From stdpp Require Import base tactics list strings gmap option fin_maps.
From Stdlib Require Import ZArith Lia Ascii String.
Local Open Scope string_scope.
Local Open Scope list_scope.
Local Open Scope go_scope.

(** ** indexpattern.go *)
Module IndexPattern.

(** The expressions [^literal$] and [^prefix[0-9.\-*]+suffix$]. *)
Inductive index_regexp :=
| Exact (literal : string)
| Ranged (prefix suffix : string).

Inductive pattern_error := PatternEmpty | PatternWildcards (n : nat).

Fixpoint cut_at_star (s : string) : string * string :=
  match s with
  | EmptyString => ("", "")
  | String c s' => if Ascii.eqb c "*" then ("", s') else let '(a, b) := cut_at_star s' in (String c a, b)
  end.

Definition compileIndexPattern (pattern : string) : res pattern_error index_regexp :=
  if str_empty pattern then Err PatternEmpty
  else
    let n := count_char "*" pattern in
    if (1 <? n)%nat then Err (PatternWildcards n)
    else if (n =? 0)%nat then Ok (Exact pattern)
    else let '(prefix, suffix) := cut_at_star pattern in Ok (Ranged prefix suffix).

(** The class [[0-9.\-*]] *)
Definition date_char (c : ascii) : bool :=
  is_digit c || Ascii.eqb c "." || Ascii.eqb c "-" || Ascii.eqb c "*".

Definition MatchString (re : index_regexp) (s : string) : bool :=
  match re with
  | Exact l => String.eqb s l
  | Ranged p q =>
      has_prefix p s && has_suffix q (str_drop (String.length p) s)
      && let middle := str_take (String.length s - String.length p - String.length q) (str_drop (String.length p) s) in
         negb (str_empty middle) && str_all date_char middle
  end.

Inductive path_error := PathEmpty | PathEmptyElement | PathNotAllowed (elem : string).

Definition validateIndexPath (indexPath : string) (allowed : index_regexp) : res path_error unit :=
  if str_empty indexPath then Err PathEmpty
  else first_error (fun raw =>
    let elem := trim_space raw in
    if str_empty elem then Some PathEmptyElement
    else if negb (MatchString allowed elem) then Some (PathNotAllowed elem)
    else None) (str_split "," indexPath).

(** The names an expression stands for: the pattern with its star filled by digits,
    dots, dashes and stars. *)
Definition denotes (pattern name : string) : Prop :=
  (count_char "*" pattern = 0%nat /\ name = pattern)
  \/ exists p m q, pattern = p +:+ "*" +:+ q /\ name = p +:+ m +:+ q
                   /\ m <> "" /\ str_all date_char m = true.

Lemma drop_app a b : str_drop (String.length a) (a +:+ b) = b.
Proof. induction a as [|c a IH]; [by destruct b|]. exact IH. Qed.

Lemma has_suffix_split q s :
  has_suffix q s = true -> s = str_take (String.length s - String.length q) s +:+ q.
Proof.
  induction s as [|c s IH]; intros H.
  - unfold has_suffix in H. rewrite orb_false_r in H. apply String.eqb_eq in H as ->. done.
  - change (has_suffix q (String c s)) with (String.eqb q (String c s) || has_suffix q s) in H.
    destruct (String.eqb_spec q (String c s)) as [->|Hn]; [by rewrite Nat.sub_diag|].
    simpl in H. specialize (IH H).
    assert (String.length q <= String.length s)%nat as Hl by (rewrite IH, str_length_app; lia).
    replace (String.length (String c s) - String.length q)%nat with (S (String.length s - String.length q)) by (simpl; lia).
    change (String c s = String c (str_take (String.length s - String.length q) s +:+ q)). by f_equal.
Qed.

Lemma has_suffix_app a q : has_suffix q (a +:+ q) = true.
Proof.
  induction a as [|c a IH].
  - simpl. destruct q; simpl; [done|]. by rewrite Ascii.eqb_refl, String.eqb_refl.
  - change (String c a +:+ q) with (String c (a +:+ q)).
    change (String.eqb q (String c (a +:+ q)) || has_suffix q (a +:+ q) = true). by rewrite IH, orb_true_r.
Qed.

Lemma MatchString_ranged p q s :
  MatchString (Ranged p q) s = true <->
  exists m, s = p +:+ m +:+ q /\ m <> "" /\ str_all date_char m = true.
Proof.
  unfold MatchString. split.
  - intros H. apply andb_true_iff in H as [H Hm]. apply andb_true_iff in H as [Hp Hq]. apply andb_true_iff in Hm as [He Ha].
    set (m := str_take _ _) in *. exists m. split; [|split; [by apply str_empty_false, negb_true_iff|done]].
    rewrite (prefix_split p s Hp) at 1. f_equal. rewrite (has_suffix_split q _ Hq) at 1. f_equal. unfold m. f_equal.
    rewrite (prefix_split p s Hp) at 2. rewrite str_length_app. lia.
  - intros (m & -> & Hm & Ha). rewrite has_prefix_app, drop_app, has_suffix_app, !str_length_app.
    replace (String.length p + (String.length m + String.length q) - String.length p - String.length q)%nat
      with (String.length m) by lia. rewrite str_take_app, Ha. by rewrite (proj2 (str_empty_false m) Hm).
Qed.

Lemma cut_at_star_spec s :
  count_char "*" s <> 0%nat -> s = (cut_at_star s).1 +:+ "*" +:+ (cut_at_star s).2.
Proof.
  induction s as [|c s IH]; [done|]. simpl. destruct (Ascii.eqb_spec c "*") as [->|Hn]; [done|].
  intros H. specialize (IH H). destruct (cut_at_star s) as [a b]. simpl in *.
  change (String c a +:+ "*" +:+ b) with (String c (a +:+ "*" +:+ b)). by f_equal.
Qed.

Lemma count_char_app c a b : count_char c (a +:+ b) = (count_char c a + count_char c b)%nat.
Proof. induction a as [|x a IH]; [done|]. change (count_char c (String x a +:+ b)) with ((if Ascii.eqb x c then 1 else 0) + count_char c (a +:+ b))%nat. rewrite IH. simpl. lia. Qed.

(** A pattern has one way to be cut at its only star. *)
Lemma one_star p q p' q' :
  count_char "*" (p +:+ "*" +:+ q) = 1%nat -> p +:+ "*" +:+ q = p' +:+ "*" +:+ q' -> p = p' /\ q = q'.
Proof.
  intros Hc H. assert (count_char "*" p = 0 /\ count_char "*" q = 0)%nat as [Hp _]
    by (rewrite !count_char_app in Hc; simpl in Hc; lia).
  assert (count_char "*" p' = 0)%nat as Hp' by (rewrite H, !count_char_app in Hc; simpl in Hc; lia).
  clear Hc. revert p' H Hp'. induction p as [|c p IH]; intros [|c' p'] H Hp'.
  - change (String "*" q = String "*" q') in H. by injection H as ->.
  - change (String "*" q = String c' (p' +:+ "*" +:+ q')) in H. injection H as <- _. discriminate Hp'.
  - change (String c (p +:+ "*" +:+ q) = String "*" q') in H. injection H as -> _. discriminate Hp.
  - change (String c (p +:+ "*" +:+ q) = String c' (p' +:+ "*" +:+ q')) in H. injection H as <- H. simpl in Hp, Hp'. destruct (Ascii.eqb c "*"); [lia|].
    destruct (IH Hp p' H Hp') as [-> ->]. done.
Qed.

(** What a compiled pattern matches is what the pattern denotes. *)
Lemma compiled_denotes pattern re name :
  compileIndexPattern pattern = Ok re -> MatchString re name = true <-> denotes pattern name.
Proof.
  unfold compileIndexPattern, denotes. destruct (str_empty pattern); [done|].
  destruct (Nat.ltb_spec 1 (count_char "*" pattern)) as [|Hle]; [done|].
  destruct (Nat.eqb_spec (count_char "*" pattern) 0) as [H0|H1].
  - intros [= <-]. simpl. rewrite String.eqb_eq. split; [by left|]. intros [[_ ->]|(p & m & q & -> & _)]; [done|].
    rewrite !count_char_app in H0. simpl in H0. lia.
  - pose proof (cut_at_star_spec pattern H1) as Hcut. destruct (cut_at_star pattern) as [p q]. simpl in Hcut.
    intros [= <-]. rewrite MatchString_ranged. split.
    + intros (m & -> & ? & ?). right. exists p, m, q. by split_and!.
    + intros [[? _]|(p' & m & q' & Hp & -> & ? & ?)]; [done|].
      destruct (one_star p q p' q') as [-> ->]; [rewrite <- Hcut; lia|congruence|]. exists m. by split_and!.
Qed.

(** A path passes exactly when each of its elements is a name of the pattern. *)
Lemma validateIndexPath_ok path re :
  validateIndexPath path re = Ok tt <->
  path <> "" /\ forall raw, raw ∈ str_split "," path -> trim_space raw <> "" /\ MatchString re (trim_space raw) = true.
Proof.
  unfold validateIndexPath. destruct (str_empty path) eqn:Ee.
  { apply str_empty_true in Ee as ->. by split; [|intros [? _]]. }
  apply str_empty_false in Ee. rewrite first_error_ok. split.
  - intros H. split; [done|]. intros raw Hr. specialize (H raw Hr). simpl in H.
    destruct (str_empty (trim_space raw)) eqn:E1; [done|]. apply str_empty_false in E1.
    by destruct (MatchString re (trim_space raw)).
  - intros [_ H] raw Hr. destruct (H raw Hr) as [H1 ->]. by rewrite (proj2 (str_empty_false _) H1).
Qed.

Example pattern_ex :
  let re := match compileIndexPattern "prod.cpe-*" with Ok re => re | Err _ => Exact "" end in
  List.map (fun p => is_ok (validateIndexPath p re))
    ["prod.cpe-2026-04-30"; "prod.cpe-*"; "prod.cpe-2026-04-30, prod.cpe-2026-04-29"; "prod.cpe-2026-04-30,*";
     "prod.cpe-"; "prod.cpexyz-1"; "prod.cpe-1,,"; ""]
  = [true; true; true; false; false; false; false; false].
Proof. vm_compute. reflexivity. Qed.
End IndexPattern.

(** ** aggallowlist.go *)
Module Aggs.

Definition allowedAggTypes : list string :=
  ["terms"; "multi_terms"; "rare_terms"; "date_histogram"; "auto_date_histogram"; "histogram";
   "range"; "date_range"; "filter"; "filters"; "missing"; "composite"; "nested";
   "avg"; "sum"; "min"; "max"; "stats"; "extended_stats"; "value_count"; "cardinality";
   "percentiles"; "percentile_ranks"; "median_absolute_deviation"; "weighted_avg"; "top_hits";
   "bucket_script"; "bucket_selector"; "bucket_sort"; "avg_bucket"; "sum_bucket"; "min_bucket"; "max_bucket";
   "stats_bucket"; "extended_stats_bucket"; "percentiles_bucket";
   "cumulative_sum"; "derivative"; "moving_fn"; "serial_diff"].
Definition maxAggDepth : nat := 10.

Inductive agg_error :=
| AggsNotObject
| AggTooDeep
| AggNotObject (name : string)
| SubAggsNotObject (name : string)
| AggTypeNotAllowed (key name : string)
| AggTypeCount (name : string) (types : nat).

Definition sub_key (key : string) : bool := String.eqb key "aggs" || String.eqb key "aggregations".

(** [walkAggs]; [room] is the number of levels the depth limit still allows. *)
Fixpoint walkAggs (room : nat) (aggs : gmap string json) : res agg_error unit :=
  match room with
  | O => Err AggTooDeep
  | S room =>
      first_error (fun name =>
        match aggs !! name with
        | Some (JObj body) =>
            match fold_res (fun types kv =>
                    if sub_key kv.1 then
                      match kv.2 with
                      | JObj sub => let! _ := walkAggs room sub in Ok types
                      | _ => Err (SubAggsNotObject name)
                      end
                    else if String.eqb kv.1 "meta" then Ok types
                    else if negb (mem_str kv.1 allowedAggTypes) then Err (AggTypeNotAllowed kv.1 name)
                    else Ok (S types)) 0%nat (map_to_list body) with
            | Err e => Some e
            | Ok types => if (types =? 1)%nat then None else Some (AggTypeCount name types)
            end
        | _ => Some (AggNotObject name)
        end) (sort_strings (List.map fst (map_to_list aggs)))
  end.

(** The aggregations to send, [None] for none.  [decode] is the JSON decoder, for a model
    that passes the object as a text. *)
Definition normalizeAggregations (decode : string -> option json) (raw : option json)
    : res agg_error (option (gmap string json)) :=
  let normal (v : option json) :=
    match v with
    | Some (JObj aggs) =>
        if decide (aggs = ∅) then Ok None
        else let! _ := walkAggs maxAggDepth aggs in Ok (Some aggs)
    | _ => Err AggsNotObject
    end in
  match raw with
  | None | Some JNull => Ok None
  | Some (JStr inner) =>
      let s := trim_space inner in
      if str_empty s || String.eqb s "null" then Ok None else normal (decode s)
  | Some v => normal (Some v)
  end.

(** A tree of aggregations the query bounds: at most [room] levels, at every level each
    named aggregation an object with exactly one type, which is on the list, besides
    sub-aggregations and metadata. *)
Definition is_type (key : string) : bool := negb (sub_key key) && negb (String.eqb key "meta").

Fixpoint agg_tree (room : nat) (aggs : gmap string json) : Prop :=
  match room with
  | O => False
  | S room => forall name v, aggs !! name = Some v -> exists body, v = JObj body
      /\ (exists key, is_type key = true /\ key ∈ allowedAggTypes /\ is_Some (body !! key)
          /\ forall key', is_type key' = true -> is_Some (body !! key') -> key' = key)
      /\ forall key sub, sub_key key = true -> body !! key = Some sub ->
           exists m, sub = JObj m /\ agg_tree room m
  end.

(** The scan of one aggregation's body counts its types. *)
Definition entry_ok (room : nat) (kv : string * json) : Prop :=
  if sub_key kv.1 then exists sub, kv.2 = JObj sub /\ walkAggs room sub = Ok tt
  else if String.eqb kv.1 "meta" then True else kv.1 ∈ allowedAggTypes.
Definition types_of (l : list (string * json)) : list string := List.filter is_type (List.map fst l).

Lemma body_scan room name l types n :
  fold_res (fun types kv =>
    if sub_key kv.1 then
      match kv.2 with
      | JObj sub => let! _ := walkAggs room sub in Ok types
      | _ => Err (SubAggsNotObject name)
      end
    else if String.eqb kv.1 "meta" then Ok types
    else if negb (mem_str kv.1 allowedAggTypes) then Err (AggTypeNotAllowed kv.1 name)
    else Ok (S types)) types l = Ok n
  <-> Forall (entry_ok room) l /\ n = (types + List.length (types_of l))%nat.
Proof.
  revert types. induction l as [|[key v] l IH]; intros types; cbn [fold_res fst snd].
  { unfold types_of. simpl. rewrite Nat.add_0_r. split; [intros [= <-]; auto|by intros [_ ->]]. }
  unfold types_of in *. rewrite Forall_cons. cbn [List.map List.filter fst]. unfold entry_ok at 1, is_type at 1. cbn [fst snd].
  destruct (sub_key key); cbn [negb andb].
  { destruct v as [| | | | |sub]; try (split; [done|by intros [[(? & ? & ?) _] _]]).
    destruct (walkAggs room sub) as [[]|e] eqn:Ew; cbn [res_bind].
    - rewrite IH. split; [intros [? ->]; split_and!; eauto|by intros [[_ ?] ->]].
    - split; [done|]. intros [[(? & [= <-] & ?) _] _]. congruence. }
  destruct (String.eqb key "meta"); cbn [negb].
  { rewrite IH. split; [intros [? ->]; split_and!; eauto|by intros [[_ ?] ->]]. }
  destruct (mem_str key allowedAggTypes) eqn:Em; cbn [negb List.length].
  - apply mem_str_spec in Em. rewrite IH. split; [intros [? ->]; split_and!; auto; lia|intros [[_ ?] ->]; split; [done|lia]].
  - apply mem_str_false in Em. split; [done|by intros [[? _] _]].
Qed.

(** One type exactly: a list of distinct keys with a single one that is a type. *)
Lemma single_type body :
  List.length (types_of (map_to_list body)) = 1%nat
  <-> exists key, is_type key = true /\ is_Some (body !! key)
        /\ forall key', is_type key' = true -> is_Some (body !! key') -> key' = key.
Proof.
  assert (NoDup (types_of (map_to_list body))) as Hnd.
  { unfold types_of. apply NoDup_ListNoDup, List.NoDup_filter, NoDup_ListNoDup. apply NoDup_fst_map_to_list. }
  assert (forall key, key ∈ types_of (map_to_list body) <-> is_type key = true /\ is_Some (body !! key)) as Hin.
  { intros key. unfold types_of. rewrite list_elem_of_In, filter_In, in_map_iff. split.
    - intros [([k v] & <- & Hk) Ht]. split; [done|]. apply list_elem_of_In, elem_of_map_to_list in Hk. eauto.
    - intros [Ht [v Hk]]. split; [|done]. exists (key, v). split; [done|]. by apply list_elem_of_In, elem_of_map_to_list. }
  destruct (types_of _) as [|key [|key' l]]; simpl; split; intros H; try done.
  - destruct H as (key & Ht & Hs & _). assert (key ∈ @nil string) as Hk by by apply Hin. by apply elem_of_nil in Hk.
  - exists key. destruct (proj1 (Hin key) ltac:(set_solver)) as [? ?]. split_and!; [done|done|].
    intros key' Ht Hs. assert (key' ∈ [key]) as Hk by by apply Hin. by apply list_elem_of_singleton in Hk.
  - destruct H as (k & _ & _ & Hu). exfalso. apply NoDup_cons in Hnd as [Hn _]. apply Hn.
    destruct (proj1 (Hin key) ltac:(set_solver)) as [H1 H2]. destruct (proj1 (Hin key') ltac:(set_solver)) as [H3 H4].
    rewrite (Hu key H1 H2), <- (Hu key' H3 H4). set_solver.
Qed.

(** Exactly the trees of allowed aggregations pass. *)
Lemma walkAggs_spec room aggs : walkAggs room aggs = Ok tt <-> agg_tree room aggs.
Proof.
  revert aggs. induction room as [|room IH]; intros aggs; [done|]. cbn [walkAggs agg_tree]. rewrite first_error_ok.
  assert (forall name, name ∈ sort_strings (List.map fst (map_to_list aggs)) <-> is_Some (aggs !! name)) as Hn.
  { intros name. rewrite sort_strings_perm. rewrite list_elem_of_In, in_map_iff. split.
    - intros ([k v] & <- & Hk). apply list_elem_of_In, elem_of_map_to_list in Hk. eauto.
    - intros [v Hk]. exists (name, v). split; [done|]. by apply list_elem_of_In, elem_of_map_to_list. }
  assert (forall body, (Forall (entry_ok room) (map_to_list body)
     <-> (forall key, is_type key = true -> is_Some (body !! key) -> key ∈ allowedAggTypes)
         /\ forall key sub, sub_key key = true -> body !! key = Some sub -> exists m, sub = JObj m /\ agg_tree room m)) as Hb.
  { intros body. rewrite Forall_forall. unfold entry_ok, is_type. split.
    - intros H. split.
      + intros key Ht [v Hk]. specialize (H (key, v) (proj2 (elem_of_map_to_list _ _ _) Hk)). simpl in H.
        destruct (sub_key key); [done|]. by destruct (String.eqb key "meta").
      + intros key sub Ht Hk. specialize (H (key, sub) (proj2 (elem_of_map_to_list _ _ _) Hk)). simpl in H.
        rewrite Ht in H. destruct H as (m & -> & Hm). exists m. split; [done|]. by apply IH.
    - intros [H1 H2] [key v] Hk%elem_of_map_to_list. simpl. destruct (sub_key key) eqn:Es.
      + destruct (H2 key v Es Hk) as (m & -> & Hm). exists m. split; [done|]. by apply IH.
      + destruct (String.eqb key "meta") eqn:Em; [done|]. apply H1; [by rewrite Es, Em|eauto]. }
  split.
  - intros H name v Hv. specialize (H name (proj2 (Hn name) (mk_is_Some _ _ Hv))). simpl in H. rewrite Hv in H.
    destruct v as [| | | | |body]; try done. exists body. split; [done|].
    destruct (fold_res _ _ _) as [n|e] eqn:Ef; [|done]. apply body_scan in Ef as [Hf ->]. apply Hb in Hf as [H1 H2].
    split; [|done]. simpl in H. destruct (Nat.eqb_spec (List.length (types_of (map_to_list body))) 1) as [E|]; [|done].
    apply single_type in E as (key & Ht & Hs & Hu). exists key. split_and!; auto.
  - intros H name Hs%Hn. destruct Hs as [v Hv]. rewrite Hv. destruct (H name v Hv) as (body & -> & (key & Ht & Ha & Hs & Hu) & Hsub).
    assert (Forall (entry_ok room) (map_to_list body)) as Hf.
    { apply Hb. split; [|done]. intros key' Ht' Hs'. by rewrite (Hu key' Ht' Hs'). }
    destruct (fold_res _ _ _) as [n|e] eqn:Ef.
    + apply body_scan in Ef as [_ ->]. simpl.
      rewrite (proj2 (single_type body)); [done|]. exists key. by split_and!.
    + exfalso. pose proof (proj2 (body_scan room name (map_to_list body) 0 _) (conj Hf eq_refl)) as E. congruence.
Qed.

Lemma normalized decode raw aggs :
  normalizeAggregations decode raw = Ok (Some aggs) -> agg_tree maxAggDepth aggs /\ aggs <> ∅.
Proof.
  assert (forall v, match v with
    | Some (JObj aggs) => if decide (aggs = ∅) then Ok None else let! _ := walkAggs maxAggDepth aggs in Ok (Some aggs)
    | _ => Err AggsNotObject end = Ok (Some aggs) -> agg_tree maxAggDepth aggs /\ aggs <> ∅) as G.
  { intros [[| | | | |m]|]; try done. destruct (decide (m = ∅)); [done|].
    destruct (walkAggs maxAggDepth m) as [[]|] eqn:Ew; [|done]. intros [= <-]. split; [by apply walkAggs_spec|done]. }
  unfold normalizeAggregations. destruct raw as [[| | |s| |m]|]; try done; [|apply (G (Some (JObj m)))].
  destruct (str_empty _ || _); [done|apply G].
Qed.
End Aggs.

(** ** docread.go *)
Module Docs.

Definition isTermsLookup (value : json) : bool :=
  match value with
  | JObj m => existsb (fun key => bool_decide (is_Some (m !! key))) ["index"; "id"; "path"]
  | _ => false
  end.
Definition namesDocument (value : option json) : bool :=
  match value with
  | Some (JObj _) => true
  | Some (JArr l) => existsb (fun item => match item with JObj _ => true | _ => false end) l
  | _ => false
  end.

(** One object: a terms lookup or a more_like_this document. *)
Definition reads_here (v : json) : bool :=
  match v with
  | JObj m =>
      any_entry (fun _ => isTermsLookup) (as_obj (m !! "terms"))
      || match m !! "more_like_this" with
         | Some (JObj mlt) => existsb (fun key => namesDocument (mlt !! key)) ["like"; "unlike"]
         | _ => false
         end
  | _ => false
  end.

Fixpoint readsOtherDocument (node : json) : bool :=
  reads_here node
  || match node with
     | JObj m => map_fold (fun _ child acc => readsOtherDocument child || acc) false m
     | JArr l => existsb readsOtherDocument l
     | _ => false
     end.

(** [rejectDocumentReads]: is any part refused? *)
Definition rejectDocumentReads (parts : list json) : bool := existsb readsOtherDocument parts.

(** The search is through the whole document. *)
Lemma reads_within v : readsOtherDocument v = true <-> exists u, within u v /\ reads_here u = true.
Proof.
  apply search_spec; [done|done|]. intros []; try done; by rewrite <- (orb_false_r (reads_here _)).
Qed.

Lemma not_rejected parts :
  rejectDocumentReads parts = false -> forall p u, p ∈ parts -> within u p -> reads_here u = false.
Proof.
  unfold rejectDocumentReads. intros H p u Hp Hu. apply not_true_iff_false. intros Hr.
  apply not_true_iff_false in H. apply H. apply existsb_exists. exists p. split; [by apply list_elem_of_In|].
  apply reads_within. eauto.
Qed.

(** What the test of one object says. *)
Lemma isTermsLookup_spec v :
  isTermsLookup v = true <-> exists m key, v = JObj m /\ key ∈ ["index"; "id"; "path"] /\ is_Some (m !! key).
Proof.
  unfold isTermsLookup. destruct v as [| | | | |m]; try (by split; [done|intros (? & ? & ? & _)]).
  rewrite existsb_exists. split.
  - intros (key & Hk%list_elem_of_In & Hs%bool_decide_eq_true). by exists m, key.
  - intros (? & key & [= <-] & Hk & Hs). exists key. split; [by apply list_elem_of_In|by apply bool_decide_eq_true].
Qed.
End Docs.

(** ** factory.go and tool.go *)
Module Tool.
Import IndexPattern Aggs Docs.

Record Config := mkConfig {
  Host : string;
  UserEnv : string;
  PasswordEnv : string;
  ToolName : string;
  ToolDescription : string;
  RequestTimeoutSeconds : Z;
  FailurePolicyValue : string;
  MaxResultSize : Z;
  AllowedIndexPattern : string;
}.

Inductive config_error :=
| ConfigParse | HostRequired | CredentialsRequired | DescriptionRequired | PatternRequired.

Definition or_default (s d : string) : string := if str_empty s then d else s.

Definition dec_config (raw : json) : option Config :=
  m ← dec_struct (Some raw);
  host ← dec_str (m !! "host"); userEnv ← dec_str (m !! "userEnv");
  passwordEnv ← dec_str (m !! "passwordEnv"); toolName ← dec_str (m !! "toolName");
  description ← dec_str (m !! "toolDescription"); timeout ← dec_int (m !! "requestTimeoutSeconds");
  policy ← dec_str (m !! "failurePolicy"); size ← dec_int (m !! "maxResultSize");
  pattern ← dec_str (m !! "allowedIndexPattern");
  Some (mkConfig host userEnv passwordEnv toolName description (default 0%Z timeout) policy (default 0%Z size) pattern).

Definition Factory (raw : json) : res config_error Config :=
  let! cfg := ok_or ConfigParse (dec_config raw) in
  if str_empty (Host cfg) then Err HostRequired
  else if str_empty (UserEnv cfg) || str_empty (PasswordEnv cfg) then Err CredentialsRequired
  else if str_empty (ToolDescription cfg) then Err DescriptionRequired
  else if str_empty (AllowedIndexPattern cfg) then Err PatternRequired
  else Ok (mkConfig (Host cfg) (UserEnv cfg) (PasswordEnv cfg) (or_default (ToolName cfg) "OpenSearchQuery")
             (ToolDescription cfg) (if (RequestTimeoutSeconds cfg =? 0)%Z then 30%Z else RequestTimeoutSeconds cfg)
             (or_default (FailurePolicyValue cfg) "surface-to-llm")
             (if (MaxResultSize cfg =? 0)%Z then 500%Z else MaxResultSize cfg) (AllowedIndexPattern cfg)).

(** What a policy node answers (pkg/workflow/node/policy.go). *)
Record PolicyResult := mkPolicyResult {
  InjectMustClauses : list json;
  AllowedIndices : list string;
  Deny : bool;
  DenyReason : string;
}.

Inductive invoke_error :=
| BadInput
| IndexPathRequired
| DisallowedKey (key : string)
| ClausesExpected (key : string)
| AggsRefused (e : agg_error)
| DocumentRead
| PathRefused (e : path_error)
| NoAccount
| PolicyError (cause : string)
| PolicyDenied (reason : string) (allowed : list string)
| HTTPError (cause : string)
| HTTPStatus (status : Z) (body : string).

(** [buildURL] *)
Definition buildURL (host indexPath : string) : string :=
  let url := trim_right_of "/" host +:+ "/" +:+ trim_left_of "/" indexPath in
  let url := if has_suffix "/_search" url then url else trim_right_of "/" url +:+ "/_search" in
  url +:+ "?ignore_unavailable=true".

Definition is_clause (c : json) : bool := match c with JObj _ => true | _ => false end.

(** A clause list; [None] stands for no clauses. *)
Definition normalizeClauseList (raw : json) : option (option (list json)) :=
  match raw with
  | JNull => Some None
  | JObj _ => Some (Some [raw])
  | JArr l => if forallb is_clause l then Some (Some l) else None
  | _ => None
  end.

Definition buildFinalQuery (llmClauses : gmap string (option (list json))) (policyMust : list json) : json :=
  let given key := match llmClauses !! key with Some (Some l) => Some l | _ => None end in
  let must :=
    match given "must" with
    | Some arr => [("must", JArr (arr ++ policyMust))]
    | None => match policyMust with [] => [] | _ => [("must", JArr policyMust)] end
    end in
  let keep key := match given key with Some l => [(key, JArr l)] | None => [] end in
  jobj [("bool", jobj (must ++ keep "must_not" ++ keep "filter"))].

Definition allowed_key (k : string) : bool := mem_str k ["must"; "must_not"; "filter"].

(** The loop that replaces each clause by its list. *)
Definition normalize_clauses (queryBody : gmap string json) : res invoke_error (gmap string (option (list json))) :=
  fold_res (fun acc kv =>
    match normalizeClauseList kv.2 with
    | None => Err (ClausesExpected kv.1)
    | Some clauses => Ok (<[kv.1 := clauses]> acc)
    end) ∅ (map_to_list queryBody).

Record request := mkRequest {
  req_url : string;
  req_body : json;
}.

Section invoke.
(** The tool's configuration, its compiled pattern, the policy peer, the decoder of
    texts and the exchange with the cluster: a transport error or a status and a body. *)
Variable cfg : Config.
Variable allowedRegexp : index_regexp.
Variable Resolve : Identity -> string -> res string PolicyResult.
Variable decode : string -> option json.
Variable exchange : request -> res string (Z * string).

(** Everything up to the request. *)
Definition prepare (who : option Identity) (args : json) : res invoke_error request :=
  let! m := ok_or BadInput (dec_struct (Some args)) in
  let! indexPath := ok_or BadInput (dec_str (m !! "indexPath")) in
  let! queryBody := ok_or BadInput (dec_struct (m !! "queryBody")) in
  let! size := ok_or BadInput (dec_int (m !! "size")) in
  if str_empty indexPath then Err IndexPathRequired
  else
  let! _ := first_error (fun k => if negb (allowed_key k) then Some (DisallowedKey k) else None)
              (List.map fst (map_to_list queryBody)) in
  let! clauses := normalize_clauses queryBody in
  match normalizeAggregations decode (m !! "aggregations") with
  | Err e => Err (AggsRefused e)
  | Ok aggs =>
  let parts := match aggs with Some a => [JObj a] | None => [] end
               ++ match m !! "sort" with Some s => [s] | None => [] end
               ++ List.concat (List.map (fun kv => match kv.2 with Some l => [JArr l] | None => [] end) (map_to_list clauses)) in
  if rejectDocumentReads parts then Err DocumentRead
  else match validateIndexPath indexPath allowedRegexp with
  | Err e => Err (PathRefused e)
  | Ok _ =>
  match who with
  | None => Err NoAccount
  | Some id =>
      if str_empty (AccountID id) then Err NoAccount
      else match Resolve id indexPath with
      | Err cause => Err (PolicyError cause)
      | Ok pr =>
          if Deny pr then Err (PolicyDenied (DenyReason pr) (AllowedIndices pr))
          else
          let body := [("query", buildFinalQuery clauses (InjectMustClauses pr));
                       ("size", JNum (default (MaxResultSize cfg) size))]
                      ++ match aggs with Some a => [("aggs", JObj a)] | None => [] end
                      ++ match m !! "sort" with Some s => [("sort", s)] | None => [] end in
          Ok (mkRequest (buildURL (Host cfg) indexPath) (jobj body))
      end
  end
  end
  end.

(** [Invoke]: the requests sent and the result. *)
Definition Invoke (who : option Identity) (args : json) : list request * res invoke_error string :=
  match prepare who args with
  | Err e => ([], Err e)
  | Ok r =>
      ([r], match exchange r with
            | Err cause => Err (HTTPError cause)
            | Ok (status, out) => if (400 <=? status)%Z then Err (HTTPStatus status out) else Ok out
            end)
  end.

(** The clauses the model asked for under a key of the query. *)
Definition asked (args : json) (key : string) : option (list json) :=
  raw ← as_obj (as_obj (Some args) !! "queryBody") !! key;
  mjoin (normalizeClauseList raw).

Lemma normalize_entries (l : list (string * json)) (acc cs : gmap string (option (list json))) :
  NoDup l.*1 ->
  fold_res (fun acc kv =>
    match normalizeClauseList kv.2 with
    | None => Err (ClausesExpected kv.1)
    | Some clauses => Ok (<[kv.1 := clauses]> acc)
    end) acc l = Ok cs ->
  (forall k raw, (k, raw) ∈ l -> exists c, normalizeClauseList raw = Some c /\ cs !! k = Some c)
  /\ (forall k, k ∉ l.*1 -> cs !! k = acc !! k).
Proof.
  revert acc. induction l as [|[k raw] l IH]; intros acc Hnd H; simpl in H.
  { injection H as <-. split; [by intros k raw Hk%elem_of_nil|done]. }
  destruct (normalizeClauseList raw) as [c|] eqn:Ec; [|done]. simpl in Hnd. apply NoDup_cons in Hnd as [Hk Hnd].
  destruct (IH _ Hnd H) as [H1 H2]. split.
  - intros k' raw' [[= -> ->]|Hin]%elem_of_cons; [|by apply H1]. exists c. split; [done|].
    by rewrite (H2 k Hk), lookup_insert_eq.
  - intros k' [Hn Hk']%not_elem_of_cons. rewrite (H2 k' Hk'), lookup_insert_ne; [done|]. by intros <-.
Qed.

Lemma normalize_clauses_spec qb cs k :
  normalize_clauses qb = Ok cs ->
  match qb !! k with
  | Some raw => exists c, normalizeClauseList raw = Some c /\ cs !! k = Some c
  | None => cs !! k = None
  end.
Proof.
  unfold normalize_clauses. intros H. apply normalize_entries in H as [H1 H2]; [|apply NoDup_fst_map_to_list].
  destruct (qb !! k) as [raw|] eqn:Ek; [by apply H1, elem_of_map_to_list|]. rewrite H2; [done|].
  intros Hin. apply list_elem_of_fmap in Hin as ([k' raw] & -> & Hk). apply elem_of_map_to_list in Hk. simpl in Ek. congruence.
Qed.

(** The final query: the policy's clauses close the must list, the model's own clauses
    are kept, and nothing else is there. *)
Lemma final_query clauses policyMust :
  let given key := match clauses !! key with Some (Some l) => Some l | _ => None end in
  exists query, buildFinalQuery clauses policyMust = JObj {[ "bool" := JObj query ]}
    /\ (forall k, is_Some (query !! k) -> allowed_key k = true)
    /\ as_arr (query !! "must") = default [] (given "must") ++ policyMust
    /\ query !! "must_not" = JArr <$> given "must_not"
    /\ query !! "filter" = JArr <$> given "filter".
Proof.
  intros given. unfold buildFinalQuery, given. eexists. split; [reflexivity|].
  destruct (clauses !! "must") as [[l1|]|], policyMust as [|c policyMust];
    destruct (clauses !! "must_not") as [[l2|]|]; destruct (clauses !! "filter") as [[l3|]|];
    (split_and!; [|reflexivity..]);
    intros k; simpl; rewrite ?lookup_insert_is_Some, ?lookup_empty_is_Some;
    intros H; repeat (destruct H as [<-|[_ H]]; [reflexivity|]); by apply lookup_empty_is_Some in H.
Qed.

(** Everything in the scope: what a request that is sent satisfies. *)
Definition in_scope (who : option Identity) (args : json) (r : request) : Prop :=
  exists path id pr body query,
    who = Some id /\ AccountID id <> "" /\ Resolve id path = Ok pr /\ Deny pr = false
    /\ req_url r = buildURL (Host cfg) path /\ path <> ""
    /\ (forall raw, raw ∈ str_split "," path -> MatchString allowedRegexp (trim_space raw) = true)
    /\ req_body r = JObj body /\ (forall k, is_Some (body !! k) -> k ∈ ["query"; "size"; "aggs"; "sort"])
    /\ body !! "query" = Some (JObj {[ "bool" := JObj query ]})
    /\ (forall k, is_Some (query !! k) -> allowed_key k = true)
    /\ as_arr (query !! "must") = default [] (asked args "must") ++ InjectMustClauses pr
    /\ query !! "must_not" = JArr <$> asked args "must_not"
    /\ query !! "filter" = JArr <$> asked args "filter"
    /\ (forall a, body !! "aggs" = Some a -> exists m, a = JObj m /\ agg_tree maxAggDepth m)
    /\ (forall u part, within u part -> part ∈ default [] (asked args "must") \/ query !! "must_not" = Some part
          \/ query !! "filter" = Some part \/ body !! "aggs" = Some part \/ body !! "sort" = Some part ->
        reads_here u = false).

Lemma asked_given args m qb cs key :
  dec_struct (Some args) = Some m -> dec_struct (m !! "queryBody") = Some qb -> normalize_clauses qb = Ok cs ->
  match cs !! key with Some (Some l) => Some l | _ => None end = asked args key.
Proof.
  intros Hm Hq Hn. pose proof (normalize_clauses_spec qb cs key Hn) as Hs. unfold asked.
  assert (as_obj (Some args) = m) as -> by (unfold dec_struct in Hm; destruct args; by simplify_eq).
  assert (as_obj (m !! "queryBody") = qb) as ->
    by (unfold dec_struct in Hq; destruct (m !! "queryBody") as [[]|]; by simplify_eq).
  destruct (qb !! key) as [raw|] eqn:Ek; simpl; [|by rewrite Hs]. destruct Hs as (c & Hc & ->). rewrite Hc. by destruct c.
Qed.

Lemma elem_of_parts aggs sort cs part :
  part ∈ match aggs with Some a => [JObj a] | None => [] end
         ++ match sort with Some s => [s] | None => [] end
         ++ List.concat (List.map (fun kv : string * option (list json) =>
              match kv.2 with Some l => [JArr l] | None => [] end) (map_to_list cs))
  <-> (JObj <$> aggs) = Some part \/ sort = Some part \/ exists (key : string) l, cs !! key = Some (Some l) /\ part = JArr l.
Proof.
  rewrite !elem_of_app. apply Morphisms_Prop.or_iff_morphism; [|apply Morphisms_Prop.or_iff_morphism].
  - destruct aggs; simpl; [rewrite list_elem_of_singleton|]; split; intros H; simplify_eq; auto. by apply elem_of_nil in H.
  - destruct sort; [rewrite list_elem_of_singleton|]; split; intros H; simplify_eq; auto. by apply elem_of_nil in H.
  - rewrite list_elem_of_In, in_concat. split.
    + intros (x & Hx & Hp). apply in_map_iff in Hx as ([k [l|]] & <- & Hk); [|done]. destruct Hp as [<-|[]].
      exists k, l. split; [|done]. by apply elem_of_map_to_list, list_elem_of_In.
    + intros (k & l & Hk & ->). exists [JArr l]. split; [|by left]. apply in_map_iff. exists (k, Some l).
      split; [done|]. by apply list_elem_of_In, elem_of_map_to_list.
Qed.

Lemma body_keys q s aggs sort :
  let body := [("query", q); ("size", JNum s)] ++ match aggs with Some a => [("aggs", JObj a)] | None => [] end
              ++ match sort with Some v => [("sort", v)] | None => [] end in
  exists b, jobj body = JObj b /\ (forall k, is_Some (b !! k) -> k ∈ ["query"; "size"; "aggs"; "sort"])
    /\ b !! "query" = Some q /\ b !! "aggs" = JObj <$> aggs /\ b !! "sort" = sort.
Proof.
  intros body. eexists. split; [reflexivity|]. destruct aggs, sort; (split_and!; [|done..]);
    intros k; simpl; rewrite !lookup_insert_is_Some; intros H;
    repeat (destruct H as [<-|[_ H]]; [set_solver|]); by apply lookup_empty_is_Some in H.
Qed.

Lemma prepare_in_scope who args r : prepare who args = Ok r -> in_scope who args r.
Proof.
  unfold prepare. intros H.
  destruct (dec_struct (Some args)) as [m|] eqn:Em; simpl in H; [|done].
  destruct (dec_str (m !! "indexPath")) as [path|] eqn:Ep; simpl in H; [|done].
  destruct (dec_struct (m !! "queryBody")) as [qb|] eqn:Eq; simpl in H; [|done].
  destruct (dec_int (m !! "size")) as [size|]; simpl in H; [|done].
  destruct (str_empty path) eqn:Epe; [done|]. destruct (first_error _ _); simpl in H; [|done].
  destruct (normalize_clauses qb) as [cs|] eqn:En; simpl in H; [|done].
  destruct (normalizeAggregations decode (m !! "aggregations")) as [aggs|] eqn:Ea; [|done].
  destruct (rejectDocumentReads _) eqn:Er in H; [done|].
  destruct (validateIndexPath path allowedRegexp) as [[]|] eqn:Ev; [|done].
  destruct who as [id|]; [|done]. destruct (str_empty (AccountID id)) eqn:Eid; [done|].
  destruct (Resolve id path) as [pr|] eqn:Epr; [|done]. destruct (Deny pr) eqn:Ed; [done|].
  pose proof (fun key => asked_given args m qb cs key Em Eq En) as Hg.
  destruct (final_query cs (InjectMustClauses pr)) as (query & Hq & Hk & Hmust & Hnot & Hfil). rewrite Hg in Hmust, Hnot, Hfil.
  destruct (body_keys (buildFinalQuery cs (InjectMustClauses pr)) (default (MaxResultSize cfg) size) aggs (m !! "sort"))
    as (body & Hbody & Hbk & Hbq & Hba & Hbs). rewrite Hq in Hbq.
  injection H as <-. exists path, id, pr, body, query. apply validateIndexPath_ok in Ev as [Hpe Hv].
  split_and!; auto; [by apply str_empty_false|intros raw Hraw; by apply Hv| |].
  - intros v Ha. rewrite Hba in Ha. destruct aggs as [am|]; [|done]. injection Ha as <-. exists am. split; [done|].
    by apply (normalized decode (m !! "aggregations")).
  - pose proof (not_rejected _ Er) as Hr.
    assert (forall key l, asked args key = Some l -> forall u, within u (JArr l) -> reads_here u = false) as Hl.
    { intros key l Hl u. apply Hr, elem_of_parts. right. right. exists key, l. split; [|done].
      specialize (Hg key). rewrite Hl in Hg. destruct (cs !! key) as [[]|]; by simplify_eq. }
    intros u part Hu [Hp|[Hp|[Hp|[Hp|Hp]]]].
    + destruct (asked args "must") as [l|] eqn:El; [|by apply elem_of_nil in Hp]. apply (Hl "must" l El). by eapply within_arr.
    + rewrite Hnot in Hp. destruct (asked args "must_not") as [l|] eqn:El; [|done]. injection Hp as <-. by apply (Hl "must_not" l El).
    + rewrite Hfil in Hp. destruct (asked args "filter") as [l|] eqn:El; [|done]. injection Hp as <-. by apply (Hl "filter" l El).
    + rewrite Hba in Hp. apply (Hr part u); [apply elem_of_parts; by left|done].
    + rewrite Hbs in Hp. apply (Hr part u); [apply elem_of_parts; right; by left|done].
Qed.

(** C17: Every request that reaches the cluster is in scope: it is made for an account the
    policy allows, on indices of the configured pattern only, its query keeps the
    policy's clauses next to the model's, its aggregations are bounded by the query, and
    nothing the model supplied reads a stored document. *)
Theorem search_scoped who args reqs out :
  Invoke who args = (reqs, out) -> Forall (in_scope who args) reqs /\ (List.length reqs <= 1)%nat.
Proof.
  unfold Invoke. destruct (prepare who args) as [r|e] eqn:Ep; intros [= <- _]; [|by split; [constructor|simpl; lia]].
  split; [|simpl; lia]. apply Forall_singleton. by apply prepare_in_scope.
Qed.
End invoke.
End Tool.

(** ** mapping.go: the schema of the latest daily index *)
Module Mapping.

(** [\d{4}-\d{2}-\d{2}$] *)
Definition date_shape (s : string) : bool :=
  match list_ascii_of_string s with
  | [y1; y2; y3; y4; d1; m1; m2; d2; a; b] =>
      forallb is_digit [y1; y2; y3; y4; m1; m2; a; b] && Ascii.eqb d1 "-" && Ascii.eqb d2 "-"
  | _ => false
  end.
Definition dailyIndexSuffix (s : string) : bool :=
  (10 <=? String.length s)%nat && date_shape (str_drop (String.length s - 10) s).

Definition indexPrefix (pattern : string) : string := trim_suffix "*" pattern.

Definition latestIndexBefore (names : list string) (todayIndexName : string) : string :=
  foldl (fun best n => if String.ltb n todayIndexName && String.ltb best n then n else best) "" names.

Inductive mapping_error := GetError (cause : string) | GetStatus (status : Z) (body : string) | CatParse | NoIndexBefore (today : string).

Section mapping.
Variable host allowedIndexPattern : string.
(** The cluster's answer to a GET, and the decoder of its listing. *)
Variable get : string -> res string (Z * string).
Variable decode : string -> option json.

Definition doGet (url : string) : res mapping_error string :=
  match get url with
  | Err cause => Err (GetError cause)
  | Ok (status, out) => if (400 <=? status)%Z then Err (GetStatus status out) else Ok out
  end.

Definition dec_row (v : json) : option string := m ← dec_struct (Some v); dec_str (m !! "index").

Definition cat_url : string :=
  trim_right_of "/" host +:+ "/_cat/indices/" +:+ allowedIndexPattern +:+ "?h=index&format=json&s=index:desc".
Definition mapping_url (index : string) : string := trim_right_of "/" host +:+ "/" +:+ index +:+ "/_mapping".

Definition catIndices : res mapping_error (list string) :=
  let! raw := doGet cat_url in
  let! rows := ok_or CatParse (v ← decode raw; dec_list dec_row (Some v)) in
  Ok (List.filter dailyIndexSuffix (default [] rows)).

(** [IndexMapping] on a day, with the cache; the urls requested, the result and the
    cache after. *)
Definition IndexMapping (day : string) (byDay : gmap string string)
    : list string * res mapping_error string * gmap string string :=
  let today := indexPrefix allowedIndexPattern +:+ day in
  match byDay !! today with
  | Some cached => ([], Ok cached, byDay)
  | None =>
      match catIndices with
      | Err e => ([cat_url], Err e, byDay)
      | Ok names =>
          let idx := latestIndexBefore names today in
          if str_empty idx then ([cat_url], Err (NoIndexBefore today), byDay)
          else match doGet (mapping_url idx) with
               | Err e => ([cat_url; mapping_url idx], Err e, byDay)
               | Ok body => ([cat_url; mapping_url idx], Ok body, <[today := body]> byDay)
               end
      end
  end.

(** Go's order on strings is the order of [String.compare]. *)
Lemma ltb_lt a b : String.ltb a b = true <-> String.compare a b = Lt.
Proof. unfold String.ltb. by destruct (String.compare a b). Qed.

Lemma ascii_compare_eq c d : Ascii.compare c d = Eq -> c = d.
Proof. apply Ascii.compare_eq_iff. Qed.

Lemma ascii_compare_trans a b c : Ascii.compare a b = Lt -> Ascii.compare b c = Lt -> Ascii.compare a c = Lt.
Proof. unfold Ascii.compare. rewrite !N.compare_lt_iff. lia. Qed.

Lemma compare_trans a b c : String.compare a b = Lt -> String.compare b c = Lt -> String.compare a c = Lt.
Proof.
  revert b c. induction a as [|x a IH]; intros [|y b] [|z c] H1 H2; simpl in *; try done.
  destruct (Ascii.compare x y) eqn:E1; [|destruct (Ascii.compare y z) eqn:E2|]; try done.
  - apply ascii_compare_eq in E1 as ->. destruct (Ascii.compare y z); [by eapply IH|done|done].
  - apply ascii_compare_eq in E2 as ->. by rewrite E1.
  - by rewrite (ascii_compare_trans _ _ _ E1 E2).
Qed.

Lemma compare_refl a : String.compare a a = Eq.
Proof. pose proof (String.compare_antisym a a). by destruct (String.compare a a). Qed.

(** The latest name before today: one of the names, before today, and no name between. *)
Lemma latest_spec names today best :
  let r := foldl (fun best n => if String.ltb n today && String.ltb best n then n else best) best names in
  (r = best \/ r ∈ names /\ String.ltb r today = true /\ String.ltb best r = true)
  /\ forall n, n ∈ names -> String.ltb n today = true -> String.ltb r n = false.
Proof.
  revert best. induction names as [|x names IH]; intros best; simpl.
  { split; [by left|]. by intros n Hn%elem_of_nil. }
  set (best' := if _ && _ then x else best). destruct (IH best') as [H1 H2]. simpl in H1, H2. set (r := foldl _ _ _) in *.
  assert (best' = x /\ String.ltb x today = true /\ String.ltb best x = true
          \/ best' = best /\ (String.ltb x today = true -> String.ltb best x = false)) as Hb.
  { unfold best'. destruct (String.ltb x today), (String.ltb best x); auto. }
  assert (best' = r \/ String.ltb best' r = true) as Hge by (destruct H1 as [->|(_ & _ & ?)]; auto).
  clearbody best' r. split.
  - destruct Hb as [(-> & Hx & Hbx)|[-> _]].
    + right. destruct H1 as [->|(Hr & Ht & Hxr)]; [by split_and!; [left| |]|]. split_and!; [by right|done|].
      apply ltb_lt. eapply compare_trans; by apply ltb_lt.
    + destruct H1 as [->|(Hr & Ht & Hxr)]; [by left|]. right. split_and!; [by right|done|done].
  - intros n [->|Hn]%elem_of_cons Ht; [|by apply H2]. destruct (String.ltb r x) eqn:Erx; [|done].
    destruct Hb as [(-> & _ & _)|[-> Hb]].
    + destruct Hge as [->|Hge]; [by unfold String.ltb in Erx; rewrite compare_refl in Erx|].
      apply ltb_lt in Hge, Erx. pose proof (compare_trans _ _ _ Hge Erx) as Hc. by rewrite compare_refl in Hc.
    + specialize (Hb Ht). destruct Hge as [->|Hge]; [congruence|].
      apply ltb_lt in Hge, Erx. pose proof (proj2 (ltb_lt _ _) (compare_trans _ _ _ Hge Erx)). congruence.
Qed.

(** The mapping shown is the body the cluster gives for the most recent daily index
    before today; it is fetched once a day, by two requests, and a failure is not
    remembered. *)
Theorem mapping_latest day byDay :
  let today := indexPrefix allowedIndexPattern +:+ day in
  let '(urls, r, byDay') := IndexMapping day byDay in
  match r with
  | Ok body =>
      byDay' = <[today := body]> byDay
      /\ (byDay !! today = Some body /\ urls = []
          \/ exists names idx, catIndices = Ok names /\ idx ∈ names /\ String.ltb idx today = true
               /\ (forall n, n ∈ names -> String.ltb n today = true -> String.ltb idx n = false)
               /\ doGet (mapping_url idx) = Ok body /\ urls = [cat_url; mapping_url idx])
      /\ IndexMapping day byDay' = ([], Ok body, byDay')
  | Err _ => byDay' = byDay
  end.
Proof.
  intros today. unfold IndexMapping. fold today. destruct (byDay !! today) as [cached|] eqn:Ec.
  { rewrite insert_id by done. rewrite Ec. split_and!; [done|by left|done]. }
  destruct catIndices as [names|e]; [|done]. destruct (str_empty _) eqn:Ee; [done|].
  apply str_empty_false in Ee. destruct (doGet _) as [body|e] eqn:Eg; [|done].
  split_and!; [done| |by rewrite lookup_insert_eq]. right. exists names, (latestIndexBefore names today).
  destruct (latest_spec names today "") as [[H|(H1 & H2 & _)] H3]; [done|]. by split_and!.
Qed.
End mapping.
End Mapping.

Module SearchExamples.
Import IndexPattern Tool.

Definition cfg : Config := mkConfig "https://search/" "U" "P" "OpenSearchQuery" "d" 30 "surface-to-llm" 500 "prod.cpe-*".
Definition re : index_regexp := Ranged "prod.cpe-" "".
Definition scope (id : Identity) (_ : string) : res string PolicyResult :=
  Ok (mkPolicyResult [jobj [("term", jobj [("account", JStr (AccountID id))])]] ["prod.cpe-*"] false "").
Definition who : option Identity := Some (mkIdentity "" "u" "a1" "" "").
Definition no_text (_ : string) : option json := None.
Definition cluster (_ : request) : res string (Z * string) := Ok (200%Z, "hits").

Definition clause : json := jobj [("match", jobj [("x", JStr "1")])].
Definition args_of (extra : list (string * json)) : json :=
  jobj ([("indexPath", JStr "prod.cpe-2026-04-30"); ("queryBody", jobj [("must", clause)])] ++ extra).
Definition aggs_of (ty : string) : json := jobj [("by_x", jobj [(ty, jobj [("field", JStr "x")])])].

Definition sent (args : json) : list request * res invoke_error string :=
  Invoke cfg re scope no_text cluster who args.

Example search_ex :
  (match sent (args_of [("aggregations", aggs_of "terms")]) with
   | ([r], out) => (req_url r, marshal (req_body r) , out)
   | _ => ("", "", Err BadInput)
   end)
  = ("https://search/prod.cpe-2026-04-30/_search?ignore_unavailable=true",
     marshal (jobj [("query", jobj [("bool", jobj [("must", JArr [clause; jobj [("term", jobj [("account", JStr "a1")])]])])]);
       ("size", JNum 500); ("aggs", aggs_of "terms")]), Ok "hits")
  /\ (sent (args_of [("aggregations", aggs_of "global")])).2
     = Err (AggsRefused (Aggs.AggTypeNotAllowed "global" "by_x"))
  /\ (sent (args_of [("sort", JArr [jobj [("terms", jobj [("x", jobj [("index", JStr "other")])])]])])).2 = Err DocumentRead
  /\ (sent (jobj [("indexPath", JStr "prod.cpe-1,*"); ("queryBody", jobj [])])).2
     = Err (PathRefused (PathNotAllowed "*")).
Proof. vm_compute. by split_and!. Qed.

Lemma search_scoped_witness :
  let args := args_of [("aggregations", aggs_of "terms")] in
  let '(reqs, out) := sent args in
  List.length reqs = 1%nat /\ Forall (in_scope cfg re scope who args) reqs /\ (List.length reqs <= 1)%nat.
Proof.
  cbv zeta. destruct (sent _) as [reqs out] eqn:E. split.
  - assert (List.length (sent (args_of [("aggregations", aggs_of "terms")])).1 = 1%nat) as H by (vm_compute; reflexivity).
    by rewrite E in H.
  - exact (search_scoped cfg re scope no_text cluster who _ reqs out E).
Defined.

Definition listing (url : string) : res string (Z * string) :=
  if str_contains "_cat" url then Ok (200%Z, "rows") else Ok (200%Z, url).
Definition rows (_ : string) : option json :=
  Some (JArr (List.map (fun s => jobj [("index", JStr s)])
    ["prod.cpe-2026-06-17-reindex"; "prod.cpe-2026-06-17"; "prod.cpe-2026-06-18"; "prod.cpe-2026-06-16"])).
Example mapping_ex :
  (Mapping.IndexMapping "https://search/" "prod.cpe-*" listing rows "2026-06-18" ∅).1.2
  = Ok "https://search/prod.cpe-2026-06-17/_mapping".
Proof. vm_compute. reflexivity. Qed.
End SearchExamples.
