(* ===== verification/Queries.v ===== *)
(** * The read-only database tools (pkg/workflow/builtin/postgresquery and mongoquery)

    - [Postgres]: the connection string, the SELECT check, the parameters, the row cap
      and the error classification of the Postgres tool;
    - [Mongo]: the operator scan, the date markers, the choice of the database, the
      document cap and the dispatch of the Mongo tool.

    The drivers are parameters: what a query or a find returns.  Results are records;
    their encoding for the model ([toolresult.Marshal]) is left out. *)

From S2P Require Import Prelude Json Scan Retry Walk.
From stdpp Require Import base tactics list strings gmap option fin_maps.
From Stdlib Require Import ZArith Lia Ascii String.
Local Open Scope string_scope.
Local Open Scope list_scope.
Local Open Scope Z_scope.
Local Open Scope go_scope.

Definition str_default (s d : string) : string := if str_empty s then d else s.

(** ** postgresquery/tool.go *)
Module Postgres.

Record ConnConfig := mkConn {
  Host : string;
  Port : string;
  Database : string;
  User : string;
  PasswordEnv : string;
  MaxRowsDefault : Z;
  StatementTimeoutMs : Z;
  SSLMode : string;
}.

Definition validSSLModes : list string := ["disable"; "allow"; "prefer"; "require"; "verify-ca"; "verify-full"].

(** [url.QueryEscape] *)
Definition unreserved (c : ascii) : bool :=
  is_digit c || is_upper c || is_lower c || Ascii.eqb c "-" || Ascii.eqb c "_" || Ascii.eqb c "." || Ascii.eqb c "~".
Definition hex_upper (n : nat) : ascii := ascii_of_nat (if (n <? 10)%nat then 48 + n else 55 + n).
Definition escape_byte (c : ascii) : string :=
  if unreserved c then String c ""
  else if Ascii.eqb c " " then "+"
  else String "%" (String (hex_upper (nat_of_ascii c / 16)) (String (hex_upper (nat_of_ascii c mod 16)) "")).
Fixpoint QueryEscape (s : string) : string :=
  match s with
  | EmptyString => ""
  | String c s => escape_byte c +:+ QueryEscape s
  end.

(** [buildDSN]; the error names the refused mode. *)
Definition buildDSN (cc : ConnConfig) (password : string) : res string string :=
  let port := str_default (Port cc) "5433" in
  let sslMode := str_default (SSLMode cc) "prefer" in
  if negb (mem_str sslMode validSSLModes) then Err sslMode
  else Ok ("postgres://" +:+ QueryEscape (User cc) +:+ ":" +:+ QueryEscape password +:+ "@" +:+ Host cc +:+ ":" +:+ port
           +:+ "/" +:+ Database cc +:+ "?sslmode=" +:+ sslMode).

(** How the user part of a URL is read back ([net/url], [encodeUserPassword]): percent
    sequences are decoded, a plus sign stays one. *)
Definition hex_value (c : ascii) : option nat :=
  let n := nat_of_ascii c in
  if is_digit c then Some (n - 48)%nat
  else if in_range 65 70 c then Some (n - 55)%nat
  else if in_range 97 102 c then Some (n - 87)%nat
  else None.
Fixpoint userinfo_unescape (s : string) : option string :=
  match s with
  | EmptyString => Some ""
  | String c s' =>
      if Ascii.eqb c "%" then
        match s' with
        | String h (String l s'') =>
            a ← hex_value h; b ← hex_value l; r ← userinfo_unescape s'';
            Some (String (ascii_of_nat (16 * a + b)) r)
        | _ => None
        end
      else r ← userinfo_unescape s'; Some (String c r)
  end.
Definition spaces_to_plus (s : string) : string :=
  string_of_list_ascii (List.map (fun c => if Ascii.eqb c " " then "+"%char else c) (list_ascii_of_string s)).

Definition isSelect (sql : string) : bool :=
  let s := to_lower (trim_space sql) in
  has_prefix "select" s || (has_prefix "with " s && str_contains "select" s).

(** A parameter as the driver gets it: whole numbers become 64-bit integers. *)
Inductive param := PInt (n : Z) | PAny (v : json).
Definition normalizeParams (params : list json) : list param :=
  List.map (fun p => match p with
                     | JNum n => if decide (int64_range n) then PInt n else PAny p
                     | _ => PAny p
                     end) params.

(** What the driver's [Query] gives: columns, rows (each read or not) and the error that
    ended them. *)
Record cursor := mkCursor {
  cols : list string;
  rows : list (res error (list json));
  rows_err : option error;
}.
Record queryInput := mkInput { qi_Database : string; qi_SQL : string; qi_Params : list json }.
Record queryOutput := mkOutput {
  qo_Database : string;
  RowCount : Z;
  Rows : list (gmap string json);
  Truncated : bool;
}.

Definition dec_input (args : json) : option queryInput :=
  m ← dec_struct (Some args);
  db ← dec_str (m !! "database"); sql ← dec_str (m !! "sql");
  ps ← dec_list Some (m !! "params");
  Some (mkInput db sql (default [] ps)).

Section invoke.
Variable Connections : gmap string ConnConfig.
(** The pools wired at start-up, and the driver behind them (with the deadline of the
    query, in nanoseconds); [pg_code] is the SQLSTATE of a server error. *)
Variable pools : string -> bool.
Variable Query : string -> option Z -> string -> list param -> res error cursor.
Variable pg_code : error -> option string.

Definition classifyPgError (err : error) : error :=
  if is_deadline err || is_canceled err then
    ETool "timeout" (Some (EWrap "query timed out (statement_timeout) — narrow the filter or add a tighter LIMIT: " err)) false
  else if bool_decide (pg_code err = Some "57014") then
    ETool "timeout" (Some (EWrap "query canceled by statement_timeout — narrow the filter or add a tighter LIMIT: " err)) false
  else EWrap "query: " err.

Definition row_map (cols : list string) (vals : list json) : gmap string json :=
  foldl (fun m cv => <[cv.1 := cv.2]> m) ∅ (zip cols vals).

(** The loop over the rows: [Ok (out, true)] when the cap stopped it. *)
Fixpoint read_rows (maxRows : Z) (cols : list string) (rows : list (res error (list json)))
    (out : list (gmap string json)) (count : Z) : res error (list (gmap string json) * Z * bool) :=
  match rows with
  | [] => Ok (out, count, false)
  | r :: rows =>
      if maxRows <=? count then Ok (out, count, true)
      else match r with
           | Err e => Err (EWrap "read row: " e)
           | Ok vals => read_rows maxRows cols rows (out ++ [row_map cols vals]) (count + 1)
           end
  end.

Definition max_rows (cc : ConnConfig) : Z := if MaxRowsDefault cc <=? 0 then 200 else MaxRowsDefault cc.
Definition query_deadline (cc : ConnConfig) : option Z :=
  if 0 <? StatementTimeoutMs cc then Some (wrap64 (wrap64 (StatementTimeoutMs cc * Millisecond) + 5 * Second)) else None.

Definition Invoke (args : json) : res error queryOutput :=
  match dec_input args with
  | None => Err (EPlain "parse args")
  | Some i =>
      if negb (isSelect (qi_SQL i)) then
        Err (EPlain "postgres-query refuses non-SELECT statements (this is read-only): only SELECT or WITH...SELECT allowed")
      else match Connections !! qi_Database i with
      | None => Err (EPlain "unknown connection")
      | Some cc =>
          if negb (pools (qi_Database i)) then Err (EPlain "connection has no pool wired in main.go")
          else match Query (qi_Database i) (query_deadline cc) (qi_SQL i) (normalizeParams (qi_Params i)) with
          | Err e => Err (classifyPgError e)
          | Ok c =>
              let! r := read_rows (max_rows cc) (cols c) (rows c) [] 0 in
              let '(out, count, truncated) := r in
              match (if truncated then None else rows_err c) with
              | Some e => Err (classifyPgError e)
              | None => Ok (mkOutput (qi_Database i) count out truncated)
              end
          end
      end
  end.

(** *** Properties *)
Definition read_back (c : ascii) : ascii := if Ascii.eqb c " " then "+"%char else c.
(** Checked on the 256 bytes. *)
Definition reads_back (c : ascii) : bool :=
  match escape_byte c with
  | String x EmptyString => negb (Ascii.eqb x "%") && Ascii.eqb x (read_back c)
  | String p (String h (String l EmptyString)) =>
      Ascii.eqb p "%" && match hex_value h, hex_value l with
                         | Some a, Some b => Ascii.eqb (ascii_of_nat (16 * a + b)) (read_back c)
                         | _, _ => false
                         end
  | _ => false
  end.
Lemma every_byte (f : ascii -> bool) :
  forallb f (List.map ascii_of_nat (seq 0 (16 * 16))) = true -> forall c, f c = true.
Proof using.
  intros H c. rewrite forallb_forall in H. apply H. apply in_map_iff. exists (nat_of_ascii c).
  split; [apply ascii_nat_embedding|]. apply in_seq. pose proof (nat_ascii_bounded c). lia.
Qed.
Lemma reads_back_all c : reads_back c = true.
Proof using. apply every_byte. vm_compute. reflexivity. Qed.
Lemma escape_byte_read c s :
  userinfo_unescape (escape_byte c +:+ s) = String (read_back c) <$> userinfo_unescape s.
Proof using.
  pose proof (reads_back_all c) as H. unfold reads_back in H.
  destruct (escape_byte c) as [|x [|h [|l []]]]; try done; to_prop.
  - change (String x "" +:+ s) with (String x s). apply Ascii.eqb_eq in H0 as ->. simpl. rewrite H. by destruct (userinfo_unescape s).
  - apply Ascii.eqb_eq in H as ->. change (String "%" (String h (String l "")) +:+ s) with (String "%" (String h (String l s))).
    destruct (hex_value h) as [a|] eqn:Ea; [|done]. destruct (hex_value l) as [b|] eqn:Eb; [|done].
    apply Ascii.eqb_eq in H0 as <-. cbn -[ascii_of_nat Nat.mul]. rewrite Ea, Eb. cbn -[ascii_of_nat Nat.mul]. by destruct (userinfo_unescape s).
Qed.

(** The credentials of a connection string read back as they were, except that a space
    reads back as a plus sign. *)
Lemma escaped_credentials s : userinfo_unescape (QueryEscape s) = Some (spaces_to_plus s).
Proof using.
  unfold spaces_to_plus. induction s as [|c s IH]; [done|]. cbn [QueryEscape]. by rewrite escape_byte_read, IH.
Qed.

Lemma escaped_safe s : str_all (fun c => unreserved c || Ascii.eqb c "%" || Ascii.eqb c "+") (QueryEscape s) = true.
Proof using.
  induction s as [|c s IH]; [done|]. cbn [QueryEscape].
  assert (forall a b f, str_all f (a +:+ b) = str_all f a && str_all f b) as Happ.
  { intros a b f. induction a as [|x a IHa]; [done|]. change (f x && str_all f (a +:+ b) = f x && str_all f a && str_all f b).
    by rewrite IHa, andb_assoc. }
  rewrite Happ, IH, andb_true_r.
  revert c. apply every_byte. vm_compute. reflexivity.
Qed.

Lemma read_rows_spec maxRows cols rows out count :
  match read_rows maxRows cols rows out count with
  | Ok (out', count', truncated) =>
      let n := Z.to_nat (maxRows - count) in
      exists vals, take n rows = List.map Ok vals /\ out' = out ++ List.map (row_map cols) vals
        /\ count' = count + Z.of_nat (List.length vals)
        /\ truncated = (n <? List.length rows)%nat
  | Err e => exists e', e = EWrap "read row: " e' /\ Err e' ∈ take (Z.to_nat (maxRows - count)) rows
  end.
Proof using.
  revert out count. induction rows as [|r rows IH]; intros out count; cbn [read_rows].
  { exists []. rewrite take_nil. simpl. rewrite app_nil_r, Z.add_0_r. by split_and!. }
  destruct (Z.leb_spec maxRows count) as [Hle|Hlt].
  { replace (Z.to_nat (maxRows - count)) with 0%nat by lia. exists []. simpl. rewrite app_nil_r, Z.add_0_r. by split_and!. }
  replace (Z.to_nat (maxRows - count)) with (S (Z.to_nat (maxRows - (count + 1)))) by lia.
  destruct r as [vals|e]; [|by exists e; split; [done|left]].
  specialize (IH (out ++ [row_map cols vals]) (count + 1)).
  destruct (read_rows _ _ _ _ _) as [[[out' count'] truncated]|e].
  - destruct IH as (l & H1 & -> & -> & ->). exists (vals :: l). simpl. rewrite H1, <- app_assoc. split_and!; [done|done|lia|done].
  - destruct IH as (e' & -> & H). exists e'. split; [done|]. by right.
Qed.

(** A query answers the model with at most the configured number of rows: a SELECT on a
    configured connection, its first rows in order, marked truncated exactly when more
    rows matched; a failing query or row is an error. *)
Theorem query_rows args out :
  Invoke args = Ok out ->
  exists i cc c, dec_input args = Some i /\ isSelect (qi_SQL i) = true
    /\ Connections !! qi_Database i = Some cc
    /\ Query (qi_Database i) (query_deadline cc) (qi_SQL i) (normalizeParams (qi_Params i)) = Ok c
    /\ (RowCount out = Z.of_nat (List.length (Rows out)) /\ RowCount out <= max_rows cc /\ 0 < max_rows cc)
    /\ (exists vals, take (Z.to_nat (max_rows cc)) (rows c) = List.map Ok vals
          /\ Rows out = List.map (row_map (cols c)) vals)
    /\ (Truncated out = true <-> max_rows cc < Z.of_nat (List.length (rows c)))
    /\ (Truncated out = false -> rows_err c = None).
Proof using.
  unfold Invoke. intros H. destruct (dec_input args) as [i|]; [|done].
  destruct (isSelect (qi_SQL i)) eqn:Es; [|done]. destruct (Connections !! qi_Database i) as [cc|] eqn:Ec; [|done].
  destruct (pools (qi_Database i)); [|done]. cbn [negb] in H. destruct (Query _ _ _ _) as [c|] eqn:Eq; [|done].
  pose proof (read_rows_spec (max_rows cc) (cols c) (rows c) [] 0) as Hr.
  destruct (read_rows _ _ _ _ _) as [[[l count] truncated]|]; simpl in H; [|done].
  destruct Hr as (vals & H1 & -> & -> & ->). rewrite Z.sub_0_r in *.
  assert (0 < max_rows cc) as Hm by (unfold max_rows; destruct (Z.leb_spec (MaxRowsDefault cc) 0); lia).
  assert (List.length vals <= Z.to_nat (max_rows cc))%nat as Hl
    by (rewrite <- (length_map (@Ok error _) vals), <- H1; rewrite length_take; lia).
  destruct (Nat.ltb_spec (Z.to_nat (max_rows cc)) (List.length (rows c))) as [Ht|Ht].
  - injection H as <-. exists i, cc, c. simpl. rewrite length_map. split_and!; eauto; try lia; split; (lia || done).
  - destruct (rows_err c) eqn:Ee; [done|]. injection H as <-. exists i, cc, c. simpl. rewrite length_map.
    split_and!; eauto; try lia; split; (done || lia).
Qed.

(** A timed-out query is typed "timeout", yet the retry classifier takes it for a
    validation error: no policy that retries timeouts ever retries it. *)
Lemma timeout_never_retried err :
  is_deadline err || is_canceled err = true \/ pg_code err = Some "57014" -> Classify (classifyPgError err) = ClassValidation.
Proof using.
  unfold classifyPgError. intros H. destruct (is_deadline err || is_canceled err); [done|].
  destruct H as [|H]; [done|]. by rewrite bool_decide_eq_true_2.
Qed.
End invoke.
End Postgres.

(** ** mongoquery/tool.go *)
Module Mongo.

(** A document as the driver gets it: instants are nanoseconds since the epoch. *)
#[warnings="-register-all"]
Inductive doc : Type :=
| DNull
| DBool (b : bool)
| DNum (n : Z)
| DStr (s : string)
| DDate (at_ns : Z)
| DArr (l : list doc)
| DObj (m : gmap string doc).

Section dates.
(** [time.Parse] with the accepted layouts. *)
Variable parse_time : string -> option Z.

Definition parseEpochMillis (raw : json) : option Z :=
  match raw with JNum n => Some (n * Millisecond) | _ => None end.
Definition parseDateLike (raw : json) : option Z :=
  match raw with JStr s => parse_time s | _ => parseEpochMillis raw end.

(** The instant a single-key date marker stands for. *)
Definition date_marker (m : gmap string json) : option Z :=
  if (size m =? 1)%nat then
    match raw ← m !! "$date"; parseDateLike raw with
    | Some t => Some t
    | None => raw ← m !! "$dateMillis"; parseEpochMillis raw
    end
  else None.

Fixpoint resolveEJSONDates (v : json) : doc :=
  match v with
  | JNull => DNull
  | JBool b => DBool b
  | JNum n => DNum n
  | JStr s => DStr s
  | JArr l => DArr (List.map resolveEJSONDates l)
  | JObj m =>
      match date_marker m with
      | Some t => DDate t
      | None => DObj (fmap (M := gmap string) resolveEJSONDates m)
      end
  end.

(** A document as it is. *)
Fixpoint embed (v : json) : doc :=
  match v with
  | JNull => DNull
  | JBool b => DBool b
  | JNum n => DNum n
  | JStr s => DStr s
  | JArr l => DArr (List.map embed l)
  | JObj m => DObj (fmap (M := gmap string) embed m)
  end.

(** Only date markers are touched. *)
Lemma resolve_plain v :
  (forall m, within (JObj m) v -> date_marker m = None) -> resolveEJSONDates v = embed v.
Proof.
  induction v as [|b|n|s|l IH|m IH] using json_ind'; intros H; try done; simpl.
  - f_equal. apply map_ext_in. intros x Hx%list_elem_of_In. rewrite Forall_forall in IH.
    apply IH; [done|]. intros m Hm. apply H. by eapply within_arr.
  - rewrite (H m) by constructor. f_equal. apply map_fmap_ext. intros k x Hk.
    apply (IH k x Hk). intros m' Hm. apply H. by eapply within_obj.
Qed.
End dates.

Record ConnConfig := mkConn {
  URIEnv : string;
  AllowedDatabases : list string;
  MaxDocsDefault : Z;
  QueryTimeoutMs : Z;
}.

Record queryInput := mkInput {
  mi_Connection : string;
  mi_Database : string;
  mi_Collection : string;
  mi_Op : string;
  mi_Filter : option (gmap string json);
  mi_Projection : option (gmap string json);
  mi_Sort : option (gmap string json);
  mi_Limit : Z;
  mi_Pipeline : list (gmap string json);
}.

Definition dec_map (v : option json) : option (option (gmap string json)) :=
  match v with
  | None | Some JNull => Some None
  | Some (JObj m) => Some (Some m)
  | _ => None
  end.
Definition dec_input (args : json) : option queryInput :=
  m ← dec_struct (Some args);
  conn ← dec_str (m !! "connection"); db ← dec_str (m !! "database"); coll ← dec_str (m !! "collection");
  op ← dec_str (m !! "op"); filter ← dec_map (m !! "filter"); proj ← dec_map (m !! "projection");
  sort ← dec_map (m !! "sort"); limit ← dec_int (m !! "limit");
  pipeline ← dec_list (fun v => dec_struct (Some v)) (m !! "pipeline");
  Some (mkInput conn db coll op filter proj sort (default 0 limit) (default [] pipeline)).

Inductive output :=
| Docs (op : string) (docs : list doc) (truncated : bool)
| Count (n : Z).

Definition allowedOps : list string := ["find"; "aggregate"; "count"].
Definition forbiddenOperators : list string :=
  ["$out"; "$merge"; "$where"; "$function"; "$accumulator"; "$listLocalSessions"].
Definition forbidden (k : string) : bool := mem_str k forbiddenOperators.

(** The first forbidden key found. *)
Fixpoint scanForbidden (v : json) : option string :=
  match v with
  | JObj m =>
      map_fold (fun k child acc =>
        if forbidden k then Some k
        else match scanForbidden child with Some bad => Some bad | None => acc end) None m
  | JArr l =>
      fold_right (fun child acc => match scanForbidden child with Some bad => Some bad | None => acc end) None l
  | _ => None
  end.

Definition effectiveLimit (reqLimit connDefault : Z) : Z :=
  let def := if connDefault <=? 0 then 100 else connDefault in
  if (0 <? reqLimit) && (reqLimit <=? def) then reqLimit else def.

Definition capDocs (docs : option (list doc)) (limit : Z) : list doc * bool :=
  match docs with
  | None => ([], false)
  | Some l => if limit <? Z.of_nat (List.length l) then (take (Z.to_nat limit) l, true) else (l, false)
  end.

(** A call of the driver. *)
Inductive call :=
| CFind (db coll : string) (filter : gmap string doc) (projection sort : option (gmap string json)) (limit : Z)
| CCount (db coll : string) (filter : gmap string doc)
| CAggregate (db coll : string) (pipeline : list (gmap string doc)).

(** [strings.Trim(u.Path, "/")] of the parsed URI; [None] when it does not parse. *)
Definition uriDefaultDB (path_of : string -> option string) (uri : string) : string :=
  match path_of uri with
  | None => ""
  | Some p => trim_right_of "/" (trim_left_of "/" p)
  end.

Section invoke.
Variable parse_time : string -> option Z.
Variable Connections : gmap string ConnConfig.
Variable defaultDBs : gmap string string.
(** The clients wired at start-up, the driver behind them (with the time a query may
    take, in nanoseconds) and [mongo.IsTimeout]. *)
Variable clients : string -> bool.
Variable find : string -> Z -> call -> res error (option (list doc)).
Variable count : string -> Z -> call -> res error Z.
Variable IsTimeout : error -> bool.

Definition classifyMongoError (op : string) (err : error) : error :=
  if is_deadline err || is_canceled err || IsTimeout err then
    ETool "timeout" (Some (EWrap (op +:+ " timed out (queryTimeoutMs) — narrow the filter or reduce the scan: ") err)) false
  else EWrap (op +:+ ": ") err.

(** The database a request is for, or why not. *)
Definition database (i : queryInput) (cc : ConnConfig) : res error string :=
  let defaultDB := default "" (defaultDBs !! mi_Connection i) in
  let db := str_default (mi_Database i) defaultDB in
  if str_empty db then Err (EPlain "database is required")
  else match AllowedDatabases cc with
  | [] => if String.eqb db defaultDB then Ok db else Err (EPlain "database not allowed")
  | l => if mem_str db l then Ok db else Err (EPlain "database not in allowed list")
  end.

Definition query_timeout (cc : ConnConfig) : Z :=
  wrap64 ((if QueryTimeoutMs cc <=? 0 then 30000 else QueryTimeoutMs cc) * Millisecond).

(** The dates of a document that must stay one. *)
Definition resolved (what : string) (m : gmap string json) : res error (gmap string doc) :=
  match resolveEJSONDates parse_time (JObj m) with
  | DObj m => Ok m
  | _ => Err (EPlain ("mongo-query: " +:+ what +:+ " must be an object, not a bare date/value"))
  end.
Fixpoint resolve_all (l : list (gmap string json)) : res error (list (gmap string doc)) :=
  match l with
  | [] => Ok []
  | m :: l => let! d := resolved "pipeline stage" m in let! ds := resolve_all l in Ok (d :: ds)
  end.

Definition dispatch (i : queryInput) (db : string) (filter : gmap string doc) (pipeline : list (gmap string doc)) (limit timeout : Z)
    : option call * res error output :=
  let conn := mi_Connection i in
  let docs op c :=
    (Some c, match find conn timeout c with
             | Err e => Err (classifyMongoError op e)
             | Ok l => let '(l, truncated) := capDocs l limit in Ok (Docs op l truncated)
             end) in
  if String.eqb (mi_Op i) "find" then
    docs "find" (CFind db (mi_Collection i) filter (mi_Projection i) (mi_Sort i) (wrap64 (limit + 1)))
  else if String.eqb (mi_Op i) "count" then
    let c := CCount db (mi_Collection i) filter in
    (Some c, match count conn timeout c with Err e => Err (classifyMongoError "count" e) | Ok n => Ok (Count n) end)
  else
    docs "aggregate" (CAggregate db (mi_Collection i) (pipeline ++ [{["$limit" := DNum (wrap64 (limit + 1))]}])).

(** What comes before the driver. *)
Definition prepare (args : json) : res error (queryInput * string * gmap string doc * list (gmap string doc) * Z * Z) :=
  let! i := ok_or (EPlain "parse args") (dec_input args) in
  if negb (mem_str (mi_Op i) allowedOps) then Err (EPlain "mongo-query refuses op")
  else
  let! cc := ok_or (EPlain "unknown connection") (Connections !! mi_Connection i) in
  let! db := database i cc in
  if negb (clients (mi_Connection i)) then Err (EPlain "connection has no client wired in main.go")
  else match scanForbidden (JObj (default ∅ (mi_Filter i))), scanForbidden (JArr (List.map JObj (mi_Pipeline i))) with
  | Some bad, _ | None, Some bad => Err (EPlain ("mongo-query refuses operator " +:+ bad))
  | None, None =>
      let! filter := match mi_Filter i with None => Ok ∅ | Some m => resolved "filter" m end in
      let! pipeline := resolve_all (mi_Pipeline i) in
      Ok (i, db, filter, pipeline, effectiveLimit (mi_Limit i) (MaxDocsDefault cc), query_timeout cc)
  end.

(** [Invoke]: the driver call made and the result. *)
Definition Invoke (args : json) : option call * res error output :=
  match prepare args with
  | Err e => (None, Err e)
  | Ok (i, db, filter, pipeline, limit, timeout) => dispatch i db filter pipeline limit timeout
  end.

(** *** Properties *)
Lemma scan_step_obj m :
  match scanForbidden (JObj m) with Some _ => true | None => false end
  = any_entry (fun k _ => forbidden k) m
    || any_entry (fun _ v => match scanForbidden v with Some _ => true | None => false end) m.
Proof using.
  simpl. unfold any_entry. induction m as [|k y m Hk Hf IH] using map_first_key_ind; [done|].
  rewrite !map_fold_insert_first_key by done. destruct (forbidden k); [done|].
  destruct (scanForbidden y); simpl; [by rewrite orb_true_r|done].
Qed.

(** The scan finds exactly the documents with a forbidden key somewhere. *)
Lemma scan_spec v :
  scanForbidden v = None <-> forall m k, within (JObj m) v -> is_Some (m !! k) -> forbidden k = false.
Proof using.
  pose proof (search_spec (fun v => match v with JObj m => any_entry (fun k _ => forbidden k) m | _ => false end)
    (fun v => match scanForbidden v with Some _ => true | None => false end)) as H.
  assert (forall v, (match scanForbidden v with Some _ => true | None => false end) = true
    <-> exists u, within u v /\ match u with JObj m => any_entry (fun k _ => forbidden k) m | _ => false end = true) as G.
  { clear v. apply H; [apply scan_step_obj| |by intros []].
    intros l. simpl. induction l as [|x l IH]; [done|]. simpl. by destruct (scanForbidden x). }
  clear H. split.
  - intros Hn m k Hw [x Hk]. apply not_true_iff_false. intros Hf. specialize (proj2 (G v)) as H. rewrite Hn in H.
    discriminate H. exists (JObj m). split; [done|]. apply any_entry_spec. eauto.
  - intros Hn. destruct (scanForbidden v) eqn:E; [|done]. destruct (proj1 (G v)) as (u & Hu & Hf); [by rewrite E|].
    destruct u as [| | | | |m]; try done. apply any_entry_spec in Hf as (k & x & Hk & Hf).
    rewrite (Hn m k Hu) in Hf; [done|eauto].
Qed.

Lemma effectiveLimit_bounds r c : 1 <= effectiveLimit r c <= (if c <=? 0 then 100 else c).
Proof using.
  unfold effectiveLimit. destruct (Z.leb_spec c 0) as [Hc|Hc]; destruct (Z.ltb_spec 0 r) as [Hr|Hr]; simpl; try lia;
    (match goal with |- context [r <=? ?d] => destruct (Z.leb_spec r d) end; lia).
Qed.

Lemma capDocs_spec l limit :
  0 <= limit -> let '(l', t) := capDocs l limit in
  l' = take (Z.to_nat limit) (default [] l) /\ (t = true <-> limit < Z.of_nat (List.length (default [] l))).
Proof using.
  intros H. destruct l as [l|]; simpl; [|rewrite take_nil; split; [done|split; [done|lia]]].
  destruct (Z.ltb_spec limit (Z.of_nat (List.length l))); [by split|].
  rewrite take_ge by lia. split; [done|]. split; [done|lia].
Qed.

(** What a call reads: its database. *)
Definition call_db (c : call) : string :=
  match c with CFind db _ _ _ _ _ | CCount db _ _ | CAggregate db _ _ => db end.

Lemma database_ok i cc db :
  database i cc = Ok db ->
  db <> "" /\ match AllowedDatabases cc with [] => defaultDBs !! mi_Connection i = Some db | l => db ∈ l end.
Proof using.
  unfold database. destruct (str_empty _) eqn:Ee; [done|]. apply str_empty_false in Ee.
  destruct (AllowedDatabases cc) as [|x l].
  - destruct (String.eqb_spec (str_default (mi_Database i) (default "" (defaultDBs !! mi_Connection i)))
      (default "" (defaultDBs !! mi_Connection i))) as [Eq|]; [|done]. intros [= <-]. rewrite Eq in *.
    split; [done|]. by destruct (defaultDBs !! mi_Connection i).
  - destruct (mem_str _ _) eqn:Em; [|done]. intros [= <-]. split; [done|]. by apply mem_str_spec in Em.
Qed.

(** A part of a document of the driver. *)
Inductive inside : doc -> doc -> Prop :=
| inside_here d : inside d d
| inside_obj m k x d : m !! k = Some x -> inside d x -> inside d (DObj m)
| inside_arr l x d : x ∈ l -> inside d x -> inside d (DArr l).

(** Replacing the dates brings no key that was not there. *)
Lemma resolve_keys v m :
  inside (DObj m) (resolveEJSONDates parse_time v) ->
  exists m0, within (JObj m0) v /\ forall k, is_Some (m !! k) -> is_Some (m0 !! k).
Proof using.
  induction v as [|b|n|s|l IH|m1 IH] using json_ind'; simpl; try (by inversion 1); intros H.
  - inversion H as [| |? x ? Hx Hin]; subst. apply list_elem_of_In, in_map_iff in Hx as (y & <- & Hy%list_elem_of_In).
    rewrite Forall_forall in IH. destruct (IH y Hy Hin) as (m0 & Hm & Hk). exists m0. split; [by eapply within_arr|done].
  - destruct (date_marker parse_time m1); [by inversion H|]. inversion H as [|? k x ? Hx Hin|]; subst.
    + exists m1. split; [constructor|]. intros k. by rewrite lookup_fmap, fmap_is_Some.
    + rewrite lookup_fmap in Hx. apply fmap_Some in Hx as (y & Hy & ->).
      destruct (IH k y Hy Hin) as (m0 & Hm & Hk). exists m0. split; [by eapply within_obj|done].
Qed.

(** The document of the driver a document of the request becomes. *)
Definition becomes (m : gmap string json) (d : gmap string doc) : Prop :=
  resolveEJSONDates parse_time (JObj m) = DObj d.

Lemma resolved_becomes what m d : resolved what m = Ok d -> becomes m d.
Proof using. unfold resolved, becomes. destruct (resolveEJSONDates _ _); try done. by intros [= ->]. Qed.

Lemma resolve_all_becomes l ds : resolve_all l = Ok ds -> Forall2 becomes l ds.
Proof using.
  revert ds. induction l as [|m l IH]; intros ds; cbn [resolve_all]; [by intros [= <-]|].
  destruct (resolved _ m) as [d|] eqn:Ed; cbn [res_bind]; [|done].
  destruct (resolve_all l) as [ds'|]; cbn [res_bind]; [|done]. intros [= <-].
  constructor; [by eapply resolved_becomes|by apply IH].
Qed.

(** The documents a call asks the server to run. *)
Definition runs (c : call) : list (gmap string doc) :=
  match c with CFind _ _ filter _ _ _ | CCount _ _ filter => [filter] | CAggregate _ _ pipeline => pipeline end.

(** No key of the document, at any depth, is an operator that writes, runs JavaScript or
    shows the sessions of the server. *)
Definition harmless (d : gmap string doc) : Prop :=
  forall m k, inside (DObj m) (DObj d) -> is_Some (m !! k) ->
    k ∉ ["$out"; "$merge"; "$where"; "$function"; "$accumulator"; "$listLocalSessions"].

Lemma becomes_harmless m d : scanForbidden (JObj m) = None -> becomes m d -> harmless d.
Proof using.
  intros Hs Hb m' k Hin Hk. rewrite <- Hb in Hin. apply resolve_keys in Hin as (m0 & Hm & Hk0).
  pose proof (proj1 (scan_spec _) Hs m0 k Hm (Hk0 k Hk)) as Hf. intros Hin. unfold forbidden in Hf.
  apply mem_str_spec in Hin. unfold forbiddenOperators in Hf. congruence.
Qed.

Lemma scan_arr_none l : scanForbidden (JArr l) = None -> Forall (fun v => scanForbidden v = None) l.
Proof using.
  induction l as [|v l IH]; intros H; constructor; simpl in H; destruct (scanForbidden v); try done. by apply IH.
Qed.

Lemma prepared args i db filter pipeline limit timeout :
  prepare args = Ok (i, db, filter, pipeline, limit, timeout) ->
  dec_input args = Some i /\ mi_Op i ∈ allowedOps
  /\ (exists cc, Connections !! mi_Connection i = Some cc /\ database i cc = Ok db
        /\ limit = effectiveLimit (mi_Limit i) (MaxDocsDefault cc) /\ timeout = query_timeout cc)
  /\ (becomes (default ∅ (mi_Filter i)) filter /\ harmless filter)
  /\ Forall2 becomes (mi_Pipeline i) pipeline /\ Forall harmless pipeline.
Proof using.
  intros Ep. unfold prepare in Ep. destruct (dec_input args) as [i'|] eqn:Ei; cbn [negb res_bind ok_or] in Ep; [|done].
  destruct (mem_str (mi_Op i') allowedOps) eqn:Eop; cbn [negb res_bind ok_or] in Ep; [|done].
  destruct (Connections !! mi_Connection i') as [cc|] eqn:Ecc; cbn [negb res_bind ok_or] in Ep; [|done].
  destruct (database i' cc) as [db'|] eqn:Edb; cbn [negb res_bind ok_or] in Ep; [|done].
  destruct (clients (mi_Connection i')); cbn [negb res_bind ok_or] in Ep; [|done].
  destruct (scanForbidden (JObj (default ∅ (mi_Filter i')))) eqn:Es1; [done|].
  destruct (scanForbidden (JArr (List.map JObj (mi_Pipeline i')))) eqn:Es2; [done|].
  destruct (match mi_Filter i' with None => _ | Some _ => _ end) as [f|] eqn:Ef; cbn [negb res_bind ok_or] in Ep; [|done].
  destruct (resolve_all (mi_Pipeline i')) as [p|] eqn:Epl; cbn [negb res_bind ok_or] in Ep; [|done]. injection Ep as <- <- <- <- <- <-.
  assert (becomes (default ∅ (mi_Filter i')) f) as Hf.
  { destruct (mi_Filter i'); [by eapply resolved_becomes|injection Ef as <-; reflexivity]. }
  apply resolve_all_becomes in Epl.
  split_and!; [done|by apply mem_str_spec|eauto|done|by eapply becomes_harmless|done|].
  apply scan_arr_none, Forall_fmap in Es2. clear -Es2 Epl. induction Epl; inversion Es2; subst; constructor; eauto using becomes_harmless.
Qed.

Lemma limit_harmless n : harmless {["$limit" := DNum n]}.
Proof using.
  intros m k Hin [x Hk]. inversion Hin as [|? k' y ? Hy Hin'|]; subst.
  - apply lookup_singleton_Some in Hk as [<- _]. set_solver.
  - apply lookup_singleton_Some in Hy as [_ <-]. inversion Hin'.
Qed.

(** C34: The Mongo tool reads, and only what it may: every call that reaches the driver is a
    find, a count or an aggregate, as the request says, on the collection it names and a
    database the connection allows. The filter and the pipeline the server runs are those of
    the request, with the dates converted and one last stage that bounds the answer, and no
    operator that writes, runs JavaScript or shows sessions is anywhere in them (the
    projection and the sort order are passed as they are, without that scan). The answer is
    what the driver found, cut at the configured number of documents, and says truncated
    exactly when the driver had more. *)
Theorem mongo_read_only args c r :
  Invoke args = (Some c, r) ->
  exists i cc limit, dec_input args = Some i /\ Connections !! mi_Connection i = Some cc
    /\ call_db c <> "" /\ match AllowedDatabases cc with
                          | [] => defaultDBs !! mi_Connection i = Some (call_db c)
                          | l => call_db c ∈ l
                          end
    /\ Forall harmless (runs c)
    /\ 1 <= limit <= (if MaxDocsDefault cc <=? 0 then 100 else MaxDocsDefault cc)
    /\ match c with
       | CFind _ coll filter projection sort n =>
           mi_Op i = "find" /\ coll = mi_Collection i /\ becomes (default ∅ (mi_Filter i)) filter
           /\ projection = mi_Projection i /\ sort = mi_Sort i /\ n = wrap64 (limit + 1)
       | CCount _ coll filter =>
           mi_Op i = "count" /\ coll = mi_Collection i /\ becomes (default ∅ (mi_Filter i)) filter
       | CAggregate _ coll p =>
           mi_Op i = "aggregate" /\ coll = mi_Collection i
           /\ exists stages, Forall2 becomes (mi_Pipeline i) stages /\ p = stages ++ [{["$limit" := DNum (wrap64 (limit + 1))]}]
       end
    /\ match r with
       | Ok (Docs _ docs truncated) => exists got, find (mi_Connection i) (query_timeout cc) c = Ok got
           /\ docs = take (Z.to_nat limit) (default [] got)
           /\ (truncated = true <-> limit < Z.of_nat (List.length (default [] got)))
       | Ok (Count n) => count (mi_Connection i) (query_timeout cc) c = Ok n
       | Err _ => True
       end.
Proof using.
  unfold Invoke. destruct (prepare args) as [[[[[[i db] filter] pipeline] limit] timeout]|] eqn:Ep; [|done]. intros Hd.
  apply prepared in Ep as (Hi & Hop & (cc & Hcc & Hdb & -> & ->) & (Hb & Hh) & Hbs & Hhs).
  pose proof (effectiveLimit_bounds (mi_Limit i) (MaxDocsDefault cc)) as Hlim.
  set (limit := effectiveLimit _ _) in *. clearbody limit. exists i, cc, limit. apply database_ok in Hdb as [Hne Hdb].
  assert (call_db c = db) as ->.
  { unfold dispatch in Hd. destruct (String.eqb (mi_Op i) "find"), (String.eqb (mi_Op i) "count"); by injection Hd as <- _. }
  unfold dispatch in Hd. destruct (String.eqb_spec (mi_Op i) "find") as [Ho|Ho];
    [|destruct (String.eqb_spec (mi_Op i) "count") as [Ho'|Ho']]; injection Hd as <- <-; split_and!; eauto; try lia;
    try by (apply Forall_singleton).
  - destruct (find _ _ _) as [got|]; [|done]. pose proof (capDocs_spec got limit ltac:(lia)) as Hc.
    destruct (capDocs got limit) as [docs t]. by exists got.
  - by destruct (count _ _ _).
  - cbn [runs]. apply Forall_app. split; [done|]. constructor; [apply limit_harmless|done].
  - unfold allowedOps in Hop. set_solver.
  - destruct (find _ _ _) as [got|]; [|done]. pose proof (capDocs_spec got limit ltac:(lia)) as Hc.
    destruct (capDocs got limit) as [docs t]. by exists got.
Qed.
End invoke.
End Mongo.

Module QueriesExamples.

(** *** Postgres *)
Definition pg_conn : Postgres.ConnConfig := Postgres.mkConn "db" "" "claims" "ro user" "PW" 2 0 "".
Definition pg_conns : gmap string Postgres.ConnConfig := {["prod" := pg_conn]}.
Definition pg_driver (_ : string) (_ : option Z) (_ : string) (ps : list Postgres.param) : res error Postgres.cursor :=
  Ok (Postgres.mkCursor ["n"] (List.map (fun k => Ok [JNum k]) [1; 2; 3]) None).
Definition no_code (_ : error) : option string := None.
Definition pg_args (sql : string) : json := jobj [("database", JStr "prod"); ("sql", JStr sql); ("params", JArr [JNum 7])].
Definition pg_run (sql : string) : res error Postgres.queryOutput :=
  Postgres.Invoke pg_conns (fun _ => true) pg_driver no_code (pg_args sql).

Example postgres_ex :
  pg_run " Select n from t" = Ok (Postgres.mkOutput "prod" 2 [{["n" := JNum 1]}; {["n" := JNum 2]}] true)
  /\ is_ok (pg_run "with x as (select 1) select * from x") = true
  /\ is_ok (pg_run "delete from t") = false
  /\ Postgres.buildDSN pg_conn "a/b@c" = Ok "postgres://ro+user:a%2Fb%40c@db:5433/claims?sslmode=prefer".
Proof. vm_compute. by split_and!. Qed.

Lemma query_rows_witness :
  match pg_run "select n from t" with
  | Ok out => Postgres.RowCount out = 2 /\ (exists i cc c, Postgres.dec_input (pg_args "select n from t") = Some i
      /\ Postgres.isSelect (Postgres.qi_SQL i) = true /\ pg_conns !! Postgres.qi_Database i = Some cc
      /\ pg_driver (Postgres.qi_Database i) (Postgres.query_deadline cc) (Postgres.qi_SQL i)
           (Postgres.normalizeParams (Postgres.qi_Params i)) = Ok c
      /\ (Postgres.RowCount out = Z.of_nat (List.length (Postgres.Rows out))
          /\ Postgres.RowCount out <= Postgres.max_rows cc /\ 0 < Postgres.max_rows cc)
      /\ (exists vals, take (Z.to_nat (Postgres.max_rows cc)) (Postgres.rows c) = List.map Ok vals
            /\ Postgres.Rows out = List.map (Postgres.row_map (Postgres.cols c)) vals)
      /\ (Postgres.Truncated out = true <-> Postgres.max_rows cc < Z.of_nat (List.length (Postgres.rows c)))
      /\ (Postgres.Truncated out = false -> Postgres.rows_err c = None))
  | Err _ => False
  end.
Proof.
  destruct (pg_run "select n from t") as [out|e] eqn:E.
  - split; [|exact (Postgres.query_rows pg_conns (fun _ => true) pg_driver no_code _ out E)].
    vm_compute in E. injection E as <-. reflexivity.
  - vm_compute in E. discriminate.
Defined.

(** *** Mongo *)
Definition parse_time (s : string) : option Z := if String.eqb s "2026-05-19" then Some (1779148800 * Second) else None.
Definition mg_conns : gmap string Mongo.ConnConfig := {["prod" := Mongo.mkConn "URI" [] 2 0]}.
Definition mg_find (_ : string) (_ : Z) (c : Mongo.call) : res error (option (list Mongo.doc)) :=
  Ok (Some [Mongo.DNum 1; Mongo.DNum 2; Mongo.DNum 3]).
Definition mg_run (fields : list (string * json)) : option Mongo.call * res error Mongo.output :=
  Mongo.Invoke parse_time mg_conns {["prod" := "claims"]} (fun _ => true) mg_find (fun _ _ _ => Ok 5) (fun _ => false)
    (jobj ([("connection", JStr "prod"); ("collection", JStr "c"); ("op", JStr "find")] ++ fields)).

Definition since : json := jobj [("dateAdded", jobj [("$gte", jobj [("$date", JStr "2026-05-19")])])].
Definition script : json := jobj [("x", jobj [("$function", jobj [("body", JStr "...")])])].
Example mongo_ex :
  mg_run [("filter", since)]
  = (Some (Mongo.CFind "claims" "c" {["dateAdded" := Mongo.DObj {["$gte" := Mongo.DDate (1779148800 * Second)]}]} None None 3),
     Ok (Mongo.Docs "find" [Mongo.DNum 1; Mongo.DNum 2] true))
  /\ (mg_run [("filter", script)]).1 = None
  /\ (mg_run [("database", JStr "admin")]).1 = None
  /\ (mg_run [("filter", jobj [("$date", JNum 5)])]).1 = None.
Proof. vm_compute. by split_and!. Qed.

(** The projection is not scanned: server-side JavaScript reaches the driver in it. *)
Example projection_unscanned :
  exists p, (mg_run [("projection", script)]).1 = Some (Mongo.CFind "claims" "c" ∅ (Some p) None 3) /\ JObj p = script.
Proof. eexists. split; reflexivity. Qed.

Lemma mongo_read_only_witness :
  let args := jobj [("connection", JStr "prod"); ("collection", JStr "c"); ("op", JStr "find"); ("filter", since)] in
  match Mongo.Invoke parse_time mg_conns {["prod" := "claims"]} (fun _ => true) mg_find (fun _ _ _ => Ok 5) (fun _ => false) args with
  | (Some c, r) => Mongo.call_db c = "claims" /\ Forall Mongo.harmless (Mongo.runs c)
      /\ exists i, Mongo.dec_input args = Some i /\ Mongo.mi_Op i = "find" /\ List.length (Mongo.runs c) = 1%nat
  | (None, _) => False
  end.
Proof.
  cbv zeta. destruct (Mongo.Invoke _ _ _ _ _ _ _ _) as [[c|] r] eqn:E.
  - pose proof (Mongo.mongo_read_only _ _ _ _ _ _ _ _ c r E) as (i & cc & limit & H1 & H2 & _ & _ & H3 & H4 & H5 & _).
    assert (Mongo.call_db c = "claims" /\ List.length (Mongo.runs c) = 1%nat) as [Hdb Hl].
    { vm_compute in E. injection E as <- _. split; reflexivity. }
    split; [exact Hdb|]. split; [exact H3|]. exists i. split; [exact H1|]. split; [|exact Hl].
    vm_compute in H1. injection H1 as <-. reflexivity.
  - vm_compute in E. discriminate.
Defined.
End QueriesExamples.
