(* ===== verification/Models.v ===== *)
(** * The Bedrock model and its auto-update (pkg/workflow/builtin/bedrock: autoupdate.go,
    gateway.go and the model state of factory.go)

    - [ModelId]: model identifiers and the choice of an upgrade;
    - [Gateway]: the reply of the organisation's model resolver;
    - [Updater]: one cycle of the updater - resolve, validate, swap, health check,
      recovery - as a program over a world that answers its questions, and the daily
      schedule. *)

From S2P Require Import Prelude Json Scan Walk.
From stdpp Require Import base tactics list strings gmap option.
From Stdlib Require Import ZArith Lia Ascii String.
Local Open Scope string_scope.
Local Open Scope list_scope.
Local Open Scope Z_scope.
Local Open Scope go_scope.

(** ** Model identifiers *)
Module ModelId.

Record parsedModel := mkModel {
  prefix : string;
  family : string;
  major : Z;
  minor : Z;
}.
#[export] Instance parsedModel_eq_dec : EqDecision parsedModel.
Proof. solve_decision. Defined.

Definition anthropicProvider : string := "anthropic.".

(** [strings.Index]: what precedes the first occurrence and what follows it. *)
Fixpoint cut (sub s : string) : option (string * string) :=
  if has_prefix sub s then Some ("", str_drop (String.length sub) s)
  else match s with
       | EmptyString => None
       | String c s' => '(a, b) ← cut sub s'; Some (String c a, b)
       end.

(** [-v\d+(?::\d+)?$] at the head of a text, to its end *)
Definition all_digits (s : string) : bool := negb (str_empty s) && str_all is_digit s.
Definition v_suffix (s : string) : bool :=
  match s with
  | String "-" (String "v" r) =>
      let '(a, b) := span is_digit r in
      negb (str_empty a) && match b with
                            | EmptyString => true
                            | String ":" d => all_digits d
                            | _ => false
                            end
  | _ => false
  end.
(** [-20\d{6}$] *)
Definition date_suffix (s : string) : bool :=
  match s with
  | String "-" (String "2" (String "0" d)) => (String.length d =? 6)%nat && str_all is_digit d
  | _ => false
  end.
(** [ReplaceAllString(s, "")] of an expression anchored at the end *)
Fixpoint strip (suffix : string -> bool) (s : string) : string :=
  if suffix s then ""
  else match s with
       | EmptyString => ""
       | String c s' => String c (strip suffix s')
       end.

(** [\d{1,2}] followed by the end of the text or a dash *)
Definition number (s : string) : option (Z * string) :=
  let '(a, b) := span is_digit s in
  if (1 <=? String.length a)%nat && (String.length a <=? 2)%nat then n ← Atoi a; Some (n, b) else None.

(** [^(claude-[a-z]+)-(\d{1,2})(?:-(\d{1,2}))?$] *)
Definition versionRe (s : string) : option (string * Z * Z) :=
  if negb (has_prefix "claude-" s) then None
  else
    let '(name, r) := span is_lower (str_drop (String.length "claude-") s) in
    if str_empty name then None
    else match r with
    | String "-" r =>
        '(mj, r) ← number r;
        match r with
        | EmptyString => Some ("claude-" +:+ name, mj, 0)
        | String "-" r => '(mn, r) ← number r; if str_empty r then Some ("claude-" +:+ name, mj, mn) else None
        | _ => None
        end
    | _ => None
    end.

Definition parseModelID (id : string) : option parsedModel :=
  '(before, rest) ← cut anthropicProvider id;
  if str_empty before || (has_suffix "." before && (count_char "." before =? 1)%nat) then
    '(f, mj, mn) ← versionRe (strip date_suffix (strip v_suffix rest));
    Some (mkModel before f mj mn)
  else None.

Definition newerThan (p o : parsedModel) : bool :=
  if negb (major p =? major o) then major o <? major p else minor o <? minor p.

(** One turn of the loop: the best id so far, if any, and the model to beat. *)
Definition consider (current : parsedModel) (best : option string * parsedModel) (id : string)
    : option string * parsedModel :=
  match parseModelID id with
  | None => best
  | Some p =>
      if negb (String.eqb (prefix p) (prefix current)) || negb (String.eqb (family p) (family current)) then best
      else if newerThan p best.2 then (Some id, p) else best
  end.
Definition latestCandidate (ids : list string) (current : parsedModel) : option string :=
  (foldl (consider current) (None, current) ids).1.

Definition sameModel (a b : string) : bool :=
  match parseModelID a, parseModelID b with
  | Some pa, Some pb => bool_decide (pa = pb)
  | _, _ => String.eqb a b
  end.

(** [gatewayCandidateOK]: no error *)
Definition gatewayCandidateOK (id : string) (current : parsedModel) : bool :=
  match parseModelID id with Some p => String.eqb (family p) (family current) | None => false end.

Example parse_ex :
  List.map parseModelID ["us.anthropic.claude-opus-4-7"; "anthropic.claude-opus-4-1-20250805-v1:0"; "anthropic.claude-opus-4";
                         "anthropic.claude-3-5-sonnet-20241022-v2:0"; "us.x.anthropic.claude-opus-4"; "gpt-5"]
  = [Some (mkModel "us." "claude-opus" 4 7); Some (mkModel "" "claude-opus" 4 1); Some (mkModel "" "claude-opus" 4 0);
     None; None; None]
  /\ latestCandidate ["us.anthropic.claude-opus-4-8"; "anthropic.claude-opus-5"; "us.anthropic.claude-opus-4-6"; "junk"]
       (mkModel "us." "claude-opus" 4 7) = Some "us.anthropic.claude-opus-4-8"
  /\ sameModel "anthropic.claude-opus-4-1" "anthropic.claude-opus-4-1-20250805-v1:0" = true.
Proof. vm_compute. by split_and!. Qed.

(** [newerThan] is the strict lexicographic order of the versions. *)
Definition version (p : parsedModel) : Z * Z := (major p, minor p).
Definition older (a b : Z * Z) : Prop := a.1 < b.1 \/ (a.1 = b.1 /\ a.2 < b.2).
Lemma newerThan_spec p o : newerThan p o = true <-> older (version o) (version p).
Proof. unfold newerThan, older, version. simpl. destruct (Z.eqb_spec (major p) (major o)); simpl; rewrite Z.ltb_lt; lia. Qed.
Lemma newerThan_false p o : newerThan p o = false <-> ~ older (version o) (version p).
Proof. rewrite <- newerThan_spec. by destruct (newerThan p o). Qed.

Definition peer (current : parsedModel) (id : string) (p : parsedModel) : Prop :=
  parseModelID id = Some p /\ prefix p = prefix current /\ family p = family current.

Lemma consider_spec current best id :
  (exists p, peer current id p /\ newerThan p best.2 = true /\ consider current best id = (Some id, p))
  \/ (consider current best id = best /\ forall p, peer current id p -> newerThan p best.2 = false).
Proof.
  unfold consider, peer. destruct (parseModelID id) as [p|]; [|right; split; [done|by intros p (? & _)]].
  destruct (String.eqb_spec (prefix p) (prefix current)) as [Hp|Hp], (String.eqb_spec (family p) (family current)) as [Hf|Hf]; simpl;
    try (right; split; [done|intros q ([= <-] & ? & ?); done]).
  destruct (newerThan p best.2) eqn:E; [left; by exists p|right]. split; [done|]. by intros q ([= <-] & _).
Qed.

(** The candidate is the latest release of the same prefix and family, when that is newer
    than the model in use. *)
Lemma latestCandidate_spec ids current :
  match latestCandidate ids current with
  | Some id => id ∈ ids /\ exists p, peer current id p /\ newerThan p current = true
                 /\ forall id' p', id' ∈ ids -> peer current id' p' -> newerThan p' p = false
  | None => forall id p, id ∈ ids -> peer current id p -> newerThan p current = false
  end.
Proof.
  unfold latestCandidate.
  enough (forall best, let r := foldl (consider current) best ids in
    (forall id' p', id' ∈ ids -> peer current id' p' -> newerThan p' r.2 = false)
    /\ (r = best \/ exists id, id ∈ ids /\ r.1 = Some id /\ peer current id r.2 /\ newerThan r.2 best.2 = true)) as G.
  { destruct (G (None, current)) as [H1 [H2|(id & H2 & H3 & H4 & H5)]].
    - rewrite H2 in H1 |- *. simpl. exact H1.
    - rewrite H3. split; [done|]. exists (foldl (consider current) (None, current) ids).2. by split_and!. }
  induction ids as [|id ids IH]; intros best; simpl; [split; [by intros ? ? ?%elem_of_nil|by left]|].
  destruct (consider_spec current best id) as [(p & Hp & Hn & ->)|[-> Hno]].
  - destruct (IH (Some id, p)) as [H1 H2]. simpl in *. set (r := foldl _ _ _) in *.
    assert (newerThan r.2 best.2 = true /\ newerThan p r.2 = false) as [Hb Hr].
    { destruct H2 as [->|(_ & _ & _ & _ & H2)]; simpl; [split; [done|apply newerThan_false; unfold older; lia]|].
      apply newerThan_spec in H2, Hn. rewrite newerThan_spec, newerThan_false. unfold older in *. lia. }
    split.
    + intros id' p' [->|Hin]%elem_of_cons Hp'; [|by eapply H1]. destruct Hp as (Hp & _), Hp' as (Hp' & _). by simplify_eq.
    + right. destruct H2 as [->|(id' & H2 & H3 & H4 & _)]; [exists id|exists id']; simpl; split_and!; try done; by constructor.
  - destruct (IH best) as [H1 H2]. set (r := foldl _ _ _) in *. split.
    + intros id' p' [->|Hin]%elem_of_cons Hp'; [|by eapply H1]. specialize (Hno _ Hp').
      destruct H2 as [->|(_ & _ & _ & _ & H2)]; [done|]. apply newerThan_spec in H2. rewrite newerThan_false in *. unfold older in *. lia.
    + destruct H2 as [->|(id' & H2 & H3)]; [by left|right]. exists id'. split; [by constructor|done].
Qed.

Lemma sameModel_parsed a b pa : parseModelID a = Some pa -> sameModel a b = false -> parseModelID b <> Some pa.
Proof. unfold sameModel. intros -> H Hb. rewrite Hb in H. by rewrite bool_decide_eq_true_2 in H. Qed.
End ModelId.

(** ** gateway.go *)
Module Gateway.

Definition defaultGatewayBasePath : string := "example.inferenceGateway".
(** [gatewaySubject], the environment variable given *)
Definition gatewaySubject (env : string) : string :=
  let base := trim_space env in
  (if str_empty base then defaultGatewayBasePath else base) +:+ ".resolveModel".

Definition deriveGatewayQuery (modelID : string) : option (string * string) :=
  p ← ModelId.parseModelID modelID; Some ("anthropic", ModelId.family p).

Definition errText (msg body : string) : string :=
  if negb (str_empty msg) then msg
  else if (200 <? String.length body)%nat then str_take 200 body +:+ "..." else body.

Inductive reply_error :=
| ReplyStatus (status text : string)
| ReplyNotJSON
| ReplyNoModel (text : string).

(** [parseResolveReply] on the status header and the body, given also as it decodes. *)
Definition parseResolveReply (status body : string) (decoded : option json) : res reply_error string :=
  let r := m ← (v ← decoded; dec_struct (Some v)); i ← dec_str (m !! "invokeId"); e ← dec_str (m !! "errorMessage"); Some (i, e) in
  let errorMessage := as_str (as_obj decoded !! "errorMessage") in   (* set even where another field does not decode *)
  let ok := str_empty status || match Atoi status with Some n => (200 <=? n) && (n <=? 299) | None => false end in
  if negb ok then Err (ReplyStatus status (errText errorMessage body))
  else match r with
  | None => Err ReplyNotJSON
  | Some (invokeId, _) =>
      let invokeID := trim_space invokeId in
      if str_empty invokeID then Err (ReplyNoModel (errText "" body)) else Ok invokeID
  end.

Example reply_ex :
  let body := jobj [("invokeId", JStr " us.anthropic.claude-opus-4-8 ")] in
  parseResolveReply "" "" (Some body) = Ok "us.anthropic.claude-opus-4-8"
  /\ parseResolveReply "200" "" (Some body) = Ok "us.anthropic.claude-opus-4-8"
  /\ parseResolveReply "20000" "raw" (Some body) = Err (ReplyStatus "20000" "raw")
  /\ parseResolveReply "" "junk" None = Err ReplyNotJSON.
Proof. vm_compute. by split_and!. Qed.
End Gateway.

(** ** autoupdate.go *)
Module Updater.
Import ModelId.

Definition validationAttempts : Z := 3.
Definition second : Z := 1000000000.
Definition validationBackoff (attempt : Z) : Z := if attempt =? 1 then 5 * second else 15 * second.

(** Why a probe failed: what [isModelUnavailable] and the tool contract say of it. *)
Record probe_error := mkProbeError {
  pe_text : string;
  pe_unavailable : bool;
  pe_contract : bool;
}.
Definition healthCheckConclusive (e : probe_error) : bool := pe_unavailable e || pe_contract e.

Inductive event := EvUpgraded | EvDeclined | EvRecovered | EvHealthCheckFailed.
Record noteEvent := mkNote {
  ne_Event : event;
  ne_From : string;
  ne_To : string;
  ne_Attempts : Z;
  ne_Error : string;
  ne_Resolver : string;
}.

Inductive outcome :=
| AlreadyLatest | SkippedUnparseable | ListFailed | Upgraded | Declined | Cancelled
| HealthInconclusive | HealthFailed | Recovered.

(** What a cycle does outside. *)
Inductive action :=
| Probed (modelID : string) (err : option probe_error)
| Slept (ns : Z)
| Swapped (modelID : string)
| RecoveredTo (modelID : string)
| Noted (n : noteEvent).

Section updater.
Context {W : Type}.

(** The updater's effects: the gateway (when there is one; it is asked about the model in
    use), the catalog scan, the test invocation, the pause, and whether the process is shutting down. *)
Record Host := mkHost {
  u_done : W -> bool;
  u_resolve : option (string -> W -> res string string * W);
  u_list : W -> res string (list string) * W;
  u_validate : string -> W -> option probe_error * W;
  u_sleep : Z -> W -> W;
}.
Variable host : Host.

(** The node's model state (factory.go), [curUnhealthy], and what was done. *)
Record state := mkState {
  world : W;
  model : string;
  lastKnownGood : string;
  curUnhealthy : bool;
  log : list action;
}.

Definition M (A : Type) : Type := state -> A * state.
Definition ret {A} (a : A) : M A := fun st => (a, st).
Definition bind {A B} (m : M A) (k : A -> M B) : M B := fun st => let '(a, st) := m st in k a st.
Notation "'let*' x := m 'in' k" := (bind m (fun x => k)) (at level 200, x pattern, m at level 100, k at level 200).

Definition act (a : action) : M () := fun st =>
  ((), mkState (world st) (model st) (lastKnownGood st) (curUnhealthy st) (log st ++ [a])).
Definition done_ctx : M bool := fun st => (u_done host (world st), st).
Definition with_world {A} (f : W -> A * W) : M A := fun st =>
  let '(a, w) := f (world st) in (a, mkState w (model st) (lastKnownGood st) (curUnhealthy st) (log st)).
Definition current : M string := fun st => (model st, st).
(** The gateway's answer for the model in use. *)
Definition ask_gateway (resolve : string -> W -> res string string * W) : M (res string string) :=
  let* cur := current in with_world (resolve cur).
Definition set_unhealthy (b : bool) : M () := fun st =>
  ((), mkState (world st) (model st) (lastKnownGood st) b (log st)).
Definition unhealthy : M bool := fun st => (curUnhealthy st, st).

(** [swapModel] and [recoverModel] (factory.go) *)
Definition swapModel (m : string) : M () := fun st =>
  ((), mkState (world st) m (if String.eqb (model st) m then lastKnownGood st else model st) (curUnhealthy st)
         (log st ++ [Swapped m])).
Definition recoverModel (m : string) : M () := fun st =>
  ((), mkState (world st) m (if String.eqb (lastKnownGood st) m then "" else lastKnownGood st) (curUnhealthy st)
         (log st ++ [RecoveredTo m])).

Definition sleep (d : Z) : M () :=
  let* _ := with_world (fun w => ((), u_sleep host d w)) in act (Slept d).
Definition validate (m : string) : M (option probe_error) :=
  let* e := with_world (u_validate host m) in
  let* _ := act (Probed m e) in
  ret e.

(** The validation loop the three stages share: three attempts with a pause between, cut
    short by a shutdown. *)
Inductive probe_result := PCancelled | PPassed (attempt : Z) | PFailed (lastErr : probe_error).

Fixpoint attempts (tries : nat) (attempt : Z) (m : string) (lastErr : probe_error) : M probe_result :=
  match tries with
  | O => let* d := done_ctx in ret (if (d : bool) then PCancelled else PFailed lastErr)
  | S tries =>
      let* d := done_ctx in
      if (d : bool) then ret PCancelled
      else
        let* e := validate m in
        match e with
        | None => ret (PPassed attempt)
        | Some err =>
            let* _ := (if attempt <? validationAttempts then sleep (validationBackoff attempt) else ret ()) in
            attempts tries (attempt + 1) m err
        end
  end.
Definition probe (m : string) : M probe_result := attempts 3 1 m (mkProbeError "" false false).

(** [tryUpgrade]: swapped or not, and the outcome *)
Definition tryUpgrade (cur cand resolver : string) : M (bool * outcome) :=
  let* r := probe cand in
  match r with
  | PCancelled => ret (false, Cancelled)
  | PPassed attempt =>
      let* bad := unhealthy in
      let* _ := (if (bad : bool) then recoverModel cand else swapModel cand) in
      let* _ := set_unhealthy false in
      let* _ := act (Noted (mkNote EvUpgraded cur cand attempt "" resolver)) in
      ret (true, Upgraded)
  | PFailed e =>
      let* _ := act (Noted (mkNote EvDeclined cur cand validationAttempts (pe_text e) resolver)) in
      ret (false, Declined)
  end.

(** The second stage of [resolveAndUpgrade]: the catalog scan; the declined candidate and
    the outcome. *)
Definition scan_catalog (cur : string) (parsed : parsedModel) (declined : string) (oc : outcome) : M (string * outcome) :=
  let* d := done_ctx in
  if (d : bool) then ret (declined, Cancelled)
  else
    let* ids := with_world (u_list host) in
    match ids with
    | Err _ => ret (declined, ListFailed)
    | Ok ids =>
        match latestCandidate ids parsed with
        | None => ret (declined, oc)
        | Some cand =>
            if negb (str_empty declined) && sameModel cand declined then ret (declined, oc)
            else
              let* r := tryUpgrade cur cand "fallback" in
              match r with
              | (false, Declined) => ret (cand, Declined)
              | (_, oc) => ret (declined, oc)
              end
        end
    end.

Definition resolveAndUpgrade : M (string * outcome) :=
  let* cur := current in
  match parseModelID cur with
  | None => ret ("", SkippedUnparseable)
  | Some parsed =>
      match u_resolve host with
      | None => scan_catalog cur parsed "" AlreadyLatest
      | Some resolve =>
          let* id := ask_gateway resolve in
          match id with
          | Err _ => scan_catalog cur parsed "" AlreadyLatest
          | Ok id =>
              if sameModel id cur then ret ("", AlreadyLatest)
              else if negb (gatewayCandidateOK id parsed) then scan_catalog cur parsed "" AlreadyLatest
              else
                let* r := tryUpgrade cur id "gateway" in
                match r with
                | (true, oc) => ret ("", oc)
                | (false, Cancelled) => ret ("", Cancelled)
                | (false, oc) => scan_catalog cur parsed id oc
                end
          end
      end
  end.

Definition failHealthCheck (cur text : string) : M outcome :=
  let* _ := act (Noted (mkNote EvHealthCheckFailed cur "" validationAttempts text "")) in ret HealthFailed.

(** [recoveryCandidate]: the gateway's answer, else the catalog's; [None] for none. *)
Definition scan_recovery (broken declined : string) (parsed : parsedModel) : M (option string) :=
  let* ids := with_world (u_list host) in
  ret match ids with
      | Err _ => None
      | Ok ids =>
          match latestCandidate ids parsed with
          | None => None
          | Some cand =>
              if sameModel cand broken then None
              else if negb (str_empty declined) && sameModel cand declined then None
              else Some cand
          end
      end.
Definition recoveryCandidate (broken declined : string) : M (option string) :=
  let* d := done_ctx in
  if (d : bool) then ret None
  else match parseModelID broken with
  | None => ret None
  | Some parsed =>
      match u_resolve host with
      | None => scan_recovery broken declined parsed
      | Some resolve =>
          let* id := ask_gateway resolve in
          match id with
          | Err _ => scan_recovery broken declined parsed
          | Ok id =>
              if negb (gatewayCandidateOK id parsed) || sameModel id broken then scan_recovery broken declined parsed
              else ret (Some id)
          end
      end
  end.

Definition recoverFromFailedHealthCheck (broken declined : string) (healthErr : probe_error) : M outcome :=
  let* cand := recoveryCandidate broken declined in
  match cand with
  | None => let* d := done_ctx in if (d : bool) then ret Cancelled else failHealthCheck broken (pe_text healthErr)
  | Some cand =>
      let* r := probe cand in
      match r with
      | PCancelled => ret Cancelled
      | PPassed attempt =>
          let* _ := recoverModel cand in
          let* _ := set_unhealthy false in
          let* _ := act (Noted (mkNote EvRecovered broken cand attempt "" "recovery")) in
          ret Recovered
      | PFailed e =>
          failHealthCheck broken ("health check: " +:+ pe_text healthErr +:+ "; recovery candidate " +:+ cand
                                  +:+ " also failed: " +:+ pe_text e)
      end
  end.

Definition healthCheck (declined : string) (oc : outcome) : M outcome :=
  let* cur := current in
  let* r := probe cur in
  match r with
  | PCancelled => ret Cancelled
  | PPassed _ => let* _ := set_unhealthy false in ret oc
  | PFailed e =>
      if negb (healthCheckConclusive e) then ret HealthInconclusive
      else
        let* _ := set_unhealthy true in
        if negb (str_empty declined) then failHealthCheck cur (pe_text e)
        else recoverFromFailedHealthCheck cur declined e
  end.

(** [runOnce]: the outcome it logs *)
Definition runOnce : M outcome :=
  let* r := resolveAndUpgrade in
  let '(declined, oc) := (r : string * outcome) in
  let* d := done_ctx in
  match oc with
  | Upgraded | Cancelled => ret oc
  | _ => if (d : bool) then ret oc else healthCheck declined oc
  end.

(** The cycles of the process, one after the other. *)
Fixpoint cycles (n : nat) : M (list outcome) :=
  match n with
  | O => ret []
  | S n => let* oc := runOnce in let* ocs := cycles n in ret (oc :: ocs)
  end.

(** *** What a cycle may do *)
Definition probes (l : list action) : nat :=
  List.length (List.filter (fun a => match a with Probed _ _ => true | _ => false end) l).
Definition swaps (l : list action) : list string :=
  omap (fun a => match a with Swapped m | RecoveredTo m => Some m | _ => None end) l.
Lemma probes_app l1 l2 : probes (l1 ++ l2) = (probes l1 + probes l2)%nat.
Proof using. unfold probes. by rewrite List.filter_app, length_app. Qed.
Lemma swaps_app l1 l2 : swaps (l1 ++ l2) = swaps l1 ++ swaps l2.
Proof using. apply omap_app. Qed.

Ltac count_probes := rewrite ?probes_app in *; unfold probes in *; cbn [List.filter List.length] in *; lia.

(** Nothing but the world, the log and the health mark moved. *)
Record kept (st st' : state) (l : list action) (n : nat) : Prop := {
  k_log : log st' = log st ++ l;
  k_model : model st' = model st;
  k_lkg : lastKnownGood st' = lastKnownGood st;
  k_swaps : swaps l = [];
  k_probes : (probes l <= n)%nat;
}.
Lemma kept_nil st st' : log st' = log st -> model st' = model st -> lastKnownGood st' = lastKnownGood st -> kept st st' [] 0.
Proof using. intros H ? ?. split; try done. by rewrite app_nil_r. Qed.
Lemma kept_le st st' l n n' : kept st st' l n -> (n <= n')%nat -> kept st st' l n'.
Proof using. intros [] ?. split; try done. lia. Qed.
Lemma kept_app st st1 st2 l1 l2 n1 n2 :
  kept st st1 l1 n1 -> kept st1 st2 l2 n2 -> kept st st2 (l1 ++ l2) (n1 + n2).
Proof using.
  intros [] []. split; [rewrite app_assoc; congruence|congruence|congruence| |].
  - by rewrite swaps_app, k_swaps0, k_swaps1.
  - rewrite probes_app. lia.
Qed.

(** A validation: a series of failed probes, ended by a success, three failures or a
    shutdown. *)
Lemma attempts_spec tries k m e0 st r st' :
  attempts tries k m e0 st = (r, st') ->
  exists l, kept st st' l tries /\ curUnhealthy st' = curUnhealthy st
    /\ match r with
       | PPassed a => Probed m None ∈ l
       | PFailed e => (tries = 0%nat /\ e = e0) \/ Probed m (Some e) ∈ l
       | PCancelled => True
       end.
Proof using.
  revert k e0 st. induction tries as [|tries IH]; intros k e0 st H; cbn in H.
  { exists []. destruct (u_done host (world st)); injection H as <- <-; (split_and!; [by apply kept_nil|done|]); [done|by left]. }
  unfold bind, done_ctx in H. destruct (u_done host (world st)).
  { injection H as <- <-. exists []. split_and!; [|done|done]. eapply kept_le; [by apply kept_nil|lia]. }
  unfold validate, bind, with_world, act, ret in H. destruct (u_validate host m (world st)) as [[err|] w] eqn:Ev; cbn in H.
  - set (st1 := mkState w _ _ _ _) in H. assert (kept st st1 [Probed m (Some err)] 1) as K1 by (split; done).
    assert (exists st2 l, kept st1 st2 l 0 /\ curUnhealthy st2 = curUnhealthy st /\ attempts tries (k + 1) m err st2 = (r, st')) as (st2 & l2 & K2 & U2 & H2).
    { destruct (k <? validationAttempts).
      - unfold sleep, bind, with_world, act in H. eexists _, [Slept (validationBackoff k)]. split_and!; cycle 2; [exact H|by split|reflexivity].
      - exists st1, []. split_and!; [by apply kept_nil|done|exact H]. }
    destruct (IH _ _ _ H2) as (l & K & U & Hr). exists (([Probed m (Some err)] ++ l2) ++ l).
    split_and!; [|congruence|].
    + change (S tries) with (1 + 0 + tries)%nat. eapply kept_app; [|exact K]. by eapply kept_app.
    + destruct r as [|a|e]; [done|set_solver|right]. destruct Hr as [[_ ->]|Hr]; set_solver.
  - injection H as <- <-. exists [Probed m None]. split_and!; [|done|set_solver].
    apply (kept_le _ _ _ 1); [by split|lia].
Qed.

(** The outcome of a cycle that promoted another model. *)
Record promoted (st st' : state) (l : list action) (n : nat) : Prop := {
  p_log : log st' = log st ++ l;
  p_family : exists p p', parseModelID (model st) = Some p /\ parseModelID (model st') = Some p' /\ family p' = family p;
  p_new : model st' <> model st;
  p_swaps : swaps l = [model st'];
  p_validated : Probed (model st') None ∈ l;
  p_healthy : curUnhealthy st' = false;
  p_lkg : lastKnownGood st' <> model st'
    /\ (lastKnownGood st' = model st /\ curUnhealthy st = false
        \/ lastKnownGood st' = "" \/ lastKnownGood st' = lastKnownGood st);
  p_probes : (probes l <= n)%nat;
}.

(** A candidate of a stage: another release of the family. *)
Definition candidate (cur cand : string) : Prop :=
  cand <> cur /\ exists p p', parseModelID cur = Some p /\ parseModelID cand = Some p' /\ family p' = family p.

Lemma candidate_gateway cur parsed id :
  parseModelID cur = Some parsed -> sameModel id cur = false -> gatewayCandidateOK id parsed = true -> candidate cur id.
Proof using.
  unfold gatewayCandidateOK. intros Hc Hs Hg. destruct (parseModelID id) as [p|] eqn:Ei; [|done].
  split; [|exists parsed, p; split_and!; try done; by apply String.eqb_eq].
  intros ->. unfold sameModel in Hs. rewrite Hc in Hs. by rewrite bool_decide_eq_true_2 in Hs.
Qed.
Lemma candidate_catalog cur parsed ids cand :
  parseModelID cur = Some parsed -> latestCandidate ids parsed = Some cand -> candidate cur cand.
Proof using.
  intros Hc Hl. pose proof (latestCandidate_spec ids parsed) as H. rewrite Hl in H.
  destruct H as (_ & p & (Hp & _ & Hf) & Hn & _). split; [|by exists parsed, p].
  intros ->. rewrite Hc in Hp. injection Hp as <-. apply newerThan_spec in Hn. unfold older in Hn. lia.
Qed.
Lemma parsed_nonempty id p : parseModelID id = Some p -> id <> "".
Proof using. by intros H ->. Qed.

Lemma tryUpgrade_spec cand resolver st b oc st' :
  candidate (model st) cand -> tryUpgrade (model st) cand resolver st = ((b, oc), st') ->
  exists l, (b = true /\ oc = Upgraded /\ model st' = cand /\ promoted st st' l 3)
    \/ (b = false /\ (oc = Declined \/ oc = Cancelled) /\ kept st st' l 3 /\ curUnhealthy st' = curUnhealthy st).
Proof using.
  intros (Hne & p & p' & Hp & Hp' & Hf) H. unfold tryUpgrade, bind, probe in H.
  destruct (attempts 3 1 cand _ st) as [r st1] eqn:Ea. apply attempts_spec in Ea as (l & K & U & Hr).
  destruct r as [|a|e].
  - injection H as <- <- <-. exists l. right. auto.
  - unfold unhealthy, set_unhealthy, act, ret, recoverModel, swapModel in H. destruct K. rewrite U in H.
    destruct (curUnhealthy st) eqn:Eu; cbn in H; rewrite ?k_model0, ?k_lkg0 in H; injection H as <- <- <-; eexists; left; (split_and!; [done|done|done|]).
    + split; simpl; [by rewrite k_log0, <- !app_assoc|eauto|done|rewrite !swaps_app, k_swaps0; done|set_solver|done| |
        count_probes].
      destruct (String.eqb_spec (lastKnownGood st) cand) as [->|]; [|auto]. split; [|auto]. intros <-. by apply parsed_nonempty in Hp'.
    + split; simpl; [by rewrite k_log0, <- !app_assoc|eauto|done|rewrite !swaps_app, k_swaps0; done|set_solver|done| |
        count_probes].
      destruct (String.eqb_spec (model st) cand) as [Heq|]; [by rewrite Heq in Hne|]. auto.
  - unfold act, ret in H. injection H as <- <- <-. exists (l ++ [Noted (mkNote EvDeclined (model st) cand validationAttempts (pe_text e) resolver)]).
    right. split_and!; [done|by left| |exact U]. destruct K. split; simpl; try done; [by rewrite k_log0, app_assoc|by rewrite swaps_app, k_swaps0|].
    count_probes.
Qed.

Lemma kept_promoted st st1 st2 l1 l2 n1 n2 :
  kept st st1 l1 n1 -> (curUnhealthy st1 = false -> curUnhealthy st = false) -> promoted st1 st2 l2 n2 ->
  promoted st st2 (l1 ++ l2) (n1 + n2).
Proof using.
  intros [] Hu [? ? ? ? ? ? [? Hl] ?]. rewrite k_model0, k_lkg0 in *.
  split; try done; [by rewrite p_log0, k_log0, app_assoc|by rewrite swaps_app, k_swaps0|set_solver| |count_probes].
  split; [done|]. destruct Hl as [[? ?]|?]; auto.
Qed.
Lemma promoted_le st st' l n n' : promoted st st' l n -> (n <= n')%nat -> promoted st st' l n'.
Proof using. intros [] ?. split; try done. lia. Qed.

(** Asking the world moves nothing. *)
Lemma kept_world st (w : W) : kept st (mkState w (model st) (lastKnownGood st) (curUnhealthy st) (log st)) [] 0.
Proof using. by apply kept_nil. Qed.

Definition settled (oc : outcome) : Prop := oc <> Upgraded /\ oc <> Recovered.

Lemma scan_catalog_spec parsed declined oc st d oc' st' :
  parseModelID (model st) = Some parsed -> settled oc ->
  scan_catalog (model st) parsed declined oc st = ((d, oc'), st') ->
  exists l, (oc' = Upgraded /\ promoted st st' l 3)
    \/ (settled oc' /\ kept st st' l 3 /\ curUnhealthy st' = curUnhealthy st
        /\ (d = "" -> oc' <> Cancelled -> declined = "" /\ probes l = 0%nat)).
Proof using.
  intros Hp Hoc H. unfold scan_catalog, bind, done_ctx in H. destruct (u_done host (world st)).
  { injection H as <- <- <-. exists []. right. split_and!; [done|eapply kept_le; [by apply kept_nil|lia]|done|done]. }
  unfold with_world in H. destruct (u_list host (world st)) as [ids w]. cbn in H.
  set (st1 := mkState w _ _ _ _) in H. pose proof (kept_world st w) as K. fold st1 in K.
  assert (forall d oc, settled oc -> (d = "" -> declined = "") -> exists l, (oc = Upgraded /\ promoted st st1 l 3)
    \/ (settled oc /\ kept st st1 l 3 /\ curUnhealthy st1 = curUnhealthy st /\ (d = "" -> oc <> Cancelled -> declined = "" /\ probes l = 0%nat))) as Hstay.
  { intros d0 oc0 Ho Hd. exists []. right. split_and!; [done..|by eapply kept_le; [exact K|lia]|done|auto]. }
  destruct ids as [ids|e]; [|injection H as <- <- <-; by apply Hstay].
  destruct (latestCandidate ids parsed) as [cand|] eqn:El; [|injection H as <- <- <-; by apply Hstay].
  destruct (negb (str_empty declined) && sameModel cand declined); [injection H as <- <- <-; by apply Hstay|].
  pose proof (candidate_catalog (model st1) parsed ids cand Hp El) as Hcand.
  destruct (tryUpgrade (model st) cand "fallback" st1) as [[b oc1] st2] eqn:Et.
  apply (tryUpgrade_spec cand "fallback" st1) in Et as (l & [(-> & -> & Hm & Hpro)|(-> & Ho & Hk & Hu)]); [| |done].
  - injection H as <- <- <-. exists ([] ++ l). left. split; [done|]. eapply (kept_promoted _ st1 _ _ _ 0 3); done.
  - exists ([] ++ l). right. assert (d = cand /\ oc' = Declined \/ oc' = Cancelled) as Hd by (destruct Ho as [-> | ->]; injection H as <- <- _; auto).
    assert (st' = st2) as -> by (destruct Ho as [-> | ->]; by injection H as _ _ <-).
    split_and!; [destruct Hd as [[_ ->] | ->]; done|by apply (kept_app _ st1 _ _ _ 0 3)|done|].
    intros -> Hnc. destruct Hd as [[<- _]|?]; [|done]. destruct Hcand as (_ & ? & ? & _ & Hc & _). done.
Qed.

Lemma resolveAndUpgrade_spec st d oc st' :
  resolveAndUpgrade st = ((d, oc), st') ->
  exists l, (oc = Upgraded /\ promoted st st' l 6)
    \/ (settled oc /\ kept st st' l 6 /\ curUnhealthy st' = curUnhealthy st
        /\ (d = "" -> oc <> Cancelled -> probes l = 0%nat)).
Proof using.
  intros H. unfold resolveAndUpgrade, bind, current in H. destruct (parseModelID (model st)) as [parsed|] eqn:Ep.
  2: { injection H as <- <- <-. exists []. right. split_and!; [done|eapply kept_le; [by apply kept_nil|lia]|done|done]. }
  assert (forall st1 l1 n1 d1 oc1, kept st st1 l1 n1 -> (n1 <= 3)%nat -> curUnhealthy st1 = curUnhealthy st -> settled oc1 ->
    (d1 = "" -> probes l1 = 0%nat) -> scan_catalog (model st) parsed d1 oc1 st1 = ((d, oc), st') ->
    exists l, (oc = Upgraded /\ promoted st st' l 6)
      \/ (settled oc /\ kept st st' l 6 /\ curUnhealthy st' = curUnhealthy st /\ (d = "" -> oc <> Cancelled -> probes l = 0%nat))) as Hscan.
  { intros st1 l1 n1 d1 oc1 K Hn Hu Ho Hd1 Hs. rewrite <- (k_model _ _ _ _ K) in Hs.
    apply scan_catalog_spec in Hs as (l & [[-> Hp]|(Ho' & Hk & Hu' & Hd)]); [|
      |by rewrite (k_model _ _ _ _ K)|done].
    - exists (l1 ++ l). left. split; [done|]. eapply promoted_le; [by eapply kept_promoted; [| |exact Hp]; [|congruence]|lia].
    - exists (l1 ++ l). right. split_and!; [exact Ho'|eapply kept_le; [by eapply kept_app|lia]|congruence|].
      intros H1 H2. destruct (Hd H1 H2) as [H3 H4]. rewrite probes_app, (Hd1 H3), H4. done. }
  destruct (u_resolve host) as [resolve|]; [|apply (Hscan st [] 0%nat "" AlreadyLatest (kept_nil st st eq_refl eq_refl eq_refl)); [lia|done|done|done|exact H]].
  unfold ask_gateway, bind, current, with_world in H. destruct (resolve (model st) (world st)) as [id w]. pose proof (kept_world st w) as K. set (st1 := mkState w _ _ _ _) in *.
  destruct id as [id|e]; [|apply (Hscan st1 [] 0%nat "" AlreadyLatest K); [lia|done|done|done|exact H]].
  destruct (sameModel id (model st)) eqn:Es.
  { injection H as <- <- <-. exists []. right. split_and!; [done|by eapply kept_le; [exact K|lia]|done|done]. }
  destruct (gatewayCandidateOK id parsed) eqn:Eg; cbn [negb] in H; [|apply (Hscan st1 [] 0%nat "" AlreadyLatest K); [lia|done|done|done|exact H]].
  pose proof (candidate_gateway (model st1) parsed id Ep Es Eg) as Hcand.
  destruct (tryUpgrade (model st) id "gateway" st1) as [[b oc1] st2] eqn:Et.
  apply (tryUpgrade_spec id "gateway" st1) in Et as (l & [(-> & -> & Hm & Hpro)|(-> & Ho & Hk & Hu)]); [| |done].
  - injection H as <- <- <-. exists ([] ++ l). left. split; [done|]. eapply promoted_le; [eapply (kept_promoted _ st1 _ _ _ 0 3); done|lia].
  - pose proof (kept_app _ _ _ _ _ _ _ K Hk) as K2. destruct Ho as [-> | ->].
    + apply (Hscan st2 ([] ++ l) 3%nat id Declined K2); try done; try lia. intros ->. by destruct Hcand as (_ & ? & ? & _ & Hc & _).
    + injection H as <- <- <-. exists ([] ++ l). right. split_and!; [done|by eapply kept_le; [exact K2|lia]|done|done].
Qed.

(** The recovery's candidate is another release of the broken model's family. *)
Lemma scan_recovery_spec st parsed declined r st' :
  parseModelID (model st) = Some parsed -> scan_recovery (model st) declined parsed st = (r, st') ->
  kept st st' [] 0 /\ curUnhealthy st' = curUnhealthy st /\ match r with Some cand => candidate (model st) cand | None => True end.
Proof using.
  intros Hp H. unfold scan_recovery, bind, with_world in H. destruct (u_list host (world st)) as [ids w].
  injection H as <- <-. split_and!; [by apply kept_world|done|]. destruct ids as [ids|e]; [|done].
  destruct (latestCandidate ids parsed) as [cand|] eqn:El; [|done]. destruct (sameModel cand (model st)); [done|].
  destruct (negb _ && _); [done|]. by eapply candidate_catalog.
Qed.
Lemma recoveryCandidate_spec st declined r st' :
  recoveryCandidate (model st) declined st = (r, st') ->
  kept st st' [] 0 /\ curUnhealthy st' = curUnhealthy st /\ match r with Some cand => candidate (model st) cand | None => True end.
Proof using.
  intros H. unfold recoveryCandidate, bind, done_ctx in H.
  destruct (u_done host (world st)); [injection H as <- <-; split_and!; [by apply kept_nil|done|done]|].
  destruct (parseModelID (model st)) as [parsed|] eqn:Ep; [|injection H as <- <-; split_and!; [by apply kept_nil|done|done]].
  destruct (u_resolve host) as [resolve|]; [|by eapply scan_recovery_spec].
  unfold ask_gateway, bind, current, with_world in H. destruct (resolve (model st) (world st)) as [id w]. pose proof (kept_world st w) as K. set (st1 := mkState w _ _ _ _) in *.
  assert (scan_recovery (model st) declined parsed st1 = (r, st') -> kept st st' [] 0 /\ curUnhealthy st' = curUnhealthy st
    /\ match r with Some cand => candidate (model st) cand | None => True end) as Hscan.
  { intros (K1 & Hu & Hr)%(scan_recovery_spec st1); [|done]. split_and!; [exact (kept_app _ _ _ _ _ _ _ K K1)|done|done]. }
  destruct id as [id|e]; [|by apply Hscan].
  destruct (gatewayCandidateOK id parsed) eqn:Eg; [|by apply Hscan].
  destruct (sameModel id (model st)) eqn:Es; cbn in H; [by apply Hscan|].
  injection H as <- <-. split_and!; [exact K|done|]. by eapply candidate_gateway.
Qed.

Lemma recover_spec st declined e oc st' :
  curUnhealthy st = true -> recoverFromFailedHealthCheck (model st) declined e st = (oc, st') ->
  exists l, (oc = Recovered /\ promoted st st' l 3) \/ (settled oc /\ kept st st' l 3).
Proof using.
  intros Hu H. unfold recoverFromFailedHealthCheck, bind in H.
  destruct (recoveryCandidate (model st) declined st) as [r st1] eqn:Er.
  apply recoveryCandidate_spec in Er as (K1 & Hu1 & Hr). destruct r as [cand|].
  2: { unfold done_ctx in H. destruct (u_done host (world st1)).
       - injection H as <- <-. exists []. right. split; [done|by eapply kept_le; [exact K1|lia]].
       - unfold failHealthCheck, bind, act, ret in H. injection H as <- <-. eexists. right. split; [done|].
         destruct K1. split; simpl; [by rewrite k_log0, app_nil_r|done|done|done|count_probes]. }
  unfold probe in H. destruct (attempts 3 1 cand _ st1) as [pr st2] eqn:Ea. apply attempts_spec in Ea as (l & K2 & Hu2 & Hpr).
  pose proof (kept_app _ _ _ _ _ _ _ K1 K2) as K. simpl in K. destruct Hr as (Hne & p & p' & Hp & Hp' & Hf). destruct pr as [|a|e2].
  - injection H as <- <-. exists l. right. by split.
  - cbn in H. injection H as <- <-. eexists. left. split; [done|]. destruct K. split; simpl;
      [by rewrite k_log0, <- !app_assoc|eauto|done|by rewrite !swaps_app, k_swaps0|set_solver|done| |count_probes].
    rewrite k_lkg0. destruct (String.eqb_spec (lastKnownGood st) cand); [|auto]. split; [|auto]. intros <-. by apply parsed_nonempty in Hp'.
  - unfold failHealthCheck, bind, act, ret in H. injection H as <- <-. eexists. right. split; [done|].
    destruct K. split; simpl; [by rewrite k_log0, <- app_assoc|done|done|by rewrite swaps_app, k_swaps0|count_probes].
Qed.

(** A model is replaced for its health only when it conclusively failed it. *)
Definition conclusively_failed (m : string) (l : list action) : Prop :=
  exists e, Probed m (Some e) ∈ l /\ healthCheckConclusive e = true.

Lemma healthCheck_spec st declined oc0 oc st' :
  settled oc0 -> healthCheck declined oc0 st = (oc, st') ->
  exists l, (oc = Recovered /\ declined = "" /\ promoted st st' l 6 /\ conclusively_failed (model st) l
             /\ (lastKnownGood st' = "" \/ lastKnownGood st' = lastKnownGood st))
    \/ (settled oc /\ kept st st' l (if str_empty declined then 6 else 3)).
Proof using.
  intros Ho H. unfold healthCheck, bind, current, probe in H.
  destruct (attempts 3 1 (model st) _ st) as [pr st1] eqn:Ea. apply attempts_spec in Ea as (l & K & Hu & Hpr).
  assert (forall n, (3 <= n)%nat -> kept st st1 l n) as Kle by (intros n ?; by eapply kept_le).
  destruct pr as [|a|e].
  - injection H as <- <-. exists l. right. split; [done|]. apply Kle. destruct (str_empty declined); lia.
  - cbn in H. injection H as <- <-. exists l. right. split; [done|]. destruct K. split; try done. destruct (str_empty declined); lia.
  - destruct Hpr as [[? _]|Hpr]; [done|]. destruct (healthCheckConclusive e) eqn:Ec; cbn in H.
    2: { injection H as <- <-. exists l. right. split; [done|]. apply Kle. destruct (str_empty declined); lia. }
    set (st2 := mkState (world st1) _ _ true _) in H. assert (kept st st2 l 3) as K2 by (destruct K; by split).
    destruct (str_empty declined) eqn:Ed; cbn in H.
    + rewrite <- (k_model _ _ _ _ K2) in H. apply recover_spec in H as (l2 & [[-> Hp]|[Hs Hk]]); [| |done].
      * exists (l ++ l2). left. split_and!; [done|by apply str_empty_true| | |].
        -- eapply (kept_promoted _ st2 _ _ _ 3 3); done.
        -- exists e. set_solver.
        -- destruct Hp as [? ? ? ? ? ? [_ [[_ ?]|Hp]] ?]; [done|]. by rewrite (k_lkg _ _ _ _ K2) in Hp.
      * exists (l ++ l2). right. split; [done|]. by apply (kept_app _ st2 _ _ _ 3 3).
    + unfold failHealthCheck, bind, act, ret in H. injection H as <- <-. eexists. right. split; [done|].
      destruct K2. split; simpl in *; [by rewrite k_log0, <- app_assoc|done|done|by rewrite swaps_app, k_swaps0|count_probes].
Qed.

(** One cycle, whatever the gateway, the catalog and the models answer. *)
Definition cycle_ok (st st' : state) (oc : outcome) (l : list action) : Prop :=
  (oc = Upgraded /\ promoted st st' l 6)
  \/ (oc = Recovered /\ promoted st st' l 9 /\ conclusively_failed (model st) l
      /\ (lastKnownGood st' = "" \/ lastKnownGood st' = lastKnownGood st))
  \/ (settled oc /\ kept st st' l 9).

Lemma runOnce_spec st oc st' : runOnce st = (oc, st') -> exists l, cycle_ok st st' oc l.
Proof using.
  intros H. unfold runOnce, bind in H. destruct (resolveAndUpgrade st) as [[d oc1] st1] eqn:Er.
  apply resolveAndUpgrade_spec in Er as (l1 & [[-> Hp]|(Hs & K & Hu & Hd)]).
  { unfold done_ctx in H. injection H as <- <-. exists l1. by left. }
  unfold done_ctx in H.
  assert ((oc, st') = (oc1, st1) \/ oc1 <> Cancelled /\ healthCheck d oc1 st1 = (oc, st')) as [[= -> ->]|[Hc H']].
  { destruct oc1; try (by left); try (destruct (u_done host (world st1)); [by left|right; by split]). }
  - exists l1. right. right. split; [done|]. eapply kept_le; [exact K|lia].
  - clear H. apply healthCheck_spec in H' as (l2 & [(-> & -> & Hp & (e & He & Hc') & Hl)|[Hs' K2]]); [| |done].
    + exists (l1 ++ l2). right. left. specialize (Hd eq_refl Hc).
      assert (kept st st1 l1 0) as K0 by (destruct K; split; try done; lia). rewrite (k_model _ _ _ _ K) in He. split_and!; [done| | |].
      * eapply promoted_le; [by eapply kept_promoted; [exact K0|congruence|exact Hp]|]. lia.
      * exists e. set_solver.
      * by rewrite (k_lkg _ _ _ _ K) in Hl.
    + exists (l1 ++ l2). right. right. split; [done|]. pose proof (kept_app _ _ _ _ _ _ _ K K2) as K3.
      destruct (str_empty d) eqn:Ed; [|by eapply kept_le; [exact K3|lia]].
      apply str_empty_true in Ed. specialize (Hd Ed Hc). destruct K3, K2. split; try done. rewrite probes_app, Hd. lia.
Qed.

(** One cycle swaps the model at most once, to another release of the same family that
    just passed the test invocation - after an upgrade check, or because the model in use
    conclusively failed its own; the model displaced becomes the fallback only if it was
    healthy; every other outcome keeps the model, the fallback and at most nine test
    invocations were made. *)
Theorem updater_cycle st oc st' : runOnce st = (oc, st') -> exists l, cycle_ok st st' oc l.
Proof using. apply runOnce_spec. Qed.

Definition swapped (oc : outcome) : bool := match oc with Upgraded | Recovered => true | _ => false end.
Definition used (st0 st : state) (m : string) : Prop := m = model st0 \/ m ∈ swaps (log st).

(** What holds of the process after some cycles. *)
Record run_ok (st0 : state) (p0 : parsedModel) (ocs : list outcome) (st : state) : Prop := {
  r_parsed : exists p, parseModelID (model st) = Some p /\ family p = family p0;
  r_used : used st0 st (model st);
  r_validated : forall m, m ∈ swaps (log st) -> Probed m None ∈ log st;
  r_fallback : lastKnownGood st <> model st /\ (lastKnownGood st = "" \/ used st0 st (lastKnownGood st));
  r_swaps : List.length (swaps (log st)) = List.length (List.filter swapped ocs);
  r_probes : (probes (log st) <= 9 * List.length ocs)%nat;
}.

Lemma run_ok_promoted st0 p0 ocs st st' oc l :
  run_ok st0 p0 ocs st -> swapped oc = true -> promoted st st' l 9 -> run_ok st0 p0 (ocs ++ [oc]) st'.
Proof using.
  intros [(p1 & Hp1 & Hf1) Hused Hval [Hne Hfb] Hsw Hpr] Ho [Hlog (p & p' & Hp & Hp' & Hf) Hnew Hs Hv _ [Hl1 Hl2] Hn].
  assert (forall m, used st0 st m -> used st0 st' m) as Hmono.
  { intros m [->|Hm]; [by left|right]. rewrite Hlog, swaps_app. set_solver. }
  split.
  - exists p'. split; [done|]. congruence.
  - right. rewrite Hlog, swaps_app, Hs. set_solver.
  - intros m. rewrite Hlog, swaps_app, Hs. intros [Hm|Hm%list_elem_of_singleton]%elem_of_app; [specialize (Hval m Hm); set_solver|].
    subst m. set_solver.
  - split; [done|]. destruct Hl2 as [[-> _]|[-> | ->]]; [right; by apply Hmono|by left|].
    destruct Hfb as [->|Hfb]; [by left|right; by apply Hmono].
  - rewrite Hlog, swaps_app, Hs, List.filter_app, !length_app, Hsw. simpl. by rewrite Ho.
  - rewrite Hlog, probes_app, length_app. simpl. lia.
Qed.

Lemma run_ok_kept st0 p0 ocs st st' oc l :
  run_ok st0 p0 ocs st -> swapped oc = false -> kept st st' l 9 -> run_ok st0 p0 (ocs ++ [oc]) st'.
Proof using.
  intros [Hp Hused Hval [Hne Hfb] Hsw Hpr] Ho [Hlog Hm Hl Hs Hn].
  assert (swaps (log st') = swaps (log st)) as Hsl by (by rewrite Hlog, swaps_app, Hs, app_nil_r).
  split; unfold used in *; rewrite ?Hm, ?Hl, ?Hsl; try done.
  - intros m Hin. rewrite Hlog. specialize (Hval m Hin). set_solver.
  - rewrite List.filter_app, length_app. simpl. rewrite Ho. simpl. by rewrite Nat.add_0_r.
  - rewrite Hlog, probes_app, length_app. simpl. lia.
Qed.

Lemma run_ok_step st0 p0 ocs st oc st' :
  run_ok st0 p0 ocs st -> runOnce st = (oc, st') -> run_ok st0 p0 (ocs ++ [oc]) st'.
Proof using.
  intros Hr (l & [[-> Hp]|[(-> & Hp & _)|[[H1 H2] Hk]]])%runOnce_spec.
  - eapply run_ok_promoted; [done|done|]. eapply promoted_le; [exact Hp|lia].
  - by eapply run_ok_promoted.
  - eapply run_ok_kept; [done| |done]. by destruct oc.
Qed.
Lemma cycles_ok n st0 p0 ocs0 st ocs st' :
  run_ok st0 p0 ocs0 st -> cycles n st = (ocs, st') -> run_ok st0 p0 (ocs0 ++ ocs) st' /\ List.length ocs = n.
Proof using.
  revert ocs0 st ocs. induction n as [|n IH]; intros ocs0 st ocs Hr H; cbn in H.
  { injection H as <- <-. by rewrite app_nil_r. }
  unfold bind in H. destruct (runOnce st) as [oc st1] eqn:Eo. destruct (cycles n st1) as [ocs1 st2] eqn:Ec.
  injection H as <- <-. rewrite cons_middle, app_assoc. pose proof (run_ok_step _ _ _ _ _ _ Hr Eo) as Hr1.
  destruct (IH _ _ _ Hr1 Ec) as [H1 H2]. simpl. by split; [|f_equal].
Qed.
Lemma run_ok_start st p : parseModelID (model st) = Some p -> lastKnownGood st = "" -> log st = [] -> run_ok st p [] st.
Proof using.
  intros Hp Hl Hlog. split; rewrite ?Hlog, ?Hl; [eauto|by left|by intros m ?%elem_of_nil| |done|unfold probes; simpl; lia].
  split; [intros E; by rewrite <- E in Hp|by left].
Qed.

(** *** Where the entries of the log come from *)

(** A model the gateway named, or an entry of the catalog. *)
Definition named (m : string) : Prop :=
  (exists resolve cur w, u_resolve host = Some resolve /\ (resolve cur w).1 = Ok m)
  \/ exists w ids, (u_list host w).1 = Ok ids /\ m ∈ ids.
Record backed (l : list action) : Prop := {
  b_probed : forall m e, Probed m e ∈ l -> exists w, (u_validate host m w).1 = e;
  b_swapped : forall m, m ∈ swaps l -> named m;
}.
Lemma backed_app l1 l2 : backed l1 -> backed l2 -> backed (l1 ++ l2).
Proof using.
  intros [H1 H2] [H3 H4]. split; [intros m e [?|?]%elem_of_app; eauto|].
  intros m. rewrite swaps_app. intros [?|?]%elem_of_app; eauto.
Qed.
(** A program that keeps the log backed and whose result satisfies [Q]. *)
Definition keeps {A} (Q : A -> Prop) (m : M A) : Prop :=
  forall st, backed (log st) -> backed (log (m st).2) /\ Q (m st).1.
Definition any {A} (_ : A) : Prop := True.
Lemma keeps_bind {A B} (P : A -> Prop) (Q : B -> Prop) m k :
  keeps P m -> (forall a, P a -> keeps Q (k a)) -> keeps Q (bind m k).
Proof using.
  intros Hm Hk st Hst. unfold bind. destruct (Hm st Hst) as [H1 H2]. destruct (m st) as [a st1]. by apply Hk.
Qed.
Lemma keeps_ret {A} (Q : A -> Prop) a : Q a -> keeps Q (ret a).
Proof using. by intros H st Hst. Qed.
Lemma keeps_read {A} (f : state -> A) : keeps any (fun st => (f st, st)).
Proof using. by intros st Hst. Qed.
Lemma keeps_world {A} (Q : A -> Prop) f : (forall w, Q (f w).1) -> keeps Q (with_world f).
Proof using. intros H st Hst. unfold with_world. specialize (H (world st)). by destruct (f (world st)). Qed.
Lemma keeps_act a : backed [a] -> keeps any (act a).
Proof using. intros H st Hst. split; [|done]. by apply backed_app. Qed.
Lemma backed_note n : backed [Noted n].
Proof using. split; [by intros m e H%list_elem_of_singleton|by intros m H%elem_of_nil]. Qed.
Lemma keeps_unhealthy b : keeps any (set_unhealthy b).
Proof using. by intros st Hst. Qed.
Lemma keeps_promote b m : named m -> keeps any (if (b : bool) then recoverModel m else swapModel m).
Proof using.
  intros Hm st Hst. destruct b; (split; [|done]); (apply backed_app; [done|]);
    (split; [by intros ? ? H%list_elem_of_singleton|by intros ? ->%list_elem_of_singleton]).
Qed.
Lemma keeps_attempts tries k m e : keeps any (attempts tries k m e).
Proof using.
  revert k e. induction tries as [|tries IH]; intros k e; cbn [attempts];
    (apply (keeps_bind any); [apply keeps_read|intros d _]); [by apply keeps_ret|].
  destruct d; [by apply keeps_ret|]. apply (keeps_bind any).
  - apply (keeps_bind (fun r => exists w, (u_validate host m w).1 = r)); [apply keeps_world; eauto|intros r Hr].
    apply (keeps_bind any); [|intros; by apply keeps_ret]. apply keeps_act.
    split; [by intros m' e' [= -> ->]%list_elem_of_singleton|by intros ? ?%elem_of_nil].
  - intros [err|] _; [|by apply keeps_ret]. apply (keeps_bind any); [|auto].
    destruct (_ <? _); [|by apply keeps_ret]. apply (keeps_bind any); [by apply keeps_world|intros _ _]. apply keeps_act.
    split; [by intros ? ? H%list_elem_of_singleton|by intros ? ?%elem_of_nil].
Qed.
(** Walks through a program by its shape, leaving the questions to the world. *)
Ltac keep :=
  lazymatch goal with
  | |- keeps _ (bind (with_world _) _) => idtac
  | |- keeps _ (bind (ask_gateway _) _) => idtac
  | |- keeps _ (bind _ _) => apply (keeps_bind any); [keep|intros ? _; keep]
  | |- keeps _ (ret _) => apply keeps_ret; try done
  | |- keeps _ (act (Noted _)) => apply keeps_act, backed_note
  | |- keeps _ (set_unhealthy _) => apply keeps_unhealthy
  | |- keeps _ (probe _) => apply keeps_attempts
  | |- keeps _ (failHealthCheck _ _) => unfold failHealthCheck; keep
  | |- keeps _ (if _ then recoverModel _ else swapModel _) => by apply keeps_promote
  | |- keeps _ (if ?b then _ else _) => destruct b; keep
  | |- keeps _ (match ?x with _ => _ end) => destruct x eqn:?; keep
  | |- keeps any _ => first [apply keeps_read|idtac]
  | |- _ => idtac
  end.
Lemma keeps_tryUpgrade cur cand resolver : named cand -> keeps any (tryUpgrade cur cand resolver).
Proof using. intros Hn. unfold tryUpgrade. keep. Qed.
Lemma keeps_recoverModel m : named m -> keeps any (recoverModel m).
Proof using. apply (keeps_promote true). Qed.

Lemma keeps_list {A} (Q : A -> Prop) k :
  (forall ids, (forall l p cand, ids = Ok l -> latestCandidate l p = Some cand -> named cand) -> keeps Q (k ids)) ->
  keeps Q (bind (with_world (u_list host)) k).
Proof using.
  intros Hk. apply (keeps_bind (fun ids => exists w, (u_list host w).1 = ids)); [apply keeps_world; eauto|].
  intros ids [w Hw]. apply Hk. intros l p cand -> Hc. pose proof (latestCandidate_spec l p) as H. rewrite Hc in H.
  right. exists w, l. by split; [|apply H].
Qed.
Lemma keeps_gateway {A} (Q : A -> Prop) resolve k :
  u_resolve host = Some resolve -> (forall r, (forall m, r = Ok m -> named m) -> keeps Q (k r)) ->
  keeps Q (bind (ask_gateway resolve) k).
Proof using.
  intros Hr Hk. apply (keeps_bind (fun r => exists cur w, (resolve cur w).1 = r)).
  - apply (keeps_bind any); [apply keeps_read|intros cur _]. apply keeps_world. eauto.
  - intros r (cur & w & Hw). apply Hk. intros m ->. left. eauto.
Qed.

Lemma keeps_scan_catalog cur parsed declined oc : keeps any (scan_catalog cur parsed declined oc).
Proof using.
  unfold scan_catalog. keep. apply keeps_list. intros [ids|e] Hn; keep.
  apply keeps_tryUpgrade. eauto.
Qed.
Lemma keeps_resolveAndUpgrade : keeps any resolveAndUpgrade.
Proof using.
  unfold resolveAndUpgrade. keep; [|apply keeps_scan_catalog].
  apply keeps_gateway; [done|]. intros [id|e] Hn; [|apply keeps_scan_catalog].
  keep; try apply keeps_scan_catalog. by apply keeps_tryUpgrade, Hn.
Qed.
Definition named_option (r : option string) : Prop := match r with Some m => named m | None => True end.
Lemma keeps_scan_recovery broken declined parsed : keeps named_option (scan_recovery broken declined parsed).
Proof using.
  unfold scan_recovery. apply keeps_list. intros ids Hn. apply keeps_ret. destruct ids as [ids|]; [|done].
  destruct (latestCandidate ids parsed) as [cand|] eqn:E; [|done]. destruct (sameModel _ _); [done|]. destruct (negb _ && _); [done|]. by eapply Hn.
Qed.
Lemma keeps_recoveryCandidate broken declined : keeps named_option (recoveryCandidate broken declined).
Proof using.
  unfold recoveryCandidate. keep; [|apply keeps_scan_recovery].
  apply keeps_gateway; [done|]. intros [id|e] Hn; keep; try apply keeps_scan_recovery. by apply Hn.
Qed.
Lemma keeps_runOnce : keeps any runOnce.
Proof using.
  unfold runOnce. apply (keeps_bind any); [apply keeps_resolveAndUpgrade|intros [declined oc] _]. keep.
  all: unfold healthCheck; keep; unfold recoverFromFailedHealthCheck.
  all: apply (keeps_bind named_option); [apply keeps_recoveryCandidate|]; intros [cand|] Hn; keep; by apply keeps_recoverModel.
Qed.

(** However many cycles run and whatever they meet: the model in use is the configured
    one or one that passed the test invocation, always of the configured family; the
    fallback is another model that was in use; and the swaps are those the cycles
    report. *)
Theorem updates_validated n st p ocs st' :
  parseModelID (model st) = Some p -> lastKnownGood st = "" -> log st = [] -> cycles n st = (ocs, st') ->
  run_ok st p ocs st' /\ List.length ocs = n.
Proof using.
  intros Hp Hl Hlog H. refine (cycles_ok n st p [] st ocs st' _ H). by apply run_ok_start.
Qed.
End updater.

(** *** The daily schedule, in nanoseconds since the epoch *)
Definition hour : Z := 3600 * second.
Definition day : Z := 24 * hour.
Definition anchorHourUTC : Z := 7.
Definition maxJitter : Z := 1800 * second.

Definition nextRunAt (now : Z) : Z :=
  let next := now / day * day + anchorHourUTC * hour in
  if next <=? now then next + day else next.

(** The next run is the first 07:00 UTC after now: strictly later, within a day. *)
Lemma nextRunAt_spec now :
  let next := nextRunAt now in
  now < next <= now + day /\ next mod day = anchorHourUTC * hour
  /\ forall t, t mod day = anchorHourUTC * hour -> now < t -> next <= t.
Proof.
  assert (day = 86400 * second) as Hd by reflexivity. assert (anchorHourUTC * hour = 25200 * second) as Ha by reflexivity.
  assert (0 < second) as Hs by reflexivity. unfold nextRunAt. rewrite Ha, Hd.
  pose proof (Z.div_mod now (86400 * second) ltac:(lia)) as Hn. pose proof (Z.mod_pos_bound now (86400 * second) ltac:(lia)) as Hb.
  set (q := now / (86400 * second)) in *. set (m := now mod (86400 * second)) in *.
  assert (forall k, (k * (86400 * second) + 25200 * second) mod (86400 * second) = 25200 * second) as Hmod.
  { intros k. rewrite Z.add_comm, Z_mod_plus_full. apply Z.mod_small. lia. }
  assert (forall t, t mod (86400 * second) = 25200 * second -> exists k, t = k * (86400 * second) + 25200 * second) as Ht.
  { intros t Et. exists (t / (86400 * second)). pose proof (Z.div_mod t (86400 * second) ltac:(lia)). lia. }
  clearbody q m. destruct (Z.leb_spec (q * (86400 * second) + 25200 * second) now) as [Hle|Hle].
  - split_and!; [lia|lia| |].
    + replace (q * (86400 * second) + 25200 * second + 86400 * second) with ((q + 1) * (86400 * second) + 25200 * second) by lia. apply Hmod.
    + intros t (k & ->)%Ht Hlt. assert (q < k) by nia. nia.
  - split_and!; [lia|lia|apply Hmod|]. intros t (k & ->)%Ht Hlt. assert (q <= k) by nia. nia.
Qed.
End Updater.

Module ModelsExamples.
Import ModelId Updater.

(** A world that answers from a script: the gateway's model, and which models work. *)
Definition host (gateway : string) (broken : list string) : Host (W := nat) := {|
  u_done := fun _ => false;
  u_resolve := Some (fun _ w => (Ok gateway, w));
  u_list := fun w => (Ok ["us.anthropic.claude-opus-4-8"; "us.anthropic.claude-opus-4-9"], w);
  u_validate := fun m w => (if mem_str m broken then Some (mkProbeError "gone" true false) else None, S w);
  u_sleep := fun _ w => w |}.
Definition start : state := mkState 0%nat "us.anthropic.claude-opus-4-7" "" false [].
Definition run1 (gateway : string) (broken : list string) :=
  let '(oc, st) := runOnce (host gateway broken) start in (oc, model st, lastKnownGood st, world st).

Example updater_ex :
  run1 "us.anthropic.claude-opus-4-8" [] = (Upgraded, "us.anthropic.claude-opus-4-8", "us.anthropic.claude-opus-4-7", 1%nat)
  /\ run1 "us.anthropic.claude-opus-4-8" ["us.anthropic.claude-opus-4-8"]
     = (Upgraded, "us.anthropic.claude-opus-4-9", "us.anthropic.claude-opus-4-7", 4%nat)
  /\ run1 "us.anthropic.claude-opus-4-7" ["us.anthropic.claude-opus-4-7"]
     = (Recovered, "us.anthropic.claude-opus-4-9", "", 4%nat)
  /\ run1 "us.anthropic.claude-opus-4-8" ["us.anthropic.claude-opus-4-7"; "us.anthropic.claude-opus-4-8"; "us.anthropic.claude-opus-4-9"]
     = (HealthFailed, "us.anthropic.claude-opus-4-7", "", 9%nat).
Proof. vm_compute. by split_and!. Qed.

Lemma updater_cycle_witness :
  let '(oc, st') := runOnce (host "us.anthropic.claude-opus-4-8" []) start in
  oc = Upgraded /\ exists l, cycle_ok start st' oc l.
Proof.
  destruct (runOnce (host "us.anthropic.claude-opus-4-8" []) start) as [oc st'] eqn:E.
  split; [vm_compute in E; by injection E as <- _|]. exact (updater_cycle (host "us.anthropic.claude-opus-4-8" []) start oc st' E).
Defined.

Lemma updates_validated_witness :
  let '(ocs, st') := cycles (host "us.anthropic.claude-opus-4-8" []) 2 start in
  ocs = [Upgraded; AlreadyLatest] /\ run_ok start (mkModel "us." "claude-opus" 4 7) ocs st' /\ List.length ocs = 2%nat.
Proof.
  destruct (cycles (host "us.anthropic.claude-opus-4-8" []) 2 start) as [ocs st'] eqn:E.
  split; [vm_compute in E; by injection E as <- _|].
  apply (updates_validated (host "us.anthropic.claude-opus-4-8" []) 2 start (mkModel "us." "claude-opus" 4 7) ocs st');
    [vm_compute; reflexivity|reflexivity|reflexivity|exact E].
Defined.
End ModelsExamples.
