(* ===== verification/Bedrock.v ===== *)
(** * The Bedrock provider (pkg/workflow/builtin/bedrock: factory.go, payload.go, stream.go
    and the probe of autoupdate.go)

    - [Node]: the configuration and the pin;
    - [Payload]: the request envelope, version-aware;
    - [Chunks]: the decoder of the event stream and the events it emits;
    - [Stream]: one invocation with its fallback model, and the probe of the updater.

    Raw JSON inside a request (tool inputs and schemas) is a text with the document it
    decodes to, given by the parameter [raw]; the temperature is a document. *)

From S2P Require Import Prelude Json JsonText Agent Models.
From stdpp Require Import base tactics list strings gmap option.
From Stdlib Require Import ZArith Lia Ascii String.
Local Open Scope string_scope.
Local Open Scope list_scope.
Local Open Scope Z_scope.
Local Open Scope go_scope.

(** ** factory.go *)
Module Node.

Record Config := mkConfig {
  Model : string;
  Region : string;
  MaxTokens : Z;
  AnthropicVersion : string;
  AutoUpdate : option bool;
}.
Inductive config_error := ConfigParse | ModelRequired.

Definition autoUpdateEnabled (c : Config) : bool := match AutoUpdate c with Some b => b | None => true end.

Definition or_string (s d : string) : string := if str_empty s then d else s.
Definition dec_config (raw : json) : option Config :=
  m ← dec_struct (Some raw);
  model ← dec_str (m !! "model"); region ← dec_str (m !! "region"); maxTokens ← dec_int (m !! "maxTokens");
  version ← dec_str (m !! "anthropicVersion"); auto ← dec_bool (m !! "autoUpdate");
  Some (mkConfig model region (default 0 maxTokens) version auto).

(** The accepted configuration; the node starts on its model, without a fallback. *)
Definition Factory (raw : json) : res config_error Config :=
  let! cfg := ok_or ConfigParse (dec_config raw) in
  if str_empty (Model cfg) then Err ModelRequired
  else Ok (mkConfig (Model cfg) (or_string (Region cfg) "us-east-1")
             (if MaxTokens cfg =? 0 then 4096 else MaxTokens cfg)
             (or_string (AnthropicVersion cfg) "bedrock-2023-05-31") (AutoUpdate cfg)).

(** [applyEnvPin] and the start of [Init]: the model in use and whether the updater runs. *)
Definition start (cfg : Config) (pin : string) : string * bool :=
  let pin := trim_space pin in
  if str_empty pin then (Model cfg, autoUpdateEnabled cfg) else (pin, false).
End Node.

(** ** payload.go *)
Module Payload.
Import Node.

(** [node.LLMRequest] in full: what the agent fills, and what only the probe sets. *)
Record request := mkRequest {
  base : LLMRequest;
  req_MaxTokens : Z;
  req_Temperature : option json;
  req_Stop : list string;
  ToolChoiceName : string;
}.

Section payload.
Variable raw : string -> option json.

Definition textBlock (t : string) : json := jobj [("type", JStr "text"); ("text", JStr t)].
Definition base64Source (mediaType data : string) : json :=
  jobj [("type", JStr "base64"); ("media_type", JStr mediaType); ("data", JStr (base64_encode data))].

(** One content block; [None] is raw JSON that does not encode. *)
Definition block (b : ContentBlock) : option json :=
  match b with
  | BlockText t => Some (textBlock t)
  | BlockToolUse id name input =>
      v ← (if str_empty input then Some (JObj ∅) else raw input);
      Some (jobj [("type", JStr "tool_use"); ("id", JStr id); ("name", JStr name); ("input", v)])
  | BlockToolResult id result isError =>
      let text := if str_empty result then dquote +:+ dquote else result in
      Some (jobj ([("type", JStr "tool_result"); ("tool_use_id", JStr id); ("content", JArr [textBlock text])]
                  ++ (if isError : bool then [("is_error", JBool true)] else [])))
  | BlockImage mediaType _ data => Some (jobj [("type", JStr "image"); ("source", base64Source mediaType data)])
  | BlockDocument mediaType filename data =>
      Some (jobj ([("type", JStr "document"); ("source", base64Source mediaType data)]
                  ++ (if str_empty filename then [] else [("title", JStr filename)])))
  end.

Definition role_text (r : MessageRole) : string := match r with UserMsg => "user" | AssistantMsg => "assistant" | SystemMsg => "system" end.
Definition text_role (s : string) : MessageRole :=
  if String.eqb s "user" then UserMsg else if String.eqb s "assistant" then AssistantMsg else SystemMsg.
Definition message (m : Message) : option json :=
  blocks ← mapM block (Content m);
  Some (jobj [("role", JStr (role_text (Role m))); ("content", JArr blocks)]).
Definition tool (t : ToolSpec) : option json :=
  schema ← raw (ts_InputSchema t);
  Some (jobj [("name", JStr (ts_Name t)); ("description", JStr (ts_Description t)); ("input_schema", schema)]).

(** Claude 5.0 to 5.4 need thinking disabled. *)
Definition thinking_disabled (modelID : string) : bool :=
  match ModelId.parseModelID modelID with
  | Some p => (ModelId.major p =? 5) && (ModelId.minor p <? 5)
  | None => false
  end.

Definition buildAnthropicPayload (req : request) (cfg : Config) (modelID : string) : option json :=
  messages ← mapM message (Messages (base req));
  tools ← mapM tool (Tools (base req));
  let opt (c : bool) (f : string * json) := if c then [f] else [] in
  Some (jobj (
    [("anthropic_version", JStr (AnthropicVersion cfg));
     ("max_tokens", JNum (if 0 <? req_MaxTokens req then req_MaxTokens req else MaxTokens cfg));
     ("messages", match messages with [] => JNull | l => JArr l end)]
    ++ match req_Temperature req with Some t => [("temperature", t)] | None => [] end
    ++ opt (negb (str_empty (System (base req)))) ("system", JStr (System (base req)))
    ++ match tools with [] => [] | l => [("tools", JArr l)] end
    ++ opt (negb (str_empty (ToolChoiceName req)))
         ("tool_choice", jobj [("type", JStr "tool"); ("name", JStr (ToolChoiceName req))])
    ++ opt (thinking_disabled modelID) ("thinking", jobj [("type", JStr "disabled")])
    ++ match req_Stop req with [] => [] | l => [("stop_sequences", JArr (List.map JStr l))] end)).

(** *** Reading an envelope back *)
Definition read_block (v : json) : option ContentBlock :=
  let m := as_obj (Some v) in
  let str k := match m !! k with Some (JStr s) => Some s | _ => None end in
  let source := as_obj (m !! "source") in
  ty ← str "type";
  if String.eqb ty "text" then t ← str "text"; Some (BlockText t)
  else if String.eqb ty "tool_use" then
    id ← str "id"; name ← str "name"; input ← m !! "input"; Some (BlockToolUse id name (marshal input))
  else if String.eqb ty "tool_result" then
    id ← str "tool_use_id";
    t ← match m !! "content" with Some (JArr [c]) => Some (as_str (as_obj (Some c) !! "text")) | _ => None end;
    Some (BlockToolResult id t (as_bool (m !! "is_error")))
  else
    data ← base64_decode (as_str (source !! "data"));
    let mediaType := as_str (source !! "media_type") in
    if String.eqb ty "image" then Some (BlockImage mediaType "" data)
    else Some (BlockDocument mediaType (as_str (m !! "title")) data).
Definition read_message (v : json) : option Message :=
  let m := as_obj (Some v) in
  blocks ← mapM read_block (as_arr (m !! "content"));
  Some (mkMessage (text_role (as_str (m !! "role"))) blocks).
Definition read_messages (env : json) : option (list Message) :=
  mapM read_message (as_arr (as_obj (Some env) !! "messages")).

(** What an envelope keeps of a block: everything but the name of an image; an empty
    tool input reads as the empty object, an empty result as an empty JSON string. *)
Definition kept (b : ContentBlock) : ContentBlock :=
  match b with
  | BlockToolUse id name input => BlockToolUse id name (if str_empty input then "{}" else marshal (default JNull (raw input)))
  | BlockToolResult id result isError => BlockToolResult id (if str_empty result then dquote +:+ dquote else result) isError
  | BlockImage mediaType _ data => BlockImage mediaType "" data
  | b => b
  end.

(** Every raw input of a request is JSON. *)
Definition raw_ok (b : ContentBlock) : Prop :=
  match b with BlockToolUse _ _ input => input = "" \/ is_Some (raw input) | _ => True end.

Lemma block_read b : raw_ok b -> exists v, block b = Some v /\ read_block v = Some (kept b).
Proof using.
  intros Hr. destruct b as [t|id name input|id result isError|mt fn data|mt fn data]; cbn [block kept].
  - eexists. split; reflexivity.
  - cbn in Hr. destruct (str_empty input) eqn:Ei.
    + eexists. split; reflexivity.
    + destruct Hr as [->|[v Hv]]; [done|]. rewrite Hv. eexists. split; reflexivity.
  - eexists. split; [reflexivity|]. by destruct isError.
  - eexists. split; [reflexivity|]. change ((d ← base64_decode (base64_encode data); Some (BlockImage mt "" d)) = Some (BlockImage mt "" data)).
    by rewrite base64_roundtrip.
  - eexists. split; [reflexivity|]. destruct (str_empty fn) eqn:Ef.
    + apply str_empty_true in Ef as ->.
      change ((d ← base64_decode (base64_encode data); Some (BlockDocument mt "" d)) = Some (BlockDocument mt "" data)).
      by rewrite base64_roundtrip.
    + change ((d ← base64_decode (base64_encode data); Some (BlockDocument mt fn d)) = Some (BlockDocument mt fn data)).
      by rewrite base64_roundtrip.
Qed.

Lemma mapM_exists {A B} (f : A -> option B) (P : A -> B -> Prop) l :
  Forall (fun x => exists y, f x = Some y /\ P x y) l -> exists k, mapM f l = Some k /\ Forall2 P l k.
Proof using.
  induction 1 as [|x l (y & Hy & Hp) _ (k & Hk & Hf)]; [by exists []|].
  exists (y :: k). simpl. rewrite Hy. simpl. rewrite Hk. split; [done|by constructor].
Qed.
Lemma mapM_read {A B} (f : B -> option A) (g : A -> A) (l : list A) (k : list B) :
  Forall2 (fun x y => f y = Some (g x)) l k -> mapM f k = Some (List.map g l).
Proof using. induction 1 as [|x y l k H _ IH]; [done|]. simpl. rewrite H. simpl. by rewrite IH. Qed.

Definition kept_message (m : Message) : Message := mkMessage (Role m) (List.map kept (Content m)).
Lemma message_read m : Forall raw_ok (Content m) -> exists v, message m = Some v /\ read_message v = Some (kept_message m).
Proof using.
  intros H. destruct (mapM_exists block (fun b v => read_block v = Some (kept b)) (Content m)) as (bs & Hb & Hr).
  { eapply List.Forall_impl; [|exact H]. intros b. apply block_read. }
  unfold message. rewrite Hb. eexists. split; [reflexivity|].
  change ((blocks ← mapM read_block bs; Some (mkMessage (text_role (role_text (Role m))) blocks)) = Some (kept_message m)).
  rewrite (mapM_read _ _ _ _ Hr). simpl. by destruct m as [[] ?].
Qed.

(** Fields of an envelope. *)
Lemma envelope_messages req cfg modelID env :
  buildAnthropicPayload req cfg modelID = Some env ->
  exists msgs, mapM message (Messages (base req)) = Some msgs
    /\ as_arr (as_obj (Some env) !! "messages") = msgs
    /\ as_obj (Some env) !! "thinking" = (if thinking_disabled modelID then Some (jobj [("type", JStr "disabled")]) else None).
Proof using.
  unfold buildAnthropicPayload. destruct (mapM message _) as [msgs|]; simpl; [|done].
  destruct (mapM tool _) as [tools|]; simpl; [|done]. intros [= <-]. exists msgs. split; [done|].
  destruct msgs, (req_Temperature req), (str_empty (System (base req))), tools, (str_empty (ToolChoiceName req)),
    (thinking_disabled modelID), (req_Stop req); split; reflexivity.
Qed.

(** A request whose raw parts are JSON always has an envelope, and the conversation can
    be read back from it: no message or block is dropped, reordered or altered, whatever
    the attachments' bytes; thinking is disabled exactly for the models that need it. *)
Theorem payload_reads_back req cfg modelID :
  Forall (fun m => Forall raw_ok (Content m)) (Messages (base req)) ->
  Forall (fun t => is_Some (raw (ts_InputSchema t))) (Tools (base req)) ->
  exists env, buildAnthropicPayload req cfg modelID = Some env
    /\ read_messages env = Some (List.map kept_message (Messages (base req)))
    /\ (is_Some (as_obj (Some env) !! "thinking") <-> thinking_disabled modelID = true).
Proof using.
  intros Hm Ht. destruct (mapM_exists message (fun m v => read_message v = Some (kept_message m)) (Messages (base req))) as (msgs & Hb & Hr).
  { eapply List.Forall_impl; [|exact Hm]. intros m. apply message_read. }
  destruct (mapM_exists tool (fun _ _ => True) (Tools (base req))) as (tools & Hb' & _).
  { eapply List.Forall_impl; [|exact Ht]. intros t [v Hv]. unfold tool. rewrite Hv. by eexists. }
  destruct (buildAnthropicPayload req cfg modelID) as [env|] eqn:E.
  - exists env. split; [done|]. apply envelope_messages in E as (msgs' & Hb2 & Hmsg & Hth).
    rewrite Hb in Hb2. injection Hb2 as <-. unfold read_messages. rewrite Hmsg, (mapM_read _ _ _ _ Hr), Hth.
    split; [done|]. destruct (thinking_disabled modelID); split; intros H; solve [done | by eexists | by destruct H].
  - unfold buildAnthropicPayload in E. rewrite Hb in E. simpl in E. by rewrite Hb' in E.
Qed.
End payload.
End Payload.

(** ** stream.go: the events of a response *)
Module Chunks.

(** The tool calls under way, by content block, and what the timing line reports. *)
Record anthropicStats := mkStats {
  hasUsage : bool;
  inputTokens : Z;
  outputTokens : Z;
  stop : string;
}.
Record decoder := mkDecoder {
  accum : gmap Z LLMToolUse;
  stats : anthropicStats;
}.

(** A struct field that is itself a struct, a string or a number. *)
Definition sub (k : string) (m : gmap string json) : option (gmap string json) := dec_struct (m !! k).
Definition str (k : string) (m : gmap string json) : option string := dec_str (m !! k).
Definition int (k : string) (m : gmap string json) : option Z := default 0 <$> dec_int (m !! k).

Definition dec_start (m : gmap string json) : option (Z * string * LLMToolUse) :=
  _ ← str "type" m; i ← int "index" m; b ← sub "content_block" m;
  ty ← str "type" b; id ← str "id" b; name ← str "name" b;
  Some (i, ty, mkToolUse id name "").
Definition dec_delta (m : gmap string json) : option (Z * string * string * string) :=
  i ← int "index" m; d ← sub "delta" m;
  ty ← str "type" d; text ← str "text" d; partial ← str "partial_json" d;
  Some (i, ty, text, partial).
Definition dec_message_delta (m : gmap string json) : option (string * Z) :=
  _ ← str "type" m; d ← sub "delta" m; reason ← str "stop_reason" d;
  u ← sub "usage" m; n ← int "output_tokens" u;
  Some (reason, n).
Definition dec_message_start (m : gmap string json) : Z :=
  default 0 (msg ← sub "message" m; u ← sub "usage" msg; int "input_tokens" u).

Definition set_accum (a : gmap Z LLMToolUse) (d : decoder) : decoder := mkDecoder a (stats d).
Definition set_stats (s : anthropicStats) (d : decoder) : decoder := mkDecoder (accum d) s.

Definition decode_error : string := "decode".

(** [handleAnthropicChunkStats] on one chunk, [None] when it is not JSON: the events it
    emits and the decoder after it. *)
Definition handleAnthropicChunk (chunk : option json) (d : decoder) : res string (list LLMEvent * decoder) :=
  let! m := ok_or decode_error (v ← chunk; dec_struct (Some v)) in
  let t := default "" (dec_str (m !! "type")) in
  if String.eqb t "message_start" then
    Ok ([], set_stats (mkStats true (dec_message_start m) (outputTokens (stats d)) (stop (stats d))) d)
  else if String.eqb t "content_block_start" then
    let! v := ok_or decode_error (dec_start m) in
    let '(i, ty, tu) := v in
    if String.eqb ty "tool_use" then Ok ([LLMToolUseStart], set_accum (<[i := tu]> (accum d)) d) else Ok ([], d)
  else if String.eqb t "content_block_delta" then
    let! v := ok_or decode_error (dec_delta m) in
    let '(i, ty, text, partial) := v in
    if String.eqb ty "text_delta" then Ok ([LLMTextDelta text], d)
    else if String.eqb ty "input_json_delta" then
      match accum d !! i with
      | Some tu => Ok ([LLMToolUseDelta],
          set_accum (<[i := mkToolUse (tu_ID tu) (tu_Name tu) (tu_InputJSON tu +:+ partial)]> (accum d)) d)
      | None => Ok ([], d)
      end
    else Ok ([], d)
  else if String.eqb t "content_block_stop" then
    let! i := ok_or decode_error (int "index" m) in
    match accum d !! i with
    | Some tu => Ok ([LLMToolUseStop tu], set_accum (delete i (accum d)) d)
    | None => Ok ([], d)
    end
  else if String.eqb t "message_delta" then
    let! v := ok_or decode_error (dec_message_delta m) in
    let '(reason, n) := v in
    let s := stats d in
    let s := mkStats (hasUsage s) (inputTokens s) (outputTokens s) (if str_empty reason then stop s else reason) in
    let s := if 0 <? n then mkStats true (inputTokens s) n (stop s) else s in
    Ok (if str_empty reason then [] else [LLMMessageStop reason], set_stats s d)
  else Ok ([], d).

(** What the provider's event stream delivers: chunks, events of another kind, and the
    moment the request's context is found done. *)
Inductive item := Chunk (v : option json) | Other (kind : string) | CtxDone (err : string).

(** The loop over the stream: events, the error that ended it, the decoder. *)
Fixpoint read_items (items : list item) (d : decoder) : list LLMEvent * option string * decoder :=
  match items with
  | [] => ([], None, d)
  | CtxDone e :: _ => ([], Some e, d)
  | Other kind :: _ => ([LLMError (Some (Retry.EPlain ("ai/bedrock: stream error: " +:+ kind)))], Some ("bedrock stream: " +:+ kind), d)
  | Chunk v :: items =>
      match handleAnthropicChunk v d with
      | Err e => ([LLMError (Some (Retry.EPlain e))], Some e, d)
      | Ok (evs, d) => let '(l, err, d) := read_items items d in (evs ++ l, err, d)
      end
  end.
Definition fresh : decoder := mkDecoder ∅ (mkStats false 0 0 "").

(** *** What a well-formed response says *)
Inductive block :=
| SText (deltas : list string)
| STool (id name : string) (pieces : list string).

Definition chunk (ty : string) (fields : list (string * json)) : item := Chunk (Some (jobj (("type", JStr ty) :: fields))).
Definition delta_chunk (i : Z) (ty field text : string) : item :=
  chunk "content_block_delta" [("index", JNum i); ("delta", jobj [("type", JStr ty); (field, JStr text)])].
Definition block_items (i : Z) (b : block) : list item :=
  match b with
  | SText deltas =>
      [chunk "content_block_start" [("index", JNum i); ("content_block", jobj [("type", JStr "text"); ("text", JStr "")])]]
      ++ List.map (delta_chunk i "text_delta" "text") deltas
  | STool id name pieces =>
      [chunk "content_block_start" [("index", JNum i);
         ("content_block", jobj [("type", JStr "tool_use"); ("id", JStr id); ("name", JStr name); ("input", JObj ∅)])]]
      ++ List.map (delta_chunk i "input_json_delta" "partial_json") pieces
  end ++ [chunk "content_block_stop" [("index", JNum i)]].
Definition block_events (b : block) : list LLMEvent :=
  match b with
  | SText deltas => List.map LLMTextDelta deltas
  | STool id name pieces =>
      LLMToolUseStart :: List.map (fun _ => LLMToolUseDelta) pieces ++ [LLMToolUseStop (mkToolUse id name (String.concat "" pieces))]
  end.
Fixpoint blocks_items (i : Z) (bs : list block) : list item :=
  match bs with [] => [] | b :: bs => block_items i b ++ blocks_items (i + 1) bs end.
Definition response (inTokens outTokens : Z) (bs : list block) (reason : string) : list item :=
  [chunk "message_start" [("message", jobj [("usage", jobj [("input_tokens", JNum inTokens)])])]]
  ++ blocks_items 0 bs
  ++ [chunk "message_delta" [("delta", jobj [("stop_reason", JStr reason)]); ("usage", jobj [("output_tokens", JNum outTokens)])];
      chunk "message_stop" []].

Lemma read_app l1 l2 d :
  read_items (l1 ++ l2) d =
  match read_items l1 d with
  | (evs, None, d1) => let '(evs2, err, d2) := read_items l2 d1 in (evs ++ evs2, err, d2)
  | r => r
  end.
Proof.
  revert d. induction l1 as [|x l1 IH]; intros d; [simpl; by destruct (read_items l2 d) as [[? ?] ?]|].
  cbn [app read_items]. destruct x as [v|k|e]; [|done|done].
  destruct (handleAnthropicChunk v d) as [[evs d1]|]; [|done]. rewrite IH. destruct (read_items l1 d1) as [[evs1 [err|]] d2]; [done|].
  destruct (read_items l2 d2) as [[evs2 err] d3]. by rewrite app_assoc.
Qed.

Lemma int_index i : int64_range i -> dec_int (Some (JNum i)) = Some (Some i).
Proof. intros H. unfold dec_int. by rewrite decide_True. Qed.

(** Reading the fields of an object written out. *)
Lemma lookup_field k v l k' :
  (list_to_map ((k, v) :: l) : gmap string json) !! k' = if String.eqb k k' then Some v else (list_to_map l : gmap string json) !! k'.
Proof.
  cbn [list_to_map foldr]. destruct (String.eqb_spec k k') as [->|Hn]; cbn; [by rewrite lookup_insert_eq|by rewrite lookup_insert_ne].
Qed.
Lemma lookup_no_field k' : (list_to_map [] : gmap string json) !! k' = None.
Proof. apply lookup_empty. Qed.

Ltac closed_eqb :=
  match goal with
  | |- context [String.eqb ?a ?b] =>
      let r := eval vm_compute in (String.eqb a b) in
      lazymatch r with true => change (String.eqb a b) with true | false => change (String.eqb a b) with false end
  end.
Ltac run_chunk :=
  unfold handleAnthropicChunk, dec_start, dec_delta, dec_message_delta, dec_message_start, int, sub, str, jobj;
  cbn [mbind option_bind dec_struct dec_str ok_or res_bind default from_option id fmap option_fmap option_map];
  repeat (first [rewrite lookup_field|rewrite lookup_no_field|closed_eqb|rewrite int_index by assumption];
          cbn [mbind option_bind dec_struct dec_str ok_or res_bind default from_option id fmap option_fmap option_map]).

Lemma text_deltas i deltas d : int64_range i ->
  read_items (List.map (delta_chunk i "text_delta" "text") deltas) d = (List.map LLMTextDelta deltas, None, d).
Proof.
  intros Hi. induction deltas as [|t deltas IH]; [done|]. cbn [List.map read_items delta_chunk chunk].
  assert (handleAnthropicChunk (Some (jobj [("type", JStr "content_block_delta"); ("index", JNum i);
    ("delta", jobj [("type", JStr "text_delta"); ("text", JStr t)])])) d = Ok ([LLMTextDelta t], d)) as -> by (run_chunk; done).
  by rewrite IH.
Qed.

Lemma tool_deltas i pieces d tu : int64_range i -> accum d !! i = Some tu ->
  read_items (List.map (delta_chunk i "input_json_delta" "partial_json") pieces) d
  = (List.map (fun _ => LLMToolUseDelta) pieces, None,
     set_accum (<[i := mkToolUse (tu_ID tu) (tu_Name tu) (tu_InputJSON tu +:+ String.concat "" pieces)]> (accum d)) d).
Proof.
  intros Hi. revert d tu. induction pieces as [|p pieces IH]; intros d tu Hd.
  { simpl. rewrite str_app_nil_r. destruct tu, d as [a s]. simpl in *. unfold set_accum. simpl. by rewrite insert_id. }
  cbn [List.map read_items delta_chunk chunk].
  assert (handleAnthropicChunk (Some (jobj [("type", JStr "content_block_delta"); ("index", JNum i);
    ("delta", jobj [("type", JStr "input_json_delta"); ("partial_json", JStr p)])])) d
    = Ok ([LLMToolUseDelta], set_accum (<[i := mkToolUse (tu_ID tu) (tu_Name tu) (tu_InputJSON tu +:+ p)]> (accum d)) d)) as ->
    by (run_chunk; by rewrite Hd).
  rewrite (IH _ (mkToolUse (tu_ID tu) (tu_Name tu) (tu_InputJSON tu +:+ p))) by (simpl; by rewrite lookup_insert_eq).
  cbn [app tu_ID tu_Name tu_InputJSON]. unfold set_accum. cbn [accum stats]. rewrite insert_insert_eq, str_app_assoc.
  by rewrite Scan.concat_nil_cons.
Qed.

Lemma streamed_block_read i b d : int64_range i -> accum d !! i = None ->
  exists d', read_items (block_items i b) d = (block_events b, None, d') /\ accum d' = accum d /\ stats d' = stats d.
Proof.
  intros Hi Hd. destruct b as [deltas|id name pieces]; unfold block_items, block_events; rewrite !read_app.
  - cbn [read_items chunk].
    assert (handleAnthropicChunk (Some (jobj [("type", JStr "content_block_start"); ("index", JNum i);
      ("content_block", jobj [("type", JStr "text"); ("text", JStr "")])])) d = Ok ([], d)) as -> by (run_chunk; done).
    cbn [app]. rewrite text_deltas by done.
    assert (handleAnthropicChunk (Some (jobj [("type", JStr "content_block_stop"); ("index", JNum i)])) d = Ok ([], d)) as ->
      by (run_chunk; by rewrite Hd).
    exists d. by rewrite app_nil_r.
  - cbn [read_items chunk]. set (tu := mkToolUse id name "").
    assert (handleAnthropicChunk (Some (jobj [("type", JStr "content_block_start"); ("index", JNum i);
      ("content_block", jobj [("type", JStr "tool_use"); ("id", JStr id); ("name", JStr name); ("input", JObj ∅)])])) d
      = Ok ([LLMToolUseStart], set_accum (<[i := tu]> (accum d)) d)) as -> by (run_chunk; done).
    rewrite (tool_deltas i pieces (set_accum (<[i := tu]> (accum d)) d) tu Hi) by (simpl; by rewrite lookup_insert_eq).
    cbn [tu tu_ID tu_Name tu_InputJSON]. unfold set_accum. cbn [accum stats]. rewrite insert_insert_eq.
    set (full := mkToolUse id name _). set (d1 := mkDecoder (<[i := full]> (accum d)) (stats d)).
    assert (handleAnthropicChunk (Some (jobj [("type", JStr "content_block_stop"); ("index", JNum i)])) d1
      = Ok ([LLMToolUseStop full], set_accum (delete i (accum d1)) d1)) as ->
      by (run_chunk; unfold d1; cbn [accum]; by rewrite lookup_insert_eq).
    eexists. split; [by rewrite app_nil_r, <- app_assoc|]. cbn. split; [|done]. by rewrite delete_insert_id.
Qed.

Lemma blocks_read i bs d : 0 <= i -> i + Z.of_nat (List.length bs) < 2 ^ 63 -> accum d = ∅ ->
  exists d', read_items (blocks_items i bs) d = (List.concat (List.map block_events bs), None, d') /\ accum d' = ∅ /\ stats d' = stats d.
Proof.
  revert i d. induction bs as [|b bs IH]; intros i d Hi Hn Hd; [by exists d|]. cbn [blocks_items List.length] in *.
  destruct (streamed_block_read i b d) as (d1 & H1 & Ha & Hs); [unfold int64_range; lia|by rewrite Hd|].
  destruct (IH (i + 1) d1) as (d2 & H2 & Ha2 & Hs2); [lia|lia|congruence|]. exists d2.
  rewrite read_app, H1, H2. split_and!; [done|done|congruence].
Qed.

(** A response is decoded into what it says: the text deltas in order, every tool call
    once, with its input put together from its pieces, the stop reason last, and the
    token counts; nothing is left under way. *)
Lemma response_read inTokens outTokens bs reason :
  int64_range inTokens -> int64_range outTokens -> Z.of_nat (List.length bs) < 2 ^ 63 ->
  let '(evs, err, d) := read_items (response inTokens outTokens bs reason) fresh in
  evs = List.concat (List.map block_events bs) ++ (if str_empty reason then [] else [LLMMessageStop reason])
  /\ err = None /\ accum d = ∅
  /\ stats d = mkStats true inTokens (if 0 <? outTokens then outTokens else 0) reason.
Proof.
  intros Hin Hout Hn. unfold response. rewrite read_app. cbn [read_items chunk].
  assert (handleAnthropicChunk (Some (jobj [("type", JStr "message_start");
    ("message", jobj [("usage", jobj [("input_tokens", JNum inTokens)])])])) fresh
    = Ok ([], mkDecoder ∅ (mkStats true inTokens 0 ""))) as ->.
  { by run_chunk. }
  cbn [app]. destruct (blocks_read 0 bs (mkDecoder ∅ (mkStats true inTokens 0 ""))) as (d1 & H1 & Ha & Hs); [lia|lia|done|].
  rewrite read_app, H1. cbn [read_items chunk].
  assert (handleAnthropicChunk (Some (jobj [("type", JStr "message_delta"); ("delta", jobj [("stop_reason", JStr reason)]);
    ("usage", jobj [("output_tokens", JNum outTokens)])])) d1
    = Ok (if str_empty reason then [] else [LLMMessageStop reason],
          mkDecoder ∅ (mkStats true inTokens (if 0 <? outTokens then outTokens else 0) reason))) as ->.
  { run_chunk. destruct d1 as [a s]. cbn in Ha, Hs. subst a s. cbn -[str_empty Z.ltb].
    destruct (str_empty reason) eqn:Er; [apply str_empty_true in Er as ->|]; by destruct (0 <? outTokens). }
  match goal with |- context [handleAnthropicChunk (Some (jobj [("type", JStr "message_stop")])) ?d] =>
    assert (handleAnthropicChunk (Some (jobj [("type", JStr "message_stop")])) d = Ok ([], d)) as -> by (run_chunk; done) end.
  cbn [app]. rewrite ?app_nil_r. by split_and!.
Qed.
(** The items of a response end it with a reported error, or with none. *)
Lemma read_items_error items d evs err d' :
  read_items items d = (evs, err, d') ->
  match err with
  | Some e => (exists pre v, evs = pre ++ [LLMError v]) \/ CtxDone e ∈ items
  | None => True
  end.
Proof.
  revert d evs. induction items as [|x items IH]; intros d evs H; cbn [read_items] in H; [by injection H as <- <- <-|].
  destruct x as [v|k|e].
  - destruct (handleAnthropicChunk v d) as [[evs1 d1]|e].
    + destruct (read_items items d1) as [[l er] d2] eqn:E. injection H as <- <- <-. specialize (IH _ _ E).
      destruct er as [e|]; [|done]. destruct IH as [(pre & v' & ->)|IH]; [left|right; set_solver].
      exists (evs1 ++ pre), v'. by rewrite app_assoc.
    + injection H as <- <- <-. left. by exists [], (Some (Retry.EPlain e)).
  - injection H as <- <- <-. left. by eexists [], _.
  - injection H as <- <- <-. right. set_solver.
Qed.

End Chunks.

(** ** stream.go: one request, and the updater's probe *)
Module Stream.
Import Node Payload Chunks.

(** What [InvokeModelWithResponseStream] fails with: its text and API error code. *)
Record invoke_error := mkInvokeError { ie_text : string; ie_code : option string }.
Definition isModelUnavailable (e : invoke_error) : bool :=
  match ie_code e with
  | Some c => String.eqb c "ValidationException" || String.eqb c "ResourceNotFoundException"
  | None => false
  end.

(** A response that opened: its items and the error the stream reports at its end. *)
Definition opened : Type := list item * option string.

Record outcome := mkOutcome {
  invoked : list (string * json);      (* model and payload of each invocation *)
  emitted : list LLMEvent;
  result : option string;
  timing : anthropicStats;
}.

Section stream.
Variable raw : string -> option json.
Variable cfg : Config.
Variable InvokeModel : string -> json -> res invoke_error opened.

Definition payload_error : string := "payload".
Definition llm_error (text : string) : LLMEvent := LLMError (Some (Retry.EPlain text)).

(** From the invocation's result on. *)
Definition consume (calls : list (string * json)) (r : res invoke_error opened) : outcome :=
  match r with
  | Err e => mkOutcome calls [llm_error (ie_text e)] (Some (ie_text e)) (stats fresh)
  | Ok (items, stream_err) =>
      let '(evs, err, d) := read_items items fresh in
      match err with
      | Some e => mkOutcome calls evs (Some e) (stats d)
      | None =>
          match stream_err with
          | Some e => mkOutcome calls (evs ++ [llm_error e]) (Some e) (stats d)
          | None => mkOutcome calls evs None (stats d)
          end
      end
  end.

(** [Stream], for the model in use when it starts and the fallback there is when the
    invocation fails. *)
Definition Stream (model lastKnownGood : string) (req : request) : outcome :=
  match buildAnthropicPayload raw req cfg model with
  | None => mkOutcome [] [] (Some payload_error) (stats fresh)
  | Some p =>
      let first := InvokeModel model p in
      match first with
      | Err e =>
          if isModelUnavailable e && negb (str_empty lastKnownGood) && negb (String.eqb lastKnownGood model) then
            match buildAnthropicPayload raw req cfg lastKnownGood with
            | None => consume [(model, p)] first
            | Some q => consume [(model, p); (lastKnownGood, q)] (InvokeModel lastKnownGood q)
            end
          else consume [(model, p)] first
      | Ok _ => consume [(model, p)] first
      end
  end.

(** *** The probe of a candidate (autoupdate.go) *)
Definition probeToolName : string := "echo".
Definition probe_request (schema : string) : request :=
  mkRequest (Agent.mkRequest ("Connectivity check. Call the echo tool with value " +:+ dquote +:+ "pong" +:+ dquote +:+ ".")
               [mkMessage UserMsg [BlockText "ping"]]
               [mkToolSpec probeToolName "Echoes back the provided value." schema])
    128 None [] probeToolName.

(** [verifyToolProbe]: no error *)
Fixpoint verifyToolProbe (events : list LLMEvent) : bool :=
  match events with
  | [] => false
  | LLMToolUseStop t :: _ =>
      String.eqb (tu_Name t) probeToolName && negb (str_empty (tu_InputJSON t))
      && match raw (tu_InputJSON t) with Some _ => true | None => false end
  | _ :: events => verifyToolProbe events
  end.

(** [collectProbeEvents] stops at the first event that is not a chunk. *)
Definition collectProbeEvents (r : opened) : res string (list LLMEvent) :=
  let '(evs, err, _) := read_items r.1 fresh in
  match err with
  | Some e => Err e
  | None => match r.2 with Some e => Err e | None => Ok evs end
  end.

Definition validateModel (schema modelID : string) : option Updater.probe_error :=
  match buildAnthropicPayload raw (probe_request schema) cfg modelID with
  | None => Some (Updater.mkProbeError payload_error false false)
  | Some p =>
      match InvokeModel modelID p with
      | Err e => Some (Updater.mkProbeError (ie_text e) (isModelUnavailable e) false)
      | Ok r =>
          match collectProbeEvents r with
          | Err e => Some (Updater.mkProbeError e false false)
          | Ok evs => if verifyToolProbe evs then None else Some (Updater.mkProbeError "probe contract violation" false true)
          end
      end
  end.

(** *** Properties *)

(** What an outcome says of its last invocation: its events, then its error. *)
Definition reported (o : outcome) : Prop :=
  exists m q, list_basics.list.last (invoked o) = Some (m, q) /\
    match InvokeModel m q with
    | Err e => emitted o = [llm_error (ie_text e)] /\ result o = Some (ie_text e)
    | Ok (items, stream_err) =>
        let '(evs, err, d) := read_items items fresh in
        timing o = stats d
        /\ match err, stream_err with
           | Some e, _ => emitted o = evs /\ result o = Some e
                          /\ ((exists pre v, evs = pre ++ [LLMError v]) \/ CtxDone e ∈ items)
           | None, Some e => emitted o = evs ++ [llm_error e] /\ result o = Some e
           | None, None => emitted o = evs /\ result o = None
           end
    end.
(** The invocations of a request: one, or a second of the fallback model. *)
Definition invocations_ok (model lkg : string) (req : request) (p : json) (o : outcome) : Prop :=
  invoked o = [(model, p)]
  \/ exists e q, invoked o = [(model, p); (lkg, q)] /\ InvokeModel model p = Err e /\ isModelUnavailable e = true
       /\ lkg <> "" /\ lkg <> model /\ buildAnthropicPayload raw req cfg lkg = Some q.

Lemma consume_reported calls m q :
  list_basics.list.last calls = Some (m, q) -> invoked (consume calls (InvokeModel m q)) = calls /\ reported (consume calls (InvokeModel m q)).
Proof using All.
  intros Hl. assert (invoked (consume calls (InvokeModel m q)) = calls) as Hi.
  { unfold consume. destruct (InvokeModel m q) as [[items serr]|e]; [|done]. destruct (read_items items fresh) as [[evs [e|]] d]; [done|].
    by destruct serr. }
  split; [done|]. exists m, q. rewrite Hi. split; [done|]. unfold consume. destruct (InvokeModel m q) as [[items serr]|e]; [|done].
  destruct (read_items items fresh) as [[evs err] d] eqn:Er. pose proof (read_items_error _ _ _ _ _ Er) as He.
  destruct err as [e|]; [done|]. by destruct serr.
Qed.

(** C38: A request is made of the model in use, at most twice: the second time of the fallback
    model, with an envelope of its own, only when the first was refused because the model
    itself is gone and before anything was emitted; what is emitted is the decoding of
    the response of the last invocation, and a failure is reported by an event unless the
    request could not be built or its context is done. *)
Theorem stream_fallback model lkg req :
  let o := Stream model lkg req in
  match buildAnthropicPayload raw req cfg model with
  | None => invoked o = [] /\ emitted o = [] /\ result o = Some payload_error
  | Some p => invocations_ok model lkg req p o /\ reported o
  end.
Proof using All.
  intros o. unfold o, Stream. destruct (buildAnthropicPayload raw req cfg model) as [p|]; [|done].
  assert (forall calls m q, list_basics.list.last calls = Some (m, q) ->
    invocations_ok model lkg req p (mkOutcome calls [] None (stats fresh)) ->
    invocations_ok model lkg req p (consume calls (InvokeModel m q)) /\ reported (consume calls (InvokeModel m q))) as G.
  { intros calls m q Hl Hcalls. destruct (consume_reported calls m q Hl) as [Hi Hr]. split; [|done].
    unfold invocations_ok. by rewrite Hi. }
  assert (invocations_ok model lkg req p (consume [(model, p)] (InvokeModel model p))
          /\ reported (consume [(model, p)] (InvokeModel model p))) as G1 by (apply G; [done|by left]).
  destruct (InvokeModel model p) as [r|e] eqn:Ei; [done|].
  destruct (isModelUnavailable e) eqn:Eu; cbn [andb]; [|done]. destruct (str_empty lkg) eqn:El; cbn [negb andb]; [done|].
  destruct (String.eqb_spec lkg model) as [|Hne]; cbn [negb]; [done|].
  destruct (buildAnthropicPayload raw req cfg lkg) as [q|] eqn:Eq; [|done].
  apply G; [done|]. right. exists e, q. split_and!; try done. by apply str_empty_false.
Qed.

(** A complete response is told to the agent as it was given: each text delta, each tool
    call once with its whole input, and the stop reason, in order and without error. *)
Theorem response_decoded model lkg req p inTokens outTokens bs reason :
  buildAnthropicPayload raw req cfg model = Some p ->
  InvokeModel model p = Ok (response inTokens outTokens bs reason, None) ->
  int64_range inTokens -> int64_range outTokens -> Z.of_nat (List.length bs) < 2 ^ 63 ->
  let o := Stream model lkg req in
  emitted o = List.concat (List.map block_events bs) ++ (if str_empty reason then [] else [LLMMessageStop reason])
  /\ result o = None
  /\ timing o = mkStats true inTokens (if 0 <? outTokens then outTokens else 0) reason.
Proof using All.
  intros Hp Hi Hin Hout Hn. unfold Stream. rewrite Hp, Hi. unfold consume.
  pose proof (response_read inTokens outTokens bs reason Hin Hout Hn) as Hr.
  destruct (read_items _ fresh) as [[evs err] d]. destruct Hr as (-> & -> & _ & ->). by split_and!.
Qed.

(** A candidate passes the probe exactly when its response ends well and its first tool
    call is the probe's, with an input that is JSON. *)
Lemma validateModel_spec schema modelID p :
  buildAnthropicPayload raw (probe_request schema) cfg modelID = Some p ->
  validateModel schema modelID = None <->
  exists r evs, InvokeModel modelID p = Ok r /\ collectProbeEvents r = Ok evs
    /\ exists l t rest, evs = l ++ LLMToolUseStop t :: rest /\ Forall (fun e => forall t, e <> LLMToolUseStop t) l
         /\ tu_Name t = probeToolName /\ tu_InputJSON t <> "" /\ is_Some (raw (tu_InputJSON t)).
Proof using All.
  intros Hp. unfold validateModel. rewrite Hp.
  assert (forall evs, verifyToolProbe evs = true <-> exists l t rest, evs = l ++ LLMToolUseStop t :: rest
     /\ Forall (fun e => forall t, e <> LLMToolUseStop t) l
     /\ tu_Name t = probeToolName /\ tu_InputJSON t <> "" /\ is_Some (raw (tu_InputJSON t))) as Hv.
  { induction evs as [|e evs IH]; [split; [done|by intros ([] & ? & ? & ? & _)]|].
    assert ((exists t, e = LLMToolUseStop t) \/ forall t, e <> LLMToolUseStop t) as [[t ->]|He] by (destruct e; eauto).
    - simpl. rewrite !andb_true_iff, String.eqb_eq, negb_true_iff, str_empty_false. split.
      + intros [[H1 H2] H3]. exists [], t, evs. split_and!; try done. by destruct (raw _).
      + intros (l & t' & rest & Hl & Hf & H1 & H2 & [v H3]). destruct l as [|e l].
        * injection Hl as <- _. by rewrite H3.
        * injection Hl as <- _. apply Forall_cons_iff in Hf as [Hf _]. by destruct (Hf t).
    - assert (verifyToolProbe (e :: evs) = verifyToolProbe evs) as -> by (destruct e; try done; by destruct (He t)). rewrite IH. split.
      + intros (l & t & rest & -> & Hf & H). exists (e :: l), t, rest. split; [done|]. split; [by constructor|done].
      + intros (l & t & rest & Hl & Hf & H). destruct l as [|e' l]; [by injection Hl as -> _; destruct (He t)|].
        injection Hl as -> ->. apply Forall_cons_iff in Hf as [_ Hf]. by exists l, t, rest. }
  destruct (InvokeModel modelID p) as [r|e]; [|split; [done|by intros (? & ? & ? & _)]].
  destruct (collectProbeEvents r) as [evs|e] eqn:Er; [|split; [done|by intros (? & ? & [= <-] & H & _); rewrite Er in H]].
  destruct (verifyToolProbe evs) eqn:Ev.
  - split; [intros _|done]. exists r, evs. split_and!; [done|done|by apply Hv].
  - split; [done|]. intros (? & evs' & [= <-] & He & H). rewrite Er in He. injection He as <-. apply Hv in H. congruence.
Qed.
End stream.
End Stream.

Module BedrockExamples.
Import Node Payload Chunks Stream.

Definition raw : string -> option json := JsonText.Text.parse.
Definition cfg : Config := mkConfig "us.anthropic.claude-opus-5-1" "us-east-1" 4096 "bedrock-2023-05-31" None.
Definition ask : request :=
  Payload.mkRequest (Agent.mkRequest "sys" [mkMessage UserMsg [BlockText "hi"; BlockImage "image/png" "a.png" "xyz"];
                                    mkMessage AssistantMsg [BlockToolUse "t1" "f" ""]; mkMessage UserMsg [BlockToolResult "t1" "" true]]
                       [mkToolSpec "f" "d" "{}"]) 0 None [] "".
Definition answer : list item := response 10 5 [SText ["Hel"; "lo"]; STool "t1" "f" ["{"; "}"]] "tool_use".
(** The model in use is gone; its predecessor answers. *)
Definition invoke (m : string) (_ : json) : res invoke_error opened :=
  if String.eqb m "us.anthropic.claude-opus-5-1" then Err (mkInvokeError "gone" (Some "ResourceNotFoundException")) else Ok (answer, None).

Example bedrock_ex :
  let o := Stream raw cfg invoke "us.anthropic.claude-opus-5-1" "us.anthropic.claude-opus-4-7" ask in
  List.map fst (invoked o) = ["us.anthropic.claude-opus-5-1"; "us.anthropic.claude-opus-4-7"]
  /\ emitted o = [LLMTextDelta "Hel"; LLMTextDelta "lo"; LLMToolUseStart; LLMToolUseDelta; LLMToolUseDelta;
                  LLMToolUseStop (mkToolUse "t1" "f" "{}"); LLMMessageStop "tool_use"]
  /\ result o = None /\ stop (timing o) = "tool_use"
  /\ result (Stream raw cfg invoke "us.anthropic.claude-opus-5-1" "" ask) = Some "gone"
  /\ start cfg "" = ("us.anthropic.claude-opus-5-1", true) /\ start cfg " pinned " = ("pinned", false).
Proof. vm_compute. by split_and!. Qed.

(** A call without arguments has the empty text for its input, which is no JSON. *)
Example no_arguments_ex :
  (read_items (response 10 5 [STool "t1" "f" []] "tool_use") fresh).1.1
    = [LLMToolUseStart; LLMToolUseStop (mkToolUse "t1" "f" ""); LLMMessageStop "tool_use"]
  /\ raw "" = None.
Proof. vm_compute. by split. Qed.

Lemma ask_raw : Forall (fun m => Forall (raw_ok raw) (Content m)) (Messages (base ask))
  /\ Forall (fun t => is_Some (raw (ts_InputSchema t))) (Tools (base ask)).
Proof. split; [|constructor; [by eexists|constructor]]. repeat constructor. Defined.
Lemma payload_reads_back_witness :
  thinking_disabled "us.anthropic.claude-opus-5-1" = true /\
  exists env, buildAnthropicPayload raw ask cfg "us.anthropic.claude-opus-5-1" = Some env
    /\ read_messages env = Some (List.map (kept_message raw) (Messages (base ask)))
    /\ (is_Some (as_obj (Some env) !! "thinking") <-> thinking_disabled "us.anthropic.claude-opus-5-1" = true).
Proof.
  split; [vm_compute; reflexivity|].
  exact (payload_reads_back raw ask cfg "us.anthropic.claude-opus-5-1" (proj1 ask_raw) (proj2 ask_raw)).
Defined.

Lemma response_decoded_witness :
  exists p, buildAnthropicPayload raw ask cfg "m" = Some p
    /\ emitted (Stream raw cfg invoke "m" "" ask)
       = List.concat (List.map block_events [SText ["Hel"; "lo"]; STool "t1" "f" ["{"; "}"]]) ++ [LLMMessageStop "tool_use"].
Proof.
  destruct (buildAnthropicPayload raw ask cfg "m") as [p|] eqn:E; [|vm_compute in E; discriminate].
  exists p. split; [reflexivity|].
  apply (response_decoded raw cfg invoke "m" "" ask p 10 5 [SText ["Hel"; "lo"]; STool "t1" "f" ["{"; "}"]] "tool_use");
    [exact E|reflexivity|unfold int64_range; lia|unfold int64_range; lia|simpl; lia].
Defined.
End BedrockExamples.
