(* ===== verification/Fetch.v ===== *)
(** * The web-fetch tool (pkg/workflow/builtin/webfetch)

    - [Addr]: addresses and their text forms as package net reads them, and the check
      for addresses that are not public, against the list of address blocks it stands for;
    - [Strip]: the reduction of a page to text;
    - [Tool]: the guarded client with its redirects, and a call of the tool.

    Parsing and resolving of URLs, name resolution and the servers are parameters. *)

From S2P Require Import Prelude Json Scan Retry Walk.
From stdpp Require Import base tactics list strings gmap option.
From Stdlib Require Import ZArith Lia Ascii String Btauto.
Local Open Scope string_scope.
Local Open Scope list_scope.
Local Open Scope Z_scope.

(** ** Addresses *)
Module Addr.

(** [net.IP]: 4 or 16 bytes, most significant first. *)
Abbreviation IP := (list Z).

Definition v4_in_v6 : IP := replicate 10 0 ++ [255; 255].
Definition To4 (ip : IP) : option IP :=
  if (List.length ip =? 4)%nat then Some ip
  else if (List.length ip =? 16)%nat && bool_decide (take 12 ip = v4_in_v6) then Some (drop 12 ip)
  else None.
Definition To16 (ip : IP) : option IP :=
  match List.length ip with
  | 4%nat => Some (v4_in_v6 ++ ip)
  | 16%nat => Some ip
  | _ => None
  end.
Definition byte_at (ip : IP) (i : nat) : Z := nth i ip 0.
Definition is16 (ip : IP) : bool := (List.length ip =? 16)%nat.

(** [ip.Equal]: an IPv4 address and its IPv6 form are the same. *)
Definition IP_Equal (x y : IP) : bool := bool_decide (To16 x = To16 y).

Definition IPv6loopback : IP := replicate 15 0 ++ [1].
Definition IsLoopback (ip : IP) : bool :=
  match To4 ip with Some ip4 => byte_at ip4 0 =? 127 | None => IP_Equal ip IPv6loopback end.
Definition IsPrivate (ip : IP) : bool :=
  match To4 ip with
  | Some ip4 =>
      (byte_at ip4 0 =? 10)
      || ((byte_at ip4 0 =? 172) && (Z.land (byte_at ip4 1) 0xF0 =? 16))
      || ((byte_at ip4 0 =? 192) && (byte_at ip4 1 =? 168))
  | None => is16 ip && (Z.land (byte_at ip 0) 0xFE =? 0xFC)
  end.
Definition IsLinkLocalUnicast (ip : IP) : bool :=
  match To4 ip with
  | Some ip4 => (byte_at ip4 0 =? 169) && (byte_at ip4 1 =? 254)
  | None => is16 ip && (byte_at ip 0 =? 0xFE) && (Z.land (byte_at ip 1) 0xC0 =? 0x80)
  end.
Definition IsLinkLocalMulticast (ip : IP) : bool :=
  match To4 ip with
  | Some ip4 => (byte_at ip4 0 =? 224) && (byte_at ip4 1 =? 0) && (byte_at ip4 2 =? 0)
  | None => is16 ip && (byte_at ip 0 =? 0xFF) && (Z.land (byte_at ip 1) 0x0F =? 0x02)
  end.
Definition IsUnspecified (ip : IP) : bool := IP_Equal ip (replicate 4 0) || IP_Equal ip (replicate 16 0).
Definition IsMulticast (ip : IP) : bool :=
  match To4 ip with
  | Some ip4 => Z.land (byte_at ip4 0) 0xF0 =? 0xE0
  | None => is16 ip && (byte_at ip 0 =? 0xFF)
  end.

Definition isForbiddenIP (ip : IP) : bool :=
  if IsLoopback ip || IsPrivate ip || IsLinkLocalUnicast ip || IsLinkLocalMulticast ip || IsUnspecified ip || IsMulticast ip
  then true
  else if match To4 ip with Some v4 => (byte_at v4 0 =? 100) && (Z.land (byte_at v4 1) 0xC0 =? 64) | None => false end
  then true
  else match To16 ip, To4 ip with
       | Some v6, None => Z.land (byte_at v6 0) 0xFE =? 0xFC
       | _, _ => false
       end.

(** *** [net.ParseIP]: every address comes out in 16 bytes, a zone is refused *)
Definition dec_value (s : string) : Z :=
  foldl (fun acc c => acc * 10 + (Z.of_nat (nat_of_ascii c) - 48)) 0 (list_ascii_of_string s).
Definition parse_octet (s : string) : option Z :=
  if str_empty s || negb (str_all is_digit s) || (has_prefix "0" s && negb (String.eqb s "0")) then None
  else if 255 <? dec_value s then None else Some (dec_value s).
Definition parseIPv4 (s : string) : option IP :=
  match str_split "." s with
  | [a; b; c; d] => a' ← parse_octet a; b' ← parse_octet b; c' ← parse_octet c; d' ← parse_octet d; Some [a'; b'; c'; d']
  | _ => None
  end.

Definition hex_digit_value (c : ascii) : Z :=
  let n := Z.of_nat (nat_of_ascii c) in if is_digit c then n - 48 else if n <? 97 then n - 55 else n - 87.
Definition hex_value (s : string) : Z := foldl (fun acc c => acc * 16 + hex_digit_value c) 0 (list_ascii_of_string s).

(** The groups of an IPv6 address: [ip] the bytes read so far, [el] the position of the
    double colon.  At most eight groups are read. *)
Fixpoint parse_groups (fuel : nat) (s : string) (ip : IP) (el : option nat) : option (string * IP * option nat) :=
  match fuel with
  | O => Some (s, ip, el)
  | S fuel =>
      let '(digits, rest) := span is_hex s in
      if str_empty digits || (4 <? String.length digits)%nat then None
      else if has_prefix "." rest then
        if bool_decide (el = None) && negb (List.length ip =? 12)%nat then None
        else if (12 <? List.length ip)%nat then None
        else v4 ← parseIPv4 s; Some ("", ip ++ v4, el)
      else
        let n := hex_value digits in
        let ip := ip ++ [n / 256; n mod 256] in
        match rest with
        | EmptyString => Some ("", ip, el)
        | String c rest =>
            if negb (Ascii.eqb c ":") || str_empty rest then None
            else if has_prefix ":" rest then
              if bool_decide (el <> None) then None
              else
                let rest := str_drop 1 rest in
                if str_empty rest then Some ("", ip, Some (List.length ip))
                else parse_groups fuel rest ip (Some (List.length ip))
            else parse_groups fuel rest ip el
        end
  end.
Definition parseIPv6 (s : string) : option IP :=
  if has_prefix "::" s && (String.length s =? 2)%nat then Some (replicate 16 0)
  else
    '(rest, ip, el) ← (if has_prefix "::" s then parse_groups 8 (str_drop 2 s) [] (Some 0%nat) else parse_groups 8 s [] None);
    if negb (str_empty rest) then None
    else if (List.length ip <? 16)%nat then
      e ← el; Some (take e ip ++ replicate (16 - List.length ip) 0 ++ drop e ip)
    else if bool_decide (el <> None) then None
    else Some ip.

(** The first of [.], [:], [%] decides the form. *)
Fixpoint first_of (cs : string) (s : string) : option ascii :=
  match s with
  | EmptyString => None
  | String c s => if str_contains (String c "") cs then Some c else first_of cs s
  end.
Definition ParseIP (s : string) : option IP :=
  match first_of ".:%" s with
  | Some "."%char => v4 ← parseIPv4 s; Some (v4_in_v6 ++ v4)
  | Some ":"%char => if str_contains "%" s then None else parseIPv6 s
  | _ => None
  end.

(** *** [net.SplitHostPort], the host *)
Definition last_colon (s : string) : option nat :=
  foldl (fun acc ic => if Ascii.eqb ic.2 ":" then Some ic.1 else acc) None
    (zip (seq 0 (String.length s)) (list_ascii_of_string s)).
Definition SplitHostPort (hostport : string) : option string :=
  i ← last_colon hostport;
  if has_prefix "[" hostport then
    e ← String.index 0 "]" hostport;
    if negb (S e =? i)%nat then None
    else
      let host := substring 1 (e - 1) hostport in
      if str_contains "[" (str_drop 1 hostport) || str_contains "]" (str_drop (S e) hostport) then None else Some host
  else
    let host := substring 0 i hostport in
    if str_contains ":" host || str_contains "[" hostport || str_contains "]" hostport then None else Some host.

(** *** The address blocks it stands for *)

Definition is_ip (ip : IP) : Prop :=
  (List.length ip = 4 \/ List.length ip = 16)%nat /\ Forall (fun b => 0 <= b < 256) ip.

(** An address as a number, and membership in the block [net/len]: the first [len] bits
    agree. *)
Definition value (ip : IP) : Z := foldl (fun acc b => acc * 256 + b) 0 ip.
Definition width (ip : IP) : Z := 8 * Z.of_nat (List.length ip).
Definition in_block (ip : IP) (block : IP * Z) : Prop :=
  List.length ip = List.length block.1
  /\ value ip / 2 ^ (width ip - block.2) = value block.1 / 2 ^ (width ip - block.2).

(** An IPv4 address written in IPv6 form counts as the IPv4 address. *)
Definition plain (ip : IP) : IP := default ip (To4 ip).

Definition v6 (hd : list Z) : IP := hd ++ replicate (16 - List.length hd) 0.
Definition private_blocks : list (IP * Z) :=
  [([0; 0; 0; 0], 32); ([10; 0; 0; 0], 8); ([100; 64; 0; 0], 10); ([127; 0; 0; 0], 8); ([169; 254; 0; 0], 16);
   ([172; 16; 0; 0], 12); ([192; 168; 0; 0], 16); ([224; 0; 0; 0], 4);
   (v6 [], 128); (IPv6loopback, 128); (v6 [0xFC], 7); (v6 [0xFE; 0x80], 10); (v6 [0xFF], 8)].

Lemma foldl_value acc ip : foldl (fun acc b => acc * 256 + b) acc ip = acc * 256 ^ Z.of_nat (List.length ip) + value ip.
Proof.
  revert acc. induction ip as [|b ip IH]; intros acc.
  - unfold value. simpl. lia.
  - unfold value. cbn [foldl]. rewrite (IH (acc * 256 + b)), (IH (0 * 256 + b)).
    cbn [List.length]. rewrite Nat2Z.inj_succ, Z.pow_succ_r by lia. lia.
Qed.
Lemma value_cons b ip : value (b :: ip) = b * 256 ^ Z.of_nat (List.length ip) + value ip.
Proof. unfold value at 1. cbn [foldl]. rewrite foldl_value. lia. Qed.
Lemma value_bound ip : Forall (fun b => 0 <= b < 256) ip -> 0 <= value ip < 256 ^ Z.of_nat (List.length ip).
Proof.
  induction 1 as [|b ip Hb _ IH]; [unfold value; simpl; lia|].
  rewrite value_cons. cbn [List.length]. rewrite Nat2Z.inj_succ, Z.pow_succ_r by lia. nia.
Qed.

(** Dropping the last bytes. *)
Lemma value_top b ip k : Forall (fun b => 0 <= b < 256) ip ->
  k = 256 ^ Z.of_nat (List.length ip) -> value (b :: ip) / k = b.
Proof.
  intros H ->. rewrite value_cons. pose proof (value_bound ip H).
  rewrite Z.div_add_l by lia. rewrite Z.div_small by lia. lia.
Qed.
Lemma value_inj x y : List.length x = List.length y ->
  Forall (fun b => 0 <= b < 256) x -> Forall (fun b => 0 <= b < 256) y -> value x = value y -> x = y.
Proof.
  revert y. induction x as [|a x IH]; intros [|b y] Hl Hx Hy He; [done..|].
  injection Hl as Hl. apply Forall_cons_iff in Hx as [Ha Hx]. apply Forall_cons_iff in Hy as [Hb Hy].
  rewrite !value_cons, <- Hl in He. pose proof (value_bound x Hx). pose proof (value_bound y Hy) as Hv.
  rewrite <- Hl in Hv. assert (a = b) as -> by nia. f_equal. apply IH; try done. lia.
Qed.

(** A test on a byte is decided by looking at the 256 bytes. *)
Lemma byte_cases (f g : Z -> bool) (b : Z) :
  forallb (fun n => Bool.eqb (f (Z.of_nat n)) (g (Z.of_nat n))) (seq 0 256) = true -> 0 <= b < 256 -> f b = g b.
Proof.
  intros H Hb. rewrite forallb_forall in H. specialize (H (Z.to_nat b) (proj2 (in_seq 256 0 (Z.to_nat b)) ltac:(lia))).
  apply eqb_prop in H. by rewrite Z2Nat.id in H by lia.
Qed.

(** *** IPv4 *)
Ltac bytes H := repeat match type of H with Forall _ (_ :: _) => let B := fresh "B" in apply Forall_cons_iff in H as [B H] end.

Lemma forbidden4 a b c d : Forall (fun b => 0 <= b < 256) [a; b; c; d] ->
  isForbiddenIP [a; b; c; d]
  = ((a =? 10) || ((a =? 100) && (b / 64 =? 1)) || (a =? 127) || ((a =? 169) && (b =? 254)) || ((a =? 172) && (b / 16 =? 1))
     || ((a =? 192) && (b =? 168)) || (a / 16 =? 14) || bool_decide ([a; b; c; d] = [0; 0; 0; 0])).
Proof.
  intros H. bytes H.
  assert (Z.land b 0xF0 =? 16 = (b / 16 =? 1)) as E1 by (by apply (byte_cases (fun b => Z.land b 0xF0 =? 16) (fun b => b / 16 =? 1))).
  assert (Z.land b 0xC0 =? 64 = (b / 64 =? 1)) as E2 by (by apply (byte_cases (fun b => Z.land b 0xC0 =? 64) (fun b => b / 64 =? 1))).
  assert (Z.land a 0xF0 =? 0xE0 = (a / 16 =? 14)) as E3 by (by apply (byte_cases (fun b => Z.land b 0xF0 =? 0xE0) (fun b => b / 16 =? 14))).
  assert (IsUnspecified [a; b; c; d] = bool_decide ([a; b; c; d] = [0; 0; 0; 0])) as E4.
  { unfold IsUnspecified, IP_Equal. cbn [To16 List.length replicate v4_in_v6 app].
    apply eq_true_iff_eq. rewrite orb_true_iff, !bool_decide_eq_true. split; [intros [?|?]; by simplify_eq|intros ?; left; by simplify_eq]. }
  unfold isForbiddenIP. rewrite E4.
  unfold IsLoopback, IsPrivate, IsLinkLocalUnicast, IsLinkLocalMulticast, IsMulticast.
  cbn [To4 To16 List.length Nat.eqb byte_at nth]. rewrite E1, E2, E3.
  destruct (Z.eqb_spec a 224) as [->|_]; [simpl; btauto|]. cbn [andb]. btauto.
Qed.

(** *** IPv4 in IPv6 form *)
Lemma To4_length ip v4 : To4 ip = Some v4 -> (List.length v4 = 4)%nat /\ To16 v4 = To16 ip.
Proof.
  unfold To4, To16. destruct (Nat.eqb_spec (List.length ip) 4) as [H4|H4]; [intros [= <-]; by rewrite H4|].
  destruct (Nat.eqb_spec (List.length ip) 16) as [H16|]; [|done]. simpl.
  case_bool_decide as Ht; [|done]. intros [= <-]. rewrite length_drop, H16. split; [done|].
  change (Some (v4_in_v6 ++ drop 12 ip) = Some ip). by rewrite <- Ht, take_drop.
Qed.
Lemma forbidden_plain ip : isForbiddenIP (plain ip) = isForbiddenIP ip.
Proof.
  unfold plain. destruct (To4 ip) as [v4|] eqn:E4; [|done]. simpl.
  destruct (To4_length ip v4 E4) as [Hl H16].
  assert (To4 v4 = Some v4) as E by (unfold To4; by rewrite Hl).
  unfold isForbiddenIP, IsLoopback, IsPrivate, IsLinkLocalUnicast, IsLinkLocalMulticast, IsUnspecified, IsMulticast, IP_Equal.
  by rewrite E, E4, H16.
Qed.

(** *** IPv6 *)
Lemma forbidden6 a b ip : List.length ip = 14%nat -> Forall (fun b => 0 <= b < 256) [a; b] -> To4 (a :: b :: ip) = None ->
  isForbiddenIP (a :: b :: ip)
  = (bool_decide (a :: b :: ip = IPv6loopback) || bool_decide (a :: b :: ip = replicate 16 0)
     || (a / 2 =? 126) || ((a =? 254) && (b / 64 =? 2)) || (a =? 255)).
Proof.
  intros Hl H E. bytes H.
  assert (Z.land a 0xFE =? 0xFC = (a / 2 =? 126)) as E1 by (by apply (byte_cases (fun b => Z.land b 0xFE =? 0xFC) (fun b => b / 2 =? 126))).
  assert (Z.land b 0xC0 =? 0x80 = (b / 64 =? 2)) as E2 by (by apply (byte_cases (fun b => Z.land b 0xC0 =? 0x80) (fun b => b / 64 =? 2))).
  assert (To16 (a :: b :: ip) = Some (a :: b :: ip)) as E3 by (unfold To16; cbn [List.length]; by rewrite Hl).
  assert (forall y, (List.length y = 16)%nat -> IP_Equal (a :: b :: ip) y = bool_decide (a :: b :: ip = y)) as E4.
  { intros y Hy. unfold IP_Equal. rewrite E3. unfold To16. rewrite Hy. apply bool_decide_ext. by split; [intros [= ->]|intros ->]. }
  assert (IP_Equal (a :: b :: ip) (replicate 4 0) = false) as E5.
  { unfold IP_Equal. rewrite E3. apply bool_decide_eq_false_2. intros [= -> -> ->]. by vm_compute in E. }
  unfold isForbiddenIP, IsLoopback, IsPrivate, IsLinkLocalUnicast, IsLinkLocalMulticast, IsUnspecified, IsMulticast.
  rewrite E, E3, E5, !E4 by done. unfold is16. cbn [List.length byte_at nth]. rewrite Hl, E1, E2. cbn [Nat.eqb andb orb].
  destruct (Z.land b 0x0F =? 2); btauto.
Qed.

(** *** The check decides the blocks *)
Ltac divlia := Z.to_euclidean_division_equations; lia.
Lemma blocks4 a b c d : Forall (fun b => 0 <= b < 256) [a; b; c; d] ->
  Exists (in_block [a; b; c; d]) private_blocks
  <-> a = 10 \/ (a = 100 /\ b / 64 = 1) \/ a = 127 \/ (a = 169 /\ b = 254) \/ (a = 172 /\ b / 16 = 1)
      \/ (a = 192 /\ b = 168) \/ a / 16 = 14 \/ [a; b; c; d] = [0; 0; 0; 0].
Proof.
  intros H. bytes H. unfold private_blocks. rewrite !Exists_cons, Exists_nil.
  unfold in_block, width, value. cbn [fst snd List.length foldl v6 app Nat.sub replicate IPv6loopback].
  change (8 * Z.of_nat 4) with 32.
  repeat match goal with |- context [2 ^ (32 - ?n)] => let v := eval vm_compute in (2 ^ (32 - n)) in change (2 ^ (32 - n)) with v end.
  split.
  - intros Hd. repeat destruct Hd as [Hd|Hd]; try done; destruct Hd as [Hl Hd]; try discriminate Hl;
      [do 7 right|left|right; left|do 2 right; left|do 3 right; left|do 4 right; left|do 5 right; left|do 6 right; left].
    + assert (a = 0 /\ b = 0 /\ c = 0 /\ d = 0) as (-> & -> & -> & ->) by divlia. done.
    + divlia.
    + divlia.
    + divlia.
    + divlia.
    + divlia.
    + divlia.
    + divlia.
  - intros [->|[[-> Hb]|[->|[[-> ->]|[[-> Hb]|[[-> ->]|[Ha|[= -> -> -> ->]]]]]]]].
    + right; left. split; [done|divlia].
    + do 2 right; left. split; [done|divlia].
    + do 3 right; left. split; [done|divlia].
    + do 4 right; left. split; [done|divlia].
    + do 5 right; left. split; [done|divlia].
    + do 6 right; left. split; [done|divlia].
    + do 7 right; left. split; [done|divlia].
    + left. done.
Qed.

Lemma value_top2 a b ip : List.length ip = 14%nat -> Forall (fun b => 0 <= b < 256) (a :: b :: ip) ->
  value (a :: b :: ip) / 2 ^ 120 = a /\ value (a :: b :: ip) / 2 ^ 112 = a * 256 + b.
Proof.
  intros Hl H. apply Forall_cons_iff in H as [Ha H]. split.
  - apply value_top; [done|]. cbn [List.length]. by rewrite Hl.
  - apply Forall_cons_iff in H as [Hb H]. rewrite !value_cons. cbn [List.length]. rewrite Hl.
    pose proof (value_bound ip H) as Hv. rewrite Hl in Hv. change (256 ^ Z.of_nat 14) with (2 ^ 112) in *.
    change (256 ^ Z.of_nat 15) with (256 * 2 ^ 112). replace (a * (256 * 2 ^ 112) + (b * 2 ^ 112 + value ip)) with ((a * 256 + b) * 2 ^ 112 + value ip) by ring.
    rewrite Z.div_add_l by lia. rewrite Z.div_small by lia. lia.
Qed.

Lemma blocks6 a b ip : List.length ip = 14%nat -> Forall (fun b => 0 <= b < 256) (a :: b :: ip) ->
  Exists (in_block (a :: b :: ip)) private_blocks
  <-> a :: b :: ip = IPv6loopback \/ a :: b :: ip = replicate 16 0 \/ a / 2 = 126 \/ (a = 254 /\ b / 64 = 2) \/ a = 255.
Proof.
  intros Hl H. destruct (value_top2 a b ip Hl H) as [H1 H2].
  assert (forall y, List.length y = 16%nat -> Forall (fun b => 0 <= b < 256) y ->
            value (a :: b :: ip) / 2 ^ (width (a :: b :: ip) - 128) = value y / 2 ^ (width (a :: b :: ip) - 128) <-> a :: b :: ip = y) as Hfull.
  { intros y Hy Hf. unfold width. cbn [List.length]. rewrite Hl. change (2 ^ _) with 1. rewrite !Z.div_1_r.
    split; [|by intros <-]. apply value_inj; [cbn [List.length]; by rewrite Hl, Hy|done..]. }
  assert (value (a :: b :: ip) / 2 ^ 121 = a / 2) as H3.
  { change (2 ^ 121) with (2 ^ 120 * 2). by rewrite <- Z.div_div, H1. }
  assert (value (a :: b :: ip) / 2 ^ 118 = (a * 256 + b) / 64) as H4.
  { change (2 ^ 118) with (2 ^ 112 * 64). by rewrite <- Z.div_div, H2. }
  apply Forall_cons_iff in H as [Ha H]. apply Forall_cons_iff in H as [Hb _].
  unfold private_blocks. rewrite !Exists_cons, Exists_nil. unfold in_block. cbn [fst snd].
  rewrite (Hfull (v6 [])), (Hfull IPv6loopback) by (done || (cbn; repeat constructor; lia)).
  unfold width. cbn [List.length]. rewrite Hl. change (8 * Z.of_nat 16) with 128.
  change (value (v6 [252]) / 2 ^ (128 - 7)) with 126. change (value (v6 [254; 128]) / 2 ^ (128 - 10)) with 1018.
  change (value (v6 [255]) / 2 ^ (128 - 8)) with 255.
  change (128 - 7) with 121. change (128 - 10) with 118. change (128 - 8) with 120. rewrite H1, H3, H4.
  change (v6 []) with (replicate 16 0).
  split.
  - intros Hd. repeat destruct Hd as [Hd|Hd]; try done; destruct Hd as [Hl' Hd]; try discriminate Hl'; try (by auto 10).
    do 3 right; left. divlia.
  - intros [Hd|[Hd|[Hd|[[-> Hd]|Hd]]]]; [do 9 right; left|do 8 right; left|do 10 right; left|do 11 right; left|do 12 right; left];
      (split; [done|]); try done. divlia.
Qed.

(** The address check refuses exactly the addresses of the listed blocks, an IPv4
    address in either of its forms. *)
Theorem isForbiddenIP_spec ip : is_ip ip -> isForbiddenIP ip = true <-> Exists (in_block (plain ip)) private_blocks.
Proof.
  intros [Hl Hb]. rewrite <- forbidden_plain. unfold plain. destruct (To4 ip) as [v4|] eqn:E; cbn [from_option id].
  - assert (Forall (fun b => 0 <= b < 256) v4) as H4.
    { unfold To4 in E. destruct (_ =? _)%nat; simplify_eq; [done|]. destruct (_ && _); simplify_eq. by apply Forall_drop. }
    apply To4_length in E as [Hv _]. destruct v4 as [|a [|b [|c [|d [|]]]]]; try done.
    rewrite forbidden4, blocks4 by done. rewrite !orb_true_iff, !andb_true_iff, !Z.eqb_eq, bool_decide_eq_true. tauto.
  - destruct Hl as [Hl|Hl]; [unfold To4 in E; by rewrite Hl in E|].
    destruct ip as [|a [|b ip]]; try done. injection Hl as Hl.
    rewrite forbidden6, blocks6; [|done..|done|by apply (Forall_take _ 2) in Hb|done].
    rewrite !orb_true_iff, !andb_true_iff, !Z.eqb_eq, !bool_decide_eq_true. tauto.
Qed.

(** The package's own table of addresses, and addresses in their other forms. *)
Definition forbidden_text (s : string) : option bool := isForbiddenIP <$> ParseIP s.
Example addresses_ex :
  List.map forbidden_text ["127.0.0.1"; "10.0.0.1"; "172.16.5.5"; "192.168.0.9"; "169.254.169.254"; "100.64.0.1"; "100.127.255.255";
    "0.0.0.0"; "224.0.0.1"; "::1"; "fe80::1"; "fc00::1"; "fd12::34"; "::ffff:10.0.0.1"; "::ffff:a00:1"] = replicate 15 (Some true)
  /\ List.map forbidden_text ["8.8.8.8"; "1.1.1.1"; "100.63.255.255"; "100.128.0.1"; "2606:4700::1111"; "255.255.255.255"] = replicate 6 (Some false)
  /\ List.map ParseIP ["localhost"; "01.2.3.4"; "1.2.3"; "1.2.3.256"; "fe80::1%eth0"; "1::2::3"; "12345::"; "1:2:3:4:5:6:7:8:9"; ":1"; "1:"] = replicate 10 None
  /\ List.map ParseIP ["::"; "1:2:3:4:5:6:7:8"; "1::"; "1:2:3:4:5:6:1.2.3.4"]
     = [Some (replicate 16 0); Some [0; 1; 0; 2; 0; 3; 0; 4; 0; 5; 0; 6; 0; 7; 0; 8]; Some (v6 [0; 1]); Some [0; 1; 0; 2; 0; 3; 0; 4; 0; 5; 0; 6; 1; 2; 3; 4]]
  /\ List.map SplitHostPort ["10.0.0.1:443"; "[::1]:443"; "[fe80::1%eth0]:443"; "::1:443"; "host"; "[::1]"]
     = [Some "10.0.0.1"; Some "::1"; Some "fe80::1%eth0"; None; None; None].
Proof. vm_compute. by split_and!. Qed.
End Addr.

(** ** Reducing a page to text *)
Module Strip.

(** [<[^>]+>]: the length of a tag at the head of a text. *)
Definition not_gt (c : ascii) : bool := negb (Ascii.eqb c ">").
Definition tag_at (s : string) : option (unit * nat) :=
  match s with
  | String "<"%char s' =>
      let '(body, rest) := span not_gt s' in
      if str_empty body || negb (head_sat (fun c => Ascii.eqb c ">") rest) then None
      else Some (tt, (String.length body + 2)%nat)
  | _ => None
  end.

(** [(?is)<name\b[^>]*>.*?</name>], up to the first closing tag; case folding is ASCII. *)
Fixpoint find_closing (close s : string) : option nat :=
  if has_prefix close (to_lower s) then Some (String.length close)
  else match s with
       | EmptyString => None
       | String _ s => n ← find_closing close s; Some (S n)
       end.
Definition element_at (name : string) (s : string) : option (unit * nat) :=
  let opening := "<" +:+ name in
  let k := String.length opening in
  let after := str_drop k s in
  if negb (has_prefix opening (to_lower s)) || head_sat is_word after then None
  else
    let '(attrs, rest) := span not_gt after in
    match rest with
    | EmptyString => None
    | String _ rest =>
        n ← find_closing ("</" +:+ name +:+ ">") rest;
        Some (tt, (k + String.length attrs + 1 + n)%nat)
    end.

(** [\s+]: the class of the regular-expression package, without the vertical tab. *)
Definition re_space (c : ascii) : bool := is_space c && negb (nat_of_ascii c =? 11)%nat.
Definition spaces_at (s : string) : option (unit * nat) :=
  let '(ws, _) := span re_space s in if str_empty ws then None else Some (tt, String.length ws).

Definition stripHTML (s : string) : string :=
  let s := replace_all (element_at "script") (fun _ _ => "") s in
  let s := replace_all (element_at "style") (fun _ _ => "") s in
  let s := replace_all tag_at (fun _ _ => " ") s in
  let s := replace_all spaces_at (fun _ _ => " ") s in
  trim_space s.

(** *** No tag is left *)
Definition gt : ascii := ">"%char.
Definition head_gt (s : string) : bool := head_sat (fun c => Ascii.eqb c gt) s.

Lemma lacks_span s : str_lacks gt s = true -> (span not_gt s).2 = "".
Proof.
  induction s as [|c s IH]; [done|]. simpl. intros [Hc Hs]%andb_true_iff. unfold not_gt at 1. unfold gt in Hc. rewrite Hc.
  destruct (span not_gt s) as [a b]. by apply IH.
Qed.
Lemma tag_none c s : tag_at (String c s) = None <-> (c = "<"%char -> head_gt s = true \/ str_lacks gt s = true).
Proof.
  destruct (ascii_dec c "<") as [->|Hc].
  2: { assert (forall A (x y : A), match c with "<"%char => x | _ => y end = y) as Hm by (intros; by destruct c as [[] [] [] [] [] [] [] []]).
       split; [by intros _ H|]. intros _. unfold tag_at. by rewrite Hm. }
  unfold tag_at. destruct (span not_gt s) as [body rest] eqn:E. split.
  - intros H _. destruct (str_empty body) eqn:Eb.
    + apply str_empty_true in Eb as ->. apply span_inv in E as (-> & _ & Hr). destruct rest as [|c r]; [by right|].
      left. simpl in *. unfold not_gt in Hr. by apply negb_false_iff in Hr.
    + right. simpl in H. destruct (negb _) eqn:En in H; [|done]. apply negb_true_iff in En.
      apply span_inv in E as (-> & Hb & Hr). destruct rest as [|c r].
      * clear -Hb. induction body as [|c b IH]; [done|]. simpl in *. apply andb_true_iff in Hb as [Hc Hb]. unfold not_gt in Hc.
        unfold gt. rewrite Hc. by apply IH.
      * simpl in *. unfold not_gt in Hr. by rewrite En in Hr.
  - intros H. destruct (H eq_refl) as [Hg|Hl].
    + destruct s as [|c s]; [done|]. simpl in Hg. simpl in E. unfold not_gt in E at 1. unfold gt in Hg. rewrite Hg in E.
      simpl in E. by injection E as <- <-.
    + apply lacks_span in Hl. rewrite E in Hl. simpl in Hl. subst rest. by rewrite orb_true_r.
Qed.

(** A pass over the text that copies characters, ends the text early or puts one space
    for a stretch of it leaves no tag, if it copies only where no tag starts. *)
Section pass.
Variable r : string -> string.
Variable ok : string -> Prop.
Hypothesis ok_drop : forall n s, ok s -> ok (str_drop n s).
Hypothesis r_nil : r "" = "".
Hypothesis r_cons : forall c s, ok (String c s) ->
  (r (String c s) = String c (r s) /\ tag_at (String c s) = None)
  \/ r (String c s) = "" \/ exists n, r (String c s) = String " " (r (str_drop n s)).
Hypothesis r_gt : forall s, r (String gt s) = String gt (r s).

Lemma lacks_drop n s : str_lacks gt s = true -> str_lacks gt (str_drop n s) = true.
Proof using. revert n. induction s as [|c s IH]; intros [|n]; try done. simpl. intros [_ H]%andb_true_iff. by apply IH. Qed.

Lemma pass_lacks s : ok s -> str_lacks gt s = true -> str_lacks gt (r s) = true.
Proof using ok_drop r_cons r_nil.
  remember (String.length s) as k eqn:Hk. revert s Hk. induction (lt_wf k) as [k _ IH]. intros [|c s] -> Hok Hl; [by rewrite r_nil|].
  assert (Hl' := Hl). simpl in Hl. apply andb_true_iff in Hl as [Hc Hl].
  destruct (r_cons c s Hok) as [[-> _]|[->|[n ->]]]; [|done|].
  - simpl. rewrite Hc. apply (IH (String.length s)); [simpl; lia|done|by apply (ok_drop 1 (String c s))|done].
  - simpl. pose proof (str_drop_length n s).
    apply (IH (String.length (str_drop n s))); [simpl; lia|done|by apply (ok_drop (S n) (String c s))|by apply lacks_drop].
Qed.

Lemma pass_no_tag s : ok s -> no_match tag_at (r s).
Proof using All.
  remember (String.length s) as k eqn:Hk. revert s Hk. induction (lt_wf k) as [k _ IH]. intros [|c s] -> Hok; [by rewrite r_nil|].
  assert (ok s) as Hs by (by apply (ok_drop 1 (String c s))).
  destruct (r_cons c s Hok) as [[-> Ht]|[->|[n ->]]]; [|done|].
  - split; [|by apply (IH (String.length s)); [simpl; lia|..]]. rewrite tag_none in Ht |- *. intros Hc. destruct (Ht Hc) as [Hg|Hl].
    + left. destruct s as [|c' s]; [done|]. simpl in Hg. apply Ascii.eqb_eq in Hg as ->. by rewrite r_gt.
    + right. by apply pass_lacks.
  - split; [by apply tag_none|]. pose proof (str_drop_length n s).
    apply (IH (String.length (str_drop n s))); [simpl; lia|done|by apply (ok_drop (S n) (String c s))].
Qed.
End pass.

Lemma strip_tags s : no_match tag_at (replace_all tag_at (fun _ _ => " ") s).
Proof.
  apply (pass_no_tag _ (fun _ => True)); try done.
  - intros c t _. rewrite replace_all_cons. destruct (tag_at (String c t)) as [[m [|n]]|] eqn:E; [|right; right; by exists n|by left].
    exfalso. unfold tag_at in E. destruct c as [[] [] [] [] [] [] [] []]; try done. destruct (span not_gt t). destruct (_ || _); [done|]. simplify_eq. lia.
  - intros t. by rewrite replace_all_cons.
Qed.

Lemma spaces_none c s : re_space c = false -> spaces_at (String c s) = None.
Proof. intros H. unfold spaces_at. simpl. by rewrite H. Qed.
Lemma spaces_some c s : re_space c = true -> exists n, spaces_at (String c s) = Some (tt, S n).
Proof. intros H. unfold spaces_at. simpl. rewrite H. destruct (span re_space s) as [a b]. by exists (String.length a). Qed.

Lemma strip_spaces s : no_match tag_at s -> no_match tag_at (replace_all spaces_at (fun _ _ => " ") s).
Proof.
  apply (pass_no_tag _ (no_match tag_at)); try done.
  - intros n t. apply no_match_drop.
  - intros c t [Ht _]. rewrite replace_all_cons. destruct (re_space c) eqn:E.
    + destruct (spaces_some c t E) as [n ->]. right; right. by exists n.
    + rewrite spaces_none by done. by left.
  - intros t. rewrite replace_all_cons, spaces_none; done.
Qed.
Lemma trim_right_no_tag s : no_match tag_at s -> no_match tag_at (trim_right s).
Proof.
  apply (pass_no_tag _ (no_match tag_at)); try done.
  - intros n t. apply no_match_drop.
  - intros c t [Ht _]. cbn [trim_right]. destruct (trim_right t) eqn:E; [|by left].
    destruct (is_space c); [by right; left|by left].
  - intros t. cbn [trim_right]. by destruct (trim_right t).
Qed.
Lemma trim_left_drop s : exists n, trim_left s = str_drop n s.
Proof. induction s as [|c s [n IH]]; [by exists 0%nat|]. simpl. destruct (is_space c); [by exists (S n)|by exists 0%nat]. Qed.

(** *** Reducing twice changes nothing *)
Lemma element_tag name s : str_lacks gt name = true -> name <> "" -> tag_at s = None -> element_at name s = None.
Proof.
  intros Hn Hne Ht. destruct (element_at name s) as [[u n]|] eqn:E; [|done]. exfalso.
  unfold element_at in E. destruct (negb _ || _) eqn:Eg; [done|]. apply orb_false_iff in Eg as [Hp _].
  apply negb_false_iff in Hp. destruct (span not_gt _) as [attrs rest] eqn:Es. destruct rest as [|g rest]; [done|].
  destruct s as [|c s]; [done|]. change ("<" +:+ name) with (String "<" name) in *.
  unfold has_prefix in Hp. cbn [to_lower String.prefix] in Hp. destruct (ascii_dec "<" (to_lower_ascii c)) as [Hc|]; [|done].
  assert (c = "<"%char) as -> by (clear -Hc; destruct c as [[] [] [] [] [] [] [] []]; by vm_compute in Hc).
  apply span_inv in Es as (Ha & _ & Hg). apply tag_none in Ht; [|done]. destruct Ht as [Ht|Ht].
  - destruct name as [|x name]; [done|]. destruct s as [|d s]; [done|]. simpl in Ht. apply Ascii.eqb_eq in Ht as ->.
    cbn [to_lower String.prefix] in Hp. change (to_lower_ascii gt) with gt in Hp. destruct (ascii_dec x gt) as [->|]; [|done].
    by simpl in Hn.
  - assert (str_lacks gt (str_drop (String.length (String "<" name)) (String "<" s)) = true) as Hl by (by apply lacks_drop).
    rewrite Ha in Hl. clear -Hl Hg. induction attrs as [|a attrs IH]; simpl in *.
    + unfold not_gt in Hg. unfold gt in Hl. apply negb_false_iff in Hg. by rewrite Hg in Hl.
    + apply andb_true_iff in Hl as [_ Hl]. by apply IH.
Qed.
Lemma no_elements name s : str_lacks gt name = true -> name <> "" -> no_match tag_at s -> no_match (element_at name) s.
Proof. intros Hn Hne. induction s as [|c s IH]; [done|]. intros [Ht Hs]. split; [by apply element_tag|by apply IH]. Qed.

(** White space only as single blanks. *)
Fixpoint tidy (s : string) : Prop :=
  match s with
  | EmptyString => True
  | String c s' => (re_space c = true -> c = " "%char /\ head_sat re_space s' = false) /\ tidy s'
  end.
Lemma spaces_at_run c s a b : re_space c = true -> span re_space s = (a, b) -> spaces_at (String c s) = Some (tt, S (String.length a)).
Proof. intros H E. unfold spaces_at. simpl. by rewrite H, E. Qed.
Lemma tidy_id s : tidy s -> replace_all spaces_at (fun _ _ => " ") s = s.
Proof.
  induction s as [|c s IH]; [done|]. intros [Hc Hs]. rewrite replace_all_cons. destruct (re_space c) eqn:E.
  - destruct (Hc eq_refl) as [-> Hh]. rewrite (spaces_at_run _ s "" s); [|done|by destruct s; simpl in *; [|rewrite Hh]].
    cbn [String.length str_drop]. change (" " +:+ ?x) with (String " " x). rewrite <- (IH Hs) at 2. by destruct s.
  - rewrite spaces_none by done. by rewrite IH.
Qed.
Lemma collapse_head s : head_sat re_space s = false -> head_sat re_space (replace_all spaces_at (fun _ _ => " ") s) = false.
Proof. destruct s as [|c s]; [done|]. simpl. intros H. by rewrite replace_all_cons, spaces_none. Qed.
Lemma collapse_tidy s : tidy (replace_all spaces_at (fun _ _ => " ") s).
Proof.
  remember (String.length s) as k eqn:Hk. revert s Hk. induction (lt_wf k) as [k _ IH]. intros [|c s] ->; [done|].
  rewrite replace_all_cons. destruct (re_space c) eqn:E.
  - destruct (span re_space s) as [a b] eqn:Es. rewrite (spaces_at_run c s a b) by done.
    apply span_inv in Es as (-> & _ & Hb). rewrite str_drop_app. split; [intros _; split; [done|by apply collapse_head]|].
    apply (IH (String.length b)); [|done]. cbn [String.length]. rewrite str_length_app. lia.
  - rewrite spaces_none by done. split; [intros H; by rewrite E in H|]. apply (IH (String.length s)); [simpl; lia|done].
Qed.
Lemma tidy_drop n s : tidy s -> tidy (str_drop n s).
Proof. revert n. induction s as [|c s IH]; intros [|n] H; try done. apply IH, H. Qed.
Lemma trim_right_head f s : head_sat f s = false -> head_sat f (trim_right s) = false.
Proof. destruct s as [|c s]; [done|]. simpl. intros H. destruct (trim_right s); [destruct (is_space c)|]; done. Qed.
Lemma tidy_trim_right s : tidy s -> tidy (trim_right s).
Proof.
  induction s as [|c s IH]; [done|]. intros [Hc Hs]. cbn [trim_right].
  assert (tidy (String c (trim_right s))) as H.
  { split; [|by apply IH]. intros Ec. destruct (Hc Ec) as [-> Hh]. split; [done|by apply trim_right_head]. }
  destruct (trim_right s); [by destruct (is_space c)|done].
Qed.

Lemma trim_right_idem s : trim_right (trim_right s) = trim_right s.
Proof.
  induction s as [|c s IH]; [done|]. cbn [trim_right]. destruct (trim_right s) as [|d t] eqn:E.
  - destruct (is_space c) eqn:Ec; [done|]. simpl. by rewrite Ec.
  - cbn [trim_right] in *. by rewrite IH.
Qed.
Lemma trim_left_head s : head_sat is_space (trim_left s) = false.
Proof. induction s as [|c s IH]; [done|]. simpl. destruct (is_space c) eqn:E; [done|]. simpl. by rewrite E. Qed.
Lemma trim_left_id s : head_sat is_space s = false -> trim_left s = s.
Proof. destruct s as [|c s]; [done|]. simpl. by intros ->. Qed.
Lemma trim_space_idem s : trim_space (trim_space s) = trim_space s.
Proof.
  unfold trim_space. rewrite (trim_left_id (trim_right (trim_left s))) by (apply trim_right_head, trim_left_head).
  apply trim_right_idem.
Qed.

Lemma stripHTML_clean s : no_match tag_at (stripHTML s) /\ tidy (stripHTML s).
Proof.
  unfold stripHTML, trim_space. set (u := replace_all tag_at _ _). destruct (trim_left_drop (replace_all spaces_at (fun _ _ => " ") u)) as [n ->].
  split.
  - apply trim_right_no_tag, no_match_drop, strip_spaces, strip_tags.
  - apply tidy_trim_right, tidy_drop, collapse_tidy.
Qed.

(** The text of a page holds no tag at any position, and reducing it again changes
    nothing: scripts, styles, tags and runs of white space are all gone. *)
Theorem stripHTML_normal s :
  (forall a t, stripHTML s = a +:+ t -> tag_at t = None) /\ stripHTML (stripHTML s) = stripHTML s.
Proof.
  destruct (stripHTML_clean s) as [Ht Hd]. split; [by apply no_match_suffix|].
  unfold stripHTML at 1. rewrite (no_match_id (element_at "script")) by (by apply no_elements).
  rewrite (no_match_id (element_at "style")) by (by apply no_elements).
  rewrite (no_match_id tag_at) by done. rewrite tidy_id by done.
  unfold stripHTML. apply trim_space_idem.
Qed.

Example strip_ex :
  stripHTML "<html><body><p>Hello</p><SCRIPT type='x'>bad(1<2)</script>  world <b>x</b>" = "Hello world x"
  /\ stripHTML "a <> b < c" = "a <> b < c"
  /\ stripHTML "<scripty>x</scripty><style>p{}</style>y" = "x y".
Proof. vm_compute. by split_and!. Qed.
End Strip.

(** ** The tool *)
Module Tool.
Import Addr Strip.

Record Config := mkConfig {
  ToolName : string;
  ToolDescription : string;
  DefaultMaxBytes : Z;
  TimeoutMs : Z;
  HostDenylist : list string;
  AllowPrivateHosts : bool;
  cfg_FailurePolicy : string;
}.

(** Why [Factory] refuses a config block. *)
Inductive config_error := ErrDecode | ErrToolDescription.
Definition dec_text (v : json) : option string := match v with JStr s => Some s | JNull => Some "" | _ => None end.
Definition dec_config (raw : json) : option Config :=
  m ← dec_struct (Some raw);
  name ← dec_str (m !! "toolName"); desc ← dec_str (m !! "toolDescription");
  max ← dec_int (m !! "defaultMaxBytes"); timeout ← dec_int (m !! "timeoutMs");
  deny ← dec_list dec_text (m !! "hostDenylist"); private ← dec_bool (m !! "allowPrivateHosts");
  policy ← dec_str (m !! "failurePolicy");
  Some (mkConfig name desc (default 0 max) (default 0 timeout) (default [] deny) (default false private) policy).
Definition Factory (raw : option json) : res config_error Config :=
  match (match raw with None => Some (mkConfig "" "" 0 0 [] false "") | Some v => dec_config v end) with
  | None => Err ErrDecode
  | Some cfg => if str_empty (ToolDescription cfg) then Err ErrToolDescription else Ok cfg
  end.

(** [Init], the timeout of the client in nanoseconds. *)
Definition client_timeout (cfg : Config) : Z :=
  let t := wrap64 (TimeoutMs cfg * 1000000) in if t <=? 0 then 10 * 1000000000 else t.
Definition tool_name (cfg : Config) : string := if str_empty (ToolName cfg) then "web_fetch" else ToolName cfg.
Definition FailurePolicy (cfg : Config) : string :=
  if str_empty (cfg_FailurePolicy cfg) then "surface-to-llm" else cfg_FailurePolicy cfg.

(** What the tool reads of a [url.URL]: scheme, [Hostname()] and [Redacted()]. *)
Record Url := mkUrl { Scheme : string; Hostname : string; Redacted : string }.

Record response := mkResponse {
  StatusCode : Z;
  Status : string;
  Location : string;
  body_bytes : string;          (* the bytes the body delivers *)
  body_err : option error;      (* and the error that then ends it *)
}.

Record fetchInput := mkInput { fi_URL : string; fi_MaxBytes : option Z }.
Record fetchOutput := mkOutput { fo_URL : string; fo_StatusCode : Z; fo_Body : string; fo_Bytes : Z }.
Definition dec_input (args : json) : option fetchInput :=
  m ← dec_struct (Some args); u ← dec_str (m !! "url"); n ← dec_int (m !! "maxBytes"); Some (mkInput u n).

Definition quoted (s : string) : string := dquote +:+ s +:+ dquote.
Definition blocked (host : string) : bool := match ParseIP host with Some ip => isForbiddenIP ip | None => false end.

Section tool.
Variable cfg : Config.

(** [validateURL] *)
Definition validateURL (u : Url) : option error :=
  if negb (String.eqb (Scheme u) "https") then
    Some (EPlain ("web_fetch requires https URL (got scheme " +:+ quoted (Scheme u) +:+ " in " +:+ quoted (Redacted u) +:+ ")"))
  else
    let host := to_lower (Hostname u) in
    if String.eqb host "localhost" && negb (AllowPrivateHosts cfg) then
      Some (EPlain ("web_fetch: host " +:+ quoted host +:+ " is not a public host"))
    else if blocked host && negb (AllowPrivateHosts cfg) then
      Some (EPlain ("web_fetch: address " +:+ host +:+ " is not public"))
    else if existsb (fun deny => String.eqb (to_lower deny) host) (HostDenylist cfg) then
      Some (EPlain ("web_fetch: host " +:+ quoted host +:+ " is denied by configuration"))
    else None.

(** The guard of the dialer, called with each address before it is connected to. *)
Definition Control (address : string) : option error :=
  if AllowPrivateHosts cfg then None
  else match SplitHostPort address with
       | None => Some (EPlain ("web_fetch: bad dial address " +:+ quoted address))
       | Some host => if blocked host then Some (EPlain ("web_fetch: dial to non-public address " +:+ host +:+ " blocked")) else None
       end.

(** [checkRedirect], with the number of requests already made. *)
Definition checkRedirect (u : Url) (via : nat) : option error :=
  if (5 <=? via)%nat then Some (EPlain "web_fetch: too many redirects") else validateURL u.

(** What the client does on the network. *)
Inductive event := Connect (address : string) | Request (address : string) (u : Url).

(** The addresses the dialer tries, each with the error of the connection attempt; the
    first success is used, the first failure is reported. *)
Fixpoint dial (cands : list (string * option error)) (first : option error) : list event * res error string :=
  match cands with
  | [] => ([], Err (default (EPlain "no suitable address found") first))
  | (address, outcome) :: cands =>
      let keep e := match first with Some f => Some f | None => Some e end in
      match Control address with
      | Some e => dial cands (keep e)
      | None => match outcome with
                | None => ([Connect address], Ok address)
                | Some e => let '(ev, r) := dial cands (keep e) in (Connect address :: ev, r)
                end
      end
  end.

Variable Parse : string -> res error Url.
(** [req.URL.Parse] of a Location header. *)
Variable Resolve : Url -> string -> res error Url.
(** The network: the addresses of a URL at the [k]-th request, and the answer there. *)
Variable dials : nat -> Url -> list (string * option error).
Variable serve : nat -> string -> Url -> res error response.

Definition is_redirect (r : response) : bool :=
  existsb (Z.eqb (StatusCode r)) [301; 302; 303; 307; 308] && negb (str_empty (Location r)).
Definition url_error (url : string) (e : error) : error := EWrap ("Get " +:+ quoted url +:+ ": ") e.

(** [http.Client.Do] of a GET, with [k] requests made before this one. *)
Fixpoint do_loop (fuel : nat) (k : nat) (u : Url) : list event * option (res error response) :=
  match fuel with
  | O => ([], None)
  | S fuel =>
      match dial (dials k u) None with
      | (ev, Err e) => (ev, Some (Err (url_error (Redacted u) e)))
      | (ev, Ok address) =>
          let ev := ev ++ [Request address u] in
          match serve k address u with
          | Err e => (ev, Some (Err (url_error (Redacted u) e)))
          | Ok resp =>
              if is_redirect resp then
                match Resolve u (Location resp) with
                | Err e => (ev, Some (Err (url_error (Redacted u) e)))
                | Ok u' =>
                    match checkRedirect u' (S k) with
                    | Some e => (ev, Some (Err (url_error (Location resp) e)))
                    | None => let '(ev', r) := do_loop fuel (S k) u' in (ev ++ ev', r)
                    end
                end
              else (ev, Some (Ok resp))
          end
      end
  end.
Definition max_requests : nat := 5.
Definition Do (u : Url) : list event * option (res error response) := do_loop max_requests 0 u.

Definition max_bytes (in_ : fetchInput) : Z :=
  let cap := if DefaultMaxBytes cfg <=? 0 then Z.shiftl 1 20 else DefaultMaxBytes cfg in
  match fi_MaxBytes in_ with
  | Some n => if (0 <? n) && (n <? cap) then n else cap
  | None => cap
  end.
(** [io.ReadAll(io.LimitReader(body, n))] *)
Definition read_limited (n : Z) (r : response) : res error string :=
  if Z.of_nat (String.length (body_bytes r)) <? n then
    match body_err r with Some e => Err e | None => Ok (body_bytes r) end
  else Ok (str_take (Z.to_nat n) (body_bytes r)).

Definition answer (in_ : fetchInput) (resp : response) : res error fetchOutput :=
  if (500 <=? StatusCode resp) && (StatusCode resp <? 600) then
    Err (ETool "upstream" (Some (EPlain ("web_fetch upstream " +:+ print_Z (StatusCode resp) +:+ " " +:+ Status resp))) true)
  else match read_limited (max_bytes in_) resp with
       | Err e => Err (EWrap "read body: " e)
       | Ok body => Ok (mkOutput (fi_URL in_) (StatusCode resp) (stripHTML body) (Z.of_nat (String.length body)))
       end.

Definition Invoke (args : json) : list event * option (res error fetchOutput) :=
  match dec_input args with
  | None => ([], Some (Err (EPlain "parse args")))
  | Some in_ =>
      match Parse (fi_URL in_) with
      | Err e => ([], Some (Err (EWrap "invalid url: " e)))
      | Ok parsed =>
          match validateURL parsed with
          | Some e => ([], Some (Err e))
          | None =>
              let '(ev, r) := Do parsed in
              (ev, match r with
                   | None => None
                   | Some (Err e) => Some (Err (EWrap ("fetch " +:+ fi_URL in_ +:+ ": ") e))
                   | Some (Ok resp) => Some (answer in_ resp)
                   end)
          end
      end
  end.

(** *** What the guard promises *)
Definition url_allowed (u : Url) : Prop :=
  Scheme u = "https"
  /\ (forall deny, deny ∈ HostDenylist cfg -> to_lower deny <> to_lower (Hostname u))
  /\ (AllowPrivateHosts cfg = true
      \/ to_lower (Hostname u) <> "localhost" /\ blocked (to_lower (Hostname u)) = false).
Definition address_allowed (address : string) : Prop :=
  AllowPrivateHosts cfg = true \/ exists host, SplitHostPort address = Some host /\ blocked host = false.

Definition event_allowed (e : event) : Prop :=
  match e with
  | Connect address => address_allowed address
  | Request address u => address_allowed address /\ url_allowed u
  end.

Lemma validateURL_spec u : validateURL u = None <-> url_allowed u.
Proof using.
  unfold validateURL, url_allowed. destruct (String.eqb_spec (Scheme u) "https") as [->|Hs]; simpl; [|by split; [|intros []]].
  destruct (String.eqb_spec (to_lower (Hostname u)) "localhost") as [Hl|Hl], (blocked _) eqn:Hb, (AllowPrivateHosts cfg) eqn:Ha; simpl;
    try (by split; [done|intros (_ & _ & [?|[? ?]])]);
    (destruct (existsb _ _) eqn:Ed; split; [done| |intros _|done];
     [intros (_ & Hd & _); apply existsb_exists in Ed as (d & Hin & Hd'%String.eqb_eq);
      apply list_elem_of_In in Hin; by destruct (Hd d Hin)
     |split_and!; [done| |by auto];
      intros d Hd Heq; apply not_true_iff_false in Ed; apply Ed, existsb_exists; exists d;
      split; [by apply list_elem_of_In|by apply String.eqb_eq]]).
Qed.
Lemma Control_spec address : Control address = None <-> address_allowed address.
Proof using.
  unfold Control, address_allowed. destruct (AllowPrivateHosts cfg); [by split; [left|]|].
  destruct (SplitHostPort address) as [host|]; [|split; [done|by intros [|(h & ? & _)]]].
  destruct (blocked host) eqn:E; split; try done; [intros [|(h & [= <-] & ?)]; congruence|]. intros _. right. by exists host.
Qed.

Lemma dial_allowed cands first ev r : dial cands first = (ev, r) ->
  Forall event_allowed ev /\ (forall address, r = Ok address -> address_allowed address)
  /\ (forall address u, Request address u ∉ ev).
Proof using.
  revert first ev r. induction cands as [|[address outcome] cands IH]; intros first ev r; simpl.
  - intros [= <- <-]. split_and!; [done|done|]. intros a u H. by apply elem_of_nil in H.
  - destruct (Control address) eqn:Ec; [by apply IH|]. apply Control_spec in Ec. destruct outcome as [e|].
    + destruct (dial cands _) as [ev' r'] eqn:Ed. intros [= <- <-]. destruct (IH _ _ _ Ed) as (Hev & Hr & Hn).
      split_and!; [by constructor|done|]. intros a u [H|H]%elem_of_cons; [done|by eapply Hn].
    + intros [= <- <-]. split_and!; [by constructor; [|constructor]|by intros a [= <-]|].
      intros a u [H|H]%elem_of_cons; [done|by apply elem_of_nil in H].
Qed.

Definition is_request (e : event) : bool := match e with Request _ _ => true | Connect _ => false end.
Lemma no_requests ev : (forall address u, Request address u ∉ ev) -> List.filter is_request ev = [].
Proof using.
  clear. induction ev as [|[a|a u] ev IH]; intros H; simpl; [done| |].
  - apply IH. intros a' u H'. apply (H a' u). by right.
  - destruct (H a u). by left.
Qed.

(** The last response of a run, for a run that succeeds. *)
Lemma do_loop_allowed fuel k u ev r : url_allowed u -> (5 <= fuel + k)%nat -> (k < 5)%nat ->
  do_loop fuel k u = (ev, r) ->
  is_Some r /\ Forall event_allowed ev /\ (List.length (List.filter is_request ev) + k <= 5)%nat
  /\ (forall resp, r = Some (Ok resp) -> exists k' address u', Request address u' ∈ ev /\ serve k' address u' = Ok resp).
Proof using.
  revert k u ev r. induction fuel as [|fuel IH]; intros k u ev r Hu Hf Hk Hd; [lia|]. simpl in Hd.
  destruct (dial (dials k u) None) as [ev1 [address|e]] eqn:Ed.
  2: { simplify_eq. destruct (dial_allowed _ _ _ _ Ed) as (Hev & _ & Hn).
       split_and!; [by eexists|done|rewrite no_requests by done; simpl; lia|done]. }
  destruct (dial_allowed _ _ _ _ Ed) as (Hev & Ha & Hn). specialize (Ha _ eq_refl).
  assert (Forall event_allowed (ev1 ++ [Request address u])) as Hev1.
  { apply Forall_app. split; [done|]. by constructor; [|constructor]. }
  assert (List.length (List.filter is_request (ev1 ++ [Request address u])) = 1%nat) as Hlen.
  { rewrite List.filter_app, no_requests by done. done. }
  assert (Request address u ∈ ev1 ++ [Request address u]) as Hin by (apply elem_of_app; right; by left).
  destruct (serve k address u) as [resp|e] eqn:Es; [|simplify_eq; split_and!; [by eexists|done|lia|done]].
  destruct (is_redirect resp).
  2: { simplify_eq. split_and!; [by eexists|done|lia|]. intros ? [= <-]. by exists k, address, u. }
  destruct (Resolve u (Location resp)) as [u'|e]; [|simplify_eq; split_and!; [by eexists|done|lia|done]].
  destruct (checkRedirect u' (S k)) as [e|] eqn:Er; [simplify_eq; split_and!; [by eexists|done|lia|done]|].
  unfold checkRedirect in Er. destruct (Nat.leb_spec 5 (S k)); [done|]. apply validateURL_spec in Er.
  destruct (do_loop fuel (S k) u') as [ev2 r2] eqn:Ed2. simplify_eq.
  destruct (IH (S k) u' ev2 r Er ltac:(lia) ltac:(lia) Ed2) as (Hr & Hev2 & Hc & Hresp).
  split_and!; [done|by apply Forall_app|rewrite List.filter_app, length_app; lia|].
  intros resp' Hr'. destruct (Hresp resp' Hr') as (k' & a' & u2 & Hin2 & Hs). exists k', a', u2. split; [|done].
  apply elem_of_app. by right.
Qed.

Lemma str_take_le n s : (String.length (str_take n s) <= n)%nat.
Proof using. clear. revert s. induction n as [|n IH]; intros [|c s]; simpl; try lia. specialize (IH s). lia. Qed.
Lemma str_take_all s n : (String.length s <= n)%nat -> str_take n s = s.
Proof using. clear. revert s. induction n as [|n IH]; intros [|c s] H; simpl in *; try done; [lia|]. f_equal. apply IH. lia. Qed.
Lemma max_bytes_pos in_ : 0 < max_bytes in_.
Proof using.
  unfold max_bytes. set (cap := if DefaultMaxBytes cfg <=? 0 then _ else _).
  assert (0 < cap) by (subst cap; destruct (Z.leb_spec (DefaultMaxBytes cfg) 0); [done|lia]).
  destruct (fi_MaxBytes in_) as [n|]; [|done]. destruct (_ && _) eqn:E; [to_prop; lia|done].
Qed.
Lemma read_limited_ok n r body : 0 < n -> read_limited n r = Ok body ->
  body = str_take (Z.to_nat n) (body_bytes r) /\ Z.of_nat (String.length body) <= n.
Proof using.
  clear. unfold read_limited. intros Hn. destruct (Z.ltb_spec (Z.of_nat (String.length (body_bytes r))) n).
  - destruct (body_err r); [done|]. intros [= <-]. rewrite str_take_all by lia. split; [done|lia].
  - intros [= <-]. split; [done|]. pose proof (str_take_le (Z.to_nat n) (body_bytes r)). lia.
Qed.

(** C23: Every call of the tool ends, after at most five requests.  Whatever pages and name
    servers answer, each address connected to and each URL requested, redirects included,
    passed the guard; an answer is the text of at most the allowed number of bytes of a
    page that was requested. *)
Theorem fetch_guarded args :
  let '(ev, r) := Invoke args in
  is_Some r
  /\ Forall event_allowed ev
  /\ (List.length (List.filter is_request ev) <= 5)%nat
  /\ forall out, r = Some (Ok out) -> exists in_ k address u resp,
       dec_input args = Some in_ /\ fo_URL out = fi_URL in_
       /\ Request address u ∈ ev /\ serve k address u = Ok resp
       /\ fo_StatusCode out = StatusCode resp /\ ~ (500 <= StatusCode resp < 600)
       /\ fo_Body out = stripHTML (str_take (Z.to_nat (max_bytes in_)) (body_bytes resp))
       /\ 0 <= fo_Bytes out <= max_bytes in_.
Proof using.
  unfold Invoke. destruct (dec_input args) as [in_|]; [|by split_and!; [eexists|..|intros]; (done || simpl; lia)].
  destruct (Parse (fi_URL in_)) as [u|e]; [|by split_and!; [eexists|..|intros]; (done || simpl; lia)].
  destruct (validateURL u) as [e|] eqn:Eu; [by split_and!; [eexists|..|intros]; (done || simpl; lia)|].
  apply validateURL_spec in Eu. destruct (Do u) as [ev r] eqn:Ed.
  destruct (do_loop_allowed 5 0 u ev r Eu ltac:(lia) ltac:(lia) Ed) as ([r' ->] & Hev & Hn & Hresp).
  destruct r' as [resp|e]; [|split_and!; [by eexists|done|lia|done]].
  split_and!; [by eexists|done|lia|]. intros out [= Hout]. destruct (Hresp resp eq_refl) as (k & address & u' & Hin & Hs).
  unfold answer in Hout. destruct (_ && _) eqn:E5 in Hout; [done|].
  destruct (read_limited _ _) as [body|] eqn:Er; [|done]. simplify_eq.
  destruct (read_limited_ok _ _ _ (max_bytes_pos in_) Er) as [Hb Hl].
  exists in_, k, address, u', resp. split_and!; try done; cbn; [|by rewrite <- Hb|lia].
  apply andb_false_iff in E5 as [E5|E5]; to_prop; lia.
Qed.
End tool.

(** *** Concrete runs *)
Definition public_cfg : Config := mkConfig "" "fetch" 100 1000 ["Evil.example.com"] false "".
Definition demo_Parse (s : string) : res error Url :=
  if has_prefix "http://" s then Ok (mkUrl "http" (str_drop 7 s) s) else Ok (mkUrl "https" (str_drop 8 s) s).
Definition demo_dials (k : nat) (u : Url) : list (string * option error) :=
  if String.eqb (Hostname u) "rebind.example" then [("10.0.0.7:443", None); ("93.184.216.34:443", None)]
  else if String.eqb (Hostname u) "inside.example" then [("[::ffff:10.0.0.7]:443", None)]
  else [("93.184.216.34:443", None)].
Definition demo_serve (k : nat) (address : string) (u : Url) : res error response :=
  let h := Hostname u in
  if String.eqb h "loop.example" then Ok (mkResponse 302 "302 Found" "https://loop.example" "" None)
  else if String.eqb h "meta.example" then Ok (mkResponse 302 "302 Found" "http://169.254.169.254" "" None)
  else if String.eqb h "hop.example" then Ok (mkResponse 302 "302 Found" "https://10.1.2.3" "" None)
  else Ok (mkResponse 200 "200 OK" "" "<p>hi</p>" None).
Definition demo_fetch (url : string) : list event * option (res error fetchOutput) :=
  Invoke public_cfg demo_Parse (fun _ s => demo_Parse s) demo_dials demo_serve (jobj [("url", JStr url)]).
Definition failed (r : option (res error fetchOutput)) : bool := match r with Some (Err _) => true | _ => false end.

Example fetch_ex :
  (demo_fetch "https://a.example").2 = Some (Ok (mkOutput "https://a.example" 200 "hi" 9))
  /\ (demo_fetch "https://rebind.example").1 = [Connect "93.184.216.34:443"; Request "93.184.216.34:443" (mkUrl "https" "rebind.example" "https://rebind.example")]
  /\ ((demo_fetch "https://inside.example").1, failed (demo_fetch "https://inside.example").2) = ([], true)
  /\ List.length (demo_fetch "https://loop.example").1 = 10%nat /\ failed (demo_fetch "https://loop.example").2 = true
  /\ List.length (demo_fetch "https://meta.example").1 = 2%nat /\ failed (demo_fetch "https://meta.example").2 = true
  /\ List.length (demo_fetch "https://hop.example").1 = 2%nat /\ failed (demo_fetch "https://hop.example").2 = true
  /\ List.map (fun u => (demo_fetch u).1) ["http://a.example"; "https://localhost"; "https://127.0.0.1"; "https://evil.EXAMPLE.com"] = replicate 4 [].
Proof. vm_compute. by split_and!. Qed.

(** An address with a zone is not read as an address, so a link-local destination passes
    both checks. *)
Example zone_passes :
  validateURL public_cfg (mkUrl "https" "fe80::1%eth0" "https://[fe80::1%25eth0]/") = None
  /\ Control public_cfg "[fe80::1%eth0]:443" = None
  /\ option_map isForbiddenIP (ParseIP "fe80::1") = Some true.
Proof. vm_compute. by split_and!. Qed.
End Tool.
