(* ===== verification/Inference.v ===== *)
(** * The inference-gateway provider (pkg/workflow/builtin/inferencegateway)

    - [Node]: the configuration and the subject;
    - [Request]: the wire request, and reading it back;
    - [Ack]: the reply that accepts a stream;
    - [Events]: the events of the stream, in sequence, and what they tell the agent;
    - [Stream]: one request from subscription to the last event, and the agreement with
      the Bedrock provider.

    The NATS connection, the gateway and the JSON text decoder are parameters. *)

From S2P Require Import Prelude Json Agent Models Bedrock.
From stdpp Require Import base tactics list strings gmap option.
From Stdlib Require Import ZArith Lia Ascii String.
Local Open Scope string_scope.
Local Open Scope list_scope.
Local Open Scope Z_scope.
Local Open Scope go_scope.

(** ** factory.go, client.go: the node *)
Module Node.

Record Config := mkConfig {
  Alias : string;
  StreamTimeoutSeconds : Z;
  IdleTimeoutSeconds : Z;
  BasePath : string;
}.
Inductive config_error := ConfigParse | AliasRequired | AliasName (alias : string) | TimeoutsPositive.

(** [^[A-Z][A-Z0-9_]{1,63}$] *)
Definition alias_char (c : ascii) : bool := is_upper c || is_digit c || Ascii.eqb c "_".
Definition aliasName (s : string) : bool :=
  match s with
  | String c s' => is_upper c && str_all alias_char s' && (1 <=? String.length s')%nat && (String.length s' <=? 63)%nat
  | EmptyString => false
  end.

Definition validate (c : Config) : option config_error :=
  if str_empty (Alias c) then Some AliasRequired
  else if negb (aliasName (Alias c)) then Some (AliasName (Alias c))
  else if (StreamTimeoutSeconds c <? 0) || (IdleTimeoutSeconds c <? 0) then Some TimeoutsPositive
  else None.

Definition known_keys : list string := ["alias"; "streamTimeoutSeconds"; "idleTimeoutSeconds"; "basePath"].
(** [DisallowUnknownFields]; an absent block does not decode. *)
Definition dec_config (raw : option json) : option Config :=
  m ← dec_struct (raw ← raw; Some raw);
  if bool_decide (map_Forall (fun k _ => k ∈ known_keys) m) && (match raw with None => false | Some _ => true end) then
    alias ← dec_str (m !! "alias"); st ← dec_int (m !! "streamTimeoutSeconds"); it ← dec_int (m !! "idleTimeoutSeconds");
    base ← dec_str (m !! "basePath");
    Some (mkConfig alias (default 0 st) (default 0 it) base)
  else None.
Definition Factory (raw : option json) : res config_error Config :=
  let! cfg := ok_or ConfigParse (dec_config raw) in
  match validate cfg with Some e => Err e | None => Ok cfg end.

Definition second : Z := 1000000000.
Definition timeout (seconds default : Z) : Z := if 0 <? seconds then wrap64 (seconds * second) else default.
(** [newLLM]: the timeouts of the stream and of the silence between two events. *)
Definition newLLM (cfg : Config) : Z * Z :=
  (timeout (StreamTimeoutSeconds cfg) (600 * second), timeout (IdleTimeoutSeconds cfg) (120 * second)).

(** [invokeSubject], the environment variable given *)
Definition invokeSubject (override env : string) : string :=
  let base := trim_space override in
  let base := if str_empty base then trim_space env else base in
  let base := if str_empty base then "example.inferenceGateway" else base in
  base +:+ ".invokeStream".

(** A model id never passes for an alias. *)
Lemma aliasName_no_model s : aliasName s = true -> forall c, In c (list_ascii_of_string s) -> is_lower c = false /\ c <> "."%char /\ c <> "-"%char.
Proof.
  destruct s as [|c s]; [done|]. simpl. intros [[[Hc Hs]%andb_true_iff _]%andb_true_iff _]%andb_true_iff d [<-|Hd].
  - clear -Hc. destruct c as [[] [] [] [] [] [] [] []]; by vm_compute in Hc.
  - assert (alias_char d = true) as H.
    { clear -Hs Hd. induction s as [|x s IH]; [done|]. simpl in *. apply andb_true_iff in Hs as [Hx Hs]. destruct Hd as [<-|Hd]; [done|by apply IH]. }
    clear -H. destruct d as [[] [] [] [] [] [] [] []]; by vm_compute in H.
Qed.
End Node.

(** ** payload.go *)
Module Request.
Import Node Payload.

Inductive build_error := UnsupportedImage (mediaType : string) | DocumentBlock (filename : string).

Definition imageFormat (mediaType : string) : res build_error string :=
  if String.eqb mediaType "image/png" then Ok "png"
  else if String.eqb mediaType "image/jpeg" || String.eqb mediaType "image/jpg" then Ok "jpeg"
  else if String.eqb mediaType "image/gif" then Ok "gif"
  else if String.eqb mediaType "image/webp" then Ok "webp"
  else Err (UnsupportedImage mediaType).

(** The wire types, raw JSON as its text. *)
Inductive wireBlock :=
| WText (text : string)
| WToolUse (id name input : string)
| WToolResult (id text : string) (status : string)
| WImage (format base64 : string).
Record wireMessage := mkWire { w_Role : string; w_Content : list wireBlock }.
Record invokeStreamRequest := mkRequest {
  r_Alias : string;
  r_System : string;
  r_Messages : list wireMessage;
  r_Tools : list ToolSpec;
  r_ToolChoice : string;
  r_ToolChoiceName : string;
  r_StreamSubject : string;
}.

Definition block (b : ContentBlock) : res build_error wireBlock :=
  match b with
  | BlockText t => Ok (WText t)
  | BlockToolUse id name input => Ok (WToolUse id name (if str_empty input then "{}" else input))
  | BlockToolResult id result isError =>
      Ok (WToolResult id (if str_empty result then dquote +:+ dquote else result) (if isError : bool then "error" else ""))
  | BlockImage mediaType _ data => let! format := imageFormat mediaType in Ok (WImage format (base64_encode data))
  | BlockDocument _ filename _ => Err (DocumentBlock filename)
  end.

Fixpoint all_ok {A B E} (f : A -> res E B) (l : list A) : res E (list B) :=
  match l with
  | [] => Ok []
  | x :: l => let! y := f x in let! k := all_ok f l in Ok (y :: k)
  end.
Definition message (m : Message) : res build_error wireMessage :=
  let! bs := all_ok block (Content m) in Ok (mkWire (role_text (Role m)) bs).
Definition buildRequest (req : request) (cfg : Config) : res build_error invokeStreamRequest :=
  let! msgs := all_ok message (Messages (base req)) in
  let forced := negb (str_empty (ToolChoiceName req)) in
  Ok (mkRequest (Alias cfg) (System (base req)) msgs (Tools (base req))
        (if forced then "tool" else "") (if forced then ToolChoiceName req else "") "").

(** *** Reading a request back *)
Definition media_type (format : string) : string := "image/" +:+ format.
Definition read_block (w : wireBlock) : option ContentBlock :=
  match w with
  | WText t => Some (BlockText t)
  | WToolUse id name input => Some (BlockToolUse id name input)
  | WToolResult id text status => Some (BlockToolResult id text (String.eqb status "error"))
  | WImage format b64 => data ← base64_decode b64; Some (BlockImage (media_type format) "" data)
  end.
Definition read_message (w : wireMessage) : option Message :=
  bs ← mapM read_block (w_Content w); Some (mkMessage (text_role (w_Role w)) bs).

(** What the wire keeps of a block: everything but an image's name and the spelling of
    the JPEG type. *)
Definition kept (b : ContentBlock) : ContentBlock :=
  match b with
  | BlockToolUse id name input => BlockToolUse id name (if str_empty input then "{}" else input)
  | BlockToolResult id result isError => BlockToolResult id (if str_empty result then dquote +:+ dquote else result) isError
  | BlockImage mediaType _ data => BlockImage (if String.eqb mediaType "image/jpg" then "image/jpeg" else mediaType) "" data
  | b => b
  end.
Definition kept_message (m : Message) : Message := mkMessage (Role m) (List.map kept (Content m)).

Definition image_types : list string := ["image/png"; "image/jpeg"; "image/jpg"; "image/gif"; "image/webp"].
(** What the gateway can carry. *)
Definition supported (b : ContentBlock) : Prop :=
  match b with
  | BlockImage mediaType _ _ => mediaType ∈ image_types
  | BlockDocument _ _ _ => False
  | _ => True
  end.

Lemma imageFormat_spec mt :
  match imageFormat mt with
  | Ok f => mt ∈ image_types /\ media_type f = (if String.eqb mt "image/jpg" then "image/jpeg" else mt)
  | Err e => e = UnsupportedImage mt /\ mt ∉ image_types
  end.
Proof.
  unfold imageFormat, image_types.
  destruct (String.eqb_spec mt "image/png") as [->|H1]; [split; [set_solver|done]|].
  destruct (String.eqb_spec mt "image/jpeg") as [->|H2]; [split; [set_solver|done]|].
  destruct (String.eqb_spec mt "image/jpg") as [->|H3]; [split; [set_solver|done]|]. simpl.
  destruct (String.eqb_spec mt "image/gif") as [->|H4]; [split; [set_solver|done]|].
  destruct (String.eqb_spec mt "image/webp") as [->|H5]; [split; [set_solver|done]|]. split; [done|set_solver].
Qed.

Lemma block_spec b :
  match block b with Ok w => supported b /\ read_block w = Some (kept b) | Err _ => ~ supported b end.
Proof.
  destruct b as [t|id name input|id result isError|mt fn data|mt fn data]; simpl; try done.
  - by destruct isError.
  - pose proof (imageFormat_spec mt) as H. destruct (imageFormat mt) as [f|e]; simpl; [|by destruct H as [_ H]].
    destruct H as [H1 H2]. split; [done|]. by rewrite base64_roundtrip, <- H2.
  - by intros [].
Qed.

Lemma all_ok_spec {A B E} (f : A -> res E B) (P : A -> Prop) (R : A -> B -> Prop) l :
  (forall x, match f x with Ok y => P x /\ R x y | Err _ => ~ P x end) ->
  match all_ok f l with Ok k => Forall P l /\ Forall2 R l k | Err _ => ~ Forall P l end.
Proof.
  intros Hf. induction l as [|x l IH]; simpl; [by split|]. specialize (Hf x). destruct (f x) as [y|e]; simpl.
  - destruct (all_ok f l) as [k|e]; simpl; [destruct Hf, IH; split; by constructor|]. by intros [_ H]%Forall_cons_iff.
  - by intros [H _]%Forall_cons_iff.
Qed.

Lemma message_spec m :
  match message m with Ok w => Forall supported (Content m) /\ read_message w = Some (kept_message m) | Err _ => ~ Forall supported (Content m) end.
Proof.
  unfold message. pose proof (all_ok_spec block supported (fun b w => read_block w = Some (kept b)) (Content m) block_spec) as H.
  destruct (all_ok block (Content m)) as [bs|e]; simpl; [|done]. destruct H as [Hs Hr]. split; [done|].
  unfold read_message. cbn [w_Content w_Role]. rewrite (mapM_read _ _ _ _ Hr). simpl. by destruct m as [[] ?].
Qed.

(** A request is built exactly when the gateway can carry every block of it, and then the
    conversation reads back from it unaltered; a tool is forced exactly when the request
    names one, and no inference parameter of the request has any effect. *)
Theorem request_reads_back req cfg :
  (is_ok (buildRequest req cfg) = true <-> Forall (fun m => Forall supported (Content m)) (Messages (base req)))
  /\ (forall w, buildRequest req cfg = Ok w ->
        mapM read_message (r_Messages w) = Some (List.map kept_message (Messages (base req)))
        /\ r_Alias w = Alias cfg /\ r_System w = System (base req) /\ r_Tools w = Tools (base req)
        /\ r_ToolChoiceName w = ToolChoiceName req
        /\ (r_ToolChoice w = "tool" <-> ToolChoiceName req <> ""))
  /\ (forall maxTokens temperature stop,
        buildRequest (Payload.mkRequest (base req) maxTokens temperature stop (ToolChoiceName req)) cfg = buildRequest req cfg).
Proof.
  unfold buildRequest.
  pose proof (all_ok_spec message (fun m => Forall supported (Content m)) (fun m w => read_message w = Some (kept_message m))
                (Messages (base req)) message_spec) as H.
  destruct (all_ok message (Messages (base req))) as [msgs|e] eqn:E; simpl; split_and!; try done.
  - by destruct H.
  - intros w [= <-]. destruct H as [_ Hr]. cbn. rewrite (mapM_read _ _ _ _ Hr).
    destruct (str_empty (ToolChoiceName req)) eqn:Et; cbn.
    + apply str_empty_true in Et. rewrite Et. by split_and!.
    + apply str_empty_false in Et. by split_and!.
  - intros. by rewrite E.
  - intros. by rewrite E.
Qed.
End Request.

(** ** client.go: the reply *)
Module Ack.
Import Retry.

Record streamAck := mkAck {
  Accepted : bool;
  InvokeID : string;
  AppliedParams : gmap string json;
  ParamWarnings : list string;
}.
Definition errText (msg body : string) : string :=
  if negb (str_empty msg) then msg
  else if (200 <? String.length body)%nat then Scan.str_take 200 body +:+ "..." else body.

Definition dec_text (v : json) : option string := match v with JStr s => Some s | JNull => Some "" | _ => None end.
Definition dec_ack (v : json) : option streamAck :=
  m ← dec_struct (Some v);
  acc ← dec_bool (m !! "accepted"); _ ← dec_str (m !! "modelId"); id ← dec_str (m !! "invokeId"); _ ← dec_str (m !! "errorMessage");
  params ← dec_struct (m !! "appliedParams"); ws ← dec_list dec_text (m !! "paramWarnings");
  Some (mkAck (default false acc) id params (default [] ws)).

(** [strict 200-299], or no status at all *)
Definition status_ok (status : string) : bool :=
  str_empty status || match Atoi status with Some n => (200 <=? n) && (n <=? 299) | None => false end.

(** [parseAck] on the status header and the body, given also as it decodes.  The error
    message of a failed reply is read even where another field does not decode. *)
Definition parseAck (status body : string) (decoded : option json) : res error streamAck :=
  let errorMessage := as_str (as_obj decoded !! "errorMessage") in
  if negb (status_ok status) then Err (EPlain ("gateway status " +:+ status +:+ ": " +:+ errText errorMessage body))
  else match (v ← decoded; dec_ack v) with
       | None => Err (EPlain "gateway ack not JSON")
       | Some a =>
           if negb (Accepted a) then Err (EPlain ("gateway did not accept the stream request: " +:+ errText errorMessage body))
           else Ok a
       end.

(** [policyLine] *)
Definition policyLine (wf nodeID alias model : string) (a : streamAck) : option string :=
  if bool_decide (AppliedParams a = ∅) && bool_decide (ParamWarnings a = []) then None
  else Some ("gateway-policy wf=" +:+ wf +:+ " node=" +:+ nodeID +:+ " alias=" +:+ alias +:+ " model=" +:+ model
             +:+ " applied=" +:+ marshal (JObj (AppliedParams a)) +:+ " warnings=" +:+ String.concat "; " (ParamWarnings a)).

Lemma parseAck_ok status body decoded a :
  parseAck status body decoded = Ok a ->
  status_ok status = true /\ Accepted a = true /\ exists v, decoded = Some v /\ dec_ack v = Some a.
Proof.
  unfold parseAck. destruct (status_ok status); simpl; [|done]. destruct decoded as [v|]; simpl; [|done].
  destruct (dec_ack v) as [a'|] eqn:E; [|done]. destruct (Accepted a') eqn:Ea; simpl; [|done]. intros [= <-]. eauto.
Qed.
End Ack.

(** ** stream.go: the events *)
Module Events.
Import Retry Chunks.

Record streamEvent := mkEvent {
  Seq : Z;
  Type_ : string;
  ContentIndex : Z;
  Text : string;
  ToolUseID : string;
  ToolName : string;
  ToolInputDelta : string;
  StopReason : string;
  Usage : option (Z * Z);
  Error_ : string;
}.

Definition int32 (k : string) (m : gmap string json) : option Z :=
  n ← int k m; if (- 2 ^ 31 <=? n) && (n <? 2 ^ 31) then Some n else None.
Definition dec_usage (v : option json) : option (option (Z * Z)) :=
  match v with
  | None | Some JNull => Some None
  | Some (JObj m) => i ← int32 "inputTokens" m; o ← int32 "outputTokens" m; Some (Some (i, o))
  | _ => None
  end.
Definition dec_event (v : json) : option streamEvent :=
  m ← dec_struct (Some v);
  seq ← int "seq" m; ty ← str "type" m; i ← int "contentIndex" m; text ← str "text" m;
  id ← str "toolUseId" m; name ← str "toolName" m; delta ← str "toolInputDelta" m;
  reason ← str "stopReason" m; usage ← dec_usage (m !! "usage"); err ← str "error" m;
  Some (mkEvent seq ty i text id name delta reason usage err).

(** The tool calls under way, and what the timing line reports. *)
Record state := mkState {
  accum : gmap Z LLMToolUse;
  stop : string;
  usage : option (Z * Z);
}.
Definition fresh : state := mkState ∅ "" None.

(** One event of a kind that does not end the stream. *)
Definition translate (ev : streamEvent) (st : state) : list LLMEvent * state :=
  let i := ContentIndex ev in
  if String.eqb (Type_ ev) "delta" then
    if negb (str_empty (Text ev)) then ([LLMTextDelta (Text ev)], st)
    else if negb (str_empty (ToolInputDelta ev)) then
      match accum st !! i with
      | Some tu => ([LLMToolUseDelta],
          mkState (<[i := mkToolUse (tu_ID tu) (tu_Name tu) (tu_InputJSON tu +:+ ToolInputDelta ev)]> (accum st)) (stop st) (usage st))
      | None => ([], st)
      end
    else ([], st)
  else if String.eqb (Type_ ev) "reasoningDelta" then
    (if str_empty (Text ev) then [] else [LLMReasoningDelta (Text ev)], st)
  else if String.eqb (Type_ ev) "toolUseStart" then
    ([LLMToolUseStart], mkState (<[i := mkToolUse (ToolUseID ev) (ToolName ev) ""]> (accum st)) (stop st) (usage st))
  else if String.eqb (Type_ ev) "contentBlockStop" then
    match accum st !! i with
    | Some tu => ([LLMToolUseStop tu], mkState (delete i (accum st)) (stop st) (usage st))
    | None => ([], st)
    end
  else if String.eqb (Type_ ev) "messageStop" then
    (if str_empty (StopReason ev) then [] else [LLMMessageStop (StopReason ev)], mkState (accum st) (StopReason ev) (usage st))
  else if String.eqb (Type_ ev) "metadata" then
    ([], match Usage ev with Some u => mkState (accum st) (stop st) (Some u) | None => st end)
  else ([], st).
Definition terminal (ev : streamEvent) : bool := String.eqb (Type_ ev) "done" || String.eqb (Type_ ev) "error".

Section consume.
(** How waiting for the next message failed: the stream's context, if done, and the
    error; [idle] is the printed idle timeout. *)
Variable idle : string.
Variable ctx_err : option error.
Variable next_err : error.

Definition wait_error : error :=
  match ctx_err with
  | Some e => EWrap "ai/inference-gateway: stream: " e
  | None => if is_deadline next_err then EWrap ("ai/inference-gateway: stream idle for " +:+ idle +:+ " without events: ") next_err
            else EWrap "ai/inference-gateway: stream subscription failed: " next_err
  end.
Definition bad_event : error := EPlain "ai/inference-gateway: bad stream event".
Definition seq_gap (want got : Z) : error :=
  EPlain ("ai/inference-gateway: stream seq gap: want " +:+ print_Z want +:+ " got " +:+ print_Z got).
Definition stream_error (text : string) : error := EPlain ("ai/inference-gateway: gateway stream error: " +:+ text).

Definition decode (m : option json) : option streamEvent := v ← m; dec_event v.

(** [consumeStream] over the messages that arrive, each with what it decodes to. *)
Fixpoint consume (want : Z) (msgs : list (option json)) (st : state) : list LLMEvent * option error * state :=
  match msgs with
  | [] => ([], Some wait_error, st)
  | m :: msgs =>
      match decode m with
      | None => ([], Some bad_event, st)
      | Some ev =>
          if negb (Seq ev =? want) then ([], Some (seq_gap want (Seq ev)), st)
          else if String.eqb (Type_ ev) "done" then ([], None, st)
          else if String.eqb (Type_ ev) "error" then ([], Some (stream_error (Error_ ev)), st)
          else
            let '(evs, st) := translate ev st in
            let '(l, err, st) := consume (want + 1) msgs st in
            (evs ++ l, err, st)
      end
  end.

(** The events of a run of messages, one after the other. *)
Definition translate_all (evs : list streamEvent) (st : state) : list LLMEvent * state :=
  foldl (fun acc ev => let '(l, st) := acc in let '(l', st) := translate ev st in (l ++ l', st)) ([], st) evs.

Lemma translate_all_acc l evs st :
  foldl (fun acc ev => let '(l, st) := acc in let '(l', st) := translate ev st in (l ++ l', st)) (l, st) evs
  = (l ++ (translate_all evs st).1, (translate_all evs st).2).
Proof using.
  revert l st. induction evs as [|ev evs IH]; intros l st; unfold translate_all; cbn [foldl]; [by rewrite app_nil_r|].
  destruct (translate ev st) as [l' st']. rewrite (IH (l ++ l')), (IH ([] ++ l')). simpl. by rewrite app_assoc.
Qed.
Lemma translate_all_cons ev evs st :
  translate_all (ev :: evs) st = ((translate ev st).1 ++ (translate_all evs (translate ev st).2).1, (translate_all evs (translate ev st).2).2).
Proof using.
  unfold translate_all at 1. cbn [foldl]. destruct (translate ev st) as [l' st'] eqn:E. by rewrite translate_all_acc.
Qed.
Lemma translate_all_app l1 l2 st :
  translate_all (l1 ++ l2) st
  = ((translate_all l1 st).1 ++ (translate_all l2 (translate_all l1 st).2).1, (translate_all l2 (translate_all l1 st).2).2).
Proof using.
  unfold translate_all at 1. rewrite foldl_app. change (foldl _ ([], st) l1) with (translate_all l1 st).
  destruct (translate_all l1 st) as [l st']. by rewrite translate_all_acc.
Qed.

(** How a stream ends after the messages it accepted. *)
Definition ends (want : Z) (rest : list (option json)) (err : option error) : Prop :=
  match rest with
  | [] => err = Some wait_error
  | m :: _ =>
      match decode m with
      | None => err = Some bad_event
      | Some ev =>
          (Seq ev <> want /\ err = Some (seq_gap want (Seq ev)))
          \/ (Seq ev = want /\ Type_ ev = "done" /\ err = None)
          \/ (Seq ev = want /\ Type_ ev = "error" /\ err = Some (stream_error (Error_ ev)))
      end
  end.

(** The agent is told the gap-free prefix of the stream, in order, and nothing of what
    follows a missing, repeated, reordered or unreadable message; the call succeeds
    exactly when that prefix is followed by the [done] event. *)
Theorem consume_in_order want msgs st :
  let '(out, err, st') := consume want msgs st in
  exists pre rest evs,
    msgs = pre ++ rest
    /\ Forall2 (fun m ev => decode m = Some ev) pre evs
    /\ (forall i ev, evs !! i = Some ev -> Seq ev = want + Z.of_nat i /\ terminal ev = false)
    /\ (out, st') = translate_all evs st
    /\ ends (want + Z.of_nat (List.length evs)) rest err.
Proof using.
  revert want st. induction msgs as [|m msgs IH]; intros want st; cbn [consume].
  { exists [], [], []. split_and!; done. }
  destruct (decode m) as [ev|] eqn:Em.
  2: { exists [], (m :: msgs), []. split_and!; try done. simpl. by rewrite Em. }
  destruct (Z.eqb_spec (Seq ev) want) as [Hs|Hs]; cbn [negb].
  2: { exists [], (m :: msgs), []. split_and!; try done. simpl. rewrite Em, Z.add_0_r. by left. }
  destruct (String.eqb_spec (Type_ ev) "done") as [Hd|Hd].
  { exists [], (m :: msgs), []. split_and!; try done. simpl. rewrite Em, Z.add_0_r. by right; left. }
  destruct (String.eqb_spec (Type_ ev) "error") as [He|He].
  { exists [], (m :: msgs), []. split_and!; try done. simpl. rewrite Em, Z.add_0_r. by right; right. }
  destruct (translate ev st) as [l1 st1] eqn:Et. specialize (IH (want + 1) st1).
  destruct (consume (want + 1) msgs st1) as [[l2 err] st2]. destruct IH as (pre & rest & evs & -> & Hf & Hi & Ht & Hend).
  exists (m :: pre), rest, (ev :: evs). split_and!; [done|by constructor| | |].
  - intros [|i] ev' H; simpl in H.
    + simplify_eq. split; [lia|]. unfold terminal. apply String.eqb_neq in Hd, He. by rewrite Hd, He.
    + destruct (Hi i ev' H). split; [lia|done].
  - rewrite translate_all_cons, Et. simpl. by rewrite <- Ht.
  - cbn [List.length]. by replace (want + Z.of_nat (S (List.length evs))) with (want + 1 + Z.of_nat (List.length evs)) by lia.
Qed.
End consume.

Lemma translate_no_error ev st e : LLMError e ∉ (translate ev st).1.
Proof. unfold translate. repeat case_match; cbn; set_solver. Qed.
Lemma translate_all_no_error evs st e : LLMError e ∉ (translate_all evs st).1.
Proof.
  revert st. induction evs as [|ev evs IH]; intros st; [by intros H%elem_of_nil|]. rewrite translate_all_cons. cbn [fst].
  intros [H|H]%elem_of_app; [by eapply translate_no_error|by eapply IH].
Qed.
Lemma consume_no_error idle ctx_err next_err want arrivals st evs err st' e :
  consume idle ctx_err next_err want arrivals st = (evs, err, st') -> LLMError e ∉ evs.
Proof.
  intros H. pose proof (consume_in_order idle ctx_err next_err want arrivals st) as Ho. rewrite H in Ho.
  destruct Ho as (pre & rest & l & _ & _ & _ & Ht & _). apply (f_equal fst) in Ht. cbn in Ht. subst evs. apply translate_all_no_error.
Qed.

End Events.

(** ** A complete response *)
Module Response.
Import Chunks Events.

(** What the gateway publishes: an event with its fields, unnumbered. *)
Definition plain (ty : string) (i : Z) : streamEvent := mkEvent 0 ty i "" "" "" "" "" None "".
Definition text_delta (i : Z) (t : string) : streamEvent := mkEvent 0 "delta" i t "" "" "" "" None "".
Definition tool_delta (i : Z) (p : string) : streamEvent := mkEvent 0 "delta" i "" "" "" p "" None "".
Definition tool_start (i : Z) (id name : string) : streamEvent := mkEvent 0 "toolUseStart" i "" id name "" "" None "".
Definition message_stop (reason : string) : streamEvent := mkEvent 0 "messageStop" 0 "" "" "" "" reason None "".
Definition metadata (i o : Z) : streamEvent := mkEvent 0 "metadata" 0 "" "" "" "" "" (Some (i, o)) "".

Definition block_stream (i : Z) (b : block) : list streamEvent :=
  match b with
  | SText deltas => List.map (text_delta i) deltas
  | STool id name pieces => tool_start i id name :: List.map (tool_delta i) pieces
  end ++ [plain "contentBlockStop" i].
Fixpoint blocks_stream (i : Z) (bs : list block) : list streamEvent :=
  match bs with [] => [] | b :: bs => block_stream i b ++ blocks_stream (i + 1) bs end.
Definition body (inTokens outTokens : Z) (bs : list block) (reason : string) : list streamEvent :=
  [plain "messageStart" 0] ++ blocks_stream 0 bs ++ [message_stop reason; metadata inTokens outTokens].

(** Numbered, and as JSON. *)
Definition set_seq (n : Z) (ev : streamEvent) : streamEvent :=
  mkEvent n (Type_ ev) (ContentIndex ev) (Text ev) (ToolUseID ev) (ToolName ev) (ToolInputDelta ev) (StopReason ev) (Usage ev) (Error_ ev).
Fixpoint numbered (n : Z) (evs : list streamEvent) : list streamEvent :=
  match evs with [] => [] | ev :: evs => set_seq n ev :: numbered (n + 1) evs end.
Definition encode_usage (u : option (Z * Z)) : json :=
  match u with Some (i, o) => jobj [("inputTokens", JNum i); ("outputTokens", JNum o)] | None => JNull end.
Definition encode_event (ev : streamEvent) : json :=
  jobj [("seq", JNum (Seq ev)); ("type", JStr (Type_ ev)); ("contentIndex", JNum (ContentIndex ev)); ("text", JStr (Text ev));
        ("toolUseId", JStr (ToolUseID ev)); ("toolName", JStr (ToolName ev)); ("toolInputDelta", JStr (ToolInputDelta ev));
        ("stopReason", JStr (StopReason ev)); ("usage", encode_usage (Usage ev)); ("error", JStr (Error_ ev))].
Definition messages (evs : list streamEvent) : list (option json) := List.map (fun ev => Some (encode_event ev)) evs.
Definition response (inTokens outTokens : Z) (bs : list block) (reason : string) : list (option json) :=
  messages (numbered 0 (body inTokens outTokens bs reason ++ [plain "done" 0])).

Definition int32_range (z : Z) : Prop := - 2 ^ 31 <= z < 2 ^ 31.
(** An event whose numbers fit their fields. *)
Definition event_fits (ev : streamEvent) : Prop :=
  int64_range (ContentIndex ev) /\ match Usage ev with Some (i, o) => int32_range i /\ int32_range o | None => True end.

Lemma int_field k m n : int64_range n -> m !! k = Some (JNum n) -> int k m = Some n.
Proof. intros Hn Hk. unfold int. rewrite Hk, int_index by done. done. Qed.
Lemma int32_field k m n : int32_range n -> m !! k = Some (JNum n) -> int32 k m = Some n.
Proof.
  intros Hn Hk. unfold int32. rewrite (int_field k m n); [|unfold int64_range, int32_range in *; lia|done]. simpl.
  unfold int32_range in Hn. destruct (Z.leb_spec (- 2 ^ 31) n); [|lia]. by destruct (Z.ltb_spec n (2 ^ 31)); [|lia].
Qed.
Lemma usage_read a b : int32_range a -> int32_range b -> dec_usage (Some (encode_usage (Some (a, b)))) = Some (Some (a, b)).
Proof.
  intros Ha Hb. unfold encode_usage, jobj, dec_usage.
  rewrite (int32_field "inputTokens" _ a Ha) by (by rewrite lookup_field). cbn [mbind option_bind].
  by rewrite (int32_field "outputTokens" _ b Hb) by (by rewrite !lookup_field).
Qed.
Lemma encode_decode ev : int64_range (Seq ev) -> event_fits ev -> decode (Some (encode_event ev)) = Some ev.
Proof.
  intros Hs [Hi Hu]. destruct ev as [n ty i t tid name d reason u e]. 
  pose proof (int_index n Hs) as En. pose proof (int_index i Hi) as Ei. cbn [Usage] in Hu.
  unfold decode, encode_event, dec_event, jobj, int, str. cbn -[lookup list_to_map dec_int dec_usage encode_usage].
  repeat (rewrite lookup_field || closed_eqb); cbn [dec_str mbind option_bind].
  rewrite En, Ei. cbn [fmap option_fmap option_map default from_option id mbind option_bind].
  destruct u as [[a b]|]; [|done]. destruct Hu as [Ha Hb].
  by rewrite (usage_read a b Ha Hb).
Qed.
Lemma set_seq_translate n ev st : translate (set_seq n ev) st = translate ev st.
Proof. done. Qed.

(** Messages that carry numbered events of a run are all accepted. *)
Lemma consume_run idle ctx_err next_err n evs rest st :
  0 <= n -> n + Z.of_nat (List.length evs) < 2 ^ 63 -> Forall (fun ev => event_fits ev /\ terminal ev = false) evs ->
  consume idle ctx_err next_err n (messages (numbered n evs) ++ rest) st
  = let '(l, err, st') := consume idle ctx_err next_err (n + Z.of_nat (List.length evs)) rest (translate_all evs st).2 in
    ((translate_all evs st).1 ++ l, err, st').
Proof.
  revert n st. induction evs as [|ev evs IH]; intros n st Hn Hl Hf; cbn [List.length] in *.
  { cbn. rewrite Z.add_0_r. by destruct (consume _ _ _ _ _ _) as [[? ?] ?]. }
  apply Forall_cons_iff in Hf as [[Hfit Ht] Hf]. cbn [numbered messages List.map app consume].
  assert (int64_range (Seq (set_seq n ev))) as Hseq by (cbn [set_seq Seq]; unfold int64_range; lia).
  rewrite (encode_decode (set_seq n ev) Hseq Hfit).
  change (Seq (set_seq n ev)) with n. rewrite Z.eqb_refl. cbn [negb]. change (Type_ (set_seq n ev)) with (Type_ ev).
  unfold terminal in Ht. apply orb_false_iff in Ht as [-> ->]. rewrite set_seq_translate, translate_all_cons.
  destruct (translate ev st) as [l1 st1]. fold (messages (numbered (n + 1) evs)). rewrite IH by (lia || done). cbn [fst snd].
  replace (n + 1 + Z.of_nat (List.length evs)) with (n + Z.of_nat (S (List.length evs))) by lia.
  destruct (consume _ _ _ _ _ _) as [[l err] st']. by rewrite app_assoc.
Qed.
Lemma numbered_app n l1 l2 : numbered n (l1 ++ l2) = numbered n l1 ++ numbered (n + Z.of_nat (List.length l1)) l2.
Proof.
  revert n. induction l1 as [|x l1 IH]; intros n; cbn [numbered app List.length]; [by rewrite Z.add_0_r|]. rewrite IH.
  by replace (n + 1 + Z.of_nat (List.length l1)) with (n + Z.of_nat (S (List.length l1))) by lia.
Qed.

(** *** What a complete response tells the agent *)
Definition spoken (b : block) : Prop :=
  match b with SText deltas => Forall (fun t => t <> "") deltas | STool _ _ pieces => Forall (fun p => p <> "") pieces end.

Lemma text_run i deltas st : Forall (fun t => t <> "") deltas -> translate_all (List.map (text_delta i) deltas) st = (List.map LLMTextDelta deltas, st).
Proof.
  induction 1 as [|t deltas Ht _ IH]; [done|]. cbn [List.map]. rewrite translate_all_cons. apply str_empty_false in Ht.
  assert (translate (text_delta i t) st = ([LLMTextDelta t], st)) as -> by (unfold translate, text_delta; cbn; by rewrite Ht).
  cbn [fst snd]. by rewrite IH.
Qed.
Lemma tool_run i pieces st tu : Forall (fun p => p <> "") pieces -> accum st !! i = Some tu ->
  translate_all (List.map (tool_delta i) pieces) st
  = (List.map (fun _ => LLMToolUseDelta) pieces,
     mkState (<[i := mkToolUse (tu_ID tu) (tu_Name tu) (tu_InputJSON tu +:+ String.concat "" pieces)]> (accum st)) (stop st) (usage st)).
Proof.
  intros H. revert st tu. induction H as [|p pieces Hp _ IH]; intros st tu Hi.
  { cbn. rewrite str_app_nil_r. destruct tu, st. cbn in *. by rewrite insert_id. }
  cbn [List.map]. rewrite translate_all_cons. apply str_empty_false in Hp.
  assert (translate (tool_delta i p) st = ([LLMToolUseDelta],
     mkState (<[i := mkToolUse (tu_ID tu) (tu_Name tu) (tu_InputJSON tu +:+ p)]> (accum st)) (stop st) (usage st))) as ->
    by (unfold translate, tool_delta; cbn; by rewrite Hp, Hi).
  cbn [fst snd]. rewrite (IH _ (mkToolUse (tu_ID tu) (tu_Name tu) (tu_InputJSON tu +:+ p))) by (cbn; by rewrite lookup_insert_eq).
  cbn [accum stop usage tu_ID tu_Name tu_InputJSON fst snd app]. by rewrite insert_insert_eq, str_app_assoc, Scan.concat_nil_cons.
Qed.
Lemma stop_event i st tu : accum st !! i = tu ->
  translate (plain "contentBlockStop" i) st
  = match tu with Some t => ([LLMToolUseStop t], mkState (delete i (accum st)) (stop st) (usage st)) | None => ([], st) end.
Proof. intros H. unfold translate, plain. cbn. by rewrite H. Qed.

Lemma block_run i b st : spoken b -> accum st !! i = None -> translate_all (block_stream i b) st = (block_events b, st).
Proof.
  intros Hb Hi. destruct b as [deltas|id name pieces]; unfold block_stream; rewrite translate_all_app.
  - rewrite text_run by done. cbn [fst snd]. rewrite translate_all_cons, (stop_event i st None Hi). cbn. by rewrite app_nil_r.
  - rewrite translate_all_cons.
    assert (translate (tool_start i id name) st = ([LLMToolUseStart], mkState (<[i := mkToolUse id name ""]> (accum st)) (stop st) (usage st))) as -> by done.
    cbn [fst snd]. rewrite (tool_run i pieces _ (mkToolUse id name "") Hb) by (cbn; by rewrite lookup_insert_eq). cbn [fst snd accum stop usage tu_ID tu_Name tu_InputJSON].
    rewrite insert_insert_eq, translate_all_cons.
    rewrite (stop_event i _ (Some (mkToolUse id name (String.concat "" pieces)))) by (cbn; by rewrite lookup_insert_eq).
    cbn [fst snd]. cbn. rewrite delete_insert_id by done. by destruct st.
Qed.
Lemma blocks_run i bs st : Forall spoken bs -> accum st = ∅ ->
  translate_all (blocks_stream i bs) st = (List.concat (List.map block_events bs), st).
Proof.
  intros H Hst. revert i. induction H as [|b bs Hb _ IH]; intros i; [done|]. cbn [blocks_stream List.map List.concat].
  rewrite translate_all_app, block_run by (done || by rewrite Hst). cbn [fst snd]. by rewrite IH.
Qed.
Lemma body_run inTokens outTokens bs reason : Forall spoken bs ->
  translate_all (body inTokens outTokens bs reason) fresh
  = (List.concat (List.map block_events bs) ++ (if str_empty reason then [] else [LLMMessageStop reason]),
     mkState ∅ reason (Some (inTokens, outTokens))).
Proof.
  intros H. unfold body. cbn [app]. rewrite translate_all_cons.
  change (translate (plain "messageStart" 0) fresh) with (@nil LLMEvent, fresh). cbn [fst snd app].
  rewrite translate_all_app, blocks_run by done. cbn [fst snd]. rewrite !translate_all_cons. cbn -[str_empty]. by rewrite app_nil_r.
Qed.

Lemma block_fits i b : int64_range i -> Forall (fun ev => event_fits ev /\ terminal ev = false) (block_stream i b).
Proof.
  intros Hi. unfold block_stream. apply Forall_app. split; [|constructor; [done|constructor]].
  destruct b as [deltas|id name pieces]; [|constructor; [done|]]; apply List.Forall_map, Forall_true; done.
Qed.
Lemma blocks_fit i bs : 0 <= i -> i + Z.of_nat (List.length bs) < 2 ^ 63 -> Forall (fun ev => event_fits ev /\ terminal ev = false) (blocks_stream i bs).
Proof.
  revert i. induction bs as [|b bs IH]; intros i Hi Hn; [constructor|]. cbn [blocks_stream List.length] in *.
  apply Forall_app. split; [apply block_fits; unfold int64_range; lia|apply IH; lia].
Qed.
Lemma blocks_length i bs : (List.length bs <= List.length (blocks_stream i bs))%nat.
Proof.
  revert i. induction bs as [|b bs IH]; intros i; cbn [blocks_stream List.length]; [lia|].
  rewrite length_app. specialize (IH (i + 1)). unfold block_stream. rewrite length_app. simpl. lia.
Qed.

(** The gateway's stream of a response is told as it is said. *)
Lemma response_told idle ctx_err next_err inTokens outTokens bs reason :
  Forall spoken bs -> int32_range inTokens -> int32_range outTokens ->
  Z.of_nat (List.length (body inTokens outTokens bs reason)) + 1 < 2 ^ 63 ->
  consume idle ctx_err next_err 0 (response inTokens outTokens bs reason) fresh
  = (List.concat (List.map block_events bs) ++ (if str_empty reason then [] else [LLMMessageStop reason]), None,
     mkState ∅ reason (Some (inTokens, outTokens))).
Proof.
  intros Hb Hin Hout Hn. unfold response. rewrite numbered_app. unfold messages. rewrite List.map_app.
  fold (messages (numbered 0 (body inTokens outTokens bs reason))).
  assert (Z.of_nat (List.length bs) < 2 ^ 63) as Hbs.
  { pose proof (blocks_length 0 bs). unfold body in Hn. rewrite !length_app in Hn. lia. }
  rewrite consume_run; [|lia|lia|].
  2: { unfold body. apply Forall_app. split; [by repeat constructor|]. apply Forall_app. split; [apply blocks_fit; lia|].
       constructor; [split; [split; [done|done]|done]|]. constructor; [|constructor]. split; [|done]. split; [done|by split]. }
  rewrite body_run by done. cbn [fst snd]. set (k := 0 + Z.of_nat _). cbn [numbered List.map consume].
  rewrite encode_decode; [|cbn [set_seq Seq]; unfold int64_range; lia|done].
  change (Seq (set_seq k (plain "done" 0))) with k. rewrite Z.eqb_refl. cbn. by rewrite app_nil_r.
Qed.
End Response.

(** ** stream.go: one request *)
Module Stream.
Import Retry Payload Node Request Ack Events.

Record outcome := mkOutcome {
  requested : option (string * invokeStreamRequest);   (* the subject and the request sent *)
  emitted : list LLMEvent;
  result : option error;
  timing : state;
}.
Definition build_text (e : build_error) : string :=
  match e with
  | UnsupportedImage mt => "ai/inference-gateway: unsupported image media type " +:+ dquote +:+ mt +:+ dquote
  | DocumentBlock f => "ai/inference-gateway: document blocks are not supported by the gateway (file " +:+ dquote +:+ f +:+ dquote +:+ ")"
  end.

Section stream.
Variable cfg : Config.
(** Raw JSON decodes, so that it encodes as part of a request. *)
Variable valid_json : string -> bool.
(** The connection: a fresh inbox and whether it could be subscribed to; the reply to the
    request (status, body and what it decodes to); the messages on the inbox and how the
    wait after the last of them failed. *)
Variable inbox : string.
Variable subscribe_err : option error.
Variable reply : string -> invokeStreamRequest -> res error (string * string * option json).
Variable arrivals : list (option json).
Variable idle : string.
Variable ctx_err : option error.
Variable next_err : error.

(** [json.Marshal] of a request fails on raw JSON that is not JSON. *)
Definition encodes (w : invokeStreamRequest) : bool :=
  forallb (fun m => forallb (fun b => match b with WToolUse _ _ input => valid_json input | _ => true end) (w_Content m)) (r_Messages w)
  && forallb (fun t => valid_json (ts_InputSchema t)) (r_Tools w).
Definition with_subject (s : string) (w : invokeStreamRequest) : invokeStreamRequest :=
  mkRequest (r_Alias w) (r_System w) (r_Messages w) (r_Tools w) (r_ToolChoice w) (r_ToolChoiceName w) s.
Definition fail (sent : option (string * invokeStreamRequest)) (evs : list LLMEvent) (st : state) (e : error) : outcome :=
  mkOutcome sent (evs ++ [LLMError (Some e)]) (Some e) st.

Definition Stream (subject : string) (req : request) : outcome :=
  match buildRequest req cfg with
  | Err e => fail None [] fresh (EPlain (build_text e))
  | Ok wire =>
      match subscribe_err with
      | Some e => fail None [] fresh (EWrap ("ai/inference-gateway: subscribe " +:+ inbox +:+ ": ") e)
      | None =>
          let wire := with_subject inbox wire in
          if negb (encodes wire) then fail None [] fresh (EPlain "json: error calling MarshalJSON")
          else
            let sent := Some (subject, wire) in
            match reply subject wire with
            | Err e => fail sent [] fresh (EWrap ("ai/inference-gateway: gateway request " +:+ subject +:+ ": ") e)
            | Ok (status, body, decoded) =>
                match parseAck status body decoded with
                | Err e => fail sent [] fresh (EWrap "ai/inference-gateway: " e)
                | Ok _ =>
                    let '(evs, err, st) := consume idle ctx_err next_err 0 arrivals fresh in
                    match err with
                    | Some e => fail sent evs st e
                    | None => mkOutcome sent evs None st
                    end
                end
            end
      end
  end.

(** A failed call says why exactly once, as its last event and as its result; a call
    succeeds only when the gateway accepted the request, sent with the node's alias to its
    subject and with the inbox subscribed to before, and the stream was told in full. *)
Theorem stream_reports subject req :
  let o := Stream subject req in
  match result o with
  | Some e => exists evs, emitted o = evs ++ [LLMError (Some e)] /\ forall e', LLMError e' ∉ evs
  | None =>
      (forall e', LLMError e' ∉ emitted o)
      /\ subscribe_err = None
      /\ (exists w status body decoded a,
            requested o = Some (subject, w) /\ reply subject w = Ok (status, body, decoded)
            /\ r_StreamSubject w = inbox /\ r_Alias w = Alias cfg
            /\ mapM read_message (r_Messages w) = Some (List.map kept_message (Messages (base req)))
            /\ parseAck status body decoded = Ok a)
      /\ exists pre m rest evs ev,
            arrivals = pre ++ m :: rest /\ Forall2 (fun m ev => decode m = Some ev) pre evs
            /\ (forall i ev', evs !! i = Some ev' -> Seq ev' = Z.of_nat i)
            /\ emitted o = (translate_all evs fresh).1
            /\ decode m = Some ev /\ Seq ev = Z.of_nat (List.length evs) /\ Type_ ev = "done"
  end.
Proof using All.
  cbv zeta. unfold Stream. pose proof (request_reads_back req cfg) as (_ & Hb & _).
  destruct (buildRequest req cfg) as [wire|e]; [|exists []; split; [done|set_solver]].
  destruct subscribe_err as [e|] eqn:Es; [exists []; split; [done|set_solver]|].
  destruct (encodes _); cbn [negb]; [|exists []; split; [done|set_solver]].
  destruct (reply subject (with_subject inbox wire)) as [[[status body] decoded]|e] eqn:Er; [|exists []; split; [done|set_solver]].
  destruct (parseAck status body decoded) as [a|e] eqn:Ea; [|exists []; split; [done|set_solver]].
  pose proof (consume_in_order idle ctx_err next_err 0 arrivals fresh) as Ho.
  destruct (consume idle ctx_err next_err 0 arrivals fresh) as [[evs err] st] eqn:Ec.
  destruct err as [e|]; cbn [result emitted fail requested].
  { exists evs. split; [done|]. intros e'. by eapply consume_no_error. }
  split_and!; [intros e'; by eapply consume_no_error|done| |].
  - destruct (Hb wire eq_refl) as (Hm & Hal & _). exists (with_subject inbox wire), status, body, decoded, a. by split_and!.
  - destruct Ho as (pre & rest & l & -> & Hf & Hi & Ht & Hend). apply (f_equal fst) in Ht. cbn in Ht. subst evs.
    destruct rest as [|m rest]; [done|]. cbn in Hend. destruct (decode m) as [ev|] eqn:Em; [|done].
    destruct Hend as [[_ ?]|[(Hs & Hty & _)|(_ & _ & ?)]]; try done.
    exists pre, m, rest, l, ev. split_and!; try done. intros i ev' H. by destruct (Hi i ev' H).
Qed.
End stream.

(** C27: A response that reaches its end through either provider is told to the agent in the
    same events: for a response of text and tool blocks none of whose pieces is empty and
    whose token counts are 32-bit, a request the gateway takes and a stream nothing
    interrupts, what the agent is sent, the success and the reason of the stop are those of
    Bedrock's own stream of that response.  (The two do differ elsewhere: Bedrock passes
    empty pieces on, which the gateway's provider drops, and only the latter tells of
    reasoning.) *)
Theorem providers_agree cfg valid_json inbox reply idle ctx_err next_err subject req
    raw bcfg InvokeModel model lkg p status body decoded a inTokens outTokens bs reason w :
  buildRequest req cfg = Ok w -> encodes valid_json (with_subject inbox w) = true ->
  reply subject (with_subject inbox w) = Ok (status, body, decoded) -> parseAck status body decoded = Ok a ->
  buildAnthropicPayload raw req bcfg model = Some p ->
  InvokeModel model p = Ok (Chunks.response inTokens outTokens bs reason, None) ->
  Forall Response.spoken bs -> Response.int32_range inTokens -> Response.int32_range outTokens ->
  Z.of_nat (List.length (Response.body inTokens outTokens bs reason)) + 1 < 2 ^ 63 ->
  let g := Stream cfg valid_json inbox None reply (Response.response inTokens outTokens bs reason) idle ctx_err next_err subject req in
  let b := Bedrock.Stream.Stream raw bcfg InvokeModel model lkg req in
  emitted g = Bedrock.Stream.emitted b /\ result g = None /\ Bedrock.Stream.result b = None
  /\ stop (timing g) = Chunks.stop (Bedrock.Stream.timing b).
Proof.
  intros Hw He Hr Ha Hp Hi Hs Hin Hout Hn. cbv zeta. unfold Stream. rewrite Hw, He. cbn [negb]. rewrite Hr, Ha.
  rewrite (Response.response_told idle ctx_err next_err) by done. cbn [emitted result timing Events.stop].
  assert (Z.of_nat (List.length bs) < 2 ^ 63) as Hbs.
  { pose proof (Response.blocks_length 0 bs). unfold Response.body in Hn. rewrite !length_app in Hn. lia. }
  assert (int64_range inTokens /\ int64_range outTokens) as [H1 H2] by (unfold int64_range, Response.int32_range in *; lia).
  pose proof (Chunks.response_read inTokens outTokens bs reason H1 H2 Hbs) as Hread.
  unfold Bedrock.Stream.Stream. rewrite Hp, Hi. unfold Bedrock.Stream.consume.
  destruct (Chunks.read_items _ Chunks.fresh) as [[evs err] d]. destruct Hread as (-> & -> & _ & Hst). cbn. by rewrite Hst.
Qed.
End Stream.

(** ** Concrete runs *)
Module InferenceExamples.
Import Retry Payload Node Request Ack Events Stream.

Example node_ex :
  Factory (Some (jobj [("alias", JStr "FAST_TIER"); ("idleTimeoutSeconds", JNum 5)])) = Ok (mkConfig "FAST_TIER" 0 5 "")
  /\ newLLM (mkConfig "FAST_TIER" 0 5 "") = (600 * second, 5 * second)
  /\ List.map (fun a => Factory (Some (jobj [("alias", JStr a)]))) ["claude-opus-5"; "A"; ""]
     = [Err (AliasName "claude-opus-5"); Err (AliasName "A"); Err AliasRequired]
  /\ Factory (Some (jobj [("alias", JStr "FAST"); ("maxTokens", JNum 10)])) = Err ConfigParse /\ Factory None = Err ConfigParse
  /\ invokeSubject " " "dev.gw " = "dev.gw.invokeStream" /\ invokeSubject "" "" = "example.inferenceGateway.invokeStream".
Proof. vm_compute. by split_and!. Qed.

Definition gw_cfg : Config := mkConfig "FAST" 0 0 "".
Definition accepted : json := jobj [("accepted", JBool true); ("invokeId", JStr "m")].
Definition gw_reply (_ : string) (_ : invokeStreamRequest) : res error (string * string * option json) := Ok ("200", "", Some accepted).
Definition ask : request :=
  Payload.mkRequest (Agent.mkRequest "sys" [mkMessage UserMsg [BlockText "hi"; BlockImage "image/jpg" "a.jpg" "xyz"]] []) 0 None [] "".
Definition blocks : list Chunks.block := [Chunks.SText ["Hel"; "lo"]; Chunks.STool "t1" "f" ["{"; "}"]].
Definition gw_run (msgs : list (option json)) : outcome :=
  Stream gw_cfg (fun s => String.eqb s "{}") "_INBOX.1" None gw_reply msgs "2m0s" None (EPlain "timeout") "gw.invokeStream" ask.
Definition good : list (option json) := Response.response 10 5 blocks "tool_use".

Example stream_ex :
  emitted (gw_run good) = [LLMTextDelta "Hel"; LLMTextDelta "lo"; LLMToolUseStart; LLMToolUseDelta; LLMToolUseDelta;
                           LLMToolUseStop (mkToolUse "t1" "f" "{}"); LLMMessageStop "tool_use"]
  /\ result (gw_run good) = None
  /\ emitted (gw_run (take 2 good ++ drop 3 good)) = [LLMTextDelta "Hel"; LLMError (Some (seq_gap 2 3))]
  /\ result (gw_run (take 2 good)) = Some (EWrap "ai/inference-gateway: stream subscription failed: " (EPlain "timeout"))
  /\ emitted (gw_run [None]) = [LLMError (Some bad_event)]
  /\ buildRequest (Payload.mkRequest (Agent.mkRequest "" [mkMessage UserMsg [BlockDocument "application/pdf" "a.pdf" ""]] []) 0 None [] "") gw_cfg
     = Err (DocumentBlock "a.pdf").
Proof. vm_compute. by split_and!. Qed.

Lemma providers_agree_witness :
  exists w p, buildRequest ask gw_cfg = Ok w /\ buildAnthropicPayload (fun _ => None) ask Bedrock.BedrockExamples.cfg "m" = Some p
  /\ emitted (gw_run good)
     = Bedrock.Stream.emitted (Bedrock.Stream.Stream (fun _ => None) Bedrock.BedrockExamples.cfg
         (fun _ _ => Ok (Chunks.response 10 5 blocks "tool_use", None)) "m" "" ask).
Proof.
  destruct (buildRequest ask gw_cfg) as [w|] eqn:Ew; [|vm_compute in Ew; discriminate].
  destruct (buildAnthropicPayload (fun _ => None) ask Bedrock.BedrockExamples.cfg "m") as [p|] eqn:Ep; [|vm_compute in Ep; discriminate].
  exists w, p. split; [reflexivity|]. split; [reflexivity|].
  refine (proj1 (providers_agree gw_cfg (fun s => String.eqb s "{}") "_INBOX.1" gw_reply "2m0s" None (EPlain "timeout") "gw.invokeStream" ask
    (fun _ => None) Bedrock.BedrockExamples.cfg (fun _ _ => Ok (Chunks.response 10 5 blocks "tool_use", None)) "m" "" p
    "200" "" (Some accepted) (mkAck true "m" ∅ []) 10 5 blocks "tool_use" w Ew _ eq_refl _ Ep eq_refl _ _ _ _)).
  - vm_compute in Ew. injection Ew as <-. reflexivity.
  - reflexivity.
  - repeat constructor; discriminate.
  - unfold Response.int32_range. lia.
  - unfold Response.int32_range. lia.
  - vm_compute. reflexivity.
Defined.
End InferenceExamples.
