(* ===== verification/Dynamo.v ===== *)
(** * The key-value tables behind the conversation memory and the prompt store

    Both stores use DynamoDB the same way: items under a partition key, ordered by a sort
    key, written only if absent and read newest first.  The file states that contract as
    an interface ([Table], [TableOk]), gives a reference instance, and proves what the
    stores build on it: time-stamped sort keys order items by time, and a newer item comes
    first.  [Provision] is the start-up of a table. *)

From S2P Require Import Prelude Json Scan.
From stdpp Require Import base tactics list strings gmap option sorting.
From Stdlib Require Import ZArith Lia Ascii String.
Local Open Scope string_scope.
Local Open Scope list_scope.
Local Open Scope Z_scope.

(** ** Sort keys *)

(** [%0wd] *)
Definition digit (n : Z) : string := String (ascii_of_nat (48 + Z.to_nat n)) "".
Fixpoint digits (w : nat) (n : Z) : string :=
  match w with
  | O => ""
  | S w => digits w (n / 10) +:+ digit (n mod 10)
  end.
Definition zero_padded (w : nat) (n : Z) : string :=
  if (0 <=? n) && (n <? 10 ^ Z.of_nat w) then digits w n else print_Z n.

(** Key order: the byte order of the texts. *)
Definition before (a b : string) : Prop := String.compare a b = Lt.
#[export] Instance before_dec a b : Decision (before a b).
Proof. unfold before. destruct (String.compare a b); [right|left|right]; done. Defined.

Lemma key_compare_refl s : String.compare s s = Eq.
Proof. induction s as [|c s IH]; [done|]. simpl. by rewrite (proj2 (Ascii.compare_eq_iff c c) eq_refl) || (unfold Ascii.compare; rewrite N.compare_refl). Qed.
Lemma before_irrefl a : ~ before a a.
Proof. unfold before. by rewrite key_compare_refl. Qed.
#[export] Instance before_trans : Transitive before.
Proof.
  intros a b c H1 H2. assert (String.le a c) as H.
  { transitivity b; unfold String.le, String.leb; unfold before in *; [by rewrite H1|by rewrite H2]. }
  unfold before. unfold String.le, String.leb in H. destruct (String.compare a c) eqn:E; try done.
  apply String.compare_eq_iff in E as ->. unfold before in *. rewrite String.compare_antisym, H2 in H1. done.
Qed.
Lemma before_neq a b : before a b -> a <> b.
Proof. intros H ->. by apply (before_irrefl b). Qed.

Lemma digits_length w n : String.length (digits w n) = w.
Proof.
  revert n. induction w as [|w IH]; intros n; [done|]. simpl.
  assert (forall a b, String.length (a +:+ b) = (String.length a + String.length b)%nat) as Ha.
  { clear. intros a b. induction a as [|c a IH]; simpl; [done|]. f_equal. apply IH. }
  rewrite Ha, IH. simpl. lia.
Qed.
Lemma compare_app a b x y : String.length a = String.length b ->
  String.compare (a +:+ x) (b +:+ y) = match String.compare a b with Eq => String.compare x y | c => c end.
Proof.
  revert b. induction a as [|c a IH]; intros [|d b] H; try done. injection H as H.
  change (String c a +:+ x) with (String c (a +:+ x)). change (String d b +:+ y) with (String d (b +:+ y)).
  simpl. destruct (Ascii.compare c d); [by apply IH|done|done].
Qed.
Lemma digit_compare a b : 0 <= a < 10 -> 0 <= b < 10 -> String.compare (digit a) (digit b) = Z.compare a b.
Proof.
  intros Ha Hb. unfold digit. cbn [String.compare]. unfold Ascii.compare.
  assert (forall n, 0 <= n < 10 -> N_of_ascii (ascii_of_nat (48 + Z.to_nat n)) = (48 + Z.to_N n)%N) as E.
  { intros n Hn. unfold ascii_of_nat. rewrite N_ascii_embedding by lia. lia. }
  rewrite !E by done. destruct (Z.compare_spec a b) as [H|H|H]; destruct (N.compare_spec (48 + Z.to_N a) (48 + Z.to_N b)); first [reflexivity|lia].
Qed.
Lemma digits_compare w a b : 0 <= a < 10 ^ Z.of_nat w -> 0 <= b < 10 ^ Z.of_nat w ->
  String.compare (digits w a) (digits w b) = Z.compare a b.
Proof.
  revert a b. induction w as [|w IH]; intros a b Ha Hb.
  { simpl in *. assert (a = 0) as -> by lia. assert (b = 0) as -> by lia. done. }
  rewrite Nat2Z.inj_succ, Z.pow_succ_r in Ha, Hb by lia. cbn [digits]. rewrite compare_app by (by rewrite !digits_length).
  rewrite IH by (Z.to_euclidean_division_equations; lia).
  rewrite digit_compare by (apply Z.mod_pos_bound; lia).
  destruct (Z.compare_spec (a / 10) (b / 10)); destruct (Z.compare_spec (a mod 10) (b mod 10));
    destruct (Z.compare_spec a b); try done; exfalso; Z.to_euclidean_division_equations; lia.
Qed.

(** Zero-padded times are ordered as the times. *)
Lemma zero_padded_before w a b : 0 <= a < 10 ^ Z.of_nat w -> 0 <= b < 10 ^ Z.of_nat w ->
  before (zero_padded w a) (zero_padded w b) <-> a < b.
Proof.
  intros Ha Hb. unfold before, zero_padded.
  replace ((0 <=? a) && (a <? 10 ^ Z.of_nat w)) with true by (symmetry; apply andb_true_iff; lia).
  replace ((0 <=? b) && (b <? 10 ^ Z.of_nat w)) with true by (symmetry; apply andb_true_iff; lia).
  rewrite digits_compare by done. apply Z.compare_lt_iff.
Qed.

(** Keys joined with a number sign read back when it is in none of their first parts. *)
Lemma sharp_inj a b x y : str_lacks "#" a = true -> str_lacks "#" b = true -> a +:+ String "#" x = b +:+ String "#" y -> a = b /\ x = y.
Proof.
  revert b. induction a as [|c a IH]; intros [|d b] Ha Hb He.
  - by injection He as ->.
  - injection He as <- _. by simpl in Hb.
  - injection He as -> _. by simpl in Ha.
  - simpl in Ha, Hb. apply andb_true_iff in Ha as [_ Ha]. apply andb_true_iff in Hb as [_ Hb].
    injection He as -> He. by destruct (IH b Ha Hb He) as [-> ->].
Qed.
(** ** The table *)

Class Table (A T : Type) := {
  (** [Query] of a partition key, [ScanIndexForward = false], without limit *)
  query : T -> string -> list (string * A);
  (** puts under [attribute_not_exists], all or none: [None] is a failed condition *)
  put_absent : string -> list (string * A) -> T -> option T;
}.

Definition newer {A} (x y : string * A) : Prop := before y.1 x.1.

Class TableOk (A T : Type) `{Table A T} := {
  query_sorted : forall t pk, StronglySorted newer (query t pk);
  put_absent_none : forall pk items t, NoDup items.*1 ->
    put_absent pk items t = None <-> exists sk, sk ∈ items.*1 /\ sk ∈ (query t pk).*1;
  put_absent_some : forall pk items t t', NoDup items.*1 -> put_absent pk items t = Some t' ->
    query t' pk ≡ₚ items ++ query t pk /\ forall pk', pk' <> pk -> query t' pk' = query t pk';
}.

#[export] Instance newer_antisymm {A} : AntiSymm (=) (@newer A).
Proof. intros x y H1 H2. unfold newer in *. exfalso. eapply before_irrefl. by transitivity y.1. Qed.

Lemma sorted_nodup {A} (l : list (string * A)) : StronglySorted newer l -> NoDup l.*1.
Proof.
  intros Hs. induction Hs as [|x l Hs IH Hf]; [constructor|]. cbn. constructor; [|done].
  intros (y & Hy & Hin)%list_elem_of_fmap. rewrite Forall_forall in Hf. specialize (Hf y Hin). unfold newer in Hf. rewrite Hy in Hf.
  by apply before_irrefl in Hf.
Qed.
Lemma sorted_over {A} (l1 l2 : list (string * A)) :
  StronglySorted newer l1 -> StronglySorted newer l2 -> (forall x y, x ∈ l1 -> y ∈ l2 -> newer x y) -> StronglySorted newer (l1 ++ l2).
Proof.
  intros Hs Hs2 Hn. induction l1 as [|x l1 IH]; [done|]. cbn. apply StronglySorted_inv in Hs as [Hs Hf]. constructor.
  - apply IH; [done|]. intros a b Ha Hb. apply Hn; [by right|done].
  - apply Forall_app. split; [done|]. apply Forall_forall. intros y Hy. apply Hn; [by left|done].
Qed.

(** Items newer than all there are come first, the newest of them first. *)
Lemma put_newest {A T} `{TableOk A T} pk items sorted (t t' : T) :
  sorted ≡ₚ items -> StronglySorted newer sorted -> (forall x y, x ∈ items -> y ∈ query t pk -> newer x y) ->
  put_absent pk items t = Some t' ->
  query t' pk = sorted ++ query t pk /\ forall pk', pk' <> pk -> query t' pk' = query t pk'.
Proof.
  intros Hp Hs Hn Hput. assert (NoDup items.*1) as Hd by (rewrite <- Hp; by apply sorted_nodup).
  destruct (put_absent_some pk items t t' Hd Hput) as [Hq Ho]. split; [|done].
  apply (StronglySorted_unique newer); [apply query_sorted| |by rewrite Hp].
  apply sorted_over; [done|apply query_sorted|]. intros x y Hx. apply Hn. by rewrite <- Hp.
Qed.
Lemma put_newest_ok {A T} `{TableOk A T} pk items (t : T) :
  NoDup items.*1 -> (forall x y, x ∈ items -> y ∈ query t pk -> newer x y) -> is_Some (put_absent pk items t).
Proof.
  intros Hd Hn. destruct (put_absent pk items t) eqn:E; [by eexists|]. exfalso.
  apply put_absent_none in E as (sk & H1 & H2); [|done].
  apply list_elem_of_fmap in H1 as (x & -> & H1). apply list_elem_of_fmap in H2 as (y & Hy & H2).
  specialize (Hn x y H1 H2). unfold newer in Hn. rewrite Hy in Hn. by apply before_irrefl in Hn.
Qed.

(** ** A reference table: partitions as maps from sort key to item *)
Section reference.
Context {A : Type}.

#[local] Abbreviation table := (gmap string (gmap string A)).
Definition older_or_same (x y : string * A) : Prop := String.le y.1 x.1.
#[local] Instance older_or_same_dec : RelDecision older_or_same.
Proof. intros x y. unfold older_or_same. apply _. Defined.
#[local] Instance older_or_same_total : Total older_or_same.
Proof. intros x y. unfold older_or_same. destruct (total String.le x.1 y.1); [by right|by left]. Qed.
#[local] Instance older_or_same_trans : Transitive older_or_same.
Proof. intros x y z H1 H2. unfold older_or_same in *. by transitivity y.1. Qed.

Definition partition_of (t : table) (pk : string) : gmap string A := default ∅ (t !! pk).
#[export] Instance reference_table : Table A table := {
  query t pk := merge_sort older_or_same (map_to_list (partition_of t pk));
  put_absent pk items t :=
    if existsb (fun i => bool_decide (is_Some (partition_of t pk !! i.1))) items then None
    else Some (<[pk := list_to_map items ∪ partition_of t pk]> t);
}.

Lemma query_perm t pk : query t pk ≡ₚ map_to_list (partition_of t pk).
Proof. cbn. apply merge_sort_Permutation. Qed.
Lemma strict_of_sorted (l : list (string * A)) : NoDup l.*1 -> StronglySorted older_or_same l -> StronglySorted newer l.
Proof.
  intros Hd Hs. induction Hs as [|x l Hs IH Hf]; [constructor|]. cbn in Hd. apply NoDup_cons in Hd as [Hx Hd].
  constructor; [by apply IH|]. rewrite Forall_forall in *. intros y Hy. specialize (Hf y Hy).
  unfold newer, before, older_or_same, String.le, String.leb in *. destruct (String.compare y.1 x.1) eqn:E; try done.
  apply String.compare_eq_iff in E. destruct Hx. apply list_elem_of_fmap. by exists y.
Qed.

#[export] Instance reference_table_ok : TableOk A table.
Proof.
  split.
  - intros t pk. apply strict_of_sorted.
    + rewrite query_perm. apply NoDup_fst_map_to_list.
    + apply StronglySorted_merge_sort; apply _.
  - intros pk items t Hd. cbn [put_absent reference_table].
    assert (forall sk, sk ∈ (query t pk).*1 <-> is_Some (partition_of t pk !! sk)) as Hq.
    { intros sk. rewrite query_perm, list_elem_of_fmap. split.
      - intros ([k a] & -> & H). apply elem_of_map_to_list in H. by eexists.
      - intros [a Ha]. exists (sk, a). by rewrite elem_of_map_to_list. }
    destruct (existsb _ items) eqn:E; split; try done.
    + intros _. apply existsb_exists in E as ([sk a] & Hin & Hb%bool_decide_eq_true). apply list_elem_of_In in Hin.
      exists sk. split; [apply list_elem_of_fmap; by exists (sk, a)|by apply Hq].
    + intros (sk & H1 & H2%Hq). apply list_elem_of_fmap in H1 as ([k a] & -> & Hin).
      apply not_true_iff_false in E. destruct E. apply existsb_exists. exists (k, a). split; [by apply list_elem_of_In|by apply bool_decide_eq_true].
  - intros pk items t t' Hd. cbn [put_absent reference_table]. destruct (existsb _ items) eqn:E; [done|]. intros [= <-]. split.
    + rewrite !query_perm. set (m := list_to_map items ∪ partition_of t pk).
      assert (partition_of (<[pk := m]> t) pk = m) as -> by (unfold partition_of; by rewrite lookup_insert_eq). unfold m.
      assert (list_to_map items ##ₘ partition_of t pk) as Hdisj.
      { apply map_disjoint_spec. intros k a b H1 H2. apply elem_of_list_to_map_2 in H1.
        apply not_true_iff_false in E. destruct E. apply existsb_exists. exists (k, a).
        split; [by apply list_elem_of_In|]. apply bool_decide_eq_true. by eexists. }
      apply NoDup_Permutation; [apply NoDup_map_to_list| |].
      * apply NoDup_app. split_and!; [by eapply NoDup_fmap_1| |apply NoDup_map_to_list].
        intros [k a] H1 H2. apply elem_of_map_to_list in H2. apply elem_of_list_to_map in H1; [|done].
        by eapply map_disjoint_spec.
      * intros [k a]. rewrite elem_of_app, !elem_of_map_to_list, lookup_union_Some by done. by rewrite <- elem_of_list_to_map.
    + intros pk' Hne. cbn. unfold partition_of. by rewrite lookup_insert_ne.
Qed.
End reference.

(** ** Start-up of a table (promptstore/provision.go, dynamomemory/provision.go) *)
Module Provision.

Inductive status := TableActive | TableOther (s : string).
Inductive failure := NotFound | InUse | OtherError (e : string).
Inductive provision_error :=
| DescribeTable (e : string)
| CreateTable (e : string)
| PollTable (e : failure)
| Cancelled (e : string)
| NeverActive.

Definition interval : Z := 2 * 1000000000.
Definition tableActiveBudget : Z := 60 * 1000000000.

Section poll.
(** The clock at each check of the deadline, what a wait ends with when the context is
    done first, and what each poll describes: [None] is not ready. *)
Context {E : Type}.
Variable now : nat -> Z.
Variable ctx_done : nat -> option string.
Variable poll : nat -> res E bool.
Variable cancelled : string -> E.
Variable never : E.

(** [for time.Now().Before(deadline) { select { ... }; poll }] *)
Fixpoint poll_until (fuel : nat) (i : nat) (deadline : Z) : option (option E) :=
  match fuel with
  | O => None
  | S fuel =>
      if now i <? deadline then
        match ctx_done i with
        | Some e => Some (Some (cancelled e))
        | None =>
            match poll i with
            | Err e => Some (Some e)
            | Ok true => Some None
            | Ok false => poll_until fuel (S i) deadline
            end
        end
      else Some (Some never)
  end.

(** With a clock that advances by the poll interval between two checks, the loop ends
    within the budget: 30 polls for a table, 15 for its expiry. *)
Lemma poll_until_ends start budget fuel i :
  (forall j, start + Z.of_nat j * interval <= now j) ->
  budget <= (Z.of_nat fuel + Z.of_nat i - 1) * interval -> (0 < fuel)%nat ->
  is_Some (poll_until fuel i (start + budget)).
Proof using.
  intros Hc. revert i. induction fuel as [|fuel IH]; intros i Hb Hf; [lia|]. simpl.
  destruct (Z.ltb_spec (now i) (start + budget)) as [Hlt|]; [|by eexists].
  destruct (ctx_done i); [by eexists|]. destruct (poll i) as [[]|]; [by eexists| |by eexists].
  specialize (Hc i). assert (budget > Z.of_nat i * interval) by lia. unfold interval in *.
  destruct fuel as [|fuel]; [lia|]. apply IH; lia.
Qed.
(** Success only after a poll that found it ready; the readiness is found at the first
    such poll. *)
Lemma poll_until_ready fuel i deadline :
  poll_until fuel i deadline = Some None -> exists j, (i <= j)%nat /\ poll j = Ok true /\ now j < deadline
    /\ forall k, (i <= k < j)%nat -> poll k = Ok false.
Proof using.
  revert i. induction fuel as [|fuel IH]; intros i; simpl; [done|].
  destruct (Z.ltb_spec (now i) deadline); [|done]. destruct (ctx_done i); [done|].
  destruct (poll i) as [[]|] eqn:Ep; [| |done].
  - intros _. exists i. split_and!; [done|done|done|lia].
  - intros Hp. destruct (IH _ Hp) as (j & Hj & Hr & Hn & Hk). exists j. split_and!; [lia|done|done|].
    intros k Hk'. destruct (decide (k = i)) as [->|]; [done|]. apply Hk. lia.
Qed.
End poll.

Section provision.
Variable now : nat -> Z.
Variable ctx_done : nat -> option string.
Variable describe : res failure status.
Variable create : option failure.
Variable poll : nat -> res failure status.

Definition polled (i : nat) : res provision_error bool :=
  match poll i with
  | Err e => Err (PollTable e)
  | Ok TableActive => Ok true
  | Ok (TableOther _) => Ok false
  end.
Definition poll_fuel : nat := 31.
Definition waitActive (current : status) : option (option provision_error) :=
  match current with
  | TableActive => Some None
  | TableOther _ => poll_until now ctx_done polled Cancelled NeverActive poll_fuel 0 (now 0%nat + tableActiveBudget)
  end.
(** [Provision], [ensureTable]: whether the table was created, and the error. *)
Definition ensureTable : bool * option (option provision_error) :=
  match describe with
  | Ok s => (false, waitActive s)
  | Err NotFound =>
      match create with
      | None | Some InUse => (true, waitActive (TableOther "CREATING"))
      | Some NotFound => (true, Some (Some (CreateTable "not found")))
      | Some (OtherError e) => (true, Some (Some (CreateTable e)))
      end
  | Err InUse => (false, Some (Some (DescribeTable "in use")))
  | Err (OtherError e) => (false, Some (Some (DescribeTable e)))
  end.

Definition ready (s : res failure status) : bool := match s with Ok TableActive => true | _ => false end.

(** Start-up always ends, creates the table exactly when the service says that there is
    none, and succeeds only on a table that was seen active. *)
Theorem ensureTable_spec :
  (forall j, now 0%nat + Z.of_nat j * interval <= now j) ->
  let '(created, r) := ensureTable in
  is_Some r /\ (created = true <-> describe = Err NotFound)
  /\ (r = Some None -> ready describe = true \/ exists j, ready (poll j) = true).
Proof using.
  intros Hc. unfold ensureTable.
  assert (forall s, is_Some (waitActive s) /\ (waitActive s = Some None -> s = TableActive \/ exists j, ready (poll j) = true)) as Hw.
  { intros [|s]; [split; [by eexists|by left]|]. cbn [waitActive]. split.
    - apply poll_until_ends; [done| |unfold poll_fuel; lia]. unfold tableActiveBudget, interval, poll_fuel. lia.
    - intros H. apply poll_until_ready in H as (j & _ & Hr & _). right. exists j. unfold polled in Hr. by destruct (poll j) as [[]|]. }
  destruct describe as [s|[]]; [| |by split_and!; [eexists|..]..].
  - destruct (Hw s) as [H1 H2]. split_and!; [done|done|]. intros H. destruct (H2 H) as [->|]; [by left|by right].
  - destruct (Hw (TableOther "CREATING")) as [H1 H2].
    destruct create as [[]|]; split_and!; try done; try (by eexists); intros H; destruct (H2 H) as [|]; try done; by right.
Qed.
End provision.

(** *** ensureTTL: expiry of items (dynamomemory/provision.go) *)
Inductive ttl_status := TTLEnabled (attribute : string) | TTLEnabling | TTLOff.
Inductive ttl_error :=
| DescribeTTL (e : string)
| TTLOnOther (attribute : string)
| UpdateTTL (e : string)
| PollTTL (e : string)
| TTLCancelled (e : string)
| NeverEnabled.
Definition ttlAttribute : string := "expires_at".
Definition ttlEnableBudget : Z := 30 * 1000000000.

Section ttl.
Variable now : nat -> Z.
Variable ctx_done : nat -> option string.
(** What the service describes first and at each poll, and the update's failure; a missing
    description is [TTLOff]. *)
Variable describe : res string ttl_status.
Variable update : option failure.
Variable poll : nat -> res string ttl_status.

Definition ttl_polled (i : nat) : res ttl_error bool :=
  match poll i with
  | Err e => Err (PollTTL e)
  | Ok (TTLEnabled _) => Ok true
  | Ok _ => Ok false
  end.
Definition ttl_fuel : nat := 16.
Definition waitTTLEnabled : option (option ttl_error) :=
  poll_until now ctx_done ttl_polled TTLCancelled NeverEnabled ttl_fuel 0 (now 0%nat + ttlEnableBudget).
(** The attribute an update was sent for, and the error. *)
Definition ensureTTL : option string * option (option ttl_error) :=
  match describe with
  | Err e => (None, Some (Some (DescribeTTL e)))
  | Ok (TTLEnabled a) => (None, Some (if String.eqb a ttlAttribute then None else Some (TTLOnOther a)))
  | Ok TTLEnabling => (None, waitTTLEnabled)
  | Ok TTLOff =>
      (Some ttlAttribute,
       match update with
       | None | Some InUse => waitTTLEnabled
       | Some NotFound => Some (Some (UpdateTTL "not found"))
       | Some (OtherError e) => Some (Some (UpdateTTL e))
       end)
  end.

(** Enabling expiry always ends; it changes the table's setting only when expiry is off,
    never takes over another attribute, and succeeds only once the service showed expiry
    enabled. *)
Theorem ensureTTL_spec :
  (forall j, now 0%nat + Z.of_nat j * interval <= now j) ->
  let '(updated, r) := ensureTTL in
  is_Some r /\ (is_Some updated <-> describe = Ok TTLOff) /\ (forall a, updated = Some a -> a = ttlAttribute)
  /\ (forall a, describe = Ok (TTLEnabled a) -> r = Some None <-> a = ttlAttribute)
  /\ (r = Some None -> (exists a, describe = Ok (TTLEnabled a)) \/ exists j a, poll j = Ok (TTLEnabled a)).
Proof using.
  intros Hc. unfold ensureTTL.
  assert (is_Some waitTTLEnabled /\ (waitTTLEnabled = Some None -> exists j a, poll j = Ok (TTLEnabled a))) as [Hw1 Hw2].
  { split; [apply poll_until_ends; [done|..]; unfold ttl_fuel, ttlEnableBudget, interval; lia|].
    intros H. apply poll_until_ready in H as (j & _ & Hr & _). exists j. unfold ttl_polled in Hr.
    destruct (poll j) as [[a| |]|]; [by exists a|done..]. }
  destruct describe as [[a| |]|e].
  - destruct (String.eqb_spec a ttlAttribute) as [->|]; split_and!; try done; try (by eexists); try (by intros [? ?]);
      try (intros b [= <-]; by split); intros _; left; by eexists.
  - split_and!; try done; try (by intros [? ?]); intros H; right; by apply Hw2.
  - destruct update as [[]|]; split_and!; try done; try (by eexists); try (by intros a [= <-]); intros H; right; by apply Hw2.
  - split_and!; try done; try (by eexists); by intros [? ?].
Qed.
End ttl.
End Provision.
