(* ===== verification/Memory.v ===== *)
(** * Conversation memories (pkg/workflow/builtin/dynamomemory and pgmemory)

    - [Content]: the stored form of a message;
    - [DynamoMemory]: the DynamoDB memory over the table interface of Dynamo.v, and its refinement
      of a log of turns per session;
    - [PgMemory]: the Postgres memory, its migrations, and what it loads.

    The abstract memory both stand for is a log of turns for each key, read back as its
    last [MaxTurns] turns.  The services are the table interface and the row store below;
    expiry of items is the service's own and left out. *)

From S2P Require Import Prelude Json Scan Agent Dynamo.
From stdpp Require Import base tactics list strings gmap option sorting.
From Stdlib Require Import ZArith Lia Ascii String.
Local Open Scope string_scope.
Local Open Scope list_scope.
Local Open Scope Z_scope.

(** ** The abstract memory *)
Definition turn_messages (t : Turn) : list Message := [User t; Assistant t].
Definition log_messages (l : list Turn) : list Message := flat_map turn_messages l.
(** The last [n] elements. *)
Definition lastn {A} (n : nat) (l : list A) : list A := drop (List.length l - n) l.

#[export] Instance MemoryKey_eq_dec : EqDecision MemoryKey.
Proof. solve_decision. Defined.

(** Appends, and the turns they leave under a key. *)
Definition turns_of (key : MemoryKey) (appends : list (MemoryKey * Turn)) : list Turn :=
  omap (fun kt => if decide (kt.1 = key) then Some kt.2 else None) appends.

(** ** What is stored of a message *)
Module Content.

Definition role_text (r : MessageRole) : string := match r with UserMsg => "user" | AssistantMsg => "assistant" | SystemMsg => "system" end.
Definition text_role (s : string) : MessageRole :=
  if String.eqb s "user" then UserMsg else if String.eqb s "assistant" then AssistantMsg else SystemMsg.

Section content.
(** Raw JSON inside a block decodes. *)
Variable raw : string -> option json.

Definition data_json (d : string) : json := if str_empty d then JNull else JStr (base64_encode d).
Definition block_json (ty text id name : string) (input result : json) (isError : bool) (mt fn data : string) : json :=
  jobj [("Type", JStr ty); ("Text", JStr text); ("ToolUseID", JStr id); ("ToolName", JStr name); ("ToolInput", input);
        ("ToolResult", result); ("IsError", JBool isError); ("MediaType", JStr mt); ("Filename", JStr fn); ("Data", data_json data)].
Definition raw_json (s : string) : option json := if str_empty s then Some JNull else raw s.

(** [json.Marshal] of a block; [None] is raw JSON that does not encode. *)
Definition encode_block (b : ContentBlock) : option json :=
  match b with
  | BlockText t => Some (block_json "text" t "" "" JNull JNull false "" "" "")
  | BlockToolUse id name input => v ← raw_json input; Some (block_json "tool_use" "" id name v JNull false "" "" "")
  | BlockToolResult id result isError => v ← raw_json result; Some (block_json "tool_result" "" id "" JNull v isError "" "" "")
  | BlockImage mt fn data => Some (block_json "image" "" "" "" JNull JNull false mt fn data)
  | BlockDocument mt fn data => Some (block_json "document" "" "" "" JNull JNull false mt fn data)
  end.
Definition encode_content (bs : list ContentBlock) : option json := JArr <$> mapM encode_block bs.

Definition dec_data (v : option json) : option string :=
  match v with None | Some JNull => Some "" | Some (JStr s) => base64_decode s | _ => None end.
Definition raw_text (v : option json) : string := match v with Some v => marshal v | None => "" end.
Definition decode_block (v : json) : option ContentBlock :=
  m ← dec_struct (Some v);
  ty ← dec_str (m !! "Type"); text ← dec_str (m !! "Text"); id ← dec_str (m !! "ToolUseID"); name ← dec_str (m !! "ToolName");
  isError ← dec_bool (m !! "IsError"); mt ← dec_str (m !! "MediaType"); fn ← dec_str (m !! "Filename"); data ← dec_data (m !! "Data");
  if String.eqb ty "text" then Some (BlockText text)
  else if String.eqb ty "tool_use" then Some (BlockToolUse id name (raw_text (m !! "ToolInput")))
  else if String.eqb ty "tool_result" then Some (BlockToolResult id (raw_text (m !! "ToolResult")) (default false isError))
  else if String.eqb ty "image" then Some (BlockImage mt fn data)
  else if String.eqb ty "document" then Some (BlockDocument mt fn data)
  else None.
(** A content attribute: the document stored, [None] for the empty text a failed encoding
    leaves. *)
Definition decode_content (c : option json) : option (list ContentBlock) :=
  v ← c; l ← dec_list Some (Some v); mapM decode_block (default [] l).

(** Blocks without raw JSON: all that a turn stores. *)
Definition storable (b : ContentBlock) : Prop :=
  match b with BlockToolUse _ _ _ | BlockToolResult _ _ _ => False | _ => True end.
Definition storable_message (m : Message) : Prop := Forall storable (Content m).
Definition storable_turn (t : Turn) : Prop := storable_message (User t) /\ storable_message (Assistant t).

Lemma data_read d : dec_data (Some (data_json d)) = Some d.
Proof using.
  unfold data_json. destruct (str_empty d) eqn:E; [by apply str_empty_true in E as ->|]. cbn. apply base64_roundtrip.
Qed.
Lemma block_roundtrip b : storable b -> exists v, encode_block b = Some v /\ decode_block v = Some b.
Proof using.
  assert (forall ty text mt fn data,
    decode_block (block_json ty text "" "" JNull JNull false mt fn data)
    = if String.eqb ty "text" then Some (BlockText text)
      else if String.eqb ty "tool_use" then Some (BlockToolUse "" "" "null")
      else if String.eqb ty "tool_result" then Some (BlockToolResult "" "null" false)
      else if String.eqb ty "image" then Some (BlockImage mt fn data)
      else if String.eqb ty "document" then Some (BlockDocument mt fn data) else None) as H.
  { intros. unfold decode_block, block_json, jobj. cbn [dec_struct mbind option_bind].
    assert (forall k v l k', (list_to_map ((k, v) :: l) : gmap string json) !! k' = if String.eqb k k' then Some v else (list_to_map l : gmap string json) !! k') as Hl.
    { intros k v l k'. cbn. destruct (String.eqb_spec k k') as [->|]; [by rewrite lookup_insert_eq|by rewrite lookup_insert_ne]. }
    rewrite !Hl. cbn -[dec_data data_json list_to_map]. by rewrite data_read. }
  destruct b as [t|id name input|id result isError|mt fn data|mt fn data]; intros Hb; try done; cbn [encode_block]; eexists; (split; [reflexivity|]); by rewrite H.
Qed.
Lemma content_roundtrip bs : Forall storable bs -> exists c, encode_content bs = Some c /\ decode_content (Some c) = Some bs.
Proof using.
  intros H. assert (exists vs, mapM encode_block bs = Some vs /\ mapM decode_block vs = Some bs) as (vs & H1 & H2).
  { induction H as [|b bs Hb _ (vs & IH1 & IH2)]; [by exists []|]. destruct (block_roundtrip b Hb) as (v & Hv & Hd).
    exists (v :: vs). simpl. rewrite Hv, Hd. simpl. by rewrite IH1, IH2. }
  exists (JArr vs). unfold encode_content. rewrite H1. split; [done|]. cbn.
  assert (mapM (M := option) Some vs = Some vs) as ->; [|done]. clear. induction vs as [|v vs IH]; [done|]. cbn. by rewrite IH.
Qed.

(** What the agent stores of a turn is storable. *)
Lemma stored_user m : storable_message (messageForMemory m).
Proof using.
  clear. unfold messageForMemory, storable_message.
  assert (Forall storable (List.filter is_text (Agent.Content m))) as H.
  { apply Forall_forall. intros b Hb. apply list_elem_of_In, filter_In in Hb as [_ Hb]. by destruct b. }
  destruct (List.map attachmentRef _); [done|]. by constructor.
Qed.
Lemma stored_assistant m : storable_message (textOnlyMessage m).
Proof using.
  clear. unfold textOnlyMessage, storable_message. cbn.
  apply Forall_forall. intros b Hb. apply list_elem_of_In, filter_In in Hb as [_ Hb]. by destruct b.
Qed.
End content.
End Content.

(** ** dynamomemory *)
Module DynamoMemory.
Import Content.

Record Config := mkConfig { TableName : string; Region : string; MaxTurns : Z; TTLDays : Z }.
Inductive config_error := ConfigParse | TableNameRequired | TableNameInvalid (s : string) | TTLInvalid (n : Z).

(** [^[a-zA-Z0-9_.-]{3,255}$] *)
Definition name_char (c : ascii) : bool :=
  is_lower c || is_upper c || is_digit c || Ascii.eqb c "_" || Ascii.eqb c "." || Ascii.eqb c "-".
Definition tableNamePattern (s : string) : bool :=
  str_all name_char s && (3 <=? String.length s)%nat && (String.length s <=? 255)%nat.
Definition or_default (n d : Z) : Z := if n =? 0 then d else n.
Definition Factory (raw : json) : res config_error Config :=
  match (m ← dec_struct (Some raw);
         name ← dec_str (m !! "tableName"); region ← dec_str (m !! "region");
         turns ← dec_int (m !! "maxTurns"); days ← dec_int (m !! "ttlDays");
         Some (name, region, default 0 turns, default 0 days)) with
  | None => Err ConfigParse
  | Some (name, region, turns, days) =>
      if str_empty name then Err TableNameRequired
      else if negb (tableNamePattern name) then Err (TableNameInvalid name)
      else if days <? 0 then Err (TTLInvalid days)
      else Ok (mkConfig name (if str_empty region then "us-east-1" else region) (or_default turns 30) (or_default days 90))
  end.

Record Item := mkItem {
  it_role : string;
  it_content : option json;
  it_created_ms : Z;
  it_expires_at : Z;
}.

Definition buildPK (k : MemoryKey) : string :=
  mk_WorkflowID k +:+ "#" +:+ mk_AccountID k +:+ "#" +:+ mk_UserID k +:+ "#" +:+ mk_SessionID k.
Definition wrap32 (z : Z) : Z := (z + 2 ^ 31) mod 2 ^ 32 - 2 ^ 31.

Section memory.
Context {T : Type} `{TableOk Item T}.
Variable cfg : Config.
Variable raw : string -> option json.

Definition limit : Z := wrap32 (wrap64 (MaxTurns cfg * 2)).

Definition decode_item (i : string * Item) : option Message :=
  bs ← decode_content (it_content i.2); Some (mkMessage (text_role (it_role i.2)) bs).
(** [Load]; [failure] is what the query fails with, a limit below 1 included. *)
Definition Load (failure : option Retry.error) (key : MemoryKey) (t : T) : res Retry.error (list Message) :=
  match failure with
  | Some e => Err e
  | None =>
      match mapM decode_item (take (Z.to_nat limit) (query t (buildPK key))) with
      | None => Err (Retry.EPlain "memory/dynamodb: decode content")
      | Some msgs => Ok (List.rev msgs)
      end
  end.

Definition sk (now seq : Z) : string := zero_padded 13 now +:+ "#" +:+ print_Z seq.
Definition item_of (now : Z) (m : Message) : Item :=
  mkItem (role_text (Role m)) (encode_content raw (Agent.Content m)) now
    ((now + wrap64 (TTLDays cfg * 24 * 3600 * 1000000000) / 1000000) / 1000).
Definition turn_items (now : Z) (t : Turn) : list (string * Item) :=
  [(sk now 0, item_of now (User t)); (sk now 1, item_of now (Assistant t))].
Definition appendOnce (now : Z) (key : MemoryKey) (turn : Turn) (t : T) : option T :=
  put_absent (buildPK key) (turn_items now turn) t.

Definition maxAppendRetries : nat := 5.
(** [Append]: the clock in milliseconds at each attempt, and what its transaction fails
    with other than a failed condition. *)
Fixpoint append_loop (fuel : nat) (attempt : nat) (world : nat -> Z * option Retry.error) (key : MemoryKey) (turn : Turn) (t : T)
    : option Retry.error * T :=
  match fuel with
  | O => (Some (Retry.EPlain ("memory/dynamodb: append failed after 5 retries")), t)
  | S fuel =>
      let '(now, err) := world attempt in
      match err with
      | Some e => (Some e, t)
      | None =>
          match appendOnce now key turn t with
          | Some t' => (None, t')
          | None => append_loop fuel (S attempt) world key turn t
          end
      end
  end.
Definition Append (world : nat -> Z * option Retry.error) (key : MemoryKey) (turn : Turn) (t : T) : option Retry.error * T :=
  append_loop maxAppendRetries 0 world key turn t.

(** *** The abstract memory it implements *)

(** The separator of the key cannot be forged. *)
Definition plain (k : MemoryKey) : Prop :=
  str_lacks "#" (mk_WorkflowID k) = true /\ str_lacks "#" (mk_AccountID k) = true /\ str_lacks "#" (mk_UserID k) = true.

Lemma buildPK_inj k1 k2 : plain k1 -> plain k2 -> buildPK k1 = buildPK k2 -> k1 = k2.
Proof using.
  clear. destruct k1 as [w a u s], k2 as [w' a' u' s']. intros (H1 & H2 & H3) (H1' & H2' & H3') He. unfold buildPK in He. cbn in *.
  apply sharp_inj in He as [-> He]; [|done..]. apply sharp_inj in He as [-> He]; [|done..].
  by apply sharp_inj in He as [-> ->].
Qed.

(** Times a sort key can carry. *)
Definition in_time (ms : Z) : Prop := 0 <= ms < 10 ^ 13.
Lemma sk_before a b x y : in_time a -> in_time b -> a < b -> before (sk a x) (sk b y).
Proof using.
  clear. intros Ha Hb Hl. unfold sk, in_time in *. pose proof (proj2 (zero_padded_before 13 a b Ha Hb) Hl) as H.
  unfold before in *. unfold zero_padded in *. change (10 ^ Z.of_nat 13) with (10 ^ 13) in *.
  replace ((0 <=? a) && (a <? 10 ^ 13)) with true in * by (symmetry; apply andb_true_iff; lia).
  replace ((0 <=? b) && (b <? 10 ^ 13)) with true in * by (symmetry; apply andb_true_iff; lia).
  rewrite compare_app by (by rewrite !digits_length). by rewrite H.
Qed.
Lemma sk_turn a : before (sk a 0) (sk a 1).
Proof using. clear. unfold sk, before. rewrite compare_app by done. rewrite key_compare_refl. reflexivity. Qed.

(** The table holds the log: under each key the turns of the log, newest first, none
    stamped after [last]. *)
Definition stamped_items (l : list (Z * Turn)) : list (string * Item) :=
  flat_map (fun x => List.rev (turn_items x.1 x.2)) (List.rev l).
Definition holds (log : MemoryKey -> list Turn) (last : Z) (t : T) : Prop :=
  forall key, plain key -> exists l, log key = List.map snd l
    /\ query t (buildPK key) = stamped_items l
    /\ Forall (fun x => in_time x.1 /\ x.1 <= last /\ storable_turn x.2) l.

Lemma stamped_snoc l x : stamped_items (l ++ [x]) = List.rev (turn_items x.1 x.2) ++ stamped_items l.
Proof using. unfold stamped_items. by rewrite rev_app_distr. Qed.
Lemma stamped_keys l last i : Forall (fun x => in_time x.1 /\ x.1 <= last /\ storable_turn x.2) l -> i ∈ stamped_items l ->
  exists ms seq, i.1 = sk ms seq /\ in_time ms /\ ms <= last.
Proof using.
  intros Hl Hi. unfold stamped_items in Hi. apply list_elem_of_In, in_flat_map in Hi as (x & Hx & Hi).
  apply in_rev in Hx. apply list_elem_of_In in Hx. rewrite Forall_forall in Hl. destruct (Hl x Hx) as (Ht & Hle & _).
  destruct Hi as [<-|[<-|[]]]; eauto 10.
Qed.

Lemma append_holds log last now key turn t world :
  holds log last t -> plain key -> in_time now -> last < now -> storable_turn turn -> world 0%nat = (now, None) ->
  exists t', Append world key turn t = (None, t')
    /\ holds (fun k => if decide (key = k) then log k ++ [turn] else log k) now t'.
Proof using All.
  intros Hh Hk Hn Hlt Hs Hw. destruct (Hh key Hk) as (l & Hlog & Hq & Hl).
  assert (forall x y, x ∈ turn_items now turn -> y ∈ query t (buildPK key) -> newer x y) as Hnew.
  { intros x y Hx Hy. rewrite Hq in Hy. destruct (stamped_keys l last y Hl Hy) as (ms & seq & Hsk & Hms & Hle).
    unfold newer. rewrite Hsk. apply list_elem_of_In in Hx. destruct Hx as [<-|[<-|[]]]; apply sk_before; (done || lia). }
  assert (StronglySorted newer (List.rev (turn_items now turn))) as Hsort.
  { cbn. repeat constructor. unfold newer. apply sk_turn. }
  assert (List.rev (turn_items now turn) ≡ₚ turn_items now turn) as Hperm by (cbn; constructor).
  assert (NoDup (turn_items now turn).*1) as Hd by (rewrite <- Hperm; by apply sorted_nodup).
  destruct (put_newest_ok (buildPK key) (turn_items now turn) t Hd Hnew) as [t' Ht'].
  exists t'. split.
  { unfold Append, maxAppendRetries. cbn [append_loop]. rewrite Hw. unfold appendOnce. by rewrite Ht'. }
  destruct (put_newest _ _ _ t t' Hperm Hsort Hnew Ht') as [Hq' Ho].
  intros k Hpk. destruct (decide (key = k)) as [<-|Hne].
  - exists (l ++ [(now, turn)]). split_and!.
    + rewrite Hlog, List.map_app. done.
    + by rewrite Hq', Hq, stamped_snoc.
    + apply Forall_app. split; [|by constructor; [|constructor]].
      eapply List.Forall_impl; [|exact Hl]. intros x (H1 & H2 & H3). split_and!; [done|cbn in *; lia|done].
  - destruct (Hh k Hpk) as (l' & Hlog' & Hq2 & Hl'). exists l'. split_and!; [done| |].
    + rewrite Ho; [done|]. intros He. apply Hne. symmetry. by apply buildPK_inj.
    + eapply List.Forall_impl; [|exact Hl']. intros x (H1 & H2 & H3). split_and!; [done|cbn in *; lia|done].
Qed.

Lemma decode_turn_item ms m seq : storable_message m -> decode_item (sk ms seq, item_of ms m) = Some m.
Proof using.
  clear. intros Hm. destruct (content_roundtrip raw (Agent.Content m) Hm) as (c & He & Hd).
  unfold decode_item, item_of. cbn [snd it_content it_role]. rewrite He, Hd. simpl. by destruct m as [[] ?].
Qed.

(** Reading back the newest items, oldest first. *)
Lemma decode_window l last n : Forall (fun x => in_time x.1 /\ x.1 <= last /\ storable_turn x.2) l ->
  option_map (@List.rev _) (mapM decode_item (take (2 * n) (stamped_items l)))
  = Some (log_messages (lastn n (List.map snd l))).
Proof using.
  clear. revert n. induction l as [|x l IH] using rev_ind; intros n Hl; [by destruct n|].
  apply Forall_app in Hl as [Hl Hx]. apply Forall_cons_iff in Hx as [(Hx1 & Hx2 & Hu & Ha) _].
  rewrite stamped_snoc. destruct n as [|n].
  { rewrite Nat.mul_0_r. cbn [take mapM option_map]. unfold lastn.
    rewrite Nat.sub_0_r, (drop_ge (List.map snd (l ++ [x]))) by lia. done. }
  replace (2 * S n)%nat with (S (S (2 * n)))%nat by lia. destruct x as [ms tn]. cbn [fst snd] in *.
  cbn [turn_items List.rev app take mapM]. rewrite !decode_turn_item by done. specialize (IH n Hl).
  destruct (mapM decode_item (take (2 * n) (stamped_items l))) as [k|]; [|done]. cbn in IH. injection IH as IH.
  cbn -[lastn]. f_equal. rewrite IH. unfold lastn. rewrite List.map_app, length_app. cbn [List.length List.map].
  replace (List.length (List.map snd l) + 1 - S n)%nat with (List.length (List.map snd l) - n)%nat by lia.
  rewrite drop_app_le by lia. unfold log_messages. rewrite flat_map_app. cbn. by rewrite <- app_assoc.
Qed.

Lemma limit_turns : 0 < MaxTurns cfg < 2 ^ 30 -> Z.to_nat limit = (2 * Z.to_nat (MaxTurns cfg))%nat.
Proof using.
  clear. intros H. unfold limit. rewrite wrap64_id by (unfold int64_range; lia). unfold wrap32. rewrite Z.mod_small by lia. lia.
Qed.

(** Appends one after the other, each with the clock at its first attempt. *)
Definition append_step (acc : list (option Retry.error) * T) (op : MemoryKey * Turn * Z) : list (option Retry.error) * T :=
  let '(errs, t) := acc in
  let '(key, turn, now) := op in
  let '(e, t) := Append (fun _ => (now, None)) key turn t in
  (errs ++ [e], t).
Definition run (ops : list (MemoryKey * Turn * Z)) (t : T) : list (option Retry.error) * T := foldl append_step ([], t) ops.

(** Each append is stamped later than the one before. *)
Fixpoint later (last : Z) (ops : list (MemoryKey * Turn * Z)) : Prop :=
  match ops with
  | [] => True
  | (_, _, now) :: ops => last < now /\ later now ops
  end.
Lemma later_snoc last ops op : later last (ops ++ [op]) -> later last ops /\ last < op.2 /\ Forall (fun o => o.2 < op.2) ops.
Proof using.
  clear. revert last. induction ops as [|[[k tn] now] ops IH]; intros last; cbn; [destruct op as [[? ?] ?]; by intros [? _]|].
  intros [H1 H2]. destruct (IH now H2) as (H3 & H4 & H5). split_and!; [done|done|lia|]. by constructor.
Qed.

Lemma run_holds ops t0 : (forall pk, query t0 pk = []) ->
  Forall (fun op => plain op.1.1 /\ storable_turn op.1.2 /\ in_time op.2) ops -> later (-1) ops ->
  let '(errs, t) := run ops t0 in
  errs = List.map (fun _ => None) ops
  /\ exists last, holds (fun key => turns_of key (List.map fst ops)) last t /\ (last = -1 \/ exists op, op ∈ ops /\ last = op.2).
Proof using All.
  intros Hempty. induction ops as [|op ops IH] using rev_ind; intros Hf Hl.
  { cbn. split; [done|]. exists (-1). split; [|by left]. intros key _. exists []. split_and!; [done|by rewrite Hempty|constructor]. }
  apply Forall_app in Hf as [Hf Hop]. apply Forall_cons_iff in Hop as [(Hk & Hs & Ht) _].
  destruct (later_snoc _ _ _ Hl) as (Hl' & Hpos & Hall). specialize (IH Hf Hl').
  unfold run. rewrite foldl_snoc. change (foldl append_step ([], t0) ops) with (run ops t0).
  destruct (run ops t0) as [errs t]. destruct IH as [-> (last & Hh & Hlast)].
  destruct op as [[key turn] now]. cbn [fst snd] in *.
  assert (last < now) as Hlt.
  { destruct Hlast as [->|(o & Ho & ->)]; [done|]. rewrite Forall_forall in Hall. by apply Hall. }
  destruct (append_holds _ last now key turn t (fun _ => (now, None)) Hh Hk Ht Hlt Hs eq_refl) as (t' & Ha & Hh').
  unfold append_step. rewrite Ha. split; [by rewrite List.map_app|]. exists now. split.
  - intros k Hpk. destruct (Hh' k Hpk) as (l & Hlog & Hrest). exists l. split; [|done]. rewrite <- Hlog.
    rewrite List.map_app. unfold turns_of. rewrite omap_app. cbn [List.map fst snd omap list_omap].
    destruct (decide (key = k)); [done|by rewrite app_nil_r].
  - right. exists (key, turn, now). split; [apply elem_of_app; right; by left|done].
Qed.

(** C28: The DynamoDB memory is a log of turns.  Take a table that starts empty, takes every item
    and reads back all that was written, a window of one to 2^30 turns, ids without a
    number sign, turns whose content can be stored, and appends stamped each later than
    the one before.  Then every append succeeds, and loading a key gives the last
    [MaxTurns] turns appended under it, oldest first, each as it was stored, and nothing
    of any other account, user or session.  (With a number sign in an id two keys may be
    one, [keys_collide]; two appends to a key in the same millisecond collide,
    [memory_ex].) *)
Theorem dynamo_memory_refines ops t0 key :
  (forall pk, query t0 pk = []) -> 0 < MaxTurns cfg < 2 ^ 30 ->
  Forall (fun op => plain op.1.1 /\ storable_turn op.1.2 /\ in_time op.2) ops -> later (-1) ops -> plain key ->
  let '(errs, t) := run ops t0 in
  Forall (fun e => e = None) errs
  /\ Load None key t = Ok (log_messages (lastn (Z.to_nat (MaxTurns cfg)) (turns_of key (List.map fst ops)))).
Proof using All.
  intros Hempty Hm Hf Hl Hk. pose proof (run_holds ops t0 Hempty Hf Hl) as Hrun. destruct (run ops t0) as [errs t].
  destruct Hrun as [-> (last & Hh & _)]. split; [apply List.Forall_map, Forall_true; done|].
  destruct (Hh key Hk) as (l & Hlog & Hq & Hall). unfold Load. rewrite Hq, limit_turns by done.
  pose proof (decode_window l last (Z.to_nat (MaxTurns cfg)) Hall) as Hd. rewrite Hlog.
  destruct (mapM _ _) as [msgs|]; [|done]. cbn in Hd. by injection Hd as ->.
Qed.
End memory.

(** *** Concrete runs *)
Definition key (acct user session : string) : MemoryKey := mkKey "wf" acct user session.
Definition turn (q a : string) : Turn := mkTurn (mkMessage UserMsg [BlockText q]) (mkMessage AssistantMsg [BlockText a]) 0.
Definition demo_cfg : Config := mkConfig "mem" "us-east-1" 2 90.
Definition demo_ops : list (MemoryKey * Turn * Z) :=
  [(key "a" "u" "s", turn "q1" "a1", 1000); (key "b" "u" "s", turn "x" "y", 1001); (key "a" "u" "s", turn "q2" "a2", 1002);
   (key "a" "u" "s", turn "q3" "a3", 1003)].
Definition no_raw (_ : string) : option json := None.
Definition demo_table : list (option Retry.error) * gmap string (gmap string Item) := run demo_cfg no_raw demo_ops ∅.

Example memory_ex :
  Load demo_cfg None (key "a" "u" "s") demo_table.2 = Ok (log_messages [turn "q2" "a2"; turn "q3" "a3"])
  /\ Load demo_cfg None (key "a" "other" "s") demo_table.2 = Ok []
  /\ (Append demo_cfg no_raw (fun _ => (1003, None)) (key "a" "u" "s") (turn "q4" "a4") demo_table.2).1
     = Some (Retry.EPlain "memory/dynamodb: append failed after 5 retries")
  /\ Factory (jobj [("tableName", JStr "mem")]) = Ok (mkConfig "mem" "us-east-1" 30 90)
  /\ Factory (jobj [("tableName", JStr "a/b")]) = Err (TableNameInvalid "a/b").
Proof. vm_compute. by split_and!. Qed.

(** An account id that holds the separator reads another account's conversation. *)
Example keys_collide :
  let t := (Append demo_cfg no_raw (fun _ => (1, None)) (key "acct" "eve#bob" "s") (turn "secret" "answer") (∅ : gmap string (gmap string Item))).2 in
  key "acct#eve" "bob" "s" <> key "acct" "eve#bob" "s"
  /\ Load demo_cfg None (key "acct#eve" "bob" "s") t = Ok (log_messages [turn "secret" "answer"]).
Proof. split; [discriminate|vm_compute; reflexivity]. Qed.

Lemma dynamo_memory_refines_witness :
  Load demo_cfg None (key "a" "u" "s") demo_table.2 = Ok (log_messages (lastn 2 (turns_of (key "a" "u" "s") (List.map fst demo_ops)))).
Proof.
  pose proof (dynamo_memory_refines (T := gmap string (gmap string Item)) demo_cfg no_raw demo_ops ∅ (key "a" "u" "s")) as H.
  unfold demo_table. destruct (run demo_cfg no_raw demo_ops ∅) as [errs t]. apply H.
  - reflexivity.
  - cbn. lia.
  - repeat (constructor; [split_and!; [by split_and!|split; repeat constructor|unfold in_time; cbn; lia]|]). constructor.
  - cbn. lia.
  - by split_and!.
Defined.
End DynamoMemory.

(** ** pgmemory *)
Module PgMemory.
Import Content.

Record Config := mkConfig { DSNEnv : string; TablePrefix : string; MaxTurns : Z }.
Inductive config_error := ConfigParse | DSNRequired | PrefixInvalid (s : string).

(** [^[a-z][a-z0-9_]*$] *)
Definition prefixPattern (s : string) : bool :=
  match s with
  | String c s' => is_lower c && str_all (fun c => is_lower c || is_digit c || Ascii.eqb c "_") s'
  | EmptyString => false
  end.
Definition Factory (raw : json) : res config_error Config :=
  match (m ← dec_struct (Some raw);
         dsn ← dec_str (m !! "dsnEnv"); prefix ← dec_str (m !! "tablePrefix"); turns ← dec_int (m !! "maxTurns");
         Some (dsn, prefix, default 0 turns)) with
  | None => Err ConfigParse
  | Some (dsn, prefix, turns) =>
      if str_empty dsn then Err DSNRequired
      else
        let prefix := if str_empty prefix then "chat_" else prefix in
        if negb (prefixPattern prefix) then Err (PrefixInvalid prefix)
        else Ok (mkConfig dsn prefix (if turns =? 0 then 30 else turns))
  end.
Definition table (c : Config) : string := TablePrefix c +:+ "messages".

(** *** memory.go: rows and the statements on them *)
Record row := mkRow {
  r_key : MemoryKey;
  turn_index : Z;
  r_role : string;
  r_content : json;
}.

Section memory.
Variable cfg : Config.
Variable raw : string -> option json.

(** [WHERE workflow_id = $1 AND account_id = $2 AND user_id = $3 AND session_id = $4] *)
Definition rows_of (key : MemoryKey) (rows : list row) : list row :=
  List.filter (fun r => bool_decide (r_key r = key)) rows.
(** [ORDER BY turn_index ASC, role DESC] *)
Definition load_order (x y : row) : Prop :=
  turn_index x < turn_index y \/ (turn_index x = turn_index y /\ String.le (r_role y) (r_role x)).
#[local] Instance load_order_dec : RelDecision load_order.
Proof using. intros x y. unfold load_order. apply _. Defined.

Definition decode_row (r : row) : option Message :=
  bs ← decode_content (Some (r_content r)); Some (mkMessage (text_role (r_role r)) bs).
Definition row_limit : Z := wrap64 (MaxTurns cfg * 2).
(** [Load]; [failure] is a failed query, a negative limit included. *)
Definition Load (failure : option Retry.error) (key : MemoryKey) (rows : list row) : res Retry.error (list Message) :=
  match failure with
  | Some e => Err e
  | None =>
      ok_or (Retry.EPlain "decode content")
        (mapM decode_row (take (Z.to_nat row_limit) (merge_sort load_order (rows_of key rows))))
  end.

(** [COALESCE(MAX(turn_index)+1, 0)] *)
Definition next_index (key : MemoryKey) (rows : list row) : Z :=
  match rows_of key rows with
  | [] => 0
  | l => foldl (fun m r => Z.max m (turn_index r)) (- 2 ^ 31) l + 1
  end.
Inductive insert_error := UniqueViolation | NotNull.
(** The table's unique constraint on key, index and role. *)
Definition insert (key : MemoryKey) (idx : Z) (m : Message) (rows : list row) : res insert_error (list row) :=
  match encode_content raw (Agent.Content m) with
  | None => Err NotNull
  | Some c =>
      if existsb (fun r => bool_decide (r_key r = key) && (turn_index r =? idx) && String.eqb (r_role r) (role_text (Role m))) rows
      then Err UniqueViolation
      else Ok (rows ++ [mkRow key idx (role_text (Role m)) c])
  end.
(** [appendOnce]: one transaction, nothing is kept of a failed one; [seen] is the table as
    the query for the next index sees it, before a concurrent writer. *)
Definition appendOnce (seen : list row) (key : MemoryKey) (t : Turn) (rows : list row) : res insert_error (list row) :=
  res_bind (insert key (next_index key seen) (User t) rows)
    (insert key (next_index key seen) (Assistant t)).

(** [Append]: at each attempt the table as another writer left it, with what the
    transaction fails with otherwise; without one it is the table as it is. *)
Fixpoint append_loop (fuel : nat) (attempt : nat) (world : nat -> option (list row) * option Retry.error) (key : MemoryKey) (t : Turn)
    (rows : list row) : option Retry.error * list row :=
  match fuel with
  | O => (Some (Retry.EPlain "memory/postgres: append failed after 5 retries"), rows)
  | S fuel =>
      let '(stale, err) := world attempt in
      match err with
      | Some e => (Some e, rows)
      | None =>
          match appendOnce (default rows stale) key t rows with
          | Ok rows' => (None, rows')
          | Err UniqueViolation => append_loop fuel (S attempt) world key t rows
          | Err NotNull => (Some (Retry.EPlain "null value in column content"), rows)
          end
      end
  end.
Definition Append (world : nat -> option (list row) * option Retry.error) (key : MemoryKey) (t : Turn) (rows : list row) :=
  append_loop 5 0 world key t rows.
End memory.

(** *** What it keeps and loads *)
Section facts.
Variable cfg : Config.
Variable raw : string -> option json.

(** A turn as the agent stores it. *)
Definition user_turn (t : Turn) : Prop := storable_turn t /\ Role (User t) = UserMsg /\ Role (Assistant t) = AssistantMsg.
Definition content_of (m : Message) : json := default JNull (encode_content raw (Agent.Content m)).
Fixpoint seq_rows (key : MemoryKey) (i : Z) (l : list Turn) : list row :=
  match l with
  | [] => []
  | t :: l => mkRow key i "user" (content_of (User t)) :: mkRow key i "assistant" (content_of (Assistant t)) :: seq_rows key (i + 1) l
  end.
Definition holds (log : MemoryKey -> list Turn) (rows : list row) : Prop :=
  forall key, rows_of key rows = seq_rows key 0 (log key) /\ Forall user_turn (log key).

Lemma seq_rows_app key i l1 l2 : seq_rows key i (l1 ++ l2) = seq_rows key i l1 ++ seq_rows key (i + Z.of_nat (List.length l1)) l2.
Proof using.
  revert i. induction l1 as [|t l1 IH]; intros i; cbn [seq_rows app List.length]; [by rewrite Z.add_0_r|]. rewrite IH.
  by replace (i + 1 + Z.of_nat (List.length l1)) with (i + Z.of_nat (S (List.length l1))) by lia.
Qed.
Lemma seq_rows_elem key i l r : r ∈ seq_rows key i l ->
  exists j t, l !! j = Some t /\ turn_index r = i + Z.of_nat j
    /\ (r = mkRow key (i + Z.of_nat j) "user" (content_of (User t)) \/ r = mkRow key (i + Z.of_nat j) "assistant" (content_of (Assistant t))).
Proof using.
  revert i. induction l as [|t l IH]; intros i; cbn [seq_rows]; [by intros H%elem_of_nil|].
  intros [->|[->|H]%elem_of_cons]%elem_of_cons.
  - exists 0%nat, t. rewrite Z.add_0_r. by split_and!; [..|left].
  - exists 0%nat, t. rewrite Z.add_0_r. by split_and!; [..|right].
  - destruct (IH _ H) as (j & t' & Hj & Hi & Hr). exists (S j), t'. split; [done|].
    replace (i + Z.of_nat (S j)) with (i + 1 + Z.of_nat j) by lia. done.
Qed.
Lemma seq_rows_sorted key i l : StronglySorted load_order (seq_rows key i l).
Proof using.
  revert i. induction l as [|t l IH]; intros i; cbn [seq_rows]; [constructor|].
  assert (forall r r', turn_index r = i -> r' ∈ seq_rows key (i + 1) l -> load_order r r') as Hlt.
  { intros r r' Hr H. apply seq_rows_elem in H as (j & _ & _ & Hi & _). left. lia. }
  constructor; [constructor; [apply IH|]|].
  - apply Forall_forall. intros r' H. by apply Hlt.
  - constructor; [right; split; [done|]; vm_compute; exact I|]. apply Forall_forall. intros r' H. by apply Hlt.
Qed.
Lemma seq_rows_load key l : merge_sort load_order (seq_rows key 0 l) = seq_rows key 0 l.
Proof using.
  assert (Total load_order) as Htot.
  { intros x y. unfold load_order. destruct (Z.lt_trichotomy (turn_index x) (turn_index y)) as [H|[H|H]]; [by left; left| |by right; left].
    destruct (total String.le (r_role x) (r_role y)); [right; by right|left; by right]. }
  assert (Transitive load_order) as Htr.
  { intros x y z [H1|[H1 H1']] [H2|[H2 H2']]; unfold load_order; [left; lia|left; lia|left; lia|right; split; [lia|by transitivity (r_role y)]]. }
  apply (StronglySorted_unique_strong load_order).
  - intros x y Hx Hy Hxy Hyx. rewrite merge_sort_Permutation in Hx.
    apply seq_rows_elem in Hx as (j & t & Hj & Hi & Hx). apply seq_rows_elem in Hy as (j' & t' & Hj' & Hi' & Hy).
    assert (j = j') as <- by (unfold load_order in *; lia). rewrite Hj in Hj'. injection Hj' as <-.
    destruct Hx as [->| ->], Hy as [->| ->]; try done; exfalso;
      destruct Hxy as [H|[_ H]], Hyx as [H'|[_ H']]; cbn in *; try lia; (by vm_compute in H) || (by vm_compute in H').
  - by apply StronglySorted_merge_sort.
  - apply seq_rows_sorted.
  - apply merge_sort_Permutation.
Qed.

Lemma next_of key i l acc : acc <= i ->
  foldl (fun m r => Z.max m (turn_index r)) acc (seq_rows key i l) = match l with [] => acc | _ => i + Z.of_nat (List.length l) - 1 end.
Proof using.
  revert i acc. induction l as [|t l IH]; intros i acc Ha; [done|]. cbn [seq_rows foldl turn_index List.length].
  rewrite IH by lia. destruct l; cbn [List.length]; lia.
Qed.
Lemma next_index_holds key l rows : rows_of key rows = seq_rows key 0 l -> next_index key rows = Z.of_nat (List.length l).
Proof using.
  intros H. unfold next_index. rewrite H. destruct l as [|t l]; [done|].
  change (match seq_rows key 0 (t :: l) with [] => 0 | _ => foldl (fun m r => Z.max m (turn_index r)) (- 2 ^ 31) (seq_rows key 0 (t :: l)) + 1 end = Z.of_nat (List.length (t :: l))).
  rewrite next_of by lia. cbn [seq_rows List.length]. lia.
Qed.
Lemma insert_new key idx m rows : storable_message m ->
  (forall r, r ∈ rows_of key rows -> turn_index r = idx -> r_role r <> role_text (Role m)) ->
  insert raw key idx m rows = Ok (rows ++ [mkRow key idx (role_text (Role m)) (content_of m)]).
Proof using.
  intros Hm Hn. unfold insert, content_of. destruct (content_roundtrip raw (Agent.Content m) Hm) as (c & -> & _).
  destruct (existsb _ rows) eqn:E; [|done]. exfalso. apply existsb_exists in E as (r & Hin & [[Hk%bool_decide_eq_true Hi]%andb_true_iff Hr]%andb_true_iff).
  apply Z.eqb_eq in Hi. apply String.eqb_eq in Hr. apply (Hn r); [|done|done].
  apply list_elem_of_In, filter_In. split; [done|]. by apply bool_decide_eq_true.
Qed.
Lemma rows_of_app key rows r : rows_of key (rows ++ [r]) = rows_of key rows ++ (if decide (r_key r = key) then [r] else []).
Proof using.
  unfold rows_of. rewrite List.filter_app. cbn. by destruct (decide (r_key r = key)) as [H|H]; [rewrite bool_decide_eq_true_2|rewrite bool_decide_eq_false_2].
Qed.

Lemma rows_append_holds log key t rows : holds log rows -> user_turn t ->
  exists rows', Append raw (fun _ => (None, None)) key t rows = (None, rows')
    /\ holds (fun k => if decide (key = k) then log k ++ [t] else log k) rows'.
Proof using All.
  intros Hh ([Hu Ha] & Hru & Hra). destruct (Hh key) as [Hk Hl]. set (n := Z.of_nat (List.length (log key))).
  assert (forall r, r ∈ rows_of key rows -> turn_index r < n) as Hold.
  { intros r Hr. rewrite Hk in Hr. apply seq_rows_elem in Hr as (j & t' & Hj & Hi & _). apply lookup_lt_Some in Hj. unfold n. lia. }
  unfold Append. cbn [append_loop default from_option]. unfold appendOnce. cbn [default from_option id].
  rewrite (next_index_holds key (log key)) by done. fold n.
  rewrite insert_new; [|done|intros r Hr Hi; specialize (Hold r Hr); lia]. cbn [res_bind].
  rewrite insert_new; [|done|].
  2: { intros r Hr Hi. rewrite rows_of_app in Hr. cbn [r_key] in Hr. rewrite decide_True in Hr by done.
       apply elem_of_app in Hr as [Hr|Hr%list_elem_of_singleton]; [specialize (Hold r Hr); lia|]. subst r. cbn. by rewrite Hru, Hra. }
  eexists. split; [reflexivity|]. intros k. rewrite !rows_of_app. cbn [r_key]. rewrite Hru, Hra.
  destruct (decide (key = k)) as [<-|Hne].
  - rewrite Hk, <- app_assoc. split; [by rewrite seq_rows_app|]. apply Forall_app. split; [done|]. by constructor; [|constructor].
  - rewrite !app_nil_r. apply Hh.
Qed.

Lemma row_message key i m : storable_message m -> decode_row (mkRow key i (role_text (Role m)) (content_of m)) = Some m.
Proof using.
  intros Hm. destruct (content_roundtrip raw (Agent.Content m) Hm) as (c & He & Hd). unfold decode_row, content_of. cbn [r_content r_role].
  rewrite He. cbn [default from_option id]. rewrite Hd. simpl. by destruct m as [[] ?].
Qed.
Lemma rows_messages key i l : Forall user_turn l -> mapM decode_row (seq_rows key i l) = Some (log_messages l).
Proof using.
  intros H. revert i. induction H as [|t l ([Hu Ha] & Hru & Hra) _ IH]; intros i; [done|].
  pose proof (row_message key i (User t) Hu) as H1. pose proof (row_message key i (Assistant t) Ha) as H2. rewrite Hru in H1. rewrite Hra in H2.
  cbn [role_text] in H1, H2. cbn [seq_rows mapM]. rewrite H1. cbn [mbind option_bind]. rewrite H2. cbn [mbind option_bind]. rewrite IH. cbn. by destruct t.
Qed.
Lemma take_rows key i l n : take (2 * n) (seq_rows key i l) = seq_rows key i (take n l).
Proof using.
  revert i n. induction l as [|t l IH]; intros i n; [cbn [seq_rows]; rewrite !take_nil; done|]. destruct n as [|n]; [done|].
  replace (2 * S n)%nat with (S (S (2 * n)))%nat by lia. cbn [seq_rows take]. by rewrite IH.
Qed.

Definition append_step (acc : list (option Retry.error) * list row) (op : MemoryKey * Turn) : list (option Retry.error) * list row :=
  let '(errs, rows) := acc in
  let '(e, rows) := Append raw (fun _ => (None, None)) op.1 op.2 rows in
  (errs ++ [e], rows).
Definition run (ops : list (MemoryKey * Turn)) : list (option Retry.error) * list row := foldl append_step ([], []) ops.

Lemma rows_run_holds ops : Forall (fun op => user_turn op.2) ops ->
  let '(errs, rows) := run ops in errs = List.map (fun _ => None) ops /\ holds (fun key => turns_of key ops) rows.
Proof using All.
  induction ops as [|op ops IH] using rev_ind; intros Hf; [cbn; split; [done|]; intros key; split; [done|constructor]|].
  apply Forall_app in Hf as [Hf Hop]. apply Forall_cons_iff in Hop as [Hop _]. specialize (IH Hf).
  unfold run. rewrite foldl_snoc. change (foldl append_step ([], []) ops) with (run ops). destruct (run ops) as [errs rows].
  destruct IH as [-> Hh]. destruct op as [key t]. cbn [fst snd] in *.
  destruct (rows_append_holds _ key t rows Hh Hop) as (rows' & Ha & Hh'). unfold append_step. cbn [fst snd]. rewrite Ha.
  split; [by rewrite List.map_app|]. intros k. destruct (Hh' k) as [H1 H2].
  assert (turns_of k (ops ++ [(key, t)]) = if decide (key = k) then turns_of k ops ++ [t] else turns_of k ops) as E.
  { unfold turns_of. rewrite omap_app. cbn. destruct (decide (key = k)); [done|by rewrite app_nil_r]. }
  by rewrite E.
Qed.

(** The Postgres memory keeps every turn, but loads the oldest: whatever turns were
    appended, loading a key gives its first [MaxTurns] turns, so that past that many the
    agent no longer sees what was said last. *)
Theorem pg_loads_oldest ops key : Forall (fun op => user_turn op.2) ops -> 0 <= MaxTurns cfg < 2 ^ 30 ->
  let '(errs, rows) := run ops in
  Forall (fun e => e = None) errs
  /\ Load cfg None key rows = Ok (log_messages (take (Z.to_nat (MaxTurns cfg)) (turns_of key ops))).
Proof using All.
  intros Hf Hm. pose proof (rows_run_holds ops Hf) as H. destruct (run ops) as [errs rows]. destruct H as [-> Hh].
  split; [apply List.Forall_map, Forall_true; done|]. destruct (Hh key) as [Hk Hl]. unfold Load. rewrite Hk, seq_rows_load.
  assert (Z.to_nat (row_limit cfg) = (2 * Z.to_nat (MaxTurns cfg))%nat) as ->.
  { unfold row_limit. rewrite wrap64_id by (unfold int64_range; lia). lia. }
  rewrite take_rows, rows_messages; [done|]. by apply Forall_take.
Qed.
End facts.

(** *** migrations.go *)
Record migration := mkMigration { Version : Z; SQL : string }.
Definition pgMemoryMigrations : list migration :=
  [mkMigration 1 "
CREATE TABLE IF NOT EXISTS {prefix}messages (
    id          TEXT         PRIMARY KEY,
    workflow_id TEXT         NOT NULL,
    session_id  TEXT         NOT NULL,
    turn_index  INTEGER      NOT NULL,
    role        TEXT         NOT NULL CHECK (role IN ('user','assistant','system')),
    content     JSONB        NOT NULL,
    created_at  TIMESTAMPTZ  NOT NULL DEFAULT now(),
    UNIQUE (workflow_id, session_id, turn_index, role)
);
CREATE INDEX IF NOT EXISTS idx_{prefix}messages_session
    ON {prefix}messages (workflow_id, session_id, turn_index);
CREATE INDEX IF NOT EXISTS idx_{prefix}messages_created
    ON {prefix}messages (created_at);
";
   mkMigration 2 "
ALTER TABLE {prefix}messages
    ADD COLUMN IF NOT EXISTS account_id TEXT NOT NULL DEFAULT '';

ALTER TABLE {prefix}messages
    DROP CONSTRAINT IF EXISTS {prefix}messages_workflow_id_session_id_turn_index_role_key;

ALTER TABLE {prefix}messages
    ADD CONSTRAINT {prefix}messages_acct_turn_uniq
        UNIQUE (workflow_id, account_id, session_id, turn_index, role);

DROP INDEX IF EXISTS idx_{prefix}messages_session;
CREATE INDEX IF NOT EXISTS idx_{prefix}messages_acct_session
    ON {prefix}messages (workflow_id, account_id, session_id, turn_index);
";
   mkMigration 3 "
ALTER TABLE {prefix}messages
    ADD COLUMN IF NOT EXISTS user_id TEXT NOT NULL DEFAULT '';

ALTER TABLE {prefix}messages
    DROP CONSTRAINT IF EXISTS {prefix}messages_acct_turn_uniq;

ALTER TABLE {prefix}messages
    ADD CONSTRAINT {prefix}messages_acct_user_turn_uniq
        UNIQUE (workflow_id, account_id, user_id, session_id, turn_index, role);

DROP INDEX IF EXISTS idx_{prefix}messages_acct_session;
CREATE INDEX IF NOT EXISTS idx_{prefix}messages_acct_user_session
    ON {prefix}messages (workflow_id, account_id, user_id, session_id, turn_index);
"].

(** [strings.ReplaceAll] of a literal *)
Definition literal_at (lit s : string) : option (unit * nat) :=
  if has_prefix lit s then Some (tt, String.length lit) else None.
Definition ReplaceAll (s old new_ : string) : string := replace_all (literal_at old) (fun _ _ => new_) s.

Section migrate.
Variable prefix : string.
(** What executing a statement fails with. *)
Variable exec : string -> option string.

(** The loop over the migrations: the statements executed and the version recorded. *)
Fixpoint run_migrations (l : list migration) (current : Z) (done_ : list string) : res string (list string * Z) :=
  match l with
  | [] => Ok (done_, current)
  | mig :: l =>
      if Version mig <=? current then run_migrations l current done_
      else
        let sql := ReplaceAll (SQL mig) "{prefix}" prefix in
        match exec sql with
        | Some e => Err e
        | None => run_migrations l (Version mig) (done_ ++ [sql])
        end
  end.
(** [applyMigrations] in one transaction: the schema's version after it, unchanged on
    error, and the statements it committed. *)
Definition applyMigrations (version : option Z) : option string * option Z * list string :=
  match run_migrations pgMemoryMigrations (default 0 version) [] with
  | Err e => (Some e, version, [])
  | Ok (sqls, v) => (None, match sqls with [] => version | _ => Some v end, sqls)
  end.

Lemma run_migrations_ok l current done_ sqls v :
  StronglySorted (fun a b => Version a < Version b) l -> run_migrations l current done_ = Ok (sqls, v) ->
  let todo := List.filter (fun m => current <? Version m) l in
  sqls = done_ ++ List.map (fun m => ReplaceAll (SQL m) "{prefix}" prefix) todo
  /\ Forall (fun sql => exec sql = None) (List.map (fun m => ReplaceAll (SQL m) "{prefix}" prefix) todo)
  /\ v = foldl (fun a m => Z.max a (Version m)) current l.
Proof using.
  intros Hs. revert current done_. induction Hs as [|m l Hs IH Hf]; intros current done_ H; cbn [run_migrations] in H.
  { injection H as <- <-. cbn. by rewrite app_nil_r. }
  cbn [List.filter foldl]. destruct (Z.leb_spec (Version m) current) as [Hle|Hgt].
  - destruct (IH _ _ H) as (H1 & H2 & H3). destruct (Z.ltb_spec current (Version m)); [lia|].
    rewrite Z.max_l by lia. by split_and!.
  - destruct (exec _) eqn:Ee; [done|]. destruct (IH _ _ H) as (H1 & H2 & H3). destruct (Z.ltb_spec current (Version m)); [|lia].
    assert (List.filter (fun x => Version m <? Version x) l = List.filter (fun x => current <? Version x) l) as E.
    { apply filter_ext_in. intros x Hx. apply list_elem_of_In in Hx. rewrite Forall_forall in Hf. specialize (Hf x Hx).
      destruct (Z.ltb_spec (Version m) (Version x)), (Z.ltb_spec current (Version x)); lia. }
    rewrite E in H1, H2. cbn [List.map]. rewrite Z.max_r by lia. split_and!; [by rewrite H1, <- app_assoc|by constructor|done].
Qed.

(** Migrations are all or nothing and run once: after a success the schema is at the
    newest version, the statements executed are those newer than it was, in order, and
    running them again executes nothing; after a failure nothing is kept. *)
Theorem migrations_spec version :
  let '(err, version', sqls) := applyMigrations version in
  match err with
  | Some _ => version' = version /\ sqls = []
  | None =>
      sqls = List.map (fun m => ReplaceAll (SQL m) "{prefix}" prefix)
               (List.filter (fun m => default 0 version <? Version m) pgMemoryMigrations)
      /\ Forall (fun sql => exec sql = None) sqls
      /\ default 0 version' = Z.max (default 0 version) 3
      /\ applyMigrations version' = (None, version', [])
  end.
Proof using.
  assert (StronglySorted (fun a b => Version a < Version b) pgMemoryMigrations) as Hs by (repeat constructor; cbn; lia).
  assert (forall v, 3 <= v -> run_migrations pgMemoryMigrations v [] = Ok ([], v)) as Hdone.
  { intros v Hv. unfold pgMemoryMigrations. cbn [run_migrations Version].
    destruct (Z.leb_spec 1 v); [|lia]. destruct (Z.leb_spec 2 v); [|lia]. by destruct (Z.leb_spec 3 v); [|lia]. }
  unfold applyMigrations at 1. destruct (run_migrations pgMemoryMigrations (default 0 version) []) as [[sqls v]|e] eqn:E; [|done].
  destruct (run_migrations_ok _ _ _ _ _ Hs E) as (H1 & H2 & H3). cbn [app] in H1.
  assert (v = Z.max (default 0 version) 3) as Hv by (rewrite H3; cbn [pgMemoryMigrations foldl Version]; lia).
  destruct (Z.le_gt_cases 3 (default 0 version)) as [Hle|Hgt].
  - rewrite Hdone in E by done. injection E as <- _. split_and!; [done|constructor|lia|].
    unfold applyMigrations. by rewrite Hdone.
  - assert (List.filter (fun m => default 0 version <? Version m) pgMemoryMigrations <> []) as Hne.
    { unfold pgMemoryMigrations. cbn [List.filter Version]. destruct (Z.ltb_spec (default 0 version) 3); [|lia].
      by destruct (_ <? 1), (_ <? 2). }
    destruct sqls as [|sql sqls]; [by apply symmetry, map_eq_nil in H1|]. rewrite <- H1 in H2.
    split_and!; [done|done|cbn; lia|]. unfold applyMigrations. cbn [default from_option id]. by rewrite Hdone by lia.
Qed.
End migrate.

(** *** Concrete runs *)
Definition pg_cfg : Config := mkConfig "PG" "chat_" 2.
Definition pg_ops : list (MemoryKey * Turn) := List.map fst DynamoMemory.demo_ops.
Example pg_ex :
  Load pg_cfg None (DynamoMemory.key "a" "u" "s") (run DynamoMemory.no_raw pg_ops).2
  = Ok (log_messages [DynamoMemory.turn "q1" "a1"; DynamoMemory.turn "q2" "a2"])
  /\ ReplaceAll "CREATE {prefix}messages ({prefix})" "{prefix}" "chat_" = "CREATE chat_messages (chat_)"
  /\ (applyMigrations "chat_" (fun _ => None) None).1 = (None, Some 3)
  /\ (applyMigrations "chat_" (fun sql => if has_prefix (String (ascii_of_nat 10) "ALTER") sql then Some "denied" else None) (Some 1)).1
     = (Some "denied", Some 1)
  /\ Factory (jobj [("dsnEnv", JStr "PG"); ("tablePrefix", JStr "Chat")]) = Err (PrefixInvalid "Chat").
Proof. vm_compute. by split_and!. Qed.

Lemma pg_loads_oldest_witness :
  Load pg_cfg None (DynamoMemory.key "a" "u" "s") (run DynamoMemory.no_raw pg_ops).2
  = Ok (log_messages (take 2 (turns_of (DynamoMemory.key "a" "u" "s") pg_ops))).
Proof.
  pose proof (pg_loads_oldest pg_cfg DynamoMemory.no_raw pg_ops (DynamoMemory.key "a" "u" "s")) as H.
  destruct (run DynamoMemory.no_raw pg_ops) as [errs rows]. apply H.
  - repeat (constructor; [split; [split; repeat constructor|by split]|]). constructor.
  - cbn. lia.
Defined.
End PgMemory.
