(* ===== verification/Assistant.v ===== *)
(** * Workflows published as agents (pkg/rsassistant)

    - [Config], [Card], [Publish]: what is published at start, under which name and for
      which function of the identity service;
    - [Relay]: the mapping of a workflow's stream onto the stream of the agent mesh;
    - [EngineStream]: the bridge's client of the stream protocol, and [Consult], one
      bridged request under any schedule of network, timer, cancellation and reader;
    - [CloseRace]: delivery and closing of that client, concurrently.

    The agent library (nats-agent) is a parameter: whether it makes and starts an agent,
    the identity it resolved for a turn, and the calls it takes.  Log lines are left
    out. *)

From S2P Require Import Prelude Json Scan Retry Node Engine Stream.
From stdpp Require Import base tactics list strings gmap option relations sorting.
From Stdlib Require Import ZArith Lia Ascii String.
Local Open Scope string_scope.
Local Open Scope list_scope.
Local Open Scope Z_scope.

(** ** config.go *)
Module Config.

Record Config := mkConfig {
  Enabled : bool;
  ObserveOnly : bool;
  AppID : string;
  FunctionID : string;
  IdentitySubject : string;
  ConsultTimeout : Z;      (* nanoseconds *)
  DefaultVersion : string;
}.
Definition second : Z := 1000000000.
Definition defaultConsultTimeout : Z := 400 * second.
(** [strings.EqualFold(strings.TrimSpace(v), "true")] *)
Definition isTrue (v : string) : bool := String.eqb (to_lower (trim_space v)) "true".

Section config.
Variable lookup : string -> option string.
Definition EnabledFromEnv : bool := isTrue (default "" (lookup "RSASSISTANT_ENABLED")).
Definition get (k def : string) : string :=
  let v := trim_space (default "" (lookup k)) in if str_empty v then def else v.
Definition consult_timeout : Z :=
  match Atoi (get "RSASSISTANT_CONSULT_TIMEOUT_SECONDS" "") with
  | Some secs => if 0 <? secs then wrap64 (secs * second) else defaultConsultTimeout
  | None => defaultConsultTimeout
  end.
(** [ConfigFromEnv]: the error is the missing identity pair. *)
Definition ConfigFromEnv : option Config :=
  let cfg := mkConfig EnabledFromEnv (isTrue (get "IDT_OBSERVE_ONLY" "false")) (get "APP_ID" "") (get "APP_FUNCTION_ID" "")
    (get "NATS_IDENTITY_BASE_PATH" "trx.identityservice" +:+ "." +:+ get "NATS_IDENTITY_VALIDATE_SUBJECT" "validateInternalToken")
    consult_timeout (get "RSASSISTANT_AGENT_VERSION" "1.0.0") in
  if str_empty (AppID cfg) || str_empty (FunctionID cfg) then None else Some cfg.
End config.

(** A timeout whose nanoseconds do not fit is neither rejected nor defaulted: the wait
    becomes negative, which the stream takes for none. *)
Example timeout_overflows :
  consult_timeout (fun _ => Some "9223372037") < 0 /\ consult_timeout (fun _ => Some "x") = defaultConsultTimeout
  /\ consult_timeout (fun _ => Some " 30 ") = 30 * second.
Proof. vm_compute. by split_and!. Qed.
End Config.

(** ** manifest.go *)
Module Card.

Record Skill := mkSkill { sk_Name : string; sk_Description : string; sk_Examples : list string }.
Record Manifest := mkManifest {
  Enabled : option bool;
  m_Name : string;
  m_DisplayName : string;
  m_Description : string;
  m_Category : string;
  m_Version : string;
  m_Tags : list string;
  m_Skills : list Skill;
}.
Record CardSpec := mkCard {
  Name : string;
  DisplayName : string;
  Description : string;
  Category : string;
  Version : string;
  Tags : list string;
  Skills : list Skill;
}.
Inductive card_error := BadManifest | Disabled | BadName (name : string) | Reserved (name : string).

Definition name_char (c : ascii) : bool := is_lower c || is_upper c || is_digit c || Ascii.eqb c "_" || Ascii.eqb c "-".
(** [^[a-zA-Z0-9_-]+$] *)
Definition nameRe (s : string) : bool := negb (str_empty s) && str_all name_char s.
Definition reservedNames : list string := ["discover"; "announce"].

Definition dec_strs (v : option json) : option (list string) := default [] <$> dec_list (fun x => dec_str (Some x)) v.
Definition dec_skill (v : json) : option Skill :=
  m ← dec_struct (Some v); n ← dec_str (m !! "name"); d ← dec_str (m !! "description"); e ← dec_strs (m !! "examples");
  Some (mkSkill n d e).
(** [ParseManifest]: an absent block is the zero manifest. *)
Definition ParseManifest (raw : option json) : option Manifest :=
  match raw with
  | None => Some (mkManifest None "" "" "" "" "" [] [])
  | Some v =>
      m ← dec_struct (Some v); en ← dec_bool (m !! "enabled"); n ← dec_str (m !! "name"); dn ← dec_str (m !! "displayName");
      de ← dec_str (m !! "description"); ca ← dec_str (m !! "category"); ve ← dec_str (m !! "version");
      ta ← dec_strs (m !! "tags"); sk ← dec_list dec_skill (m !! "skills");
      Some (mkManifest en n dn de ca ve ta (default [] sk))
  end.
Definition str_or (s d : string) : string := if str_empty s then d else s.
Definition BuildCardSpec (workflowID workflowDescription : string) (raw : option json) (defaultVersion : string) : res card_error CardSpec :=
  match ParseManifest raw with
  | None => Err BadManifest
  | Some m =>
      if bool_decide (Enabled m = Some false) then Err Disabled
      else
        let name := str_or (trim_space (m_Name m)) workflowID in
        if negb (nameRe name) then Err (BadName name)
        else if mem_str name reservedNames then Err (Reserved name)
        else Ok (mkCard name (str_or (trim_space (m_DisplayName m)) name)
                   (str_or (str_or (trim_space (m_Description m)) (trim_space workflowDescription)) ("Workflow " +:+ workflowID))
                   (trim_space (m_Category m)) (str_or (trim_space (m_Version m)) defaultVersion) (m_Tags m) (m_Skills m))
  end.

Lemma card_ok wf desc raw ver c : BuildCardSpec wf desc raw ver = Ok c ->
  nameRe (Name c) = true /\ mem_str (Name c) reservedNames = false /\ DisplayName c <> "" /\ Description c <> "".
Proof.
  unfold BuildCardSpec. destruct (ParseManifest raw) as [m|]; [|done]. case_bool_decide; [done|].
  set (name := str_or _ wf). destruct (nameRe name) eqn:En; [|done]. cbn [negb]. destruct (mem_str name reservedNames) eqn:Er; [done|].
  intros [= <-]. cbn [Name DisplayName Description]. split_and!; [done|done|..].
  - unfold str_or at 1. destruct (str_empty (trim_space (m_DisplayName m))) eqn:E; [|by apply str_empty_false].
    unfold nameRe in En. apply andb_true_iff in En as [En _]. apply str_empty_false. by destruct (str_empty name).
  - unfold str_or at 1. destruct (str_empty (str_or _ _)) eqn:E; [done|by apply str_empty_false].
Qed.
End Card.

(** ** eligible.go, access.go, runtime.go: what is published *)
Module Publish.
Import Config Card.

(** The chat trigger as publishers see it ([natschat.ChatEndpoint]). *)
Record ChatEndpoint := mkEndpoint { ResponseMode : string; AllowsOverride : bool; ChatSubject : string }.
Definition ModeStreaming : string := "streaming".

Inductive skip_reason :=
| NoTrigger
| NotNatsChat
| CannotStream (mode : string)
| ClientOnlyNode (id : string)
| ManifestDisabled
| CardRefused (e : card_error)
| NameTaken (name workflow : string)
| NoSubject
| IndexUnbound (cause : string)
| NewFailed (e : string)
| StartFailed (e : string).

Record published := mkPublished {
  p_name : string;
  p_workflow : string;
  p_endpoint : ChatEndpoint;
  p_card : CardSpec;
  p_access : string * string;      (* the card's application and function *)
}.

(** [agentAccess]: the function an agent's tokens are validated against. *)
Definition agentAccess (cfg : Config) (ia : Access.IndexAccess) : res string (string * string) :=
  match Access.Status ia with
  | Access.IndexAccessNone => Ok (AppID cfg, FunctionID cfg)
  | Access.IndexAccessBound =>
      if str_empty (trim_space (Access.FunctionID ia)) then Err "bound access has no function id"
      else Ok (AppID cfg, Access.FunctionID ia)
  | Access.IndexAccessUnbound => Err (if str_empty (Access.Cause ia) then "no usable function" else Access.Cause ia)
  end.

Section publish.
(** The interface assertions on nodes, and the agent library. *)
Variable chat_endpoint : Node -> option ChatEndpoint.
Variable client_only : Node -> bool.
Variable agent_new : CardSpec -> string * string -> option string.
Variable agent_start : CardSpec -> option string.

(** [Eligibility] *)
Definition Eligibility (wf : Loading.Workflow) : res skip_reason ChatEndpoint :=
  match Loading.wf_Nodes wf !! Loading.wf_Trigger wf with
  | None => Err NoTrigger
  | Some trigger =>
      match chat_endpoint trigger with
      | None => Err NotNatsChat
      | Some ep =>
          if negb (String.eqb (ResponseMode ep) ModeStreaming) && negb (AllowsOverride ep) then Err (CannotStream (ResponseMode ep))
          else
            match find_first (fun id => match Loading.wf_Nodes wf !! id with Some n => client_only n | None => false end)
                    (sort_strings (map_to_list (Loading.wf_Nodes wf)).*1) with
            | Some id => Err (ClientOnlyNode id)
            | None => Ok ep
            end
      end
  end.

(** One workflow of [Start]: refused, or published; [seen] are the names taken. *)
Definition publish_one (cfg : Config) (seen : gmap string string) (id : string) (wf : Loading.Workflow) : res skip_reason published :=
  res_bind (Eligibility wf) (fun ep =>
    match BuildCardSpec (Loading.wf_ID wf) (Loading.wf_Description wf) (Loading.wf_RSAssistant wf) (DefaultVersion cfg) with
    | Err Disabled => Err ManifestDisabled
    | Err e => Err (CardRefused e)
    | Ok spec =>
        match seen !! Name spec with
        | Some prev => Err (NameTaken (Name spec) prev)
        | None =>
            if str_empty (ChatSubject ep) then Err NoSubject
            else
              match agentAccess cfg (Loading.wf_IndexAccess wf) with
              | Err cause => Err (IndexUnbound cause)
              | Ok access =>
                  match agent_new spec access with
                  | Some e => Err (NewFailed e)
                  | None =>
                      match agent_start spec with
                      | Some e => Err (StartFailed e)
                      | None => Ok (mkPublished (Name spec) id ep spec access)
                      end
                  end
              end
        end
    end).

(** The runtime: the agents in the order of publication, the names taken, and the
    workflows left out, with the reasons. *)
Record Runtime := mkRuntime { agents : list published; seenNames : gmap string string; skipped : list (string * skip_reason) }.
Definition start_step (cfg : Config) (e : Loading.Engine) (rt : Runtime) (id : string) : Runtime :=
  match Loading.GetWorkflow e id with
  | None => rt
  | Some wf =>
      match publish_one cfg (seenNames rt) id wf with
      | Err reason => mkRuntime (agents rt) (seenNames rt) (skipped rt ++ [(id, reason)])
      | Ok p => mkRuntime (agents rt ++ [p]) (<[p_name p := id]> (seenNames rt)) (skipped rt)
      end
  end.
Definition Start (lookup : string -> option string) (e : Loading.Engine) : option Runtime :=
  cfg ← ConfigFromEnv lookup;
  Some (foldl (start_step cfg e) (mkRuntime [] ∅ []) (sort_strings (Loading.WorkflowIDs e))).
Definition Names (rt : Runtime) : list string := List.map p_name (agents rt).

(** A published agent is backed by its workflow. *)
Definition backed (cfg : Config) (e : Loading.Engine) (p : published) : Prop :=
  exists wf trigger, Loading.workflows e !! p_workflow p = Some wf
    /\ Loading.wf_Nodes wf !! Loading.wf_Trigger wf = Some trigger /\ chat_endpoint trigger = Some (p_endpoint p)
    /\ (ResponseMode (p_endpoint p) = ModeStreaming \/ AllowsOverride (p_endpoint p) = true)
    /\ ChatSubject (p_endpoint p) <> ""
    /\ (forall id n, Loading.wf_Nodes wf !! id = Some n -> client_only n = false)
    /\ nameRe (p_name p) = true /\ mem_str (p_name p) reservedNames = false
    /\ match Access.Status (Loading.wf_IndexAccess wf) with
       | Access.IndexAccessNone => p_access p = (AppID cfg, FunctionID cfg)
       | Access.IndexAccessBound => p_access p = (AppID cfg, Access.FunctionID (Loading.wf_IndexAccess wf))
                                    /\ trim_space (Access.FunctionID (Loading.wf_IndexAccess wf)) <> ""
       | Access.IndexAccessUnbound => False
       end.

Lemma sort_elem x l : x ∈ sort_strings l <-> x ∈ l.
Proof using. by rewrite sort_strings_perm. Qed.
Lemma publish_backed cfg e seen id wf p :
  Loading.workflows e !! id = Some wf -> publish_one cfg seen id wf = Ok p ->
  backed cfg e p /\ p_workflow p = id /\ seen !! p_name p = None.
Proof using.
  intros Hwf. unfold publish_one, Eligibility. destruct (Loading.wf_Nodes wf !! Loading.wf_Trigger wf) as [trigger|] eqn:Et; [|done].
  destruct (chat_endpoint trigger) as [ep|] eqn:Ep; [|done]. destruct (negb _ && negb _) eqn:Em; [done|].
  destruct (find_first _ _) eqn:Ef; [done|]. cbn [res_bind]. rewrite find_first_None in Ef.
  destruct (BuildCardSpec _ _ _ _) as [spec|[]] eqn:Ec; try done. apply card_ok in Ec as (Hn & Hr & _).
  destruct (seen !! Name spec) eqn:Es; [done|]. destruct (str_empty (ChatSubject ep)) eqn:Esub; [done|].
  destruct (agentAccess _ _) as [access|] eqn:Ea; [|done]. destruct (agent_new _ _); [done|]. destruct (agent_start _); [done|].
  intros [= <-]. cbn. split; [|by split]. exists wf, trigger. cbn. split_and!; try done.
  - apply andb_false_iff in Em as [Em|Em]; [left|right]; apply negb_false_iff in Em; [by apply String.eqb_eq|done].
  - by apply str_empty_false.
  - intros nid n Hnode. specialize (Ef nid). rewrite Hnode in Ef. apply Ef, sort_elem, list_elem_of_fmap.
    exists (nid, n). by rewrite elem_of_map_to_list.
  - unfold agentAccess in Ea. destruct (Access.Status _); [by injection Ea as <-| |done].
    destruct (str_empty (trim_space _)) eqn:E; [done|]. injection Ea as <-. split; [done|by apply str_empty_false].
Qed.

Definition runtime_ok (cfg : Config) (e : Loading.Engine) (rt : Runtime) : Prop :=
  Forall (backed cfg e) (agents rt) /\ NoDup (Names rt)
  /\ (forall n, is_Some (seenNames rt !! n) <-> n ∈ Names rt).
Definition accounted (rt : Runtime) : list string := List.map p_workflow (agents rt) ++ (skipped rt).*1.
Lemma start_step_accounted cfg e rt id : is_Some (Loading.workflows e !! id) -> accounted (start_step cfg e rt id) ≡ₚ id :: accounted rt.
Proof using.
  intros [wf Hw]. unfold start_step, Loading.GetWorkflow, accounted. rewrite Hw.
  destruct (publish_one _ _ _ _) as [p|] eqn:Ep; cbn [agents skipped].
  - destruct (publish_backed _ _ _ _ _ _ Hw Ep) as (_ & Hid & _). rewrite List.map_app. cbn [List.map]. rewrite Hid, <- app_assoc. cbn.
    by rewrite <- Permutation_middle.
  - rewrite fmap_app, app_assoc. cbn. by rewrite <- Permutation_cons_append.
Qed.
Lemma start_step_ok cfg e rt id : runtime_ok cfg e rt -> runtime_ok cfg e (start_step cfg e rt id).
Proof using.
  intros (H1 & H2 & H3). unfold start_step, Loading.GetWorkflow. destruct (Loading.workflows e !! id) as [wf|] eqn:Ew; [|by split_and!].
  destruct (publish_one _ _ _ _) as [p|] eqn:Ep; [|by split_and!].
  destruct (publish_backed _ _ _ _ _ _ Ew Ep) as (Hb & _ & Hs). unfold runtime_ok, Names in *. cbn [agents seenNames].
  rewrite List.map_app. cbn [List.map]. split_and!.
  - apply Forall_app. split; [done|]. by constructor; [|constructor].
  - apply NoDup_app. split_and!; [done| |apply NoDup_singleton]. intros n Hn ->%list_elem_of_singleton.
    apply H3 in Hn as [? Hn]. congruence.
  - intros n. rewrite elem_of_app, list_elem_of_singleton, <- H3. destruct (decide (n = p_name p)) as [->|Hne].
    + rewrite lookup_insert_eq. by split; [right|eexists].
    + rewrite lookup_insert_ne by done. split; [by left|by intros [?|?]].
Qed.

(** C24: Publication fails closed: every published agent is a loaded workflow that can stream,
    has a subject and no tool only a browser can answer, under a valid name no other
    agent has, and its tokens are validated against the function of its index - never the
    default one when the index is bound, and not at all when its function is unknown.  Every
    other loaded workflow is left out with a reason. *)
Theorem publication_sound lookup e rt : Start lookup e = Some rt ->
  exists cfg, ConfigFromEnv lookup = Some cfg /\ AppID cfg <> "" /\ FunctionID cfg <> ""
    /\ Forall (backed cfg e) (agents rt) /\ NoDup (Names rt)
    /\ accounted rt ≡ₚ Loading.WorkflowIDs e.
Proof using.
  unfold Start. intros H. apply bind_Some in H as (cfg & Hc & [= <-]). exists cfg.
  assert (AppID cfg <> "" /\ FunctionID cfg <> "") as [Ha Hf].
  { unfold ConfigFromEnv in Hc. destruct (str_empty _ || str_empty _) eqn:E; [done|]. injection Hc as <-.
    apply orb_false_iff in E as [E1 E2]. by rewrite !str_empty_false in *. }
  assert (forall l rt, runtime_ok cfg e rt -> (forall id, id ∈ l -> is_Some (Loading.workflows e !! id)) ->
    runtime_ok cfg e (foldl (start_step cfg e) rt l) /\ accounted (foldl (start_step cfg e) rt l) ≡ₚ l ++ accounted rt) as Hl.
  { intros l. induction l as [|id l IH]; intros rt Hrt Hin; [done|]. cbn [foldl].
    destruct (IH (start_step cfg e rt id) (start_step_ok _ _ _ _ Hrt)) as [H1 H2]; [intros i Hi; apply Hin; by right|].
    split; [done|]. rewrite H2, start_step_accounted by (apply Hin; by left). by rewrite <- Permutation_middle. }
  destruct (Hl (sort_strings (Loading.WorkflowIDs e)) (mkRuntime [] ∅ [])) as ((H1 & H2 & _) & H3).
  { split_and!; [by apply List.Forall_nil|by apply NoDup_nil|]. intros n. cbn [seenNames Names agents List.map]. rewrite lookup_empty. split; [by intros [? ?]|by intros ?%elem_of_nil]. }
  { intros id Hid. apply (proj1 (sort_elem _ _)) in Hid. apply list_elem_of_fmap in Hid as ([k w] & -> & Hk).
    apply elem_of_map_to_list in Hk. by eexists. }
  split_and!; try done. rewrite H3. unfold accounted. cbn. by rewrite app_nil_r, sort_strings_perm.
Qed.
End publish.
End Publish.

(** ** relay.go *)
Module Relay.

(** Calls on the agent mesh's stream. *)
Inductive emit :=
| EText (delta : string)
| EToolUse (id name : string) (input : option json)
| EToolResult (id name result err : string)
| EData (kind : string) (payload : option json)
| EStatus (text : string)
| EDone (stop : string)
| EError (message : string) (code : Z).
Definition terminal (e : emit) : bool := match e with EDone _ | EError _ _ => true | _ => false end.

Record relay := mkRelay { toolNames : gmap string string; sawDelta : bool; done_ : bool; n : Z }.
Definition newRelay : relay := mkRelay ∅ false false 0.

Section relay.
(** Constants of the agent library's wire package. *)
Variables CodeUpstream CodeForbidden : Z.
Variables StopMaxTokens StopEndTurn : string.

(** Fields of a payload that does not decode keep their zero value. *)
Definition field (d : json) (f : string) : string := as_str (as_obj (Some d) !! f).
Definition rawToText (raw : option json) : string :=
  match raw with None | Some JNull => "" | Some (JStr s) => s | Some v => marshal v end.
Definition attachmentURL (raw : option json) : string :=
  let m := as_obj raw in
  let u := as_str (m !! "url") in if str_empty u then as_str (m !! "imageUrl") else u.
Definition mapStop (messageStop : string) : string := if String.eqb messageStop "max_tokens" then StopMaxTokens else StopEndTurn.
Definition lf : string := String (ascii_of_nat 10) "".
Definition error_text (d : json) : string :=
  let msg := trim_space (field d "code" +:+ ": " +:+ field d "message") in
  if String.eqb msg ":" then "workflow error" else msg.

(** What one event is mapped to, with the tool names and the delta mark after it. *)
Definition map_event (r : relay) (ev : StreamEvent) : list emit * gmap string string * bool :=
  let d := se_Data ev in
  let of_type ty := String.eqb (se_Type ev) ty in
  let keep l := (l, toolNames r, sawDelta r) in
  if of_type "delta" then
    let t := field d "text" in if str_empty t then keep [] else ([EText t], toolNames r, true)
  else if of_type "thought" then
    let t := field d "text" in keep (if str_empty t then [] else [EStatus t])
  else if of_type "tool_call" then
    let id := field d "toolUseId" in
    ([EToolUse id (field d "name") (as_obj (Some d) !! "input")], <[id := field d "name"]> (toolNames r), sawDelta r)
  else if of_type "tool_result" then
    let id := field d "toolUseId" in
    let text := rawToText (as_obj (Some d) !! "output") in
    keep [EToolResult id (default "" (toolNames r !! id)) text (if as_bool (as_obj (Some d) !! "isError") then text else "")]
  else if of_type "attachment" then
    let p := as_obj (Some d) !! "payload" in
    let u := attachmentURL p in
    keep (EData "attachment" p :: if str_empty u then [] else [EText (lf +:+ u +:+ lf)])
  else if of_type StreamComplete then
    let t := field d "finalText" in
    keep ((if negb (sawDelta r) && negb (str_empty t) then [EText t] else []) ++ [EDone (mapStop (field d "messageStop"))])
  else if of_type StreamError then keep [EError (error_text d) CodeUpstream]
  else keep [].
(** [apply] *)
Definition apply (ev : StreamEvent) (r : relay) : list emit * relay :=
  if done_ r then ([], r)
  else
    let '(out, names, saw) := map_event r ev in
    (out, mkRelay names saw (is_terminator (se_Type ev)) (n r + 1)).
(** [finish] *)
Definition finish (streamErr : option string) (r : relay) : list emit * relay :=
  if done_ r then ([], r)
  else ([EError ("workflow stream ended without completion" +:+ match streamErr with Some e => ": " +:+ e | None => "" end) CodeUpstream],
        mkRelay (toolNames r) (sawDelta r) true (n r)).

(** The whole of a sequence of events. *)
Definition relay_step (st : list emit * relay) (ev : StreamEvent) : list emit * relay :=
  let '(out, r) := apply ev st.2 in (st.1 ++ out, r).
Definition relayed (evs : list StreamEvent) : list emit * relay := foldl relay_step ([], newRelay) evs.

Lemma relayed_snoc evs ev : relayed (evs ++ [ev]) = (let '(out, r) := apply ev (relayed evs).2 in ((relayed evs).1 ++ out, r)).
Proof using. unfold relayed. by rewrite foldl_snoc. Qed.

(** Exactly one closing call, last, when the relay is done; none before. *)
Definition closes (done_ : bool) (l : list emit) : Prop :=
  if done_ then exists body e, l = body ++ [e] /\ terminal e = true /\ Forall (fun x => terminal x = false) body
  else Forall (fun x => terminal x = false) l.
Lemma apply_closes ev r l : closes (done_ r) l -> done_ r = false ->
  closes (done_ (apply ev r).2) (l ++ (apply ev r).1).
Proof using.
  intros Hl Hd. unfold apply. rewrite Hd in *. cbn [closes] in Hl. unfold map_event.
  assert (forall out names saw k, Forall (fun x => terminal x = false) out ->
    closes (done_ (out, mkRelay names saw false k).2) (l ++ (out, mkRelay names saw false k).1)) as Hopen
    by (intros out names saw k Ho; cbn; by apply Forall_app).
  set (ty := se_Type ev). destruct (String.eqb_spec ty "delta") as [->|_]; [destruct (str_empty _); apply Hopen; by repeat constructor|].
  destruct (String.eqb_spec ty "thought") as [->|_]; [destruct (str_empty _); apply Hopen; by repeat constructor|].
  destruct (String.eqb_spec ty "tool_call") as [->|_]; [apply Hopen; by repeat constructor|].
  destruct (String.eqb_spec ty "tool_result") as [->|_]; [apply Hopen; by repeat constructor|].
  destruct (String.eqb_spec ty "attachment") as [->|_]; [destruct (str_empty _); apply Hopen; by repeat constructor|].
  destruct (String.eqb_spec ty StreamComplete) as [->|Hc].
  { set (out := if _ && _ then _ else _). exists (l ++ out), (EDone (mapStop (field (se_Data ev) "messageStop"))). cbn [fst].
    rewrite <- app_assoc. split_and!; [done|done|]. apply Forall_app. split; [done|]. unfold out. destruct (_ && _); by repeat constructor. }
  destruct (String.eqb_spec ty StreamError) as [->|He]; [by exists l, (EError (error_text (se_Data ev)) CodeUpstream)|].
  assert (is_terminator ty = false) as -> by (unfold is_terminator; by destruct (String.eqb_spec ty StreamComplete), (String.eqb_spec ty StreamError)).
  by apply Hopen.
Qed.
End relay.
End Relay.

(** ** stream.go, one message at a time *)
Module EngineStream.

(** A message on the inbox: its headers, its payload as JSON when it is, and as text. *)
Record Inbound := mkInbound { im_Header : gmap string string; im_body : option json; im_text : string }.
Definition as_msg (m : Inbound) : Msg := mkMsg (im_Header m) (default JNull (im_body m)).

Definition errorEvent (code message : string) : StreamEvent := Server.error_event code message "".
Definition serviceErrorText (body : option json) (text : string) : string :=
  let decoded := v ← body; m ← dec_struct (Some v); e ← dec_str (m !! "errorMessage"); c ← dec_int (m !! "apiStatusCode"); Some (e, default 0 c) in
  match decoded with
  | Some (e, c) => if str_empty e then str_take 300 text else if c =? 0 then e else e +:+ " (code " +:+ print_Z c +:+ ")"
  | None => str_take 300 text
  end.

(** [sent] is everything put on the events channel. *)
Record engineStream := mkStream { nextSeq : Z; cancelSubj : option string; sent : list StreamEvent; closed : bool; err : option string }.
Definition new_stream : engineStream := mkStream 0 None [] false None.
Definition deliver (ev : StreamEvent) (s : engineStream) : engineStream :=
  if closed s then s else mkStream (nextSeq s) (cancelSubj s) (sent s ++ [ev]) false (err s).
Definition close (s : engineStream) : engineStream := mkStream (nextSeq s) (cancelSubj s) (sent s) true (err s).
Definition setErr (e : string) (s : engineStream) : engineStream :=
  mkStream (nextSeq s) (cancelSubj s) (sent s) (closed s) (match err s with Some e => Some e | None => Some e end).
Definition onMsg (m : Inbound) (s : engineStream) : engineStream :=
  let h := header (as_msg m) in
  if String.eqb (h "Status") "503" then close (deliver (errorEvent "no_responders" "no workflow instance is subscribed to the chat subject") s)
  else
    let st := h HdrStatus in
    if negb (str_empty st) && negb (String.eqb st "200") && str_empty (h HdrStreamEvent)
    then close (deliver (errorEvent ("status_" +:+ st) (serviceErrorText (im_body m) (im_text m))) s)
    else
      match ParseStreamMessage (as_msg m) with
      | Err _ => s
      | Ok ev =>
          if negb (se_Sequence ev =? nextSeq s) then s
          else
            let cs := if se_Sequence ev =? 0 then Some (h HdrStreamCancelSubject) else cancelSubj s in
            let s := deliver ev (mkStream (nextSeq s + 1) cs (sent s) (closed s) (err s)) in
            if is_terminator (se_Type ev) then close s else s
      end.
(** [Cancel]: the subject published to, when the start event announced it. *)
Definition Cancel (s : engineStream) : option string :=
  match cancelSubj s with Some c => if str_empty c then None else Some c | None => None end.

Lemma deliver_closed ev s : closed s = true -> deliver ev s = s.
Proof. unfold deliver. by intros ->. Qed.
Lemma onMsg_closed m s : closed s = true -> sent (onMsg m s) = sent s /\ closed (onMsg m s) = true.
Proof.
  intros Hc. unfold onMsg. destruct (String.eqb _ _); [rewrite deliver_closed by done; by split|].
  destruct (_ && _); [rewrite deliver_closed by done; by split|]. destruct (ParseStreamMessage _) as [ev|]; [|by split].
  destruct (negb _); [by split|]. rewrite deliver_closed by done. by destruct (is_terminator _).
Qed.
Lemma onMsg_monotone m s : sent s `prefix_of` sent (onMsg m s) /\ (closed s = true -> closed (onMsg m s) = true).
Proof.
  assert (forall ev s, sent s `prefix_of` sent (deliver ev s)) as Hd.
  { intros ev s'. unfold deliver. destruct (closed s'); [done|]. cbn. by apply prefix_app_r. }
  split; [|intros H; by apply onMsg_closed]. unfold onMsg. destruct (String.eqb _ _); [apply (Hd _ s)|].
  destruct (_ && _); [apply (Hd _ s)|]. destruct (ParseStreamMessage _) as [ev|]; [|done]. destruct (negb _); [done|].
  destruct (is_terminator _); apply (Hd ev (mkStream _ _ (sent s) _ _)).
Qed.

(** On the messages of a session the stream is the client of Stream.v until it is closed. *)
Definition tracks (s : engineStream) (c : Client.StreamSubscription) : Prop :=
  sent s = Client.delivered c /\ (closed s = false -> Client.sub_closed c = false /\ nextSeq s = Client.nextSeq c)
  /\ (Client.sub_closed c = true -> closed s = true).
Lemma tracks_onMsg m s c : header (as_msg m) "Status" <> "503" -> header (as_msg m) HdrStreamEvent <> "" -> tracks s c ->
  exists c', (c' = c \/ c' = Client.on_message c (as_msg m)) /\ tracks (onMsg m s) c'.
Proof.
  intros Hs He (H1 & H2 & H3). destruct (closed s) eqn:Ec.
  { destruct (onMsg_closed m s Ec) as [H4 H5]. exists c. split; [by left|]. unfold tracks. rewrite H4, H5. by split_and!. }
  destruct (H2 eq_refl) as [Hc Hn]. exists (Client.on_message c (as_msg m)). split; [by right|].
  unfold onMsg, Client.on_message. rewrite Hc. destruct (String.eqb_spec (header (as_msg m) "Status") "503"); [done|].
  rewrite (proj2 (str_empty_false _) He), andb_false_r. destruct (ParseStreamMessage (as_msg m)) as [ev|]; [|unfold tracks; rewrite Ec; by split_and!].
  rewrite Hn. destruct (negb _); [unfold tracks; rewrite Ec; by split_and!|]. unfold deliver. cbn [closed]. rewrite Ec.
  unfold tracks. destruct (is_terminator (se_Type ev)); cbn; rewrite H1; by split_and!.
Qed.
End EngineStream.

(** ** consult.go and runtime.go: one bridged request *)
Module Consult.
Import Relay EngineStream.

(** What the schedule brings next: a message, the timeout, the end of the caller's
    context, or the loop reading the channel.  The handler's send blocks while the
    channel's 64 places are taken; a schedule has the message when the send completes. *)
Inductive event := Net (m : Inbound) | Timer | CtxDone | Read.

Record state := mkState {
  str : engineStream;
  taken : nat;                     (* events read off the channel *)
  rl : relay;
  emitted : list emit;
  returned : option bool;          (* returned; [Some true]: by the caller's context *)
  cancel_sent : option string;     (* the subject a cancel was published to *)
}.
Definition init : state := mkState new_stream 0 newRelay [] None None.

Section consult.
Variables CodeUpstream CodeForbidden : Z.
Variables StopMaxTokens StopEndTurn : string.
Variable timeout : Z.
Variable timeout_text : string.
#[local] Abbreviation apply := (Relay.apply CodeUpstream StopMaxTokens StopEndTurn).
#[local] Abbreviation finish := (Relay.finish CodeUpstream).
#[local] Abbreviation relayed := (Relay.relayed CodeUpstream StopMaxTokens StopEndTurn).

(** The stream goes on whether or not the loop has returned. *)
Definition with_str (s : engineStream) (st : state) : state := mkState s (taken st) (rl st) (emitted st) (returned st) (cancel_sent st).
(** The loop takes what the channel holds: an event, its end, or nothing. *)
Definition read (st : state) : state :=
  match sent (str st) !! taken st with
  | Some ev =>
      let '(out, r) := apply ev (rl st) in
      if done_ r then mkState (close (str st)) (S (taken st)) r (emitted st ++ out) (Some false) (cancel_sent st)
      else mkState (str st) (S (taken st)) r (emitted st ++ out) None (cancel_sent st)
  | None =>
      if closed (str st) then
        let '(out, r) := finish (err (str st)) (rl st) in
        mkState (str st) (taken st) r (emitted st ++ out) (Some false) (cancel_sent st)
      else st
  end.
Definition step (st : state) (e : event) : state :=
  match e with
  | Net m => with_str (onMsg m (str st)) st
  | Timer => if 0 <? timeout then with_str (close (setErr timeout_text (str st))) st else st
  | CtxDone =>
      match returned st with
      | Some _ => st
      | None => mkState (close (str st)) (taken st) (rl st) (emitted st) (Some true) (Cancel (str st))
      end
  | Read => match returned st with Some _ => st | None => read st end
  end.
Definition run (l : list event) : state := foldl step init l.

(** What has been said is the relay of what was read, plus the failure of a stream that
    ended early. *)
Definition ok (st : state) : Prop :=
  (taken st <= List.length (sent (str st)))%nat
  /\ match returned st with
     | None | Some true => relayed (take (taken st) (sent (str st))) = (emitted st, rl st) /\ done_ (rl st) = false
     | Some false =>
         done_ (rl st) = true
         /\ (relayed (take (taken st) (sent (str st))) = (emitted st, rl st)
             \/ exists l r text, relayed (take (taken st) (sent (str st))) = (l, r) /\ done_ r = false
                  /\ emitted st = l ++ [EError text CodeUpstream])
     end.
Lemma ok_more st s : ok st -> sent (str st) `prefix_of` sent s -> ok (with_str s st).
Proof using.
  intros [H1 H2] [k Hk]. unfold ok, with_str. cbn. rewrite Hk, length_app. split; [lia|].
  assert (take (taken st) (sent (str st) ++ k) = take (taken st) (sent (str st))) as -> by (by rewrite take_app_le by lia). done.
Qed.
Lemma ok_read st : ok st -> returned st = None -> ok (read st).
Proof using.
  intros [H1 H2] Hr. rewrite Hr in H2. destruct H2 as [H2 Hd]. unfold read. destruct (sent (str st) !! taken st) as [ev|] eqn:Es.
  - apply lookup_lt_Some in Es as Hlt. pose proof (relayed_snoc CodeUpstream StopMaxTokens StopEndTurn (take (taken st) (sent (str st))) ev) as Hsn.
    rewrite <- take_S_r in Hsn by done. rewrite H2 in Hsn. cbn [fst snd] in Hsn.
    destruct (apply ev (rl st)) as [out r] eqn:Ea. destruct (done_ r) eqn:Er; (split; [cbn; lia|]; cbn); [split; [done|by left]|by split].
  - destruct (closed (str st)); [|unfold ok; by rewrite Hr]. unfold Relay.finish. rewrite Hd. split; [done|]. cbn. split; [done|]. right. eauto 10.
Qed.
Lemma consult_ok_step st e : ok st -> ok (step st e).
Proof using.
  intros H. destruct e as [m| | |]; cbn [step].
  - apply ok_more; [done|apply onMsg_monotone].
  - destruct (0 <? timeout); [by apply ok_more|done].
  - destruct (returned st) eqn:Er; [done|]. destruct H as [H1 H2]. rewrite Er in H2. by split.
  - destruct (returned st) eqn:Er; [done|]. by apply ok_read.
Qed.
Lemma ok_run l : ok (run l).
Proof using.
  unfold run. induction l as [|e l IH] using rev_ind; [split; [done|by split]|]. rewrite foldl_snoc. by apply consult_ok_step.
Qed.
Lemma relayed_closes evs : closes (done_ (relayed evs).2) (relayed evs).1.
Proof using.
  induction evs as [|ev evs IH] using rev_ind; [constructor|]. rewrite relayed_snoc.
  destruct (done_ (relayed evs).2) eqn:Ed.
  - unfold Relay.apply. rewrite Ed. cbn. by rewrite Ed, app_nil_r.
  - pose proof (apply_closes CodeUpstream StopMaxTokens StopEndTurn ev (relayed evs).2 (relayed evs).1) as H. rewrite Ed in H.
    specialize (H IH eq_refl). by destruct (apply ev (relayed evs).2) as [out r].
Qed.

Lemma relayed_done evs : done_ (relayed evs).2 = true -> Exists (fun e => is_terminator (se_Type e) = true) evs.
Proof using.
  induction evs as [|e evs IH] using rev_ind; [done|]. rewrite relayed_snoc, Exists_app.
  destruct (done_ (relayed evs).2) eqn:Ed; [by left; apply IH|]. unfold Relay.apply. rewrite Ed.
  destruct (map_event _ _ _ _ _) as [[out names] saw]. cbn. intros Hterm. right. by constructor.
Qed.

Lemma consult_ends_once_any l :
  closes (bool_decide (returned (run l) = Some false)) (emitted (run l)).
Proof using.
  destruct (ok_run l) as [_ H]. destruct (returned (run l)) as [[]|] eqn:Er; case_bool_decide; try done.
  - destruct H as [H Hd]. pose proof (relayed_closes (take (taken (run l)) (sent (str (run l))))) as Hc. rewrite H in Hc. cbn in Hc.
    by rewrite Hd in Hc.
  - destruct H as [Hd [H|(k & r & text & H & Hr & ->)]]; pose proof (relayed_closes (take (taken (run l)) (sent (str (run l))))) as Hc;
      rewrite H in Hc; cbn [snd fst] in Hc.
    + by rewrite Hd in Hc.
    + rewrite Hr in Hc. by exists k, (EError text CodeUpstream).
  - destruct H as [H Hd]. pose proof (relayed_closes (take (taken (run l)) (sent (str (run l))))) as Hc. rewrite H in Hc. cbn in Hc.
    by rewrite Hd in Hc.
Qed.
(** A consult ends once: whatever the network, the timer, the caller and the reader do,
    and in whatever order, the caller's stream is closed at most once, by the last call
    made on it, and exactly when the consult returned other than by the caller's own
    cancellation. *)
Theorem consult_ends_once l :
  closes (bool_decide (returned (run l) = Some false)) (emitted (run l)).
Proof using. apply consult_ends_once_any. Qed.

(** *** On the messages of one session *)
Section session.
Variables streamID cancelSubject toolPrefix : string.
Variables sessionID workflowID requestID : string.
Variable ops : list Server.op.
#[local] Abbreviation events := (Server.session_events sessionID workflowID requestID ops).
#[local] Abbreviation messages := (Server.numbered streamID cancelSubject toolPrefix events).
#[local] Abbreviation as_received := (Client.as_received streamID cancelSubject toolPrefix).

(** A message of the session as it arrives; the session's own headers hold no [Status]. *)
Definition of_session (m : Inbound) : Prop := as_msg m ∈ messages /\ header (as_msg m) "Status" <> "503".
Definition session_event (e : event) : Prop := match e with Net m => of_session m | _ => True end.

Lemma message_has_event m : Forall Client.carriable events -> m ∈ messages -> header m HdrStreamEvent <> "".
Proof using.
  intros Hc [i Hm]%list_elem_of_lookup. unfold Server.numbered in Hm. rewrite list_lookup_imap in Hm.
  destruct (events !! i) as [ev|] eqn:Hi; [|done]. injection Hm as <-. rewrite Forall_lookup in Hc. specialize (Hc i ev Hi).
  rewrite Client.header_message by (done || apply (bool_decide_unpack _); vm_compute; exact I).
  rewrite (proj1 (Client.protocol_fields _ _ _ (se_Type ev) (Z.of_nat i))). apply Hc.
Qed.
Lemma run_tracks l : Forall Client.carriable events -> Forall session_event l -> exists net c,
  Forall (fun m => m ∈ messages) net /\ c = Client.receive net /\ tracks (str (run l)) c.
Proof using.
  intros Hc Hl. induction l as [|e l IH] using rev_ind.
  { exists [], Client.new_subscription. split_and!; [constructor|done|]. by split_and!. }
  apply Forall_app in Hl as [Hl He]. apply Forall_cons_iff in He as [He _]. destruct (IH Hl) as (net & c & Hn & Hr & Ht).
  unfold run. rewrite foldl_snoc. change (foldl step init l) with (run l).
  assert (forall s', sent s' = sent (str (run l)) -> closed s' = true -> tracks s' c) as Hclose.
  { intros s' H1 H2. destruct Ht as (T1 & T2 & T3). split_and!; [congruence|congruence|done]. }
  destruct e as [m| | |]; cbn [step].
  - destruct He as [Hm Hs]. destruct (tracks_onMsg m (str (run l)) c Hs (message_has_event _ Hc Hm) Ht) as (c' & [->| ->] & Ht').
    + exists net, c. by split_and!.
    + exists (net ++ [as_msg m]), (Client.on_message c (as_msg m)). split_and!; [apply Forall_app; split; [done|by constructor]| |done].
      rewrite Hr. unfold Client.receive. by rewrite foldl_snoc.
  - destruct (0 <? timeout); [|by exists net, c]. exists net, c. split_and!; [done|done|]. by apply Hclose.
  - destruct (returned (run l)); [by exists net, c|]. exists net, c. split_and!; [done|done|]. by apply Hclose.
  - destruct (returned (run l)); [by exists net, c|]. exists net, c. split_and!; [done|done|]. unfold read.
    destruct (_ !! _) as [ev|].
    + destruct (apply ev (rl (run l))) as [out r]. destruct (done_ r); [by apply Hclose|done].
    + destruct (closed (str (run l))) eqn:Ecl; [|done]. by destruct (finish (err (str (run l))) (rl (run l))).
Qed.

(** What the caller sees of a session, whatever the network loses, repeats or delays and
    whenever the timeout or the caller strikes: the relay of a gap-free prefix of the
    session's events, then nothing, or one error when the stream ended early; and when
    the consult completed by itself with no such error, the relay of the whole session. *)
Theorem consult_relays l : Forall Client.carriable (omap Server.op_event ops) -> Z.of_nat (List.length events) < 2 ^ 63 ->
  Forall session_event l -> exists k extra,
    emitted (run l) = (relayed (imap as_received (take k events))).1 ++ extra
    /\ (extra = [] \/ exists text, extra = [EError text CodeUpstream])
    /\ (returned (run l) = Some false -> extra = [] -> take k events = events).
Proof using.
  intros Hops Hlen Hl. pose proof (Client.carriable_events sessionID workflowID requestID ops Hops) as Hc.
  destruct (run_tracks l Hc Hl) as (net & c & Hn & -> & Ht & _).
  destruct (Client.receive_prefix streamID cancelSubject toolPrefix events Hc Hlen net Hn) as (k0 & _ & Hd & Hk0 & _).
  destruct (ok_run l) as [Hle H]. rewrite Ht, Hd in *. set (n := taken (run l)) in *.
  assert (take n (imap as_received (take k0 events)) = imap as_received (take (n `min` k0) events)) as E.
  { apply list_eq. intros i. destruct (decide (i < n)%nat).
    - rewrite lookup_take_lt by done. rewrite !list_lookup_imap. destruct (decide (i < k0)%nat).
      + by rewrite !lookup_take_lt by lia.
      + by rewrite !lookup_take_ge by lia.
    - rewrite lookup_take_ge by lia. rewrite list_lookup_imap, lookup_take_ge by lia. done. }
  rewrite E in H. exists (n `min` k0)%nat.
  assert (done_ (relayed (imap as_received (take (n `min` k0) events))).2 = true -> take (n `min` k0) events = events) as Hwhole.
  { intros Hdone. destruct (decide (n `min` k0 < List.length events)%nat) as [Hlt|]; [|by rewrite take_ge by lia].
    exfalso. pose proof (Client.session_mid sessionID workflowID requestID ops (n `min` k0) Hlt) as Hm.
    apply relayed_done, Exists_exists in Hdone as (e & He & Hterm). apply list_elem_of_lookup in He as [i Hi].
    rewrite list_lookup_imap in Hi. destruct (take (n `min` k0) events !! i) as [e'|] eqn:Ei; [|done]. injection Hi as <-. cbn in Hterm.
    assert (Server.terminated (take (S i) events) = true) as Hti.
    { apply lookup_take_Some in Ei as [Ei _]. rewrite (take_S_r _ _ _ Ei). unfold Server.terminated. by rewrite last_snoc. }
    apply lookup_take_Some in Ei as [Ei Hi']. by rewrite (Client.session_mid sessionID workflowID requestID ops (S i)) in Hti by lia. }
  destruct (returned (run l)) as [[]|].
  - destruct H as [H _]. exists []. rewrite H, app_nil_r. split_and!; [done|by left|done].
  - destruct H as [Hd' [H|(body & r & text & H & Hr & Hem)]].
    + exists []. rewrite H, app_nil_r. split_and!; [done|by left|]. intros _ _. apply Hwhole. by rewrite H.
    + exists [EError text CodeUpstream]. rewrite H, Hem. split_and!; [done|right; by eexists|done].
  - destruct H as [H _]. exists []. rewrite H, app_nil_r. split_and!; [done|by left|done].
Qed.
End session.
End consult.
End Consult.

(** ** runtime.go: a turn of a published agent *)
Module Bridge.
Import Config Publish Relay EngineStream Consult.

(** What the agent library hands over of a turn: the identity it resolved, the message's
    text blocks, and the caller's display context. *)
Record Identity := mkIdentity { Verified : bool; AccountID : string; UserID : string; IDT : string }.
Record Turn := mkTurn { t_Identity : Identity; t_SessionID : string; t_Texts : list string; t_TimeZone : string; t_UserName : string }.

Inductive gate_error := NotVerified | NoAccountOrUser.
Definition gate_text (e : gate_error) : string :=
  match e with NotVerified => "identity not verified" | NoAccountOrUser => "identity did not resolve account and user" end.
Definition gate (id : Identity) (strict : bool) : option gate_error :=
  if strict && negb (Verified id) then Some NotVerified
  else if str_empty (trim_space (AccountID id)) || str_empty (trim_space (UserID id)) then Some NoAccountOrUser
  else None.
Definition messageText (texts : list string) : string := String.concat lf (List.filter (fun t => negb (str_empty t)) texts).

Record request := mkRequest { rq_Subject : string; rq_Header : gmap string string; rq_Body : json }.
Definition opt_header (k v : string) (h : gmap string string) : gmap string string := if str_empty v then h else <[k := v]> h.
Definition build_request (subject messageID : string) (t : Turn) : request :=
  let id := t_Identity t in
  let h := <["X-User-Id" := UserID id]> (<["X-Account-Id" := AccountID id]> ∅) in
  let h := opt_header "X-User-Name" (t_UserName t) (opt_header "X-Time-Zone" (t_TimeZone t) (opt_header "X-TRX-IDT" (IDT id) h)) in
  mkRequest subject (<[HdrMessageId := messageID]> h)
    (jobj ([("message", JStr (messageText (t_Texts t)))]
           ++ (if str_empty (t_SessionID t) then [] else [("sessionId", JStr (t_SessionID t))])
           ++ [("responseMode", JStr ModeStreaming)])).

Section handle.
Variables CodeUpstream CodeForbidden : Z.
Variables StopMaxTokens StopEndTurn : string.
Variable timeout_text : string.
(** [handleChat]: the request published, and the calls on the caller's stream;
    [open_error] is a failed subscribe or publish. *)
Definition handleChat (cfg : Config) (p : published) (t : Turn) (messageID : string) (open_error : option string) (schedule : list event)
    : option request * list emit :=
  match gate (t_Identity t) (negb (ObserveOnly cfg)) with
  | Some e => (None, [EError ("forbidden: " +:+ gate_text e) CodeForbidden])
  | None =>
      match open_error with
      | Some e => (None, [EError ("workflow unreachable: " +:+ e) CodeUpstream])
      | None => (Some (build_request (ChatSubject (p_endpoint p)) messageID t),
                 emitted (run CodeUpstream StopMaxTokens StopEndTurn (ConsultTimeout cfg) timeout_text schedule))
      end
  end.

(** The workflow is never asked on behalf of an unknown caller: a request is published
    only for an identity with an account and a user - verified, unless the process only
    observes - on the workflow's own subject, in its name and with its token; and
    whatever happens, the caller's stream has at most one closing call, its last: exactly
    one when nothing was asked, and when the consult ended by itself. *)
Theorem bridge_gated cfg p t messageID open_error schedule :
  let '(rq, out) := handleChat cfg p t messageID open_error schedule in
  match rq with
  | None => closes true out
  | Some rq =>
      (ObserveOnly cfg = false -> Verified (t_Identity t) = true)
      /\ trim_space (AccountID (t_Identity t)) <> "" /\ trim_space (UserID (t_Identity t)) <> ""
      /\ rq_Subject rq = ChatSubject (p_endpoint p)
      /\ rq_Header rq !! "X-Account-Id" = Some (AccountID (t_Identity t))
      /\ rq_Header rq !! "X-User-Id" = Some (UserID (t_Identity t))
      /\ default "" (rq_Header rq !! "X-TRX-IDT") = IDT (t_Identity t)
      /\ as_obj (Some (rq_Body rq)) !! "responseMode" = Some (JStr ModeStreaming)
      /\ exists ended, closes ended out
           /\ (ended = true <-> returned (run CodeUpstream StopMaxTokens StopEndTurn (ConsultTimeout cfg) timeout_text schedule) = Some false)
  end.
Proof using.
  unfold handleChat. destruct (gate _ _) as [g|] eqn:Eg; [by exists [], (EError ("forbidden: " +:+ gate_text g) CodeForbidden)|].
  destruct open_error as [e|]; [by exists [], (EError ("workflow unreachable: " +:+ e) CodeUpstream)|].
  unfold gate in Eg. destruct (negb (ObserveOnly cfg) && _) eqn:Es; [done|]. destruct (str_empty _ || _) eqn:Ei; [done|].
  apply orb_false_iff in Ei as [E1 E2]. rewrite str_empty_false in E1, E2.
  assert (forall k v h k', k <> k' -> opt_header k v h !! k' = h !! k') as Hopt
    by (intros k v h k' Hne; unfold opt_header; destruct (str_empty v); [done|by rewrite lookup_insert_ne]).
  split_and!; try done; cbn [rq_Header rq_Subject rq_Body build_request].
  - intros Ho. rewrite Ho in Es. by destruct (Verified _).
  - rewrite lookup_insert_ne by done. by rewrite !Hopt by done.
  - rewrite lookup_insert_ne by done. by rewrite !Hopt by done.
  - rewrite lookup_insert_ne by done. rewrite !Hopt by done. unfold opt_header.
    destruct (str_empty (IDT _)) eqn:E; [by apply str_empty_true in E as ->|by rewrite lookup_insert_eq].
  - destruct (str_empty (t_SessionID t)); vm_compute; reflexivity.
  - eexists. split; [apply consult_ends_once_any|]. by rewrite bool_decide_eq_true.
Qed.
End handle.
End Bridge.

(** ** stream.go, concurrently: the handler, the reader, and whoever closes

    [deliver] and [close] run under one mutex.  The handler is a single goroutine (the
    connection calls a subscription's callback one message at a time); closers are the
    handler itself after a delivery, the timer, and the reader. *)
Module CloseRace.

Inductive handler := Idle | Wants (e : StreamEvent) | Sending (e : StreamEvent).   (* [Sending]: under the mutex, at the [select] *)
Inductive owner := Free | Handler | Closer.

Record state := mkState {
  hd : handler;
  mu : owner;
  chan : list StreamEvent;
  received : list StreamEvent;
  done_closed : bool;
  closed : bool;
  chan_closed : bool;
  waiting : nat;            (* closers past [close(done)], waiting for the mutex *)
  panicked : bool;
}.
Definition init : state := mkState Idle Free [] [] false false false 0 false.
Definition capacity : nat := 64.

Inductive step : state -> state -> Prop :=
| deliver_call m ch rc dc c cc w e :
    step (mkState Idle m ch rc dc c cc w false) (mkState (Wants e) m ch rc dc c cc w false)
| deliver_lock ch rc dc cc w e :              (* not closed: to the select *)
    step (mkState (Wants e) Free ch rc dc false cc w false) (mkState (Sending e) Handler ch rc dc false cc w false)
| deliver_drop ch rc dc cc w e :              (* closed: return *)
    step (mkState (Wants e) Free ch rc dc true cc w false) (mkState Idle Free ch rc dc true cc w false)
| send m ch rc dc c w e :
    (List.length ch < capacity)%nat ->
    step (mkState (Sending e) m ch rc dc c false w false) (mkState Idle Free (ch ++ [e]) rc dc c false w false)
| send_closed m ch rc dc c w e :              (* a send on a closed channel is ready, and panics *)
    step (mkState (Sending e) m ch rc dc c true w false) (mkState (Sending e) m ch rc dc c true w true)
| closer_leaves m ch rc c cc w e :                  (* case <-s.done *)
    step (mkState (Sending e) m ch rc true c cc w false) (mkState Idle Free ch rc true c cc w false)
| receive h m e ch rc dc c cc w :
    step (mkState h m (e :: ch) rc dc c cc w false) (mkState h m ch (rc ++ [e]) dc c cc w false)
| close_call h m ch rc dc c cc w :            (* doneOnce: close(done) *)
    step (mkState h m ch rc dc c cc w false) (mkState h m ch rc true c cc (S w) false)
| close_lock h ch rc dc c cc w :
    step (mkState h Free ch rc dc c cc (S w) false) (mkState h Closer ch rc dc c cc w false)
| close_again h ch rc dc cc w :               (* already closed: return *)
    step (mkState h Closer ch rc dc true cc w false) (mkState h Free ch rc dc true cc w false)
| close_chan h ch rc dc w :                   (* close(events) *)
    step (mkState h Closer ch rc dc false false w false) (mkState h Free ch rc dc true true w false)
| close_twice h ch rc dc w :                  (* closing a closed channel panics *)
    step (mkState h Closer ch rc dc false true w false) (mkState h Closer ch rc dc false true w true).

Definition reachable (s : state) : Prop := rtc step init s.

Definition ok (s : state) : Prop :=
  panicked s = false /\ chan_closed s = closed s
  /\ match hd s with Sending _ => mu s = Handler /\ closed s = false | _ => mu s <> Handler end
  /\ ((0 < waiting s)%nat \/ mu s = Closer \/ closed s = true -> done_closed s = true).
Lemma race_ok_step s s' : ok s -> step s s' -> ok s'.
Proof.
  intros (H1 & H2 & H3 & H4) Hs. destruct Hs; unfold ok in *; cbn in *; subst;
    try (destruct H3 as [H3 H5]); subst; try done; split_and!; try done; try naive_solver;
    try (destruct h; naive_solver); intros _; apply H4; left; lia.
Qed.
Lemma reachable_ok s : reachable s -> ok s.
Proof.
  intros H. assert (ok init) as H0 by (unfold ok; cbn; split_and!; naive_solver lia).
  revert H0. induction H as [s|s s1 s2 Hs _ IH]; [done|]. intros H0. apply IH. by eapply race_ok_step.
Qed.

(** A closer that has begun gets to close, without the reader's help. *)
Lemma close_completes s0 : ok s0 -> (0 < waiting s0)%nat \/ mu s0 = Closer -> exists s', rtc step s0 s' /\ closed s' = true /\ received s' = received s0.
Proof.
  assert (forall s, ok s -> mu s = Closer -> exists s', rtc step s s' /\ closed s' = true /\ received s' = received s) as Hown.
  { intros [h m ch rc dc c cc w p] (H1 & H2 & H3 & H4) Hm. cbn in *. subst. destruct c.
    - eexists. split; [apply rtc_refl|done].
    - eexists. split; [apply rtc_once, close_chan|done]. }
  assert (forall s, ok s -> mu s = Free -> (0 < waiting s)%nat -> exists s', rtc step s s' /\ closed s' = true /\ received s' = received s) as Hfree.
  { intros s Hok Hm Hw. destruct s as [h m ch rc dc c cc [|w] p]; cbn in Hm, Hw; [lia|]. subst m. destruct Hok as (H1 & H2 & H3 & H4). cbn in H1. subst p.
    destruct (Hown (mkState h Closer ch rc dc c cc w false)) as (s' & Hs & Hc & Hr).
    - eapply race_ok_step; [|apply close_lock]. by split_and!.
    - done.
    - exists s'. split; [|done]. by eapply rtc_l; [apply close_lock|]. }
  intros Hok [Hw|Hw]; [|by apply Hown]. destruct (mu s0) eqn:Em; [by apply Hfree| |by apply Hown].
  pose proof Hok as (H1 & H2 & H3 & H4). destruct s0 as [h m ch rc dc c cc w p]; cbn in *. subst m p cc.
  destruct h as [|e|e]; try done. assert (dc = true) as -> by (apply H4; by left).
  destruct (Hfree (mkState Idle Free ch rc true c c w false)) as (s' & Hs & Hc & Hr); try done.
  exists s'. split; [|done]. by eapply rtc_l; [apply closer_leaves|].
Qed.

(** C26: Closing is safe and always completes: under every interleaving of the handler, the
    reader and any number of closers nothing is ever sent on the closed channel and it is
    closed once, so the process cannot panic there (as the transport's own client can);
    and a closer that has begun can always finish, even when the handler is blocked on a
    full channel nobody reads. *)
Theorem close_safe s : reachable s ->
  panicked s = false
  /\ ((0 < waiting s)%nat \/ mu s = Closer -> exists s', rtc step s s' /\ closed s' = true /\ received s' = received s).
Proof. intros H%reachable_ok. split; [apply H|by apply close_completes]. Qed.
End CloseRace.

(** ** Concrete runs *)
Module AssistantExamples.
Import Config Card Publish Relay EngineStream Consult Bridge.

Definition env (k : string) : option string :=
  if String.eqb k "APP_ID" then Some "app" else if String.eqb k "APP_FUNCTION_ID" then Some "fn" else None.
Definition demo_node (role pattern : string) : Node :=
  mkNode (mkSpec role role [] [] []) (fun _ => false) (Some pattern) None (fun _ => None) None.
Definition demo_endpoint (n : Node) : option ChatEndpoint :=
  if String.eqb (spec_Role (node_spec n)) RoleTrigger then Some (mkEndpoint "single" true "base.chat") else None.
Definition demo_client_only (n : Node) : bool := String.eqb (spec_Role (node_spec n)) "ui".
Definition demo_wf (id manifest_name : string) (more : list (string * Node)) (ia : Access.IndexAccess) : Loading.Workflow :=
  Loading.mkWorkflow id "about" (Some (jobj [("name", JStr manifest_name)])) "t"
    (list_to_map (("t", demo_node RoleTrigger "") :: more)) ["t"] ∅ ∅ ia.
Definition bound (fn : string) : Access.IndexAccess := Access.mkAccess Access.IndexAccessBound "claims" fn "".
Definition demo_workflows : gmap string Loading.Workflow := list_to_map
  [("a", demo_wf "a" "claims" [] (bound "fn-claims")); ("b", demo_wf "b" "claims" [] (bound "fn-claims"));
   ("c", demo_wf "c" "" [("x", demo_node "ui" "")] (bound "fn-claims"));
   ("d", demo_wf "d" "" [] (Access.mkAccess Access.IndexAccessUnbound "claims" "" ""));
   ("e", demo_wf "e" "discover" [] (bound "fn"))].
Definition demo_engine : Loading.Engine := Loading.mkEngine demo_workflows ∅ [] false [].
Definition demo_start : option Runtime := Start demo_endpoint demo_client_only (fun _ _ => None) (fun _ => None) env demo_engine.

Example start_ex : exists rt, demo_start = Some rt
  /\ List.map (fun p => (p_name p, p_workflow p, p_access p)) (agents rt) = [("claims", "a", ("app", "fn-claims"))]
  /\ skipped rt = [("b", NameTaken "claims" "a"); ("c", ClientOnlyNode "x"); ("d", IndexUnbound "no usable function"); ("e", CardRefused (Reserved "discover"))].
Proof. eexists. split; [reflexivity|]. vm_compute. by split. Qed.

Lemma publication_sound_witness : exists rt, demo_start = Some rt /\ NoDup (Names rt).
Proof.
  eexists. split; [reflexivity|].
  destruct (publication_sound demo_endpoint demo_client_only (fun _ _ => None) (fun _ => None) env demo_engine _ eq_refl) as (cfg & _ & _ & _ & _ & H & _).
  exact H.
Defined.

Definition demo_ops : list Server.op := [Server.OpSend (Server.event "delta" (jobj [("text", JStr "Hi")])); Server.OpComplete "Hi" "max_tokens"].
Definition demo_messages : list Inbound :=
  List.map (fun m => mkInbound (m_Header m) (Some (m_Data m)) "")
    (Server.numbered "s" "cancel" "tools" (Server.session_events "sess" "wf" "rq" demo_ops)).
Definition nth_msg (i : nat) : event := Net (default (mkInbound ∅ None "") (demo_messages !! i)).
Definition demo_run (l : list event) : Consult.state := run 502 "max" "end" second "timed out after 1s" l.
Definition whole : list event := [nth_msg 0; Read; nth_msg 2; nth_msg 1; nth_msg 1; Read; Read; nth_msg 2; Read].

Example consult_ex :
  emitted (demo_run whole) = [EText "Hi"; EDone "max"]
  /\ returned (demo_run whole) = Some false
  /\ emitted (demo_run [nth_msg 0; Timer; Read; nth_msg 1; Read])
     = [EError "workflow stream ended without completion: timed out after 1s" 502]
  /\ cancel_sent (demo_run [nth_msg 0; Read; CtxDone]) = Some "cancel"
  /\ emitted (demo_run [Net (mkInbound (list_to_map [("Status", "503")]) None ""); Read])
     = [EError "no_responders: no workflow instance is subscribed to the chat subject" 502].
Proof. vm_compute. by split_and!. Qed.

Lemma demo_from_session : Forall (session_event "s" "cancel" "tools" "sess" "wf" "rq" demo_ops) whole.
Proof.
  assert (forall i, (i < 3)%nat -> session_event "s" "cancel" "tools" "sess" "wf" "rq" demo_ops (nth_msg i)) as H.
  { intros i Hi. destruct i as [|[|[|i]]]; [| | |lia]; (split; [|by vm_compute]); unfold as_msg; cbn -[Server.message];
      repeat first [by left|right]. }
  unfold whole. repeat (constructor; [first [exact I|by apply H; lia]|]). constructor.
Qed.
Lemma consult_relays_witness : exists k extra,
  emitted (demo_run whole)
  = (relayed 502 "max" "end" (imap (Client.as_received "s" "cancel" "tools") (take k (Server.session_events "sess" "wf" "rq" demo_ops)))).1 ++ extra
  /\ (extra = [] -> take k (Server.session_events "sess" "wf" "rq" demo_ops) = Server.session_events "sess" "wf" "rq" demo_ops).
Proof.
  destruct (consult_relays 502 "max" "end" second "timed out after 1s" "s" "cancel" "tools" "sess" "wf" "rq" demo_ops whole) as (k & extra & H1 & _ & H2).
  - repeat (constructor; [split; [done|intros h _; apply lookup_empty]|]). constructor.
  - vm_compute. reflexivity.
  - exact demo_from_session.
  - exists k, extra. split; [exact H1|]. apply H2. vm_compute. reflexivity.
Defined.

Lemma close_safe_witness : exists s, CloseRace.reachable s /\ CloseRace.waiting s = 1%nat /\ CloseRace.panicked s = false.
Proof.
  exists (CloseRace.mkState CloseRace.Idle CloseRace.Free [] [] true false false 1 false).
  assert (CloseRace.reachable (CloseRace.mkState CloseRace.Idle CloseRace.Free [] [] true false false 1 false)) as H
    by (apply rtc_once, CloseRace.close_call).
  split; [exact H|]. split; [reflexivity|]. exact (proj1 (CloseRace.close_safe _ H)).
Defined.
End AssistantExamples.
