(* ===== verification/Errand.v ===== *)
(** * An errand of the assistant, from the agent mesh to the workflow and back

    The assistant's request (Assistant.v) on the bus, the trigger that serves it (Chat.v)
    under the caller's own token, and the relay of the workflow's stream. *)

From S2P Require Import Prelude Json Template Node Engine Events Executor Stream Retry Charts Agent Idt Chat Turn Bridge Journey Assistant.
From stdpp Require Import base tactics list strings gmap option fin_maps.
From Stdlib Require Import ZArith Lia Ascii String.
Local Open Scope string_scope.
Local Open Scope list_scope.
Local Open Scope Z_scope.
Local Open Scope go_scope.

Module Errand.
Import Trigger Relay EngineStream Consult Bridge Sinks.

Section errand.
(** The trigger and its workflow. *)
Variable cfg : Chat.Config.Config.
Variable workflowID : string.
Variable access : Access.IndexAccess.
Variable sha256_hex : string -> string.
Context {Time : Type}.
Variable process : string -> Events.Identity -> Exec.AgentInput (Time := Time) -> sink_prog (option string).
Variable mapping : string -> option (res string string).
Variable uploader : option (string -> string -> string -> string -> res string string).
Variable now : Time.
Variable wf : Loading.Workflow.
Variable clock : nat -> Z.
Variable net : bus.
Variable ask : string -> json -> reply.
Variable at_ : instants.

(** [openEngineStream]: the request as it reaches the trigger. *)
Definition delivered_request (inbox : string) (rq : request) : NatsMessage :=
  mkNatsMessage ((fun v => [v]) <$> rq_Header rq) (Some (rq_Body rq)) (default "" (rq_Header rq !! HdrMessageId)) inbox.

Lemma get_delivered inbox rq k : Get (nm_Header (delivered_request inbox rq)) k = default "" (rq_Header rq !! k).
Proof using. unfold Get, delivered_request. cbn. rewrite lookup_fmap. by destruct (rq_Header rq !! k). Qed.

Section turn.
Variables (subject messageID inbox : string) (t : Turn).
Definition rq : request := build_request subject messageID t.
Definition msg : NatsMessage := delivered_request inbox rq.

Lemma opt_header_get k v h : default "" (opt_header k v h !! k) = if str_empty v then default "" (h !! k) else v.
Proof using. unfold opt_header. destruct (str_empty v); [done|by rewrite lookup_insert_eq]. Qed.
Lemma opt_header_other k v h k' : k <> k' -> opt_header k v h !! k' = h !! k'.
Proof using. intros H. unfold opt_header. destruct (str_empty v); [done|by rewrite lookup_insert_ne]. Qed.

(** What the trigger reads is what the turn says. *)
Lemma errand_headers :
  Get (nm_Header msg) "X-Account-Id" = AccountID (t_Identity t)
  /\ Get (nm_Header msg) "X-User-Id" = UserID (t_Identity t)
  /\ Get (nm_Header msg) HeaderIDT = IDT (t_Identity t)
  /\ Get (nm_Header msg) "X-User-Name" = t_UserName t
  /\ Get (nm_Header msg) "X-Time-Zone" = t_TimeZone t.
Proof using.
  unfold msg. rewrite !get_delivered. unfold rq, build_request. cbn [rq_Header].
  assert (forall v, (if str_empty v then "" else v) = v) as Hv by (by intros [|]).
  split_and!; rewrite lookup_insert_ne by done.
  - by rewrite !opt_header_other by done.
  - by rewrite !opt_header_other by done.
  - rewrite !opt_header_other by done. rewrite opt_header_get. apply Hv.
  - rewrite opt_header_get, !opt_header_other by done. apply Hv.
  - rewrite opt_header_other by done. rewrite opt_header_get, opt_header_other by done. apply Hv.
Qed.
Lemma errand_body :
  dec_body (nm_Body msg) = Some (mkBody (messageText (t_Texts t)) (t_SessionID t) "streaming").
Proof using.
  unfold msg, rq, build_request, delivered_request. cbn [nm_Body rq_Body]. unfold dec_body, jobj.
  destruct (str_empty (t_SessionID t)) eqn:E; [apply str_empty_true in E as ->|];
    cbn [app list_to_map foldr uncurry dec_struct mbind option_bind]; by simplify_map_eq.
Qed.


Hypothesis default_headers : Chat.Config.dec_source None = Some (Chat.Config.Source cfg).
(** What publication asks of a workflow. *)
Hypothesis streams : Chat.Config.ResponseMode cfg = Chat.Config.responseModeStreaming \/ Chat.Config.AllowResponseModeOverride cfg = true.

Definition session : string := Chat.Config.str_or (t_SessionID t) (fresh_session net).
Definition errand_event (user account : string) : Exec.TriggerEvt :=
  request_event msg session (Events.mkIdentity (Get (nm_Header msg) "_User_Id") user account (t_UserName t) (t_TimeZone t)).

Definition serve (v : Validator) : outcome * Validator :=
  handle cfg workflowID access sha256_hex process mapping uploader now wf clock net true false v ask at_ msg.

Lemma errand_mode : Chat.Config.resolveResponseMode cfg "streaming" = Some Chat.Config.responseModeStreaming.
Proof using streams. unfold Chat.Config.resolveResponseMode. by destruct streams as [-> | ->]; [destruct (_ || _)|]. Qed.

Lemma errand_served v user account v' :
  messageText (t_Texts t) <> "" -> AccountID (t_Identity t) <> "" -> UserID (t_Identity t) <> "" ->
  authorizeIDT workflowID access sha256_hex v ask at_ msg (UserID (t_Identity t)) (AccountID (t_Identity t)) = (Ok (user, account), v') ->
  serve v = (handleStreaming workflowID process mapping uploader now wf clock net msg session
               (Events.mkIdentity (Get (nm_Header msg) "_User_Id") user account (t_UserName t) (t_TimeZone t)), v').
Proof using default_headers streams.
  intros Ht Ha Hu Hauth. destruct errand_headers as (Ea & Eu & _ & En & Ez).
  unfold serve.
  erewrite handle_streams;
    [|exact default_headers|exact errand_body|exact Ht|exact errand_mode|by rewrite Ea|by rewrite Eu|by rewrite Ea, Eu].
  by rewrite En, Ez.
Qed.

(** The workflow's calls, and the events of its stream. *)
Definition errand_calls (user account : string) : trace :=
  Trigger.emitted (K := streamSinkAdapter (stream_id net msg) (cancel_subject net) (tool_prefix net msg) (publish_error net))
    process mapping uploader now wf (errand_event user account) (open_session workflowID net msg session).
Definition errand_events (user account : string) : list Stream.StreamEvent :=
  Server.start_event session workflowID (nm_MessageId msg)
    :: Server.until_terminator (List.map wire_event (errand_calls user account)).

(** C25: An errand: what the assistant asks for a caller is served by the published
    workflow in the caller's name, with the caller's token, words and session; and
    whatever the network, the timeout and the caller do, the caller is shown the relay
    of a gap-free prefix of what the workflow streams, then nothing or one error - and
    of all of it, when the consult ends by itself without an error. *)
Theorem errand_relayed CodeUpstream StopMaxTokens StopEndTurn timeout timeout_text v user account v' :
  messageText (t_Texts t) <> "" -> AccountID (t_Identity t) <> "" -> UserID (t_Identity t) <> "" ->
  authorizeIDT workflowID access sha256_hex v ask at_ msg (UserID (t_Identity t)) (AccountID (t_Identity t)) = (Ok (user, account), v') ->
  accepted net msg -> Forall (fun c => Client.carriable (wire_event c)) (errand_calls user account) ->
  let evts := errand_events user account in
  Z.of_nat (List.length evts) < 2 ^ 63 ->
  Get (nm_Header msg) HeaderIDT = IDT (t_Identity t)
  /\ (let agent := Exec.agent_input mapping uploader now wf (errand_event user account) in
      Exec.in_Message agent = messageText (t_Texts t) /\ Exec.in_SessionID agent = session /\ Exec.in_UserID agent = user)
  /\ exists s, serve v = (Streaming s, v')
     /\ forall l,
          Forall (fun e => match e with
                           | Net m => as_msg m ∈ Server.published s /\ header (as_msg m) "Status" <> "503"
                           | _ => True
                           end) l ->
          let st := run CodeUpstream StopMaxTokens StopEndTurn timeout timeout_text l in
          exists k extra,
            emitted st = (relayed CodeUpstream StopMaxTokens StopEndTurn
                            (imap (Client.as_received (stream_id net msg) (cancel_subject net) (tool_prefix net msg)) (take k evts))).1 ++ extra
            /\ (extra = [] \/ exists text, extra = [EError text CodeUpstream])
            /\ (returned st = Some false -> extra = [] -> take k evts = evts).
Proof using default_headers streams.
  intros Ht Ha Hu Hauth Hok Hcar evts Hlen. split_and!.
  - apply errand_headers.
  - unfold errand_event. by erewrite checked_message by exact errand_body.
  - destruct (streaming_session workflowID process mapping uploader now wf clock net msg session
                (Events.mkIdentity (Get (nm_Header msg) "_User_Id") user account (t_UserName t) (t_TimeZone t)) Hok)
      as (s & ops & H1 & H2 & H3).
    exists s. split; [by rewrite (errand_served v user account v'), H1|]. intros l Hl. cbv zeta.
    destruct Hok as (_ & _ & Hp).
    destruct (Server.session_facts (stream_id net msg) (cancel_subject net) (tool_prefix net msg)
                (publish_error net) session workflowID (nm_MessageId msg) ops Hp) as (F1 & _). rewrite <- H2 in F1.
    assert (Server.session_events session workflowID (nm_MessageId msg) ops = evts) as Hev
      by (unfold Server.session_events; by rewrite H3).
    rewrite Hev in F1. set (sends := List.map Server.OpSend (List.map wire_event (errand_calls user account))).
    assert (omap Server.op_event sends = List.map wire_event (errand_calls user account)) as Hsends.
    { unfold sends. generalize (List.map wire_event (errand_calls user account)). clear. intros es.
      induction es as [|e es IH]; [done|]. cbn [List.map]. rewrite <- IH at 2. done. }
    assert (Server.session_events session workflowID (nm_MessageId msg) sends = evts) as Hev'
      by (unfold Server.session_events; by rewrite Hsends).
    rewrite <- Hev'. apply (consult_relays _ _ _ _ _ _ (cancel_subject net) (tool_prefix net msg)).
    + rewrite Hsends. by apply Forall_fmap.
    + by rewrite Hev'.
    + eapply Forall_impl; [exact Hl|]. intros [m| | |]; try done. intros [Hm Hs]. split; [|done].
      rewrite Hev', <- F1. done.
Qed.

(** A refused errand is told to the caller, with the service's own words, and ends. *)
Theorem errand_refused CodeUpstream StopMaxTokens StopEndTurn timeout timeout_text v e v' m :
  serve v = (Refused e, v') ->
  header (as_msg m) HdrStatus = print_Z (se_status e) -> header (as_msg m) "Status" <> "503" ->
  header (as_msg m) HdrStreamEvent = "" ->
  let st := run CodeUpstream StopMaxTokens StopEndTurn timeout timeout_text [Net m; Read] in
  emitted st = [EError (error_text (se_Data (errorEvent ("status_" +:+ print_Z (se_status e)) (serviceErrorText (im_body m) (im_text m)))))
                  CodeUpstream]
  /\ returned st = Some false.
Proof using.
  intros Hs H1 H2 H3. apply handle_graded in Hs. cbv zeta. unfold run. cbn [foldl step]. unfold with_str, onMsg, init.
  cbn [str]. rewrite (proj2 (String.eqb_neq _ _) H2), H1, H3. destruct Hs as [-> | ->]; by split.
Qed.
End turn.
End errand.
End Errand.

(** ** A concrete errand *)
Module ErrandExamples.
Import Trigger Relay EngineStream Consult Assistant.Bridge Errand Sinks ChatExamples IdtExamples JourneyExamples.

Definition demo_turn : Turn := mkTurn (mkIdentity true "acc" "u" "tok") "" ["what"; ""; "now"] "UTC" "User".
Definition demo_errand_serve : outcome * Validator :=
  serve demo_cfg "wf" demo_access demo_sha demo_process (fun _ => None) None 0%nat ExecutorExamples.demo_workflow (fun _ => 0)
    demo_net (granting "u2" "") (at_time 0) "svc.claims" "m-1" "inbox" demo_turn demo_validator.
Definition arrived (s : Server.StreamSession) : list event :=
  List.map (fun m => Net (mkInbound (m_Header m) (Some (m_Data m)) "")) (Server.published s) ++ [Read; Read; Read].
(** The workflow answers singly by default; the request asks for a stream. *)
Example errand_ex :
  match demo_errand_serve.1 with
  | Streaming s => let st := run 502 "max" "end" 0 "" (arrived s) in
                   emitted st = [EText "do"; EDone "end"] /\ returned st = Some false
  | _ => False
  end.
Proof. vm_compute. by split. Qed.

Lemma errand_relayed_witness : exists s, demo_errand_serve.1 = Streaming s.
Proof.
  pose (m := msg "svc.claims" "m-1" "inbox" demo_turn).
  pose (checked := authorizeIDT "wf" demo_access demo_sha demo_validator (granting "u2" "") (at_time 0) m "u" "acc").
  destruct (errand_relayed demo_cfg "wf" demo_access demo_sha demo_process (fun _ => None) None 0%nat ExecutorExamples.demo_workflow
              (fun _ => 0) demo_net (granting "u2" "") (at_time 0) "svc.claims" "m-1" "inbox" demo_turn
              ltac:(vm_compute; reflexivity) ltac:(right; reflexivity) 502 "max" "end" 0 "" demo_validator "u2" "acc" checked.2)
    as (_ & _ & s & Hs & _).
  - discriminate.
  - discriminate.
  - discriminate.
  - vm_compute. reflexivity.
  - split; [discriminate|by split].
  - unfold errand_calls. eapply Forall_impl; [apply demo_plain|]. by intros c [? _].
  - unfold errand_events, errand_calls. rewrite demo_emitted. vm_compute. reflexivity.
  - exists s. unfold demo_errand_serve. by rewrite Hs.
Defined.

Definition denied : service_error := validationErr BadRequest "IDT validation failed: MISSING_IDT" 403.
Definition no_token : Turn := mkTurn (mkIdentity true "acc" "u" "") "" ["now"] "" "".
Definition refusal : Inbound :=
  mkInbound {[HdrStatus := "400"]} (Some (jobj [("status", JNum 400); ("errorMessage", JStr (se_message denied)); ("apiStatusCode", JNum 403)])) "".
Lemma errand_refused_witness :
  emitted (run 502 "max" "end" 0 "" [Net refusal; Read])
  = [EError "status_400: IDT validation failed: MISSING_IDT (code 403)" 502].
Proof.
  pose (v' := (serve demo_cfg "wf" demo_access demo_sha demo_process (fun _ => None) None 0%nat ExecutorExamples.demo_workflow (fun _ => 0)
    demo_net (granting "u2" "") (at_time 0) "svc.claims" "m-1" "inbox" no_token demo_validator).2).
  destruct (errand_refused demo_cfg "wf" demo_access demo_sha demo_process (fun _ => None) None 0%nat ExecutorExamples.demo_workflow
              (fun _ => 0) demo_net (granting "u2" "") (at_time 0) "svc.claims" "m-1" "inbox" no_token 502 "max" "end" 0 ""
              demo_validator denied v' refusal) as [H _].
  - vm_compute. reflexivity.
  - vm_compute. reflexivity.
  - vm_compute. discriminate.
  - vm_compute. reflexivity.
  - etransitivity; [exact H|]. vm_compute. reflexivity.
Defined.
End ErrandExamples.
