(* ===== verification/Tools.v ===== *)
(** * The smaller tools (builtin/quickchart, rabbitmqmanagement, serpapi, clientui)

    - [QuickChart]: configuration, the scan for personal data, the default palette, one
      call of the tool;
    - [RabbitMQ]: the read-only management calls;
    - [SerpApi]: a web search;
    - [ClientUI]: the tools a browser answers, with their input schemas;
    - [ToolResult]: waiting for a browser's answer (transport/natsstream/toolresult.go).

    HTTP servers, the uploader and the environment are parameters; folding of letters is
    that of ASCII. *)

From S2P Require Import Prelude Json Scan Queries Walk.
From stdpp Require Import base tactics list strings gmap option fin_maps.
From Stdlib Require Import ZArith Lia Ascii String.
Local Open Scope string_scope.
Local Open Scope list_scope.
Local Open Scope Z_scope.
Local Open Scope go_scope.

(** What a call of a tool ends with: an answer, an error, or a panic, which no goroutine
    of the service recovers. *)
Inductive outcome (E A : Type) := Answer (v : A) | Failed (e : E) | Panic.
Arguments Answer {E A}. Arguments Failed {E A}. Arguments Panic {E A}.

Definition or_str (s d : string) : string := if str_empty s then d else s.
Definition or_int (n d : Z) : Z := if n =? 0 then d else n.
(** The fields of a struct that decode to their Go kind. *)
Definition str_field (m : gmap string json) (f : string) : option string := dec_str (m !! f).
Definition int_field (m : gmap string json) (f : string) : option Z := default 0 <$> dec_int (m !! f).
(** [truncate]: the first bytes of a text, marked when it is longer. *)
Definition truncate (n : nat) (s : string) : string := if (String.length s <=? n)%nat then s else str_take n s +:+ "...".

(** ** quickchart *)
Module QuickChart.

Record Config := mkConfig {
  Host : string;
  Width : Z;
  Height : Z;
  BackgroundColor : string;
  Format : string;
  RequestTimeoutSeconds : Z;
  FailurePolicyValue : string;
  ToolName : string;
  ToolDescription : string;
  PhiScrubFields : list string;
  ChartURLPrefix : string;
}.
Inductive config_error := ConfigParse | DescriptionRequired.
Definition defaultPhiScrubFields : list string :=
  ["firstName"; "lastName"; "memberId"; "dob"; "dateOfBirth"; "ssn"; "address"; "phone"; "email"].
Definition dec_config (raw : json) : option Config :=
  m ← dec_struct (Some raw);
  host ← str_field m "host"; w ← int_field m "width"; h ← int_field m "height"; bg ← str_field m "backgroundColor";
  fmt ← str_field m "format"; tmo ← int_field m "requestTimeoutSeconds"; fp ← str_field m "failurePolicy";
  name ← str_field m "toolName"; desc ← str_field m "toolDescription";
  phi ← dec_list (fun x => dec_str (Some x)) (m !! "phiScrubFields"); prefix ← str_field m "chartUrlPrefix";
  Some (mkConfig host w h bg fmt tmo fp name desc (default defaultPhiScrubFields phi) prefix).
Definition Factory (raw : json) : res config_error Config :=
  match dec_config raw with
  | None => Err ConfigParse
  | Some c =>
      if str_empty (ToolDescription c) then Err DescriptionRequired
      else Ok (mkConfig (or_str (Host c) "https://quickchart.io") (or_int (Width c) 600) (or_int (Height c) 400)
                 (or_str (BackgroundColor c) "white") (or_str (Format c) "png") (or_int (RequestTimeoutSeconds c) 10)
                 (or_str (FailurePolicyValue c) "surface-to-llm") (or_str (ToolName c) "QuickChart") (ToolDescription c)
                 (PhiScrubFields c) (ChartURLPrefix c))
  end.

(** *** phi.go *)
Definition obj_or_null (v : json) : option (gmap string json) := dec_struct (Some v).
(** The table from lower case to the canonical name; the last of equal ones stays. *)
Definition canon (fields : list string) : gmap string string := foldl (fun m f => <[to_lower f := f]> m) ∅ fields.
Definition matchToken (c : gmap string string) (s : string) : string := default "" (c !! to_lower s).
Definition text_of (v : json) : option string := dec_str (Some v).
Definition first_match (c : gmap string string) (names : list string) : string :=
  default "" (find_first (fun x => negb (str_empty x)) (List.map (matchToken c) names)).
(** What a dataset is scanned for: its keys and the text of its label. *)
Definition dataset_names (ds : gmap string json) : list string :=
  flat_map (fun kv => kv.1 :: (if String.eqb kv.1 "label" then match text_of kv.2 with Some s => [s] | None => [] end else []))
    (map_to_list ds).
(** A field of the struct decoded: its key is matched whatever the case.  Of several keys
    that match the last one in the document is taken; the model, which has no order of
    the keys, takes the exact one then. *)
Definition fold_field (m : gmap string json) (name : string) : option json :=
  match List.filter (fun kv => String.eqb (to_lower kv.1) name) (map_to_list m) with
  | [kv] => Some kv.2
  | _ => m !! name
  end.
Definition chart_names (data : json) : option (list string) :=
  m ← dec_struct (Some data); labels ← dec_list Some (fold_field m "labels");
  sets ← dec_list obj_or_null (fold_field m "datasets");
  Some (omap text_of (default [] labels) ++ flat_map dataset_names (default [] sets)).
(** [ScanForPHI]: the field found, or "". *)
Definition ScanForPHI (data : json) (fields : list string) : option string :=
  match fields with
  | [] => Some ""
  | _ => first_match (canon fields) <$> chart_names data
  end.

(** *** tool.go *)
Definition defaultPalette : json :=
  JArr (List.map JStr ["#4E79A7"; "#F28E2B"; "#E15759"; "#76B7B2"; "#59A14F"; "#EDC948"; "#B07AA1"; "#FF9DA7"]).
Definition colour (ds : gmap string json) : gmap string json :=
  match ds !! "backgroundColor" with Some _ => ds | None => <["backgroundColor" := defaultPalette]> ds end.
Definition is_null (v : json) : bool := match v with JNull => true | _ => false end.
Inductive palette_result := Enriched (v : json) | PaletteError | NilMapWrite.
(** [injectDefaultPalette]; a [null] dataset is a nil map, and writing to it panics. *)
Definition injectDefaultPalette (data : json) : palette_result :=
  match dec_struct (Some data) with
  | None => PaletteError
  | Some m =>
      match m !! "datasets" with
      | None => Enriched data
      | Some raw =>
          match dec_list Some (Some raw) with
          | None => PaletteError
          | Some None => Enriched data
          | Some (Some l) =>
              match mapM obj_or_null l with
              | None => PaletteError
              | Some sets =>
                  if existsb is_null l then NilMapWrite
                  else if forallb (fun ds => bool_decide (is_Some (ds !! "backgroundColor"))) sets then Enriched data
                  else Enriched (JObj (<["datasets" := JArr (List.map (fun ds => JObj (colour ds)) sets)]> m))
              end
          end
      end
  end.

Record input := mkInput { in_Type : string; in_Data : option json; in_Options : option json }.
Definition dec_input (args : option json) : option input :=
  v ← args; m ← dec_struct (Some v); ty ← str_field m "type"; Some (mkInput ty (m !! "data") (m !! "options")).
Record response := mkResponse { Status : Z; ContentType : string; Body : string }.
Definition chartReadCap : Z := 8 * 1024 * 1024.
Definition chartMinBytes : Z := 200.
Definition len (s : string) : Z := Z.of_nat (String.length s).
Definition isTextual (contentType : string) : bool :=
  let ct := to_lower contentType in
  has_prefix "text/" ct || str_contains "json" ct || str_contains "xml" ct || str_contains "html" ct.
Definition guidance : string :=
  "QuickChart could not render the chart - this almost always means the Chart.js config is invalid. "
  +:+ "Check that data.datasets is a non-empty array of objects like {" +:+ dquote +:+ "label" +:+ dquote +:+ ":" +:+ dquote +:+ "..." +:+ dquote
  +:+ "," +:+ dquote +:+ "data" +:+ dquote +:+ ":[numbers]}, "
  +:+ "that every dataset's data length matches data.labels length, and that type is one of "
  +:+ "bar, line, pie, doughnut, scatter, radar, polarArea. Fix the config and call QuickChart again.".
Definition errorBodyDetail (contentType body : string) : string :=
  if isTextual contentType && negb (str_empty body) then truncate 500 body else guidance.
Definition chartImageURL (prefix key presigned : string) : string :=
  if str_empty (trim_space prefix) then presigned else trim_right_of "/" prefix +:+ "/" +:+ key.

Inductive error :=
| BadInput | TypeRequired | DataRequired | ScrubFailed | Phi (field : string) | EnrichFailed
| RequestFailed (e : string) | RenderFailed (status : Z) (detail : string) | NotAnImage (contentType : string)
| TooSmall (n : Z) | TooLarge | UploadFailed (e : string).
Definition request (cfg : Config) (i : input) (data : json) : json :=
  jobj [("chart", jobj ([("type", JStr (in_Type i)); ("data", data)] ++ match in_Options i with Some o => [("options", o)] | None => [] end));
        ("width", JNum (Width cfg)); ("height", JNum (Height cfg)); ("backgroundColor", JStr (BackgroundColor cfg)); ("format", JStr (Format cfg))].
(** What the answer to the render request becomes, and the bytes uploaded. *)
Definition rendered (cfg : Config) (upload : string -> res string (string * string)) (i : input) (r : response) : list string * outcome error json :=
  if negb (Status r / 100 =? 2) then ([], Failed (RenderFailed (Status r) (errorBodyDetail (ContentType r) (Body r))))
  else if negb (has_prefix "image/" (ContentType r)) then ([], Failed (NotAnImage (ContentType r)))
  else if len (Body r) <? chartMinBytes then ([], Failed (TooSmall (len (Body r))))
  else if chartReadCap <? len (Body r) then ([], Failed TooLarge)
  else
    ([Body r], match upload (Body r) with
               | Err e => Failed (UploadFailed e)
               | Ok (key, url) => Answer (jobj [("imageUrl", JStr (chartImageURL (ChartURLPrefix cfg) key url)); ("type", JStr (in_Type i))])
               end).
(** [Invoke]: the requests posted, the bytes uploaded, and the outcome. *)
Definition Invoke (cfg : Config) (post : string -> json -> res string response) (upload : string -> res string (string * string))
    (args : option json) : list (string * json) * list string * outcome error json :=
  match dec_input args with
  | None => ([], [], Failed BadInput)
  | Some i =>
      if str_empty (in_Type i) then ([], [], Failed TypeRequired)
      else
        match in_Data i with
        | None => ([], [], Failed DataRequired)
        | Some data =>
            match ScanForPHI data (PhiScrubFields cfg) with
            | None => ([], [], Failed ScrubFailed)
            | Some hit =>
                if negb (str_empty hit) then ([], [], Failed (Phi hit))
                else
                  match injectDefaultPalette data with
                  | PaletteError => ([], [], Failed EnrichFailed)
                  | NilMapWrite => ([], [], Panic)
                  | Enriched data =>
                      let body := request cfg i data in
                      let endpoint := Host cfg +:+ "/chart" in
                      match post endpoint body with
                      | Err e => ([(endpoint, body)], [], Failed (RequestFailed e))
                      | Ok r => let '(up, o) := rendered cfg upload i r in ([(endpoint, body)], up, o)
                      end
                  end
            end
        end
  end.

(** *** What is scanned never names a field *)

(** The names a chart shows: its labels, and the keys and the label of its datasets; the
    two arrays are found whatever the case of their names. *)
Definition named (data : json) (x : string) : Prop :=
  exists m k l, data = JObj m /\ m !! k = Some (JArr l)
  /\ ((to_lower k = "labels" /\ JStr x ∈ l)
      \/ (to_lower k = "datasets" /\ exists ds, JObj ds ∈ l /\ (is_Some (ds !! x) \/ ds !! "label" = Some (JStr x)))).
(** None of them equals one of the fields, whatever the case. *)
Definition phi_free (fields : list string) (data : json) : Prop :=
  forall f x, f ∈ fields -> f <> "" -> named data x -> to_lower x <> to_lower f.
(** No two keys of the data differ in case only. *)
Definition unambiguous (data : json) : Prop :=
  forall m k k', data = JObj m -> is_Some (m !! k) -> is_Some (m !! k') -> to_lower k = to_lower k' -> k = k'.
(** What the scan looked at is free of the fields. *)
Definition scan_free (fields : list string) (data : json) : Prop :=
  exists names, chart_names data = Some names /\
    forall f x, f ∈ fields -> f <> "" -> x ∈ names -> to_lower x <> to_lower f.

Lemma fold_field_only m k v name :
  (forall k', is_Some (m !! k') -> to_lower k' = to_lower k -> k' = k) -> m !! k = Some v -> to_lower k = name ->
  fold_field m name = Some v.
Proof.
  intros Hu Hk Hn. unfold fold_field. set (l := List.filter _ _).
  assert (forall kv, kv ∈ l <-> kv = (k, v)) as Hl.
  { intros [k' v']. unfold l. rewrite list_elem_of_In, filter_In, <- list_elem_of_In, elem_of_map_to_list. cbn. split.
    - intros [Hk' E%String.eqb_eq]. assert (k' = k) as -> by (apply Hu; [by eexists|congruence]). congruence.
    - intros [= -> ->]. split; [done|]. by apply String.eqb_eq. }
  assert (NoDup l) as Hnd.
  { unfold l. apply NoDup_ListNoDup, List.NoDup_filter, NoDup_ListNoDup, NoDup_map_to_list. }
  destruct l as [|x [|y l']].
  - exfalso. apply (not_elem_of_nil (k, v)), Hl. done.
  - assert (x = (k, v)) as -> by (apply Hl; by left). done.
  - exfalso. assert (x = (k, v)) as -> by (apply Hl; by left). assert (y = (k, v)) as -> by (apply Hl; right; by left).
    apply NoDup_cons in Hnd as [Hn' _]. apply Hn'. by left.
Qed.
Lemma mapM_elem {A B} (f : A -> option B) l l' x y : mapM f l = Some l' -> x ∈ l -> f x = Some y -> y ∈ l'.
Proof.
  revert l'. induction l as [|a l IH]; intros l'; [by intros _ ?%elem_of_nil|]. cbn.
  destruct (f a) as [b|] eqn:E; [|done]. cbn. destruct (mapM f l) as [bs|] eqn:El; [|done]. cbn. intros [= <-].
  intros [-> | Hx]%elem_of_cons Hf; [rewrite E in Hf; injection Hf as ->; by left|right; by eapply IH].
Qed.

(** On data without such keys everything a chart shows is scanned. *)
Lemma scanned data names x : unambiguous data -> chart_names data = Some names -> named data x -> x ∈ names.
Proof.
  intros Hu Hn (m & k & l & -> & Hk & H). unfold chart_names in Hn. cbn [dec_struct mbind option_bind] in Hn.
  assert (forall name, to_lower k = name -> fold_field m name = Some (JArr l)) as Hf.
  { intros name E. eapply fold_field_only; [|exact Hk|exact E]. intros k' Hk' E'. apply (Hu m); [done|done|by eexists|done]. }
  destruct (dec_list Some (fold_field m "labels")) as [labels|] eqn:El; [|done]. cbn [mbind option_bind] in Hn.
  destruct (dec_list obj_or_null (fold_field m "datasets")) as [sets|] eqn:Es; [|done]. cbn [mbind option_bind] in Hn.
  injection Hn as <-. apply elem_of_app. destruct H as [[E Hx]|[E (ds & Hds & Hx)]].
  - left. rewrite (Hf _ E) in El. cbn in El. destruct (mapM Some l) as [l'|] eqn:Em; [|done]. injection El as <-. cbn.
    apply list_elem_of_omap. exists (JStr x). split; [by eapply mapM_elem|done].
  - right. rewrite (Hf _ E) in Es. cbn in Es. destruct (mapM obj_or_null l) as [sets'|] eqn:Em; [|done]. injection Es as <-. cbn.
    apply list_elem_of_In, in_flat_map. exists ds. split; [apply list_elem_of_In; by eapply mapM_elem|].
    apply in_flat_map. destruct Hx as [[v Hv]|Hv].
    + exists (x, v). split; [by apply list_elem_of_In, elem_of_map_to_list|by left].
    + exists ("label", JStr x). split; [by apply list_elem_of_In, elem_of_map_to_list|right; by left].
Qed.
Lemma scan_phi_free fields data : unambiguous data -> scan_free fields data -> phi_free fields data.
Proof. intros Hu (names & Hn & H) f x Hf Hne Hx. apply H; [done|done|by eapply scanned]. Qed.

Lemma to_lower_empty s : to_lower s = "" -> s = "".
Proof. by destruct s. Qed.
Lemma canon_snoc fields f : canon (fields ++ [f]) = <[to_lower f := f]> (canon fields).
Proof. unfold canon. by rewrite foldl_app. Qed.
Lemma canon_sound fields k c : canon fields !! k = Some c -> c ∈ fields /\ to_lower c = k.
Proof.
  induction fields as [|f fields IH] using rev_ind; [unfold canon; cbn; by rewrite lookup_empty|].
  rewrite canon_snoc, elem_of_app, list_elem_of_singleton.
  intros [[<- <-]|[_ H]]%lookup_insert_Some; [auto|]. destruct (IH H); auto.
Qed.
Lemma canon_complete fields f : f ∈ fields -> is_Some (canon fields !! to_lower f).
Proof.
  induction fields as [|g fields IH] using rev_ind; [by intros ?%elem_of_nil|].
  rewrite canon_snoc, elem_of_app, list_elem_of_singleton. intros H. apply lookup_insert_is_Some'.
  destruct H as [H | ->]; auto.
Qed.
(** A name matches exactly when it equals a non-empty field, the case apart. *)
Lemma matchToken_spec fields x :
  matchToken (canon fields) x <> "" <-> exists f, f ∈ fields /\ f <> "" /\ to_lower x = to_lower f.
Proof.
  unfold matchToken. split.
  - destruct (canon fields !! to_lower x) as [c|] eqn:E; [|done]. cbn. intros Hc.
    destruct (canon_sound _ _ _ E) as [Hin Hk]. exists c. auto.
  - intros (f & Hf & Hne & Hx). rewrite Hx. destruct (canon_complete fields f Hf) as [c E]. rewrite E. cbn.
    destruct (canon_sound _ _ _ E) as [_ Hk]. intros ->. cbn in Hk. apply Hne, to_lower_empty. by rewrite <- Hk.
Qed.
(** The scan reports a field of the list that some scanned name equals, and reports
    nothing only when there is none. *)
Lemma ScanForPHI_spec fields data hit :
  ScanForPHI data fields = Some hit ->
  if str_empty hit then fields = [] \/ scan_free fields data
  else hit ∈ fields /\ exists names x, chart_names data = Some names /\ x ∈ names /\ to_lower x = to_lower hit.
Proof.
  unfold ScanForPHI, first_match. destruct fields as [|g fs] eqn:Efs; [intros [= <-]; cbn; by left|]. rewrite <- Efs. clear Efs.
  destruct (chart_names data) as [names|] eqn:En; [|done]. cbn. intros [= <-].
  destruct (find_first _ (List.map (matchToken (canon fields)) names)) as [c|] eqn:Ef; cbn.
  - apply find_first_Some in Ef as [Hin Hc]. apply negb_true_iff in Hc. rewrite Hc.
    apply list_elem_of_fmap in Hin as (x & -> & Hx). apply str_empty_false in Hc. unfold matchToken in *.
    destruct (canon fields !! to_lower x) as [d|] eqn:E; [|done]. cbn. destruct (canon_sound _ _ _ E) as [Hd Hk].
    split; [done|]. exists names, x. auto.
  - right. exists names. split; [done|]. intros f x Hf Hne Hx Heq.
    pose proof (proj1 (find_first_None _ _) Ef (matchToken (canon fields) x)) as Hm. cbn in Hm.
    rewrite negb_false_iff in Hm. specialize (Hm (list_elem_of_fmap_2 _ _ _ Hx)). apply str_empty_true in Hm. revert Hm.
    apply matchToken_spec. eauto.
Qed.

(** What an answer rests on. *)
Definition answer_backed (cfg : Config) (post : string -> json -> res string response) (upload : string -> res string (string * string))
    (args : option json) (posts : list (string * json)) (ups : list string) (v : json) : Prop :=
  exists url body r key link i, posts = [(url, body)] /\ post url body = Ok r /\ ups = [Body r]
  /\ upload (Body r) = Ok (key, link) /\ dec_input args = Some i
  /\ v = jobj [("imageUrl", JStr (chartImageURL (ChartURLPrefix cfg) key link)); ("type", JStr (in_Type i))].
Lemma quiet cfg upload args (post : string -> json -> res string response) (o : outcome error json) (P : string -> json -> Prop) :
  (forall v, o <> Answer v) ->
  (List.length (@nil (string * json)) <= 1)%nat /\ (forall url body, (url, body) ∈ @nil (string * json) -> P url body) /\
  (@nil string = [] \/ exists url body r, [] = [(url, body)] /\ post url body = Ok r /\ [] = [Body r] /\
     Status r / 100 = 2 /\ has_prefix "image/" (ContentType r) = true /\ 200 <= len (Body r) <= 8388608) /\
  (forall v, o = Answer v -> answer_backed cfg post upload args [] [] v).
Proof. intros Ho. split_and!; [cbn; lia|by intros ?? ?%elem_of_nil|by left|by intros v ?%Ho]. Qed.
Lemma rendered_spec cfg upload i r :
  let '(up, o) := rendered cfg upload i r in
  (up = [] \/ up = [Body r] /\ Status r / 100 = 2 /\ has_prefix "image/" (ContentType r) = true /\ 200 <= len (Body r) <= 8388608) /\
  (forall v, o = Answer v -> exists key link, up = [Body r] /\ upload (Body r) = Ok (key, link)
     /\ v = jobj [("imageUrl", JStr (chartImageURL (ChartURLPrefix cfg) key link)); ("type", JStr (in_Type i))]).
Proof.
  unfold rendered, chartMinBytes, chartReadCap.
  assert (forall e : error, (@nil string = [] \/ [] = [Body r] /\ Status r / 100 = 2 /\ has_prefix "image/" (ContentType r) = true /\ 200 <= len (Body r) <= 8388608) /\
    (forall v, Failed e = Answer v -> exists key link, [] = [Body r] /\ upload (Body r) = Ok (key, link)
       /\ v = jobj [("imageUrl", JStr (chartImageURL (ChartURLPrefix cfg) key link)); ("type", JStr (in_Type i))])) as Hfail
    by (intros e; split; [by left|done]).
  destruct (Z.eqb_spec (Status r / 100) 2); cbn [negb]; [|apply Hfail].
  destruct (has_prefix "image/" (ContentType r)) eqn:Ect; cbn [negb]; [|apply Hfail].
  destruct (Z.ltb_spec (len (Body r)) 200); [apply Hfail|].
  destruct (Z.ltb_spec (8 * 1024 * 1024) (len (Body r))); [apply Hfail|].
  split; [right; split_and!; auto; lia|]. intros v. destruct (upload (Body r)) as [[key link]|err] eqn:Eu; [|done].
  intros [= <-]. by exists key, link.
Qed.

(** C29: What a call may send out, whatever the data, the server and the uploader: at most one
    render request, to the configured host, of the data given with the palette filled in;
    if no two keys of the data differ in case only, none of its labels, its datasets' keys
    and their labels is a scrubbed field - other keys and values are not looked at; only a
    complete image of an acceptable size is uploaded; and an answer is the link of an
    upload of that image which succeeded. *)
Theorem chart_guarded cfg post upload args :
  let '(posts, ups, o) := Invoke cfg post upload args in
  (List.length posts <= 1)%nat /\
  (forall url body, (url, body) ∈ posts -> url = Host cfg +:+ "/chart" /\
     exists i data data', dec_input args = Some i /\ in_Type i <> "" /\ in_Data i = Some data /\
       (PhiScrubFields cfg = [] \/ (unambiguous data -> phi_free (PhiScrubFields cfg) data)) /\
       injectDefaultPalette data = Enriched data' /\ body = request cfg i data') /\
  (ups = [] \/ exists url body r, posts = [(url, body)] /\ post url body = Ok r /\ ups = [Body r] /\
     Status r / 100 = 2 /\ has_prefix "image/" (ContentType r) = true /\ 200 <= len (Body r) <= 8388608) /\
  (forall v, o = Answer v -> answer_backed cfg post upload args posts ups v).
Proof.
  unfold Invoke. destruct (dec_input args) as [i|] eqn:Ei; [|by apply quiet].
  destruct (str_empty (in_Type i)) eqn:Et; [by apply quiet|].
  destruct (in_Data i) as [data|] eqn:Ed; [|by apply quiet].
  destruct (ScanForPHI data (PhiScrubFields cfg)) as [hit|] eqn:Es; [|by apply quiet].
  apply ScanForPHI_spec in Es. destruct (str_empty hit); cbn [negb]; [|by apply quiet].
  destruct (injectDefaultPalette data) as [data'| |] eqn:Ep; [|by apply quiet|by apply quiet].
  cbv zeta. set (url := Host cfg +:+ "/chart"). set (body := request cfg i data').
  assert (PhiScrubFields cfg = [] \/ (unambiguous data -> phi_free (PhiScrubFields cfg) data)) as Hphi.
  { destruct Es as [H|H]; [by left|right]. intros Hu. by apply scan_phi_free. }
  assert (Hsent : forall u b, (u, b) ∈ [(url, body)] -> u = url /\ exists i0 data data', Some i = Some i0 /\
    in_Type i0 <> "" /\ in_Data i0 = Some data /\ (PhiScrubFields cfg = [] \/ (unambiguous data -> phi_free (PhiScrubFields cfg) data)) /\
    injectDefaultPalette data = Enriched data' /\ b = request cfg i0 data').
  { intros u b [= -> ->]%list_elem_of_singleton. split; [done|]. exists i, data, data'. apply str_empty_false in Et. auto 10. }
  destruct (post url body) as [r|e] eqn:Er.
  - pose proof (rendered_spec cfg upload i r) as Hr. destruct (rendered cfg upload i r) as [up o].
    destruct Hr as [Hup Ho]. refine (conj _ (conj Hsent (conj _ _))); [cbn; lia| |].
    + destruct Hup as [-> | (-> & Hi)]; [by left|]. right. exists url, body, r. tauto.
    + intros v Hv. destruct (Ho v Hv) as (key & link & -> & Hu & ->). exists url, body, r, key, link, i. by split_and!.
  - cbn. split_and!; [lia|done|by left|done].
Qed.

(** *** The palette *)

Lemma colour_keeps ds k : k <> "backgroundColor" -> colour ds !! k = ds !! k.
Proof. intros Hk. unfold colour. destruct (ds !! "backgroundColor"); [done|]. by rewrite lookup_insert_ne. Qed.
Lemma colour_has ds : is_Some (colour ds !! "backgroundColor").
Proof. unfold colour. destruct (ds !! "backgroundColor") as [v|] eqn:E; [by rewrite E; eauto|]. rewrite lookup_insert_eq. eauto. Qed.
Lemma colour_chosen ds v : ds !! "backgroundColor" = Some v -> colour ds = ds.
Proof. unfold colour. by intros ->. Qed.
Lemma mapM_Some_id {A} (l : list A) : mapM Some l = Some l.
Proof. induction l as [|x l IH]; [done|]. cbn. by rewrite IH. Qed.
Lemma objects_back sets : mapM obj_or_null (List.map JObj sets) = Some sets.
Proof. induction sets as [|d sets IH]; [done|]. cbn. by rewrite IH. Qed.
Lemma objects_not_null sets : existsb is_null (List.map JObj sets) = false.
Proof. by induction sets. Qed.
(** On data whose datasets are objects the palette changes only the datasets without
    colours, which get the default ones: what the model chose stays, and filling in twice
    is filling in once. *)
Theorem palette_spec m sets :
  m !! "datasets" = Some (JArr (List.map JObj sets)) ->
  let m' := <["datasets" := JArr (List.map JObj (List.map colour sets))]> m in
  injectDefaultPalette (JObj m) = Enriched (JObj m') /\ injectDefaultPalette (JObj m') = Enriched (JObj m').
Proof.
  intros Hm m'. assert (Hinj : forall m sets, m !! "datasets" = Some (JArr (List.map JObj sets)) ->
    injectDefaultPalette (JObj m) = Enriched (JObj (<["datasets" := JArr (List.map JObj (List.map colour sets))]> m))).
  { clear. intros m sets Hm. unfold injectDefaultPalette. cbn -[colour mapM obj_or_null is_null existsb]. rewrite Hm.
    cbn -[colour mapM obj_or_null is_null existsb]. rewrite mapM_Some_id. cbn [option_map]. rewrite objects_back, objects_not_null.
    destruct (forallb _ sets) eqn:Hall; [|by rewrite List.map_map].
    rewrite (List.map_ext_in colour id), List.map_id, insert_id; [done|done|].
    intros d Hd. rewrite forallb_forall in Hall. specialize (Hall d Hd). apply bool_decide_eq_true in Hall as [v Hv].
    by apply (colour_chosen d v). }
  split; [by apply Hinj|]. rewrite (Hinj m' (List.map colour sets)); [|apply lookup_insert_eq].
  unfold m'. rewrite insert_insert_eq, (List.map_ext_in colour id (List.map colour sets)); [by rewrite List.map_id|].
  intros ? (ds & <- & _)%in_map_iff. destruct (colour_has ds) as [v Hv]. by apply (colour_chosen _ v).
Qed.
End QuickChart.

(** A connection whose data holds a [null] dataset: the palette writes to a nil map. *)
Example null_dataset_panics :
  let cfg := QuickChart.mkConfig "https://quickchart.io" 600 400 "white" "png" 10 "surface-to-llm" "QuickChart" "draws" ["ssn"] "" in
  QuickChart.Invoke cfg (fun _ _ => Err "unused") (fun _ => Err "unused")
    (Some (jobj [("type", JStr "bar"); ("data", jobj [("datasets", JArr [JNull])])])) = ([], [], Panic).
Proof. vm_compute. reflexivity. Qed.

(** Only labels and the keys of datasets are scanned: a field of the data itself, or of a
    point of a dataset, is posted; and a second key that differs in case hides the labels
    that are posted from the scan. *)
Example unscanned_fields :
  QuickChart.ScanForPHI (jobj [("ssn", JNum 1); ("datasets", JArr [jobj [("data", JArr [jobj [("ssn", JNum 1)]])]])]) ["ssn"] = Some ""
  /\ QuickChart.ScanForPHI (jobj [("Labels", JArr [JStr "SSN"])]) ["ssn"] = Some "ssn".
Proof. vm_compute. by split. Qed.

(** ** rabbitmqmanagement *)
Module RabbitMQ.

Record ConnConfig := mkConn {
  BaseURL : string;
  Username : string;
  Password : string;
  Vhost : string;
  MaxItemsDefault : Z;
  RequestTimeoutMs : Z;
}.
Record Config := mkConfig {
  Connections : gmap string ConnConfig;
  ToolName : string;
  ToolDescription : string;
  FailurePolicyValue : string;
  Disabled : bool;
}.
Inductive config_error := ConfigParse | DescriptionRequired.
(** The address and the credentials are not read from the configuration. *)
Definition dec_conn (v : json) : option ConnConfig :=
  m ← dec_struct (Some v); vhost ← str_field m "vhost"; n ← int_field m "maxItemsDefault"; t ← int_field m "requestTimeoutMs";
  Some (mkConn "" "" "" vhost n t).
Definition dec_map {A} (f : json -> option A) (v : option json) : option (gmap string A) :=
  m ← dec_struct v; l ← mapM (fun kv => x ← f kv.2; Some (kv.1, x)) (map_to_list m); Some (list_to_map l).
Definition dec_config (v : json) : option Config :=
  m ← dec_struct (Some v); conns ← dec_map dec_conn (m !! "connections"); name ← str_field m "toolName";
  desc ← str_field m "toolDescription"; fp ← str_field m "failurePolicy"; Some (mkConfig conns name desc fp false).
(** [Factory]; no configuration block at all is an empty one. *)
Definition Factory (raw : option json) : res config_error Config :=
  match (match raw with None => Some (mkConfig ∅ "" "" "" false) | Some v => dec_config v end) with
  | None => Err ConfigParse
  | Some c => if str_empty (ToolDescription c) then Err DescriptionRequired else Ok c
  end.

(** *** Init *)
Section init.
Variable getenv : string -> string.
Variable secret : string -> option string.
Definition envOr (key def : string) : string := or_str (getenv key) def.
Definition init_conn (c : ConnConfig) : ConnConfig :=
  let host := getenv "RABBITMQ_HOST" in
  mkConn
    (if str_empty (BaseURL c) && negb (str_empty host)
     then envOr "RABBITMQ_MGMT_SCHEME" "https" +:+ "://" +:+ host +:+ ":" +:+ envOr "RABBITMQ_MGMT_PORT" "15671" else BaseURL c)
    (or_str (Username c) (getenv "RABBITMQ_USER"))
    (if str_empty (Password c) then default "" (secret "RABBITMQ_PASSWORD") else Password c)
    (or_str (Vhost c) "/") (MaxItemsDefault c) (RequestTimeoutMs c).
Definition Init (cfg : Config) : Config :=
  let v := getenv "DISABLE_RABBITMQ" in
  mkConfig (init_conn <$> Connections cfg) (ToolName cfg) (ToolDescription cfg) (FailurePolicyValue cfg)
    (Disabled cfg || String.eqb v "true" || String.eqb v "1").
End init.

(** *** Invoke *)
Definition opToPath : list (string * string) :=
  [("overview", "/api/overview"); ("list_queues", "/api/queues"); ("queue_stats", "/api/queues/%s/%s");
   ("list_exchanges", "/api/exchanges"); ("list_bindings", "/api/bindings"); ("list_consumers", "/api/consumers");
   ("list_connections", "/api/connections"); ("list_channels", "/api/channels"); ("dlq_summary", "/api/queues")].
Definition assoc {A} (k : string) (l : list (string * A)) : option A := snd <$> find_first (fun kv => String.eqb kv.1 k) l.
(** [fmt.Sprintf] with [%s] verbs. *)
Fixpoint sprintf (fmt : string) (args : list string) : string :=
  match fmt with
  | String "%" (String "s" fmt') =>
      match args with a :: args => a +:+ sprintf fmt' args | [] => "%!s(MISSING)" +:+ sprintf fmt' [] end
  | String c fmt' => String c (sprintf fmt' args)
  | EmptyString => ""
  end.
(** [url.PathEscape]: what stands for itself in one segment of a path. *)
Definition segment_char (c : ascii) : bool :=
  Postgres.unreserved c || Ascii.eqb c "$" || Ascii.eqb c "&" || Ascii.eqb c "+" || Ascii.eqb c ":" || Ascii.eqb c "=" || Ascii.eqb c "@".
Definition segment_byte (c : ascii) : string :=
  if segment_char c then String c ""
  else String "%" (String (Postgres.hex_upper (nat_of_ascii c / 16)) (String (Postgres.hex_upper (nat_of_ascii c mod 16)) "")).
Fixpoint PathEscape (s : string) : string :=
  match s with EmptyString => "" | String c s => segment_byte c +:+ PathEscape s end.

Record inspectInput := mkInput { Connection : string; Op : string; Args : gmap string json }.
Definition dec_input (args : option json) : option inspectInput :=
  v ← args; m ← dec_struct (Some v); c ← str_field m "connection"; op ← str_field m "op"; a ← dec_struct (m !! "args");
  Some (mkInput c op a).
Record request := mkRequest { Method : string; URL : string; TimeoutMs : Z; BasicAuth : option (string * string) }.
Inductive error :=
| ToolDisabled | ParseArgs | OpNotAllowed (op : string) | UnknownConnection (name : string) | NameRequired
| ApiFailed (e : string) | ApiStatus (status : Z) (body : string) | BadQueues.
Inductive answer := Raw (body : string) | DLQs (queues : list (gmap string json)).

Definition is_dlq (q : gmap string json) : bool :=
  let lname := to_lower (as_str (q !! "name")) in
  has_suffix ".dlq" lname || str_contains "deadletter" lname || has_suffix "-dlx" lname.
Definition filterDLQs (v : option json) : option (list (gmap string json)) :=
  raw ← v; l ← dec_list QuickChart.obj_or_null (Some raw); Some (List.filter is_dlq (default [] l)).
Definition path_of (cc : ConnConfig) (in_ : inspectInput) (path : string) : res error string :=
  if String.eqb (Op in_) "queue_stats" then
    let name := as_str (Args in_ !! "name") in
    if str_empty name then Err NameRequired
    else Ok (sprintf path [PathEscape (or_str (Vhost cc) "/"); PathEscape name])
  else Ok path.
Definition timeout_of (cc : ConnConfig) : Z := if RequestTimeoutMs cc <=? 0 then 10000 else RequestTimeoutMs cc.
Definition request_of (cc : ConnConfig) (path : string) : request :=
  mkRequest "GET" (trim_right_of "/" (BaseURL cc) +:+ path) (timeout_of cc)
    (if str_empty (Username cc) then None else Some (Username cc, Password cc)).
(** The request a call makes, if it gets that far. *)
Definition prepare (cfg : Config) (args : option json) : res error (inspectInput * request) :=
  if Disabled cfg then Err ToolDisabled
  else
    let! in_ := ok_or ParseArgs (dec_input args) in
    let! path := ok_or (OpNotAllowed (Op in_)) (assoc (Op in_) opToPath) in
    let! cc := ok_or (UnknownConnection (Connection in_)) (Connections cfg !! Connection in_) in
    let! path := path_of cc in_ path in
    Ok (in_, request_of cc path).
(** [Invoke]: the requests made and the outcome. *)
Definition Invoke (cfg : Config) (do : request -> res string (Z * string)) (decode : string -> option json) (args : option json)
    : list request * res error answer :=
  match prepare cfg args with
  | Err e => ([], Err e)
  | Ok (in_, r) =>
      ([r], match do r with
            | Err e => Err (ApiFailed e)
            | Ok (status, body) =>
                if 400 <=? status then Err (ApiStatus status body)
                else if String.eqb (Op in_) "dlq_summary" then ok_or BadQueues (DLQs <$> filterDLQs (decode body))
                else Ok (Raw body)
            end)
  end.

(** *** Only reads, of one resource *)

(** The one-byte text stands for itself or is a per-cent escape that reads back; checked
    on the 256 bytes. *)
Definition segment_ok (c : ascii) : bool :=
  match segment_byte c with
  | String x EmptyString => segment_char x && Ascii.eqb x c && negb (Ascii.eqb x "%")
  | String p (String h (String l EmptyString)) =>
      Ascii.eqb p "%" && segment_char h && segment_char l &&
      match Postgres.hex_value h, Postgres.hex_value l with
      | Some a, Some b => Ascii.eqb (ascii_of_nat (16 * a + b)) c
      | _, _ => false
      end
  | _ => false
  end.
Lemma segment_ok_all c : segment_ok c = true.
Proof. apply Postgres.every_byte. vm_compute. reflexivity. Qed.
Lemma segment_read c s : Postgres.userinfo_unescape (segment_byte c +:+ s) = String c <$> Postgres.userinfo_unescape s.
Proof.
  pose proof (segment_ok_all c) as H. unfold segment_ok in H.
  destruct (segment_byte c) as [|x [|h [|l []]]]; try done; to_prop.
  - change (String x "" +:+ s) with (String x s). apply Ascii.eqb_eq in H1 as ->. simpl. rewrite H0. by destruct (Postgres.userinfo_unescape s).
  - apply Ascii.eqb_eq in H as ->. change (String "%" (String h (String l "")) +:+ s) with (String "%" (String h (String l s))).
    destruct (Postgres.hex_value h) as [a|] eqn:Ea; [|done]. destruct (Postgres.hex_value l) as [b|] eqn:Eb; [|done].
    apply Ascii.eqb_eq in H0 as <-. cbn -[ascii_of_nat Nat.mul]. rewrite Ea, Eb. cbn -[ascii_of_nat Nat.mul]. by destruct (Postgres.userinfo_unescape s).
Qed.
(** One segment of a path: no separator, query or fragment mark in it. *)
Definition one_segment (s : string) : bool := str_all (fun c => segment_char c || Ascii.eqb c "%") s.
Lemma segment_byte_plain c : one_segment (segment_byte c) = true.
Proof. revert c. apply Postgres.every_byte. vm_compute. reflexivity. Qed.
Lemma PathEscape_spec s : Postgres.userinfo_unescape (PathEscape s) = Some s /\ one_segment (PathEscape s) = true.
Proof.
  induction s as [|c s [IH1 IH2]]; [done|]. cbn [PathEscape]. rewrite segment_read, IH1. split; [done|].
  unfold one_segment in *. rewrite str_all_app, IH2. pose proof (segment_byte_plain c) as H. unfold one_segment in H. by rewrite H.
Qed.

(** A path of the management interface that only reads: one of the listings, or the
    statistics of one queue of one virtual host. *)
Definition read_path (p : string) : Prop :=
  p ∈ ["/api/overview"; "/api/queues"; "/api/exchanges"; "/api/bindings"; "/api/consumers"; "/api/connections"; "/api/channels"] \/
  exists vhost name v n, vhost <> "" /\ name <> "" /\ p = "/api/queues/" +:+ v +:+ "/" +:+ n /\
    one_segment v = true /\ one_segment n = true /\
    Postgres.userinfo_unescape v = Some vhost /\ Postgres.userinfo_unescape n = Some name.

Lemma assoc_in {A} k (l : list (string * A)) x : assoc k l = Some x -> (k, x) ∈ l.
Proof.
  unfold assoc. destruct (find_first _ l) as [[k' x']|] eqn:E; [|done]. intros [= <-].
  apply find_first_Some in E as [Hin Hk]. cbn in Hk. apply String.eqb_eq in Hk as ->. done.
Qed.
Lemma or_str_ne s d : d <> "" -> or_str s d <> "".
Proof. intros Hd. unfold or_str. destruct (str_empty s) eqn:E; [done|]. by apply str_empty_false. Qed.
Lemma path_of_reads cc in_ p path : assoc (Op in_) opToPath = Some p -> path_of cc in_ p = Ok path -> read_path path.
Proof.
  intros Hp%assoc_in. unfold path_of. destruct (String.eqb_spec (Op in_) "queue_stats") as [Hop|Hop].
  - destruct (str_empty (as_str _)) eqn:En; [done|]. apply str_empty_false in En. rewrite Hop in Hp.
    assert (p = "/api/queues/%s/%s") as ->. { revert Hp. unfold opToPath. rewrite !elem_of_cons, elem_of_nil. naive_solver. }
    intros [= <-]. right. exists (or_str (Vhost cc) "/"), (as_str (Args in_ !! "name")), (PathEscape (or_str (Vhost cc) "/")), (PathEscape (as_str (Args in_ !! "name"))).
    destruct (PathEscape_spec (or_str (Vhost cc) "/")), (PathEscape_spec (as_str (Args in_ !! "name"))).
    split_and!; try done; [by apply or_str_ne|]. cbn. by rewrite str_app_nil_r.
  - intros [= <-]. left. revert Hp. unfold opToPath. rewrite !elem_of_cons, !elem_of_nil. naive_solver.
Qed.
Lemma prepare_reads cfg args in_ r : prepare cfg args = Ok (in_, r) ->
  Disabled cfg = false /\ Method r = "GET" /\ 0 < TimeoutMs r /\
  exists cc path, Connections cfg !! Connection in_ = Some cc /\ URL r = trim_right_of "/" (BaseURL cc) +:+ path /\ read_path path.
Proof.
  unfold prepare. destruct (Disabled cfg); [done|]. destruct (dec_input args) as [i|]; [|done]. cbn [ok_or res_bind].
  destruct (assoc (Op i) opToPath) as [p|] eqn:Ep; [|done]. cbn [ok_or res_bind].
  destruct (Connections cfg !! Connection i) as [cc|] eqn:Ec; [|done]. cbn [ok_or res_bind].
  destruct (path_of cc i p) as [path|e] eqn:E; [|done]. cbn [ok_or res_bind]. intros [= <- <-].
  split_and!; [done|done| |].
  - change (0 < timeout_of cc). unfold timeout_of. destruct (Z.leb_spec (RequestTimeoutMs cc) 0); lia.
  - exists cc, path. split_and!; [done|done|]. by eapply path_of_reads.
Qed.
(** Whatever the model asks for, a call makes at most one request, a [GET] with a bound on
    its time, of a reading path under the address of a configured connection; names are
    one path segment and arrive as they were given. A disabled tool makes none. *)
Theorem inspection_read_only cfg do decode args :
  let '(reqs, o) := Invoke cfg do decode args in
  (List.length reqs <= 1)%nat /\ (Disabled cfg = true -> reqs = []) /\
  forall r, r ∈ reqs -> Method r = "GET" /\ 0 < TimeoutMs r /\
    exists name cc path, Connections cfg !! name = Some cc /\ URL r = trim_right_of "/" (BaseURL cc) +:+ path /\ read_path path.
Proof.
  unfold Invoke. destruct (prepare cfg args) as [[in_ r]|e] eqn:E.
  - destruct (prepare_reads _ _ _ _ E) as (Hd & Hm & Ht & cc & path & Hc & Hu & Hp). split_and!; [cbn; lia|by rewrite Hd|].
    intros x ->%list_elem_of_singleton. eauto 10.
  - split_and!; [cbn; lia|done|by intros ? ?%elem_of_nil].
Qed.
End RabbitMQ.

(** ** serpapi *)
Module SerpApi.

Record Config := mkConfig {
  Host : string;
  APIKeyEnv : string;
  DefaultEngine : string;
  MaxResults : Z;
  RequestTimeoutSeconds : Z;
  FailurePolicyValue : string;
  ToolName : string;
  ToolDescription : string;
}.
Inductive config_error := ConfigParse | KeyRequired | DescriptionRequired.
Definition dec_config (raw : json) : option Config :=
  m ← dec_struct (Some raw); host ← str_field m "host"; key ← str_field m "apiKeyEnv"; eng ← str_field m "defaultEngine";
  n ← int_field m "maxResults"; tmo ← int_field m "requestTimeoutSeconds"; fp ← str_field m "failurePolicy";
  name ← str_field m "toolName"; desc ← str_field m "toolDescription"; Some (mkConfig host key eng n tmo fp name desc).
Definition Factory (raw : json) : res config_error Config :=
  match dec_config raw with
  | None => Err ConfigParse
  | Some c =>
      if str_empty (APIKeyEnv c) then Err KeyRequired
      else if str_empty (ToolDescription c) then Err DescriptionRequired
      else Ok (mkConfig (or_str (Host c) "https://serpapi.com") (APIKeyEnv c) (or_str (DefaultEngine c) "google") (or_int (MaxResults c) 5)
                 (or_int (RequestTimeoutSeconds c) 15) (or_str (FailurePolicyValue c) "surface-to-llm")
                 (or_str (ToolName c) "WebSearchSerpAPI") (ToolDescription c))
  end.

Record input := mkInput { Query : string; Num : Z; HL : string; GL : string }.
Definition dec_input (args : option json) : option input :=
  v ← args; m ← dec_struct (Some v); q ← str_field m "query"; n ← int_field m "num"; hl ← str_field m "hl"; gl ← str_field m "gl";
  Some (mkInput q n hl gl).
Record organic := mkOrganic { Title : string; Link : string; Snippet : string }.
Definition dec_organic (v : json) : option organic :=
  m ← dec_struct (Some v); t ← str_field m "title"; l ← str_field m "link"; s ← str_field m "snippet"; Some (mkOrganic t l s).
Definition dec_response (v : option json) : option (list organic) :=
  raw ← v; m ← dec_struct (Some raw); l ← dec_list dec_organic (m !! "organic_results"); Some (default [] l).

(** [url.Values] with one value per key, and its [Encode]. *)
Definition query_values (cfg : Config) (apiKey : string) (i : input) : gmap string string :=
  let q := <["engine" := DefaultEngine cfg]> (<["api_key" := apiKey]> {["q" := Query i]}) in
  let q := if 0 <? Num i then <["num" := print_Z (Num i)]> q else q in
  let q := if str_empty (HL i) then q else <["hl" := HL i]> q in
  if str_empty (GL i) then q else <["gl" := GL i]> q.
Definition pair_text (kv : string * string) : string := Postgres.QueryEscape kv.1 +:+ "=" +:+ Postgres.QueryEscape kv.2.
Definition Encode (q : gmap string string) : string := String.concat "&" (List.map pair_text (sort_keys (map_to_list q))).

Inductive error := BadInput | QueryRequired | RequestFailed (e : string) | Status (code : Z) (body : string) | BadResponse.
Definition result_json (o : organic) : json :=
  jobj [("title", JStr (Title o)); ("link", JStr (Link o)); ("snippet", JStr (Snippet o))].
(** The list made for the results: its capacity must not be negative. *)
Definition trimmed (maxResults : Z) (l : list organic) : outcome error (list json) :=
  let n := Z.of_nat (List.length l) in
  let limit := if n <? maxResults then n else maxResults in
  if limit <? 0 then Panic else Answer (List.map result_json (take (Z.to_nat limit) l)).
(** [Invoke]: the addresses fetched and the outcome. *)
Definition Invoke (cfg : Config) (apiKey : string) (get : string -> res string (Z * string)) (decode : string -> option json)
    (args : option json) : list string * outcome error (list json) :=
  match dec_input args with
  | None => ([], Failed BadInput)
  | Some i =>
      if str_empty (Query i) then ([], Failed QueryRequired)
      else
        let endpoint := Host cfg +:+ "/search.json?" +:+ Encode (query_values cfg apiKey i) in
        ([endpoint],
         match get endpoint with
         | Err e => Failed (RequestFailed e)
         | Ok (status, body) =>
             if 400 <=? status then Failed (Status status (truncate 200 body))
             else match dec_response (decode body) with
                  | None => Failed BadResponse
                  | Some l => trimmed (MaxResults cfg) l
                  end
         end)
  end.

(** *** What is asked and answered *)

Definition lacks (c : ascii) (s : string) : Prop := str_all (fun x => negb (Ascii.eqb x c)) s = true.
Lemma str_all_impl (f g : ascii -> bool) s : (forall c, f c = true -> g c = true) -> str_all f s = true -> str_all g s = true.
Proof. intros Hfg. induction s as [|c s IH]; [done|]. cbn. intros H; to_prop. rewrite Hfg by done. by rewrite IH. Qed.
Lemma str_split_lacks c s t : lacks c s -> str_split c (s +:+ String c t) = s :: str_split c t.
Proof.
  unfold lacks. induction s as [|x s IH]; intros H.
  - change ("" +:+ String c t) with (String c t). cbn [str_split]. by rewrite Ascii.eqb_refl; destruct (str_split c t).
  - cbn in H. to_prop. change (String x s +:+ String c t) with (String x (s +:+ String c t)). cbn [str_split].
    rewrite IH by done. by destruct (Ascii.eqb x c).
Qed.
Lemma str_split_one c s : lacks c s -> str_split c s = [s].
Proof.
  unfold lacks. induction s as [|x s IH]; [done|]. cbn [str_all str_split]. intros H; to_prop. rewrite IH by done.
  by destruct (Ascii.eqb x c).
Qed.
(** Joining texts that lack the separator and splitting at it gives them back. *)
Lemma str_join_split c x l : Forall (lacks c) (x :: l) -> str_split c (String.concat (String c "") (x :: l)) = x :: l.
Proof.
  revert x. induction l as [|y l IH]; intros x [Hx Hl]%Forall_cons_iff; [by apply str_split_one|].
  change (String.concat (String c "") (x :: y :: l)) with (x +:+ String c (String.concat (String c "") (y :: l))).
  by rewrite str_split_lacks, IH.
Qed.
Lemma escaped_lacks c s : Postgres.unreserved c = false -> c <> "%"%char -> c <> "+"%char -> lacks c (Postgres.QueryEscape s).
Proof.
  intros Hu Hp Hq. eapply str_all_impl; [|apply Postgres.escaped_safe]. intros x Hx. apply negb_true_iff, Ascii.eqb_neq. intros ->.
  rewrite Hu in Hx. apply orb_true_iff in Hx as [Hx|Hx]; apply Ascii.eqb_eq in Hx; congruence.
Qed.
Lemma pair_lacks kv : lacks "&" (pair_text kv).
Proof.
  unfold lacks, pair_text. rewrite !str_all_app. pose proof (escaped_lacks "&" kv.1). pose proof (escaped_lacks "&" kv.2).
  unfold lacks in *. rewrite H, H0 by done. done.
Qed.
Lemma pair_splits kv : str_split "=" (pair_text kv) = [Postgres.QueryEscape kv.1; Postgres.QueryEscape kv.2].
Proof.
  unfold pair_text. change ("=" +:+ Postgres.QueryEscape kv.2) with (String "=" (Postgres.QueryEscape kv.2)).
  rewrite str_split_lacks by (by apply escaped_lacks). f_equal. apply str_split_one. by apply escaped_lacks.
Qed.
(** The query string splits into exactly the parameters of the map, whatever their texts. *)
Lemma Encode_splits q : q <> ∅ ->
  exists kvs, kvs ≡ₚ map_to_list q /\
    List.map (str_split "=") (str_split "&" (Encode q)) = List.map (fun kv => [Postgres.QueryEscape kv.1; Postgres.QueryEscape kv.2]) kvs.
Proof.
  intros Hq. exists (sort_keys (map_to_list q)). split; [apply sort_keys_perm|]. unfold Encode.
  destruct (sort_keys (map_to_list q)) as [|kv kvs] eqn:E.
  { exfalso. apply Hq, map_to_list_empty_iff, Permutation_nil. rewrite <- E. apply sort_keys_perm. }
  cbn [List.map]. rewrite str_join_split.
  - cbn [List.map]. rewrite pair_splits. f_equal. rewrite List.map_map. apply List.map_ext. intros; apply pair_splits.
  - constructor; [apply pair_lacks|]. apply Forall_forall. intros t (kv' & -> & _)%list_elem_of_fmap. apply pair_lacks.
Qed.
Lemma trimmed_spec maxResults l :
  trimmed maxResults l = if maxResults <? 0 then Panic else Answer (List.map result_json (take (Z.to_nat maxResults) l)).
Proof.
  unfold trimmed. cbv zeta. destruct (Z.ltb_spec (Z.of_nat (List.length l)) maxResults).
  - destruct (Z.ltb_spec (Z.of_nat (List.length l)) 0); [lia|]. destruct (Z.ltb_spec maxResults 0); [lia|].
    by rewrite Nat2Z.id, !take_ge by lia.
  - done.
Qed.
Lemma query_values_some cfg key i : query_values cfg key i <> ∅.
Proof.
  unfold query_values. repeat case_match; try apply insert_non_empty.
Qed.
(** A search is one [GET] of the configured host whose query string holds exactly the
    parameters of the search, each key and value escaped, so that no text the model gives
    adds or changes another; an answer has at most the configured number of results, the
    first ones in their order. Only a negative configured number panics. *)
Theorem search_one_get cfg apiKey get decode args :
  let '(gets, o) := Invoke cfg apiKey get decode args in
  (List.length gets <= 1)%nat /\
  (forall u, u ∈ gets -> exists i qs kvs, dec_input args = Some i /\ Query i <> "" /\ u = Host cfg +:+ "/search.json?" +:+ qs /\
     kvs ≡ₚ map_to_list (query_values cfg apiKey i) /\
     List.map (str_split "=") (str_split "&" qs) = List.map (fun kv => [Postgres.QueryEscape kv.1; Postgres.QueryEscape kv.2]) kvs) /\
  (forall l, o = Answer l -> 0 <= MaxResults cfg /\ exists found, l = List.map result_json (take (Z.to_nat (MaxResults cfg)) found)) /\
  (o = Panic -> MaxResults cfg < 0).
Proof.
  unfold Invoke. destruct (dec_input args) as [i|]; [|split_and!; [cbn; lia|by intros ? ?%elem_of_nil|done|done]].
  destruct (str_empty (Query i)) eqn:Eq; [split_and!; [cbn; lia|by intros ? ?%elem_of_nil|done|done]|].
  cbv zeta. set (u := Host cfg +:+ _). split; [cbn; lia|]. split.
  - intros x ->%list_elem_of_singleton. destruct (Encode_splits _ (query_values_some cfg apiKey i)) as (kvs & Hp & Hs).
    exists i, (Encode (query_values cfg apiKey i)), kvs. apply str_empty_false in Eq. done.
  - destruct (get u) as [[status body]|e]; [|done]. destruct (400 <=? status); [done|].
    destruct (dec_response (decode body)) as [found|]; [|done]. rewrite trimmed_spec.
    destruct (Z.ltb_spec (MaxResults cfg) 0); [done|]. split; [|done]. intros l [= <-]. eauto.
Qed.
End SerpApi.

(** ** clientui *)
Module ClientUI.

Record Config := mkConfig { ToolName : string; ToolDescription : string }.
Inductive config_error := EmptyConfig | ConfigParse | NameRequired | DescriptionRequired.
Definition dec_config (raw : json) : option Config :=
  m ← dec_struct (Some raw); name ← str_field m "toolName"; desc ← str_field m "toolDescription"; Some (mkConfig name desc).
Definition parseConfig (raw : option json) : res config_error Config :=
  match raw with
  | None => Err EmptyConfig
  | Some raw =>
      let! c := ok_or ConfigParse (dec_config raw) in
      if str_empty (ToolName c) then Err NameRequired
      else if str_empty (ToolDescription c) then Err DescriptionRequired
      else Ok c
  end.

(** *** The input schemas *)
Definition strs (l : list string) : json := JArr (List.map JStr l).
Definition typed (ty : string) (rest : list (string * json)) : json := jobj (("type", JStr ty) :: rest).
Definition described (ty desc : string) (rest : list (string * json)) : json := typed ty (rest ++ [("description", JStr desc)]).
Definition object_of (required : list string) (props : list (string * json)) : json :=
  typed "object" [("required", strs required); ("properties", jobj props)].
Definition list_of (minItems : Z) (items : json) : json := typed "array" [("minItems", JNum minItems); ("items", items)].
Definition choice : json := object_of ["value"; "label"] [("value", typed "string" []); ("label", typed "string" [])].

Definition HumanInputSchema : json :=
  object_of ["prompt"] [("prompt", described "string" "Question shown above the input." []);
                        ("placeholder", described "string" "Optional placeholder text inside the input." [])].
Definition ConfirmSchema : json :=
  object_of ["prompt"] [("prompt", described "string" "Short question the user must approve or reject." [])].
Definition PickOneSchema : json :=
  object_of ["prompt"; "options"] [("prompt", described "string" "Short question shown above the choices." []); ("options", list_of 2 choice)].
Definition PickManySchema : json :=
  object_of ["prompt"; "options"]
    [("prompt", described "string" "Short question shown above the choices." []); ("options", list_of 2 choice);
     ("minPicks", described "integer" "Minimum selections required. Default 1." [("minimum", JNum 0)]);
     ("maxPicks", described "integer" "Maximum selections allowed. Default = options.length." [("minimum", JNum 1)])].
Definition AskFormSchema : json :=
  object_of ["prompt"; "fields"]
    [("prompt", described "string" "Short question shown above the form." []);
     ("fields", list_of 1
        (object_of ["name"; "label"; "type"]
           [("name", described "string" "Result-key for this field; unique within the form." []);
            ("label", described "string" "Human-visible field label shown in the Webix form." []);
            ("type", typed "string" [("enum", strs ["text"; "select"; "date"; "number"; "checkbox"])]);
            ("required", typed "boolean" []);
            ("options", described "array" "Only used when type=select." [("items", choice)]);
            ("min", described "number" "Only used when type=number." []);
            ("max", described "number" "Only used when type=number." []);
            ("placeholder", described "string" "Hint text shown inside the input when empty; applies to text and number field types." [])]))].
Definition AskNumberSchema : json :=
  object_of ["prompt"; "mode"]
    [("prompt", described "string" "Short question shown above the control." []);
     ("mode", described "string" "slider needs min and max; input is a free numeric field." [("enum", strs ["slider"; "input"])]);
     ("min", described "number" "Lower bound. Required for mode=slider." []);
     ("max", described "number" "Upper bound. Required for mode=slider." []);
     ("step", described "number" "Increment for slider/input. Default 1." [])].
Definition PickRowSchema : json :=
  object_of ["prompt"; "columns"; "rows"]
    [("prompt", described "string" "Short question shown above the table." []);
     ("columns", list_of 1
        (object_of ["id"; "label"]
           [("id", described "string" "Column key; must match keys in rows[]." []);
            ("label", described "string" "Human-visible column header." []);
            ("width", described "integer" "Optional column width in pixels." [("minimum", JNum 40)])]));
     ("rows", typed "array" [("minItems", JNum 1); ("maxItems", JNum 20);
        ("items", described "object" "One row; must contain an 'id' field plus one entry per column id." [("required", strs ["id"])])])].
Definition AskDateSchema : json :=
  object_of ["prompt"; "mode"]
    [("prompt", described "string" "Short question shown above the calendar." []);
     ("mode", described "string" "single=one date; range=from/to pair." [("enum", strs ["single"; "range"])]);
     ("min", described "string" "Earliest selectable date in YYYY-MM-DD." []);
     ("max", described "string" "Latest selectable date in YYYY-MM-DD." [])].
Definition AskLongTextSchema : json :=
  object_of ["prompt"]
    [("prompt", described "string" "Question shown above the textarea." []);
     ("placeholder", described "string" "Optional placeholder text inside the textarea." []);
     ("minLength", described "integer" "Minimum character count for the answer." [("minimum", JNum 0)]);
     ("maxLength", described "integer" "Maximum character count for the answer. Must be greater than or equal to minLength when both are set." [("minimum", JNum 1)])].

(** *** The tools *)
Record base := mkBase { nodeType : string; cfg : Config; Name : string; Description : string; InputSchema : json }.
Definition build (ty : string) (schema : json) (raw : option json) : res config_error base :=
  let! c := parseConfig raw in Ok (mkBase ty c (ToolName c) (ToolDescription c) schema).
Definition HumanInputFactory := build "tool/ui-human-input" HumanInputSchema.
Definition ConfirmFactory := build "tool/ui-confirm" ConfirmSchema.
Definition PickOneFactory := build "tool/ui-pick-one" PickOneSchema.
Definition PickManyFactory := build "tool/ui-pick-many" PickManySchema.
Definition AskFormFactory := build "tool/ui-ask-form" AskFormSchema.
Definition AskNumberFactory := build "tool/ui-ask-number" AskNumberSchema.
Definition PickRowFactory := build "tool/ui-pick-row" PickRowSchema.
Definition AskDateFactory := build "tool/ui-ask-date" AskDateSchema.
Definition AskLongTextFactory := build "tool/ui-ask-long-text" AskLongTextSchema.
Definition ClientOnly (b : base) : bool := true.
(** [Invoke] is never meant to be reached: it only reports the mistake. *)
Definition Invoke (b : base) (args : json) : res string json :=
  Err (ToolName (cfg b) +:+ ": Invoke called on a client-only tool — agent loop should have short-circuited via AwaitClientToolResult").

(** *** Well-formed schemas *)

Definition texts (v : option json) : option (list string) :=
  match v with Some (JArr l) => mapM (fun x => match x with JStr s => Some s | _ => None end) l | None => Some [] | _ => None end.
Definition number (v : option json) (d : Z) : Z := match v with Some (JNum n) => n | _ => d end.
(** A schema of a known type whose required properties are declared, whose nested schemas
    are well formed, and whose bounds on the number of items can be met. *)
Fixpoint wf_schema (depth : nat) (v : json) : bool :=
  match depth, v with
  | S depth, JObj m =>
      mem_str (as_str (m !! "type")) ["object"; "array"; "string"; "integer"; "number"; "boolean"] &&
      (match texts (m !! "required"), m !! "properties" with
       | Some req, Some (JObj ps) =>
           forallb (fun k => bool_decide (is_Some (ps !! k))) req && forallb (fun kv => wf_schema depth kv.2) (map_to_list ps)
       | Some _, None => true
       | _, _ => false
       end) &&
      (match m !! "items" with
       | Some it => String.eqb (as_str (m !! "type")) "array" && wf_schema depth it
       | None => negb (String.eqb (as_str (m !! "type")) "array")
       end) &&
      (number (m !! "minItems") 0 <=? number (m !! "maxItems") (2 ^ 63 - 1)) &&
      (match texts (m !! "enum") with
       | Some l => match m !! "enum" with None => true | Some _ => String.eqb (as_str (m !! "type")) "string" && negb (bool_decide (l = [])) end
       | None => false
       end)
  | _, _ => false
  end.
Definition requires (f : string) (schema : json) : bool := mem_str f (default [] (texts (as_obj (Some schema) !! "required"))).
(** The factories with the names [register.go] gives them. *)
Definition factories : list (option json -> res config_error base) :=
  [HumanInputFactory; ConfirmFactory; PickOneFactory; PickManyFactory; AskFormFactory; AskNumberFactory; PickRowFactory;
   AskDateFactory; AskLongTextFactory].
Definition well_typed (b : base) : Prop :=
  wf_schema 6 (InputSchema b) = true /\ as_str (as_obj (Some (InputSchema b)) !! "type") = "object" /\ requires "prompt" (InputSchema b) = true.
Lemma build_spec ty schema raw b : build ty schema raw = Ok b ->
  nodeType b = ty /\ InputSchema b = schema /\ Name b = ToolName (cfg b) /\ Name b <> "" /\ Description b = ToolDescription (cfg b) /\ Description b <> "".
Proof.
  unfold build, parseConfig. destruct raw as [raw|]; [|done]. destruct (dec_config raw) as [c|]; [|done]. cbn.
  destruct (str_empty (ToolName c)) eqn:E1; [done|]. destruct (str_empty (ToolDescription c)) eqn:E2; [done|].
  apply str_empty_false in E1, E2. cbn. intros [= <-]. done.
Qed.
(** Every tool for the browser that a factory builds is offered to the model under a name
    and a description that are not empty, with a well-formed object schema that requires
    the text shown to the user; the engine never runs it itself, and running it would only
    fail. *)
Theorem client_tools_typed F raw b :
  F ∈ factories -> F raw = Ok b ->
  Name b <> "" /\ Description b <> "" /\ well_typed b /\ ClientOnly b = true /\ forall args, is_ok (Invoke b args) = false.
Proof.
  intros HF Hb. assert (exists ty schema, F = build ty schema /\
    (forall b, InputSchema b = schema -> well_typed b)) as (ty & schema & -> & Hs).
  { revert HF. unfold factories. rewrite !elem_of_cons, elem_of_nil. unfold well_typed.
    intros HF. repeat destruct HF as [-> | HF]; try done; eexists _, _; (split; [reflexivity|]); intros ? ->; vm_compute; done. }
  destruct (build_spec _ _ _ _ Hb) as (_ & Hsch & _ & Hn & _ & Hd). auto.
Qed.
Definition sample : json := jobj [("toolName", JStr "askDate"); ("toolDescription", JStr "asks for a date")].
Lemma client_tools_typed_witness :
  exists b, AskDateFactory (Some sample) = Ok b /\ Name b <> "" /\ well_typed b.
Proof.
  eexists. split; [vm_compute; reflexivity|].
  edestruct (client_tools_typed AskDateFactory (Some sample)) as (Hn & _ & Hw & _); [|vm_compute; reflexivity|exact (conj Hn Hw)].
  unfold factories. rewrite !elem_of_cons. tauto.
Defined.
End ClientUI.

(** ** natsstream/toolresult.go *)
Module ToolResult.

Record Host := mkHost { connected : bool; basePath : string; streamID : string }.
Definition Prefix (h : Host) : string := basePath h +:+ "_.tool_result." +:+ streamID h.
Definition SubjectFor (h : Host) (toolCallID : string) : string := Prefix h +:+ "." +:+ toolCallID.

(** What happens on the connection and to the request, in order. *)
Inductive event := Published (subject data : string) | Cancelled | TimedOut.
Inductive error := NilConnection | SubscribeFailed (e : string) | ContextDone | Timeout.

Section wait.
(** Whether a message on the second subject reaches a subscription to the first. *)
Variable delivers : string -> string -> bool.

(** The channel of one message and the two other things the wait listens for. *)
Record pending := mkPending { msgs : option string; done : bool; fired : bool }.
Definition on_event (subj : string) (p : pending) (e : event) : pending :=
  match e with
  | Published s d => if delivers subj s then mkPending (match msgs p with None => Some d | m => m end) (done p) (fired p) else p
  | Cancelled => mkPending (msgs p) true (fired p)
  | TimedOut => mkPending (msgs p) (done p) true
  end.
Definition seen (subj : string) (evs : list event) : pending := foldl (on_event subj) (mkPending None false false) evs.
(** The ready cases of the [select]; any of them may be the one taken. *)
Definition ready (p : pending) : list (res error string) :=
  (if done p then [Err ContextDone] else []) ++ (if fired p then [Err Timeout] else [])
  ++ match msgs p with Some d => [Ok d] | None => [] end.
(** [WaitForToolResult]: [since] are the events from the subscription to the moment the
    wait looks; the outcomes it may return with, none while it still waits. *)
Definition WaitForToolResult (h : Host) (subscribe : option string) (toolCallID : string) (since : list event) : list (res error string) :=
  if negb (connected h) then [Err NilConnection]
  else match subscribe with
       | Some e => [Err (SubscribeFailed e)]
       | None => ready (seen (SubjectFor h toolCallID) since)
       end.

(** The first message for the subject, if there is one. *)
Definition first_for (subj : string) (evs : list event) : option string :=
  default None (snd <$> find_first (fun x => match x with (b, _) => b end)
    (List.map (fun e => match e with Published s d => (delivers subj s, Some d) | _ => (false, None) end) evs)).
Definition is_cancelled (e : event) : bool := match e with Cancelled => true | _ => false end.
Definition is_timeout (e : event) : bool := match e with TimedOut => true | _ => false end.
Lemma first_for_snoc subj evs e :
  first_for subj (evs ++ [e]) =
  match first_for subj evs with
  | Some d => Some d
  | None => match e with Published s d => if delivers subj s then Some d else None | _ => None end
  end.
Proof using.
  unfold first_for. rewrite List.map_app, find_first_app. induction evs as [|x evs IH]; cbn.
  - by destruct e as [s d| |]; cbn; try destruct (delivers subj s).
  - destruct x as [s d| |]; cbn; try apply IH. destruct (delivers subj s); [done|apply IH].
Qed.
Lemma seen_spec subj evs : seen subj evs = mkPending (first_for subj evs) (existsb is_cancelled evs) (existsb is_timeout evs).
Proof using.
  unfold seen. induction evs as [|e evs IH] using rev_ind; [done|].
  rewrite foldl_app, IH, first_for_snoc, !existsb_app. cbn.
  destruct e as [s d| |]; cbn; rewrite ?orb_true_r, ?orb_false_r; try done.
  - destruct (delivers subj s); cbn; by destruct (first_for subj evs).
  - by destruct (first_for subj evs).
  - by destruct (first_for subj evs).
Qed.

(** A subject with no wildcard in it receives exactly what is published on it. *)
Variable plain : string -> Prop.
Hypothesis delivers_plain : forall s t, plain s -> (delivers s t = true <-> s = t).
Lemma first_for_cons subj e evs :
  first_for subj (e :: evs) = match e with Published s d => if delivers subj s then Some d else first_for subj evs | _ => first_for subj evs end.
Proof using. unfold first_for. destruct e as [s d| |]; cbn; try done. by destruct (delivers subj s). Qed.
Lemma first_for_plain subj evs : plain subj ->
  match first_for subj evs with
  | Some d => exists pre post, evs = pre ++ Published subj d :: post /\ forall d', Published subj d' ∉ pre
  | None => forall d, Published subj d ∉ evs
  end.
Proof using delivers_plain.
  intros Hp. induction evs as [|e evs IH]; [by intros d ?%elem_of_nil|]. rewrite first_for_cons.
  assert (Hskip : (forall d, e <> Published subj d) ->
    match first_for subj evs with
    | Some d => exists pre post, e :: evs = pre ++ Published subj d :: post /\ forall d', Published subj d' ∉ pre
    | None => forall d, Published subj d ∉ e :: evs
    end).
  { intros He. destruct (first_for subj evs) as [d|].
    - destruct IH as (pre & post & -> & Hpre). exists (e :: pre), post. split; [done|].
      intros d' [Heq|Hin]%elem_of_cons; [by apply (He d')|by apply (Hpre d')].
    - intros d [Heq|Hin]%elem_of_cons; [by apply (He d)|by apply (IH d)]. }
  destruct e as [s d| |]; [|by apply Hskip|by apply Hskip]. destruct (delivers subj s) eqn:E.
  - apply delivers_plain in E as <-; [|done]. exists [], evs. split; [done|]. by intros d' ?%elem_of_nil.
  - apply Hskip. intros d' [= -> ->]. by rewrite (proj2 (delivers_plain subj subj Hp) eq_refl) in E.
Qed.
Lemma existsb_in (f : event -> bool) e evs : (forall x, f x = true <-> x = e) -> existsb f evs = true <-> e ∈ evs.
Proof using.
  intros Hf. rewrite existsb_exists. split.
  - intros (x & Hx & Hfx). apply Hf in Hfx as ->. by apply list_elem_of_In.
  - intros He. exists e. split; [by apply list_elem_of_In|by apply Hf].
Qed.
Lemma cancelled_in evs : existsb is_cancelled evs = true <-> Cancelled ∈ evs.
Proof using. apply existsb_in. by intros []. Qed.
Lemma timeout_in evs : existsb is_timeout evs = true <-> TimedOut ∈ evs.
Proof using. apply existsb_in. by intros []. Qed.

(** A wait for a browser's answer ends with the first message published for exactly its
    call since the subscription was made, or with the end of the request, or at the time
    limit, and only when that has happened; it still waits only while none has. *)
Theorem first_answer_wins h toolCallID since :
  connected h = true -> plain (SubjectFor h toolCallID) ->
  let outcomes := WaitForToolResult h None toolCallID since in
  (forall d, Ok d ∈ outcomes -> exists pre post, since = pre ++ Published (SubjectFor h toolCallID) d :: post /\
     forall d', Published (SubjectFor h toolCallID) d' ∉ pre) /\
  (forall e, Err e ∈ outcomes -> e = ContextDone /\ Cancelled ∈ since \/ e = Timeout /\ TimedOut ∈ since) /\
  (outcomes = [] <-> Cancelled ∉ since /\ TimedOut ∉ since /\ forall d, Published (SubjectFor h toolCallID) d ∉ since).
Proof using delivers_plain.
  intros Hc Hp. unfold WaitForToolResult. rewrite Hc. cbn [negb]. cbv zeta. rewrite seen_spec. unfold ready. cbn [done fired msgs].
  pose proof (first_for_plain _ since Hp) as Hf. rewrite <- cancelled_in, <- timeout_in.
  assert (Hmsg : first_for (SubjectFor h toolCallID) since = None <-> forall d, Published (SubjectFor h toolCallID) d ∉ since).
  { destruct (first_for _ since) as [d|]; [|done]. split; [done|]. destruct Hf as (pre & post & E & _).
    intros H. exfalso. apply (H d). rewrite E. apply elem_of_app. right. left. }
  rewrite <- Hmsg. clear Hmsg. split; [|split].
  - intros d. rewrite !elem_of_app. destruct (first_for _ since) as [d'|].
    + destruct (existsb is_cancelled since), (existsb is_timeout since); rewrite ?elem_of_nil, ?list_elem_of_singleton;
        intros [Ho|[Ho|Ho]]; try done; injection Ho as ->; done.
    + destruct (existsb is_cancelled since), (existsb is_timeout since); rewrite ?elem_of_nil, ?list_elem_of_singleton; intros [Ho|[Ho|Ho]]; done.
  - intros e. rewrite <- cancelled_in, <- timeout_in, !elem_of_app. destruct (existsb is_cancelled since), (existsb is_timeout since), (first_for _ since);
      rewrite ?elem_of_nil, ?list_elem_of_singleton; intros [Ho|[Ho|Ho]]; try done; injection Ho as ->; auto.
  - destruct (existsb is_cancelled since), (existsb is_timeout since), (first_for _ since); cbn;
      (split; [done|intros (H1 & H2 & H3)]); try done; exfalso; by (apply H1 || apply H2).
Qed.
End wait.

(** Calls of one stream have subjects of their own. *)
Lemma str_app_inj p a b : p +:+ a = p +:+ b -> a = b.
Proof. induction p as [|c p IH]; [done|]. change (String c (p +:+ a) = String c (p +:+ b) -> a = b). intros [= H]. by apply IH. Qed.
Lemma subjects_differ h id id' : SubjectFor h id = SubjectFor h id' -> id = id'.
Proof. unfold SubjectFor. intros [= E]%str_app_inj. done. Qed.

Definition chat : Host := mkHost true "svc.chat" "s1".
Definition history : list event :=
  [Published "svc.chat_.tool_result.s1.call-2" "no"; Published "svc.chat_.tool_result.s1.call-1" "yes"; TimedOut; Published "svc.chat_.tool_result.s1.call-1" "late"].
Lemma first_answer_wins_witness :
  Ok "yes" ∈ WaitForToolResult String.eqb chat None "call-1" history /\
  exists pre post, history = pre ++ Published (SubjectFor chat "call-1") "yes" :: post.
Proof.
  assert (H : Ok "yes" ∈ WaitForToolResult String.eqb chat None "call-1" history).
  { vm_compute. right. left. }
  split; [exact H|].
  destruct (first_answer_wins String.eqb (fun _ => True) (fun s t _ => String.eqb_eq s t) chat "call-1" history eq_refl I) as (Hd & _).
  destruct (Hd "yes" H) as (pre & post & E & _). exists pre, post. exact E.
Defined.
(** An answer published before the wait subscribes is not among the events it sees. *)
Example early_answer_lost : WaitForToolResult String.eqb chat None "call-1" [] = [].
Proof. reflexivity. Qed.
End ToolResult.
