(* ===== verification/Uploads.v ===== *)
(** * Files and charts of the web bridge (webbridge/, pkg/aws/s3files)

    - [Path]: the part of package filepath the handlers use;
    - [S3Files]: keys and uploads of the service's own bucket;
    - [Disk]: files and directories, with the operations of package os used here;
    - [Upload]: the upload route and the two storages behind it;
    - [LocalGet]: serving a stored file to its account;
    - [Janitor]: the periodic clean-up of the local storage;
    - [Chart]: the redirect to a rendered chart;
    - [Mount]: which routes are registered, and the account gate before them.

    The HTTP framework's parsing, S3, the identifier generator and the clock are
    parameters. *)

From S2P Require Import Prelude Json Scan Walk Tools.
From stdpp Require Import base tactics list strings gmap option fin_maps.
From Stdlib Require Import ZArith Lia Ascii String.
Local Open Scope string_scope.
Local Open Scope list_scope.
Local Open Scope Z_scope.
Local Open Scope go_scope.

(** ** filepath *)
Module Path.

(** A cleaned path as its elements; an absolute one starts with an empty element. *)
Abbreviation path := (list string).
(** [filepath.Clean] on the elements of a path, kept in reverse. *)
Fixpoint clean_from (rooted : bool) (acc : list string) (l : list string) : list string :=
  match l with
  | [] => List.rev acc
  | x :: l =>
      if str_empty x || String.eqb x "." then clean_from rooted acc l
      else if String.eqb x ".." then
        match acc with
        | y :: acc' => if String.eqb y ".." then clean_from rooted (x :: acc) l else clean_from rooted acc' l
        | [] => if rooted then clean_from rooted acc l else clean_from rooted [x] l
        end
      else clean_from rooted (x :: acc) l
  end.
Definition Clean (s : string) : path :=
  let rooted := has_prefix "/" s in (if rooted then [""] else []) ++ clean_from rooted [] (str_split "/" s).
Definition Join (elems : list string) : path :=
  Clean (String.concat "/" (List.filter (fun x => negb (str_empty x)) elems)).
(** [filepath.Base] *)
Definition Base (s : string) : string :=
  if str_empty s then "."
  else let t := trim_right_of "/" s in if str_empty t then "/" else List.last (str_split "/" t) "".

(** One element that names a file or a directory of its own. *)
Definition plain (s : string) : Prop := SerpApi.lacks "/" s /\ s <> "" /\ s <> "." /\ s <> "..".

Ltac plains := repeat (constructor 2; [assumption|]); constructor 1.

Lemma clean_plain rooted acc x l : plain x -> clean_from rooted acc (x :: l) = clean_from rooted (x :: acc) l.
Proof.
  intros (_ & H1 & H2 & H3). cbn. apply str_empty_false in H1. apply String.eqb_neq in H2, H3. by rewrite H1, H2, H3.
Qed.
Lemma clean_plains rooted acc l : Forall plain l -> clean_from rooted acc l = List.rev acc ++ l.
Proof.
  revert acc. induction l as [|x l IH]; intros acc; [by rewrite app_nil_r|]. intros [Hx Hl]%Forall_cons_iff.
  rewrite clean_plain by done. rewrite IH by done. cbn. by rewrite <- app_assoc.
Qed.
Lemma clean_app rooted acc l1 l2 : exists acc', clean_from rooted acc (l1 ++ l2) = clean_from rooted acc' l2 /\ clean_from rooted acc l1 = List.rev acc'.
Proof.
  revert acc. induction l1 as [|x l1 IH]; intros acc; [by exists acc|]. cbn.
  destruct (str_empty x || String.eqb x "."); [apply IH|]. destruct (String.eqb x ".."); [|apply IH].
  destruct acc as [|y acc]; [destruct rooted; apply IH|]. destruct (String.eqb y ".."); apply IH.
Qed.
Lemma str_split_cons c s : exists x l, str_split c s = x :: l.
Proof. induction s as [|y s (x & l & IH)]; [eauto|]. cbn. rewrite IH. destruct (Ascii.eqb y c); eauto. Qed.
Lemma str_split_app c a t : str_split c (a +:+ String c t) = str_split c a ++ str_split c t.
Proof.
  induction a as [|x a IH].
  - change ("" +:+ String c t) with (String c t). cbn [str_split]. by rewrite Ascii.eqb_refl.
  - change (String x a +:+ String c t) with (String x (a +:+ String c t)). cbn [str_split]. rewrite IH.
    destruct (str_split_cons c a) as (y & l & ->). by destruct (Ascii.eqb x c).
Qed.
Lemma str_split_concat c a l : Forall (SerpApi.lacks c) l ->
  str_split c (String.concat (String c "") (a :: l)) = str_split c a ++ l.
Proof.
  revert a. induction l as [|b l IH]; intros a Hl; [cbn; by rewrite app_nil_r|]. apply Forall_cons_iff in Hl as [Hb Hl].
  change (String.concat (String c "") (a :: b :: l)) with (a +:+ String c (String.concat (String c "") (b :: l))).
  by rewrite str_split_app, IH, (SerpApi.str_split_one c b).
Qed.
Lemma prefix_slash_app c a t : a <> "" -> has_prefix (String c "") (a +:+ t) = has_prefix (String c "") a.
Proof.
  destruct a as [|x a]; [done|]. intros _. unfold has_prefix. change (String x a +:+ t) with (String x (a +:+ t)).
  cbn. destruct (Ascii.ascii_dec c x); [|done]. by destruct a, t.
Qed.
Lemma plain_join_nonempty l : Forall plain l -> List.filter (fun x => negb (str_empty x)) l = l.
Proof.
  induction 1 as [|x l (_ & Hx & _) _ IH]; [done|]. cbn. apply str_empty_false in Hx. by rewrite Hx, IH.
Qed.
(** Joining plain names to a directory appends them to it. *)
Lemma Join_plain root l : root <> "" -> Forall plain l -> Join (root :: l) = Clean root ++ l.
Proof.
  intros Hr Hl. unfold Join. cbn [List.filter]. rewrite (proj2 (str_empty_false root) Hr). cbn [negb].
  rewrite plain_join_nonempty by done. unfold Clean. rewrite str_split_concat by (eapply Forall_impl; [exact Hl|]; by intros x []).
  assert (has_prefix "/" (String.concat "/" (root :: l)) = has_prefix "/" root) as ->.
  { destruct l as [|x l]; [done|]. change (String.concat "/" (root :: x :: l)) with (root +:+ ("/" +:+ String.concat "/" (x :: l))). by apply prefix_slash_app. }
  cbv zeta. destruct (clean_app (has_prefix "/" root) [] (str_split "/" root) l) as (acc & -> & ->).
  by rewrite clean_plains, app_assoc.
Qed.
Lemma trim_right_lacks s : SerpApi.lacks "/" s -> trim_right_of "/" s = s.
Proof.
  unfold SerpApi.lacks. induction s as [|c s IH]; [done|]. cbn. intros H; to_prop. rewrite IH by done.
  rewrite H. by destruct s.
Qed.
Lemma Base_plain s : plain s -> Base s = s.
Proof.
  intros (H1 & H2 & _). unfold Base. apply str_empty_false in H2. rewrite H2, trim_right_lacks by done. cbv zeta.
  by rewrite H2, SerpApi.str_split_one.
Qed.
(** The base name never has a separator in it, unless it is the separator alone. *)
Lemma split_lacks c s : Forall (SerpApi.lacks c) (str_split c s).
Proof.
  induction s as [|x s IH]; [by repeat constructor|]. cbn. destruct (Ascii.eqb x c) eqn:E; [by constructor|].
  destruct (str_split c s) as [|y l]; [by repeat constructor; unfold SerpApi.lacks; cbn; rewrite E|].
  apply Forall_cons_iff in IH as [Hy Hl]. constructor; [|done]. unfold SerpApi.lacks in *. cbn. by rewrite E, Hy.
Qed.
Lemma last_lacks c s : SerpApi.lacks c (List.last (str_split c s) "").
Proof.
  destruct (str_split_cons c s) as (x & l & E). pose proof (split_lacks c s) as H. rewrite E in *. clear E.
  revert x H. induction l as [|y l IH]; intros x H; apply Forall_cons_iff in H as [Hx Hl]; [done|]. by apply (IH y).
Qed.
Lemma Base_lacks s : Base s = "/" \/ SerpApi.lacks "/" (Base s).
Proof.
  unfold Base. destruct (str_empty s); [by right|]. cbv zeta. destruct (str_empty (trim_right_of "/" s)); [by left|].
  right. apply last_lacks.
Qed.
End Path.

(** ** pkg/aws/s3files *)
Module S3Files.

Definition filename_char (c : ascii) : bool :=
  is_upper c || is_lower c || is_digit c || Ascii.eqb c "." || Ascii.eqb c "_" || Ascii.eqb c "-".
(** Every run of other characters becomes one underscore; [run] holds within a run. *)
Fixpoint collapse (run : bool) (s : string) : string :=
  match s with
  | EmptyString => ""
  | String c s =>
      if filename_char c then String c (collapse false s)
      else if run then collapse true s else String "_" (collapse true s)
  end.
Definition trim_dots (s : string) : string := trim_right_of "." (trim_left_of "." s).
Definition sanitizeFilename (s : string) : string :=
  let b := Path.Base s in
  if mem_str b ["."; ".."; "/"] then "file"
  else let t := trim_dots (collapse false b) in if mem_str t [""; "_"] then "file" else t.

Record S3Uploader := mkUploader { bucket : string; region : string }.
Inductive error := BucketEmpty | AwsConfig (e : string) | PutFailed (key e : string) | PresignFailed (key e : string).
Definition FilesRegion (getenv : string -> string) : string := trim_space (getenv "S3_FILES_REGION").
(** [New]; [load] gives the region of the ambient configuration, or fails. *)
Definition New (getenv : string -> string) (load : option string -> res string string) (bucket : string) : res error S3Uploader :=
  if str_empty (trim_space bucket) then Err BucketEmpty
  else
    let r := FilesRegion getenv in
    match load (if str_empty r then None else Some r) with
    | Err e => Err (AwsConfig e)
    | Ok region => Ok (mkUploader bucket region)
    end.

(** An object written: its bucket, key, content type and bytes. *)
Record object := mkObject { o_Bucket : string; o_Key : string; o_ContentType : string; o_Body : string }.
Section upload.
Variable put : object -> option string.
Variable presign : string -> string -> res string string.
Variable u : S3Uploader.
(** The object sent, and the key with its address. *)
Definition putAndPresign (key contentType body : string) : object * res error (string * string) :=
  let o := mkObject (bucket u) key contentType body in
  (o, match put o with
      | Some e => Err (PutFailed key e)
      | None => match presign (bucket u) key with
                | Err e => Err (PresignFailed key e)
                | Ok url => Ok (key, url)
                end
      end).
Definition UploadChart (uuid png : string) : object * res error (string * string) :=
  putAndPresign ("chart/" +:+ uuid +:+ ".png") "image/png" png.
Definition UploadAttachment (uuid sessionID filename mediaType data : string) : object * res error (string * string) :=
  let sid := trim_space sessionID in
  let sid := if str_empty sid then "anon" else sid in
  let mediaType := if str_empty (trim_space mediaType) then "application/octet-stream" else mediaType in
  putAndPresign ("uploads/" +:+ sid +:+ "/" +:+ uuid +:+ "-" +:+ sanitizeFilename filename) mediaType data.
End upload.

(** *** Sanitized names *)
Lemma has_prefix_char c s : has_prefix (String c "") s = head_sat (fun x => Ascii.eqb x c) s.
Proof.
  destruct s as [|x s]; [done|]. unfold has_prefix. cbn. destruct (Ascii.ascii_dec c x) as [->|H].
  - rewrite Ascii.eqb_refl. by destruct s.
  - symmetry. apply Ascii.eqb_neq. congruence.
Qed.
Definition safe (s : string) : bool := str_all filename_char s.
Lemma collapse_safe run s : safe (collapse run s) = true.
Proof.
  unfold safe. revert run. induction s as [|c s IH]; intros run; [done|]. cbn. destruct (filename_char c) eqn:E.
  - cbn. by rewrite E, IH.
  - destruct run; [apply IH|]. cbn. apply IH.
Qed.
Lemma trim_left_all f c s : str_all f s = true -> str_all f (trim_left_of c s) = true.
Proof. induction s as [|x s IH]; [done|]. cbn. intros H; to_prop. destruct (Ascii.eqb x c); [by apply IH|]. cbn. by rewrite H, H0. Qed.
Lemma trim_right_all f c s : str_all f s = true -> str_all f (trim_right_of c s) = true.
Proof.
  induction s as [|x s IH]; [done|]. cbn. intros H; to_prop. specialize (IH H0). destruct (trim_right_of c s); cbn in *.
  - destruct (Ascii.eqb x c); cbn; by rewrite ?H.
  - by rewrite H.
Qed.
Lemma trim_left_stops c s : head_sat (fun x => Ascii.eqb x c) (trim_left_of c s) = false.
Proof. induction s as [|x s IH]; [done|]. cbn. by destruct (Ascii.eqb x c) eqn:E. Qed.
Lemma trim_right_stops c f s : head_sat f s = false -> head_sat f (trim_right_of c s) = false.
Proof.
  destruct s as [|x s]; [done|]. cbn. intros H. destruct (trim_right_of c s); [|done]. by destruct (Ascii.eqb x c).
Qed.
Lemma trim_right_end c s : has_suffix (String c "") (trim_right_of c s) = false.
Proof.
  induction s as [|x s IH]; [done|]. cbn. destruct (trim_right_of c s) as [|y t] eqn:E.
  - destruct (Ascii.eqb x c) eqn:Ex; [done|]. cbn. rewrite Ascii.eqb_sym, Ex. done.
  - cbn in *. rewrite IH. by destruct (Ascii.eqb c x).
Qed.
(** A sanitized name is never empty, has only harmless characters, and neither starts nor
    ends with a dot, so that it is one element of a key and hides nothing. *)
Theorem sanitizeFilename_spec s :
  let t := sanitizeFilename s in
  t <> "" /\ safe t = true /\ has_prefix "." t = false /\ has_suffix "." t = false /\ Path.plain t.
Proof.
  cbv zeta. unfold sanitizeFilename. cbv zeta. set (b := Path.Base s).
  assert (Hfile : "file" <> "" /\ safe "file" = true /\ has_prefix "." "file" = false /\ has_suffix "." "file" = false /\ Path.plain "file").
  { by split_and!. }
  destruct (mem_str b _); [exact Hfile|]. set (t := trim_dots (collapse false b)).
  destruct (mem_str t ["" ; "_"]) eqn:Em; [exact Hfile|]. clear Hfile.
  assert (Hs : safe t = true) by (apply trim_right_all, trim_left_all, collapse_safe).
  assert (He : has_suffix "." t = false) by apply trim_right_end.
  assert (Hh : has_prefix "." t = false).
  { pose proof (trim_right_stops "." _ _ (trim_left_stops "." (collapse false b))) as H. change (trim_right_of "." (trim_left_of "." (collapse false b))) with t in H.
    by rewrite has_prefix_char. }
  assert (Hne : t <> "") by (intros E; by rewrite E in Em).
  split_and!; try done. unfold Path.plain. split_and!; try done; [|by intros E; rewrite E in Hh|by intros E; rewrite E in Hh].
  unfold SerpApi.lacks. eapply SerpApi.str_all_impl; [|exact Hs]. intros c Hc. apply negb_true_iff, Ascii.eqb_neq. by intros ->.
Qed.
End S3Files.

(** ** Files and directories *)
Module Disk.

Record file := mkFile { data : string; modTime : Z }.
Record fs := mkFs { files : gmap (list string) file; dirs : gset (list string) }.
Definition parent (p : Path.path) : Path.path := List.removelast p.
(** [p] is [q] or an element of a directory below it. *)
Definition strictly_below (q p : Path.path) : Prop := exists x l, p = q ++ x :: l.
Fixpoint below_b (q p : Path.path) : bool :=
  match q, p with
  | [], [] => false
  | [], _ :: _ => true
  | x :: q, y :: p => String.eqb x y && below_b q p
  | _ :: _, [] => false
  end.
Lemma below_spec q p : below_b q p = true <-> strictly_below q p.
Proof.
  revert p. induction q as [|x q IH]; intros [|y p]; cbn.
  - split; [done|]. by intros (? & ? & ?).
  - split; [|done]. intros _. by exists y, p.
  - split; [done|]. by intros (? & ? & ?).
  - rewrite andb_true_iff, String.eqb_eq, IH. split.
    + intros [-> (z & l & ->)]. by exists z, l.
    + intros (z & l & [= -> ->]). split; [done|]. by exists z, l.
Qed.

Inductive io_error := NotDirectory | IsDirectory | NoParent.
(** [os.MkdirAll]: the directory with all above it, unless a file is in the way. *)
Fixpoint prefixes (p : Path.path) : list Path.path :=
  match p with [] => [] | x :: p => [x] :: List.map (cons x) (prefixes p) end.
Definition MkdirAll (p : Path.path) (s : fs) : res io_error fs :=
  if existsb (fun q => bool_decide (is_Some (files s !! q))) (prefixes p) then Err NotDirectory
  else Ok (mkFs (files s) (list_to_set (prefixes p) ∪ dirs s)).
(** [os.WriteFile]: the file replaced or made, in a directory that exists. *)
Definition WriteFile (p : Path.path) (d : string) (now : Z) (s : fs) : res io_error fs :=
  if bool_decide (p ∈ dirs s) then Err IsDirectory
  else if bool_decide (parent p ∈ dirs s) then Ok (mkFs (<[p := mkFile d now]> (files s)) (dirs s))
  else Err NoParent.

(** Files and directories are different, and what is above either is a directory; [base]
    is where the paths start, which may be left out. *)
Record wf (base : Path.path) (s : fs) : Prop := mkWf {
  wf_disjoint : forall p, p ∈ dirs s -> files s !! p = None;
  wf_file : forall p x, is_Some (files s !! (p ++ [x])) -> strictly_below base (p ++ [x]) -> p ∈ dirs s;
  wf_dir : forall p x, p ++ [x] ∈ dirs s -> strictly_below base (p ++ [x]) -> p ∈ dirs s;
}.

Lemma prefixes_spec p q : q ∈ prefixes p <-> q <> [] /\ exists l, p = q ++ l.
Proof.
  revert q. induction p as [|x p IH]; intros q; cbn.
  - rewrite elem_of_nil. split; [done|]. intros [Hq [l E]]. destruct q; done.
  - rewrite elem_of_cons, list_elem_of_fmap. split.
    + intros [-> | (q' & -> & (Hq & l & ->)%IH)]; [split; [done|by exists p]|]. split; [done|]. by exists l.
    + intros [Hq [l E]]. destruct q as [|y q]; [done|]. injection E as -> E. destruct q as [|z q]; [by left|].
      right. exists (z :: q). split; [done|]. apply IH. split; [done|]. by exists l.
Qed.
Lemma MkdirAll_ok p s s' : MkdirAll p s = Ok s' -> files s' = files s /\ forall q, q ∈ dirs s' <-> q ∈ prefixes p \/ q ∈ dirs s.
Proof.
  unfold MkdirAll. destruct (existsb _ _); [done|]. intros [= <-]. split; [done|]. intros q. cbn. by rewrite elem_of_union, elem_of_list_to_set.
Qed.
Lemma MkdirAll_some p s : (forall q, q ∈ prefixes p -> files s !! q = None) -> is_ok (MkdirAll p s) = true.
Proof.
  intros H. unfold MkdirAll. destruct (existsb _ _) eqn:E; [|done]. apply existsb_exists in E as (q & Hq & Hf).
  apply bool_decide_eq_true in Hf as [f Hf]. rewrite H in Hf; [done|by apply list_elem_of_In].
Qed.
Lemma parent_snoc p x : parent (p ++ [x]) = p.
Proof. apply removelast_last. Qed.
End Disk.

(** ** The upload route and the storages *)
Record AttachmentInput := mkInput { AccountID : string; Filename : string; MediaType : string; Data : string }.
Record AttachmentResult := mkResult { r_URL : string; r_MediaType : string; r_Filename : string; r_Size : Z; r_ExpiresAt : Z }.
(** What a call draws from its surroundings: a fresh identifier and the time. *)
Record ambient := mkAmbient { uuid : string; now : Z }.
Inductive storage_error := MkdirFailed (e : Disk.io_error) | WriteFailed (e : Disk.io_error) | S3Put (e : string) | S3Presign (e : string).
(** The interface [AttachmentStorage], over the state it stores into. *)
Class AttachmentStorage (cfg state : Type) := Put : cfg -> ambient -> AttachmentInput -> state -> state * res storage_error AttachmentResult.
Definition hours (n : Z) : Z := n * 3600 * 10 ^ 9.
Definition size (s : string) : Z := Z.of_nat (String.length s).

Record LocalStorage := mkLocal { root : string; urlPrefix : string }.
Definition local_put (s : LocalStorage) (a : ambient) (in_ : AttachmentInput) (d : Disk.fs) : Disk.fs * res storage_error AttachmentResult :=
  let dir := Path.Join [root s; AccountID in_; uuid a] in
  match Disk.MkdirAll dir d with
  | Err e => (d, Err (MkdirFailed e))
  | Ok d =>
      match Disk.WriteFile (Path.Join [root s; AccountID in_; uuid a; Filename in_]) (Data in_) (now a) d with
      | Err e => (d, Err (WriteFailed e))
      | Ok d => (d, Ok (mkResult (urlPrefix s +:+ "/" +:+ uuid a +:+ "/" +:+ Filename in_) (MediaType in_) (Filename in_)
                          (size (Data in_)) (now a + hours 24)))
      end
  end.
#[export] Instance local_storage : AttachmentStorage LocalStorage Disk.fs := local_put.

(** The bucket: what was put, oldest first. *)
Record S3Storage := mkS3 {
  s3_bucket : string;
  presignTTL : Z;
  put_object : S3Files.object -> option string;
  presign_get : string -> string -> Z -> res string string;
}.
Definition s3_put (s : S3Storage) (a : ambient) (in_ : AttachmentInput) (b : list S3Files.object)
    : list S3Files.object * res storage_error AttachmentResult :=
  let key := AccountID in_ +:+ "/" +:+ uuid a +:+ "/" +:+ Filename in_ in
  let o := S3Files.mkObject (s3_bucket s) key (MediaType in_) (Data in_) in
  match put_object s o with
  | Some e => (b, Err (S3Put e))
  | None =>
      (b ++ [o], match presign_get s (s3_bucket s) key (presignTTL s) with
                 | Err e => Err (S3Presign e)
                 | Ok url => Ok (mkResult url (MediaType in_) (Filename in_) (size (Data in_)) (now a + presignTTL s))
                 end)
  end.
#[export] Instance s3_storage : AttachmentStorage S3Storage (list S3Files.object) := s3_put.

Module Upload.

Record UploadConfig := mkUploadConfig { MaxBytes : Z; AllowedMime : list string }.
Definition mime_match (got a : string) : bool :=
  String.eqb a got || (has_suffix "/*" a && has_prefix (trim_suffix "*" a) got).
Definition mimeAllowed (got : string) (allowed : list string) : bool := existsb (mime_match got) allowed.
Definition backslash : ascii := ascii_of_nat 92.
Definition replace_char (a b : ascii) (s : string) : string :=
  string_of_list_ascii (List.map (fun c => if Ascii.eqb c a then b else c) (list_ascii_of_string s)).
(** What follows the last separator, of either kind. *)
Definition safeName (s : string) : string := or_str (List.last (str_split "/" (replace_char backslash "/" s)) "") "upload".

(** The file of the form: its header, and what opening and reading it gives. *)
Record formFile := mkFormFile { f_Size : Z; f_ContentType : string; f_Filename : string; f_data : res string string }.
Inductive reply := Refused (status : Z) (code : string) | Stored (r : AttachmentResult).
Section handler.
Context {cfg state : Type} `{AttachmentStorage cfg state}.
Definition UploadAttachment (storage : cfg) (c : UploadConfig) (a : ambient) (accountID : option string) (form : option formFile) (s : state)
    : state * reply :=
  if str_empty (default "" accountID) then (s, Refused 401 "auth-error")
  else
    match form with
    | None => (s, Refused 400 "bad-request")
    | Some f =>
        if (0 <? MaxBytes c) && (MaxBytes c <? f_Size f) then (s, Refused 413 "too-large")
        else if negb (mimeAllowed (f_ContentType f) (AllowedMime c)) then (s, Refused 415 "bad-mime")
        else
          match f_data f with
          | Err _ => (s, Refused 500 "io")
          | Ok data =>
              let '(s, r) := Put storage a (mkInput (default "" accountID) (safeName (f_Filename f)) (f_ContentType f) data) s in
              (s, match r with Err _ => Refused 500 "storage" | Ok r => Stored r end)
          end
    end.
End handler.
(** [Mount]'s configuration when none is given. *)
Definition defaultUploadConfig : UploadConfig :=
  mkUploadConfig (25 * 1024 * 1024) ["image/*"; "application/pdf"; "text/csv"; "text/plain"; "application/json"].

Lemma safeName_spec s : SerpApi.lacks "/" (safeName s) /\ SerpApi.lacks backslash (safeName s) /\ safeName s <> "".
Proof.
  unfold safeName. set (t := replace_char backslash "/" s).
  assert (Hb : SerpApi.lacks backslash t).
  { unfold t, replace_char, SerpApi.lacks. induction s as [|c s IH]; [done|]. cbn [list_ascii_of_string List.map string_of_list_ascii str_all].
    rewrite IH, andb_true_r. apply negb_true_iff, Ascii.eqb_neq. destruct (Ascii.eqb_spec c backslash) as [E|E]; [by vm_compute|done]. }
  unfold or_str. destruct (str_empty (List.last (str_split "/" t) "")) eqn:E; [by split_and!|].
  apply str_empty_false in E. split; [apply Path.last_lacks|]. split; [|done].
  assert (Hall : Forall (SerpApi.lacks backslash) (str_split "/" t)).
  { clear E. revert Hb. unfold SerpApi.lacks. induction t as [|c t IH]; intros Hb; [by repeat constructor|]. cbn in Hb. to_prop.
    specialize (IH H0). cbn. destruct (Ascii.eqb c "/"); [by constructor|]. destruct (str_split "/" t) as [|x l].
    - repeat constructor. cbn. by rewrite H.
    - apply Forall_cons_iff in IH as [Hx Hl]. constructor; [|done]. cbn. by rewrite H, Hx. }
  destruct (Path.str_split_cons "/" t) as (x & l & El). rewrite El in *. clear El E t Hb.
  revert x Hall. induction l as [|y l IH]; intros x Hall; apply Forall_cons_iff in Hall as [Hx Hl]; [done|]. by apply (IH y).
Qed.
End Upload.

(** ** Serving a stored file *)
Module LocalGet.

Definition cut_semicolon (s : string) : string := fst (span (fun c => negb (Ascii.eqb c ";")) s).
Definition safeInlineContentType (ct : string) : bool :=
  let ct := to_lower (trim_space (cut_semicolon ct)) in
  (has_prefix "image/" ct && negb (String.eqb ct "image/svg+xml"))
  || mem_str ct ["application/pdf"; "text/plain"; "text/csv"; "application/json"].

(** A directory is answered by the framework, without content of the storage's files. *)
Inductive reply := Refused (status : Z) (code : string) | Directory | Served (contentType : string) (nosniff : bool) (body : string).
Section get.
Variable type_of : string -> string.   (* the framework's content type for a file name *)
Definition uploadLocalGet (local : LocalStorage) (accountID : option string) (id filename : string) (s : Disk.fs) : reply :=
  let account := default "" accountID in
  if str_empty account then Refused 401 "auth-error"
  else if str_empty id || str_empty filename then Refused 400 "bad-request"
  else if negb (String.eqb (Path.Base filename) filename) || negb (String.eqb (Path.Base id) id) then Refused 400 "bad-request"
  else
    let path := Path.Join [root local; account; id; filename] in
    match Disk.files s !! path with
    | Some f =>
        let ct := type_of filename in
        Served (if safeInlineContentType ct then ct else "application/octet-stream") true (Disk.data f)
    | None => if bool_decide (path ∈ Disk.dirs s) then Directory else Refused 404 "not-found"
    end.

(** What is served is never rendered as a page or a drawing with scripts: the media type,
    read as a browser does (up to the parameters, the case apart), is none of those by
    which a page, a drawing, an XML document, a script or a style sheet is rendered; it is
    that of a picture other than a drawing, of a paged document, of plain text or of data,
    or the one that is only offered for download. *)
Definition media_type (ct : string) : string := to_lower (trim_space (cut_semicolon ct)).
Definition active (mt : string) : Prop :=
  mt ∈ ["text/html"; "application/xhtml+xml"; "image/svg+xml"; "text/xml"; "application/xml"; "text/javascript";
        "application/javascript"; "text/css"; "multipart/x-mixed-replace"; ""].
Definition inert (ct : string) : Prop :=
  ~ active (media_type ct)
  /\ ((exists subtype, media_type ct = "image/" +:+ subtype /\ subtype <> "svg+xml")
      \/ media_type ct ∈ ["application/pdf"; "text/plain"; "text/csv"; "application/json"; "application/octet-stream"]).

Lemma safe_inert ct : safeInlineContentType ct = true -> inert ct.
Proof.
  clear type_of. unfold safeInlineContentType, inert. fold (media_type ct). generalize (media_type ct) as mt. intros mt.
  intros [[Hp Hs]%andb_true_iff|Hm]%orb_true_iff.
  - apply negb_true_iff, String.eqb_neq in Hs. apply prefix_split in Hp. change (String.length "image/") with 6%nat in Hp.
    split; [|left; exists (str_drop 6 mt); split; [exact Hp|intros E; apply Hs; by rewrite Hp, E]].
    unfold active. rewrite Hp. intros Ha.
    repeat (apply elem_of_cons in Ha as [Ha|Ha]; [first [discriminate Ha|by rewrite <- Hp in Ha]|]). by apply elem_of_nil in Ha.
  - to_prop. split; [|right; set_solver].
    unfold active. intros Ha. rewrite !elem_of_cons, elem_of_nil in Hm.
    destruct Hm as [-> | [-> | [-> | [-> | []]]]]; by apply mem_str_spec in Ha.
Qed.
Lemma download_inert : inert "application/octet-stream".
Proof.
  clear type_of. unfold inert. change (media_type "application/octet-stream") with "application/octet-stream". split.
  - unfold active. by intros Ha%mem_str_spec.
  - right. set_solver.
Qed.

Lemma get_plain local account id filename s :
  root local <> "" -> Path.plain account -> Path.plain id -> Path.plain filename ->
  uploadLocalGet local (Some account) id filename s =
  match Disk.files s !! (Path.Clean (root local) ++ [account; id; filename]) with
  | Some f =>
      Served (if safeInlineContentType (type_of filename) then type_of filename else "application/octet-stream") true (Disk.data f)
  | None => if bool_decide (Path.Clean (root local) ++ [account; id; filename] ∈ Disk.dirs s) then Directory else Refused 404 "not-found"
  end.
Proof using.
  intros Hr Ha Hi Hf. unfold uploadLocalGet. cbn [default].
  rewrite !Path.Base_plain, !String.eqb_refl, Path.Join_plain by (try done; Path.plains).
  destruct Ha as (_ & Ha & _), Hi as (_ & Hi & _), Hf as (_ & Hf & _). apply str_empty_false in Ha, Hi, Hf. cbn. by rewrite Ha, Hi, Hf.
Qed.

(** The directory a file is stored in for an account. *)
Definition place (local : LocalStorage) (account id : string) : Path.path := Path.Clean (root local) ++ [account; id].
Definition clear_way (local : LocalStorage) (account id filename : string) (s : Disk.fs) : Prop :=
  (forall q, q ∈ Disk.prefixes (place local account id) -> Disk.files s !! q = None) /\
  place local account id ++ [filename] ∉ Disk.dirs s.

Lemma local_put_plain local a account filename mt d s :
  root local <> "" -> Path.plain account -> Path.plain (uuid a) -> Path.plain filename -> clear_way local account (uuid a) filename s ->
  exists s', local_put local a (mkInput account filename mt d) s =
    (s', Ok (mkResult (urlPrefix local +:+ "/" +:+ uuid a +:+ "/" +:+ filename) mt filename (size d) (now a + hours 24))) /\
  Disk.files s' = <[place local account (uuid a) ++ [filename] := Disk.mkFile d (now a)]> (Disk.files s) /\
  forall q, q ∈ Disk.dirs s' <-> q ∈ Disk.prefixes (place local account (uuid a)) \/ q ∈ Disk.dirs s.
Proof using.
  intros Hr Ha Hi Hf [Hway Hdir]. unfold local_put. cbn [AccountID Filename Data MediaType].
  rewrite !Path.Join_plain by (try done; Path.plains). fold (place local account (uuid a)).
  pose proof (Disk.MkdirAll_some _ _ Hway) as Hok. destruct (Disk.MkdirAll (place local account (uuid a)) s) as [s1|] eqn:E1; [|done].
  destruct (Disk.MkdirAll_ok _ _ _ E1) as [Hfiles Hdirs]. set (p := Path.Clean (root local) ++ [account; uuid a; filename]).
  assert (Hp : p = place local account (uuid a) ++ [filename]) by (unfold p, place; by rewrite <- app_assoc).
  unfold Disk.WriteFile. rewrite bool_decide_eq_false_2, bool_decide_eq_true_2.
  - eexists. split; [reflexivity|]. cbn. by rewrite Hfiles, Hp.
  - rewrite Hp, Disk.parent_snoc, Hdirs. left. apply Disk.prefixes_spec. split; [unfold place; by destruct (Path.Clean (root local))|].
    exists []. by rewrite app_nil_r.
  - rewrite Hp, Hdirs. intros [Hin|Hin]; [|done]. apply Disk.prefixes_spec in Hin as [_ [l E]].
    apply (f_equal List.length) in E. rewrite !List.length_app in E. cbn in E. lia.
Qed.

(** C30: An upload that the route takes is served back, byte for byte, to the account that made
    it, and never as a page the browser would run; and what is served to any other account
    for an id and a name that are single path elements does not change.  Account, id and
    stored name of the upload are single path elements too, and nothing that exists is in
    the way of its path.  (For the id .. another account may see a difference: the
    directory the upload made is one.) *)
Theorem upload_private local c a account f data s :
  root local <> "" -> Path.plain account -> Path.plain (uuid a) -> Path.plain (Upload.safeName (Upload.f_Filename f)) ->
  clear_way local account (uuid a) (Upload.safeName (Upload.f_Filename f)) s ->
  Upload.f_data f = Ok data -> (Upload.MaxBytes c <= 0 \/ Upload.f_Size f <= Upload.MaxBytes c) ->
  Upload.mimeAllowed (Upload.f_ContentType f) (Upload.AllowedMime c) = true ->
  exists s' r ct, Upload.UploadAttachment local c a (Some account) (Some f) s = (s', Upload.Stored r) /\
    r_Filename r = Upload.safeName (Upload.f_Filename f) /\ r_Size r = size data /\
    r_URL r = urlPrefix local +:+ "/" +:+ uuid a +:+ "/" +:+ r_Filename r /\
    uploadLocalGet local (Some account) (uuid a) (r_Filename r) s' = Served ct true data /\ inert ct /\
    forall other id name, other <> account -> Path.plain other -> Path.plain id -> Path.plain name ->
      uploadLocalGet local (Some other) id name s' = uploadLocalGet local (Some other) id name s.
Proof using.
  intros Hr Ha Hi Hn Hway Hd Hsize Hmime. destruct (local_put_plain local a account _ (Upload.f_ContentType f) data s Hr Ha Hi Hn Hway)
    as (s' & Hput & Hfiles & Hdirs).
  unfold Upload.UploadAttachment. change (default "" (Some account)) with account. rewrite (proj2 (str_empty_false account)) by apply Ha.
  assert ((0 <? Upload.MaxBytes c) && (Upload.MaxBytes c <? Upload.f_Size f) = false) as ->.
  { apply andb_false_iff. destruct Hsize; [left|right]; lia. }
  rewrite Hmime, Hd. cbn [negb]. unfold Put, local_storage. rewrite Hput. eexists s', _, _. split; [reflexivity|]. cbn [r_Filename r_Size r_URL].
  split_and!; try done.
  - rewrite get_plain by done. assert (Path.Clean (root local) ++ [account; uuid a; Upload.safeName (Upload.f_Filename f)] =
      place local account (uuid a) ++ [Upload.safeName (Upload.f_Filename f)]) as -> by (unfold place; by rewrite <- app_assoc).
    rewrite Hfiles, lookup_insert_eq. reflexivity.
  - destruct (safeInlineContentType (type_of _)) eqn:E; [by apply safe_inert|apply download_inert].
  - intros other id name Hne Ho Hid Hname. rewrite !get_plain by done. rewrite Hfiles, lookup_insert_ne.
    2:{ unfold place. rewrite <- app_assoc. intros E%app_inv_head. by injection E as <-. }
    destruct (Disk.files s !! _); [done|]. erewrite bool_decide_ext; [reflexivity|]. rewrite Hdirs. split; [|by right].
    intros [Hin|Hin]; [|done]. apply Disk.prefixes_spec in Hin as [_ [l E]]. exfalso. unfold place in E.
    rewrite <- app_assoc in E. apply app_inv_head in E. by injection E as <-.
Qed.
End get.

(** An identifier of two dots passes the check and leads out of the account's directory. *)
Example dotdot_accepted :
  let local := mkLocal "/srv/up" "/aichatviewer/upload-local" in
  let s := Disk.mkFs {[ ["" : string; "srv"; "up"; "notes.txt"] := Disk.mkFile "shared" 0 ]} ∅ in
  uploadLocalGet (fun _ => "text/plain") local (Some "acct-1") ".." "notes.txt" s = Served "text/plain" true "shared".
Proof. vm_compute. reflexivity. Qed.
End LocalGet.

(** ** The janitor *)
Module Janitor.
Import Disk.

Record LocalJanitor := mkJanitor { j_root : string; ttl : Z; interval : Z }.
Definition DefaultLocalTTL : Z := hours 24.
Definition NewLocalJanitor (root : string) (ttl interval : Z) : LocalJanitor :=
  mkJanitor root (if ttl <=? 0 then DefaultLocalTTL else ttl) (if interval <=? 0 then hours 1 else interval).

Section sweep.
(** What the operating system refuses to remove, which is logged and passed over. *)
Variable locked : Path.path -> bool.

(** The first pass: the files below the root that are older than the cutoff. *)
Definition expired (base : Path.path) (cutoff : Z) (p : Path.path) (f : file) : bool :=
  below_b base p && (modTime f <? cutoff) && negb (locked p).
Definition remove_files (base : Path.path) (cutoff : Z) (s : fs) : fs :=
  mkFs (filter (fun pf => expired base cutoff pf.1 pf.2 = false) (files s)) (dirs s).

(** The second: every directory below the root in the order of the walk, names sorted
    within a directory, then from the last to the first the empty ones removed. *)
Definition name_in (p d : Path.path) : option string :=
  if bool_decide (d <> [] /\ parent d = p) then Some (List.last d "") else None.
Definition child_names (ds : gset (list string)) (p : Path.path) : list string := sort_strings (omap (name_in p) (elements ds)).
Fixpoint walk (fuel : nat) (ds : gset (list string)) (p : Path.path) : list Path.path :=
  match fuel with
  | O => []
  | S fuel => flat_map (fun x => (p ++ [x]) :: walk fuel ds (p ++ [x])) (child_names ds p)
  end.
Definition depth (ds : gset (list string)) : nat := List.fold_right (fun d n => Nat.max (List.length d) n) 0%nat (elements ds).
Definition has_entries (s : fs) (d : Path.path) : bool :=
  existsb (fun p => negb (bool_decide (p = [])) && bool_decide (parent p = d)) (elements (dom (files s)) ++ elements (dirs s)).
Definition prune_dir (s : fs) (d : Path.path) : fs :=
  if has_entries s d || locked d then s else mkFs (files s) (dirs s ∖ {[d]}).
Definition dirs_below (base : Path.path) (s : fs) : list Path.path :=
  if bool_decide (base ∈ dirs s) then walk (S (depth (dirs s))) (dirs s) base else [].
Definition Sweep (j : LocalJanitor) (now : Z) (s : fs) : fs :=
  let base := Path.Clean (j_root j) in
  let s := remove_files base (now - ttl j) s in
  foldl prune_dir s (List.rev (dirs_below base s)).
(** [Start]: a sweep at once and one per tick, among what others do to the tree. *)
Inductive event := Tick (now : Z) | Changed (f : fs -> fs) | Stopped.
Fixpoint run (j : LocalJanitor) (evs : list event) (s : fs) : fs :=
  match evs with
  | [] | Stopped :: _ => s
  | Tick now :: evs => run j evs (Sweep j now s)
  | Changed f :: evs => run j evs (f s)
  end.
Definition Start (j : LocalJanitor) (started : Z) (evs : list event) (s : fs) : fs := run j evs (Sweep j started s).

(** *** The walk *)

Lemma name_in_spec p d x : name_in p d = Some x <-> d = p ++ [x].
Proof using.
  unfold name_in. case_bool_decide as H.
  - destruct H as [Hn <-]. split; [intros [= <-]; by apply app_removelast_last|].
    intros E. f_equal. rewrite E. apply List.last_last.
  - split; [done|]. intros ->. exfalso. apply H. split; [by destruct p|apply parent_snoc].
Qed.
Lemma child_names_spec ds p x : x ∈ child_names ds p <-> p ++ [x] ∈ ds.
Proof using.
  unfold child_names. rewrite sort_strings_perm, list_elem_of_omap. split.
  - intros (d & Hd & ->%name_in_spec). by apply elem_of_elements.
  - intros H. exists (p ++ [x]). split; [by apply elem_of_elements|by apply name_in_spec].
Qed.
Lemma child_names_nodup ds p : NoDup (child_names ds p).
Proof using.
  unfold child_names. rewrite sort_strings_perm. pose proof (NoDup_elements ds) as Hnd. revert Hnd.
  generalize (elements ds) as l. induction l as [|d l IH]; intros Hnd; [by constructor|].
  apply NoDup_cons in Hnd as [Hd Hnd]. cbn. destruct (name_in p d) as [x|] eqn:E; [|by apply IH].
  apply NoDup_cons. split; [|by apply IH]. intros (d' & Hd' & E')%list_elem_of_omap.
  apply name_in_spec in E, E'. by subst.
Qed.
Lemma below_trans p q r : strictly_below p q -> strictly_below q r -> strictly_below p r.
Proof using. intros (x & l & ->) (y & l' & ->). exists x, (l ++ y :: l'). by rewrite <- app_assoc. Qed.
Lemma below_longer p q : strictly_below p q -> (List.length p < List.length q)%nat.
Proof using. intros (x & l & ->). rewrite List.length_app. cbn. lia. Qed.
Lemma in_flat_map' {A B} (f : A -> list B) l y : y ∈ flat_map f l <-> exists x, x ∈ l /\ y ∈ f x.
Proof using. rewrite list_elem_of_In, in_flat_map. by setoid_rewrite list_elem_of_In. Qed.
Lemma walk_sound n ds p d : d ∈ walk n ds p -> strictly_below p d /\ d ∈ ds.
Proof using.
  revert p d. induction n as [|n IH]; intros p d; [by intros ?%elem_of_nil|]. cbn. rewrite in_flat_map'.
  intros (x & Hx%child_names_spec & [-> | H]%elem_of_cons); [by split; [exists x, []|]|].
  apply IH in H as [Hb Hd]. split; [|done]. eapply below_trans; [|exact Hb]. by exists x, [].
Qed.
(** What is above a directory below [p], up to [p], is a directory. *)
Definition closed (ds : gset (list string)) (p : Path.path) : Prop :=
  forall q x, q ++ [x] ∈ ds -> strictly_below p (q ++ [x]) -> q ∈ ds.
Lemma closed_first ds p x l : closed ds p -> p ++ x :: l ∈ ds -> p ++ [x] ∈ ds.
Proof using.
  intros Hc. induction l as [|y l IH] using rev_ind; [done|]. intros H. apply IH. apply (Hc _ y).
  - by rewrite <- app_assoc.
  - exists x, (l ++ [y]). by rewrite <- app_assoc.
Qed.
Lemma closed_down ds p x : closed ds p -> closed ds (p ++ [x]).
Proof using. intros Hc q y Hq Hb. apply (Hc q y Hq). eapply below_trans; [|exact Hb]. by exists x, []. Qed.
Lemma walk_complete n ds p d : closed ds p -> d ∈ ds -> strictly_below p d -> (List.length d <= n + List.length p)%nat -> d ∈ walk n ds p.
Proof using.
  revert p. induction n as [|n IH]; intros p Hc Hd Hb Hn; [apply below_longer in Hb; lia|].
  destruct Hb as (x & l & ->). cbn. apply in_flat_map'. exists x. split; [by apply child_names_spec, (closed_first ds p x l)|].
  apply elem_of_cons. destruct l as [|y l]; [by left|]. right. apply IH.
  - by apply closed_down.
  - done.
  - exists y, l. by rewrite <- app_assoc.
  - rewrite !List.length_app in *. cbn in *. lia.
Qed.

(** No element is above an earlier one. *)
Definition later_not_above : list Path.path -> Prop := ForallOrdPairs (fun u v => ~ strictly_below v u).
Lemma ordered_app l1 l2 : later_not_above l1 -> later_not_above l2 -> (forall u v, u ∈ l1 -> v ∈ l2 -> ~ strictly_below v u) -> later_not_above (l1 ++ l2).
Proof using.
  intros H1 H2 H. induction H1 as [|u l1 Hu Hl IH]; [done|]. cbn. constructor.
  - apply List.Forall_app. split; [done|]. apply Forall_forall. intros v Hv. apply H; [by left|done].
  - apply IH. intros v w Hv Hw. apply H; [by right|done].
Qed.
Lemma branches_apart (p : Path.path) x y l l' : p ++ x :: l = p ++ y :: l' -> x = y.
Proof using. intros E. apply app_inv_head in E. by injection E. Qed.
Lemma branch_elem n ds p x u : u ∈ (p ++ [x]) :: walk n ds (p ++ [x]) -> exists l, u = p ++ x :: l.
Proof using.
  intros [-> | Hu]%elem_of_cons; [by exists []|]. apply walk_sound in Hu as [(y & l & ->) _]. exists (y :: l). by rewrite <- app_assoc.
Qed.
Lemma walk_ordered n ds p : later_not_above (walk n ds p).
Proof using.
  revert p. induction n as [|n IH]; intros p; [constructor|]. cbn. pose proof (child_names_nodup ds p) as Hnd. revert Hnd.
  generalize (child_names ds p) as xs. induction xs as [|x xs IHx]; intros Hnd; [constructor|]. apply NoDup_cons in Hnd as [Hx Hnd].
  cbn [flat_map]. apply ordered_app; [|by apply IHx|].
  - constructor; [|apply IH]. apply Forall_forall. intros v [Hv _]%walk_sound Hb. apply below_longer in Hv, Hb. lia.
  - intros u v (l & ->)%branch_elem (y & Hy & (l' & ->)%branch_elem)%in_flat_map' (z & l'' & E).
    rewrite <- app_assoc in E. apply branches_apart in E as ->. done.
Qed.
Lemma ordered_split l1 d l2 c : later_not_above (l1 ++ d :: l2) -> c ∈ l1 -> ~ strictly_below d c.
Proof using.
  induction l1 as [|u l1 IH]; [by intros _ ?%elem_of_nil|]. cbn. intros H. inversion H as [|? ? Hu Hl]; subst.
  intros [-> | Hc]%elem_of_cons; [|by apply IH]. rewrite Forall_forall in Hu. apply Hu. apply elem_of_app. right. left.
Qed.
Lemma depth_max ds d : d ∈ ds -> (List.length d <= depth ds)%nat.
Proof using.
  rewrite <- elem_of_elements. unfold depth. induction (elements ds) as [|e l IH]; [by intros ?%elem_of_nil|]. cbn.
  intros [-> | H]%elem_of_cons; [lia|]. specialize (IH H). lia.
Qed.

(** *** Pruning *)

(** A directory stays exactly when something below it does: a file, or a directory that
    cannot be removed. *)
Definition kept (fl : gmap (list string) file) (ds : gset (list string)) (d : Path.path) : Prop :=
  (exists p, is_Some (fl !! p) /\ strictly_below d p) \/
  (exists q, q ∈ ds /\ locked q = true /\ (q = d \/ strictly_below d q)).
Lemma kept_up fl ds p d : strictly_below p d -> kept fl ds d -> kept fl ds p.
Proof using.
  intros Hb [(f & Hf & Hfb)|(q & Hq & Hl & Hqb)]; [left; exists f; split; [done|by eapply below_trans]|].
  right. exists q. split_and!; [done|done|]. right. destruct Hqb as [-> | Hqb]; [done|by eapply below_trans].
Qed.
Lemma kept_child fl ds d x p : d ++ [x] ∈ ds -> (is_Some (fl !! p) \/ p ∈ ds /\ locked p = true) -> strictly_below (d ++ [x]) p -> kept fl ds (d ++ [x]).
Proof using. intros Hd [Hp|[Hp Hl]] Hb; [left; eauto|right; exists p; auto]. Qed.
Lemma wf_closed base s : wf base s -> closed (dirs s) base.
Proof using. intros H q x. apply (wf_dir base s H). Qed.
(** The element below [d] on the way to something in the tree is that thing, or a
    directory. *)
Lemma first_step base s d x l : wf base s -> (d = base \/ strictly_below base d) ->
  is_Some (files s !! (d ++ x :: l)) \/ d ++ x :: l ∈ dirs s -> l = [] \/ d ++ [x] ∈ dirs s.
Proof using.
  intros Hwf Hd Hp. destruct l as [|y l] using rev_ind; [by left|]. right. clear IHl.
  assert (Hsnoc : d ++ x :: l ++ [y] = (d ++ x :: l) ++ [y]) by (by rewrite <- app_assoc).
  assert (Hbelow : forall l', strictly_below base (d ++ x :: l')).
  { intros l'. destruct Hd as [-> | Hd]; [by exists x, l'|]. eapply below_trans; [exact Hd|]. by exists x, l'. }
  assert (Hdir : d ++ x :: l ∈ dirs s).
  { rewrite Hsnoc in Hp. destruct Hp as [Hp|Hp]; [apply (wf_file base s Hwf _ y Hp)|apply (wf_dir base s Hwf _ y Hp)];
      rewrite <- Hsnoc; apply Hbelow. }
  apply (closed_first _ _ _ l); [|done]. intros q z Hq Hb. apply (wf_dir base s Hwf q z Hq).
  destruct Hd as [-> | Hd]; [done|by eapply below_trans].
Qed.
Lemma has_entries_spec s d : has_entries s d = true <-> exists x, is_Some (files s !! (d ++ [x])) \/ d ++ [x] ∈ dirs s.
Proof using.
  unfold has_entries. rewrite existsb_exists. setoid_rewrite <- list_elem_of_In. setoid_rewrite elem_of_app.
  setoid_rewrite elem_of_elements. setoid_rewrite elem_of_dom. split.
  - intros (p & Hp & Hq). apply andb_true_iff in Hq as [Hn Hq]. apply negb_true_iff in Hn. apply bool_decide_eq_false in Hn.
    apply bool_decide_eq_true in Hq as <-. exists (List.last p ""). unfold parent. by rewrite <- app_removelast_last.
  - intros (x & H). exists (d ++ [x]). split; [done|]. rewrite andb_true_iff, negb_true_iff, bool_decide_eq_true, bool_decide_eq_false.
    split; [by destruct d|apply parent_snoc].
Qed.

Section pass.
Context (base : Path.path) (s : fs) (Hwf : wf base s) (Hbase : base ∈ dirs s).
Let order := List.rev (dirs_below base s).
Lemma in_order d : d ∈ order <-> d ∈ dirs s /\ strictly_below base d.
Proof using Hwf Hbase.
  unfold order, dirs_below. rewrite bool_decide_eq_true_2 by done. rewrite list_elem_of_In, <- in_rev, <- list_elem_of_In. split.
  - intros [Hb Hd]%walk_sound. done.
  - intros [Hd Hb]. apply walk_complete; [by apply wf_closed|done|done|]. pose proof (depth_max _ _ Hd). lia.
Qed.
Lemma order_below_first pre d post c : order = pre ++ d :: post -> c ∈ order -> strictly_below d c -> c ∈ pre.
Proof using Hwf Hbase.
  intros Ho Hc Hb. assert (E : dirs_below base s = List.rev post ++ d :: List.rev pre).
  { rewrite <- (List.rev_involutive (dirs_below base s)). fold order. rewrite Ho, List.rev_app_distr. cbn. by rewrite <- app_assoc. }
  pose proof (walk_ordered (S (depth (dirs s))) (dirs s) base) as Hord. unfold dirs_below in E. rewrite bool_decide_eq_true_2 in E by done.
  rewrite E in Hord. rewrite Ho in Hc. apply elem_of_app in Hc as [Hc|[-> | Hc]%elem_of_cons]; [done|by apply below_longer in Hb; lia|].
  exfalso. eapply ordered_split; [exact Hord| |exact Hb]. by apply list_elem_of_In, in_rev; rewrite List.rev_involutive; apply list_elem_of_In.
Qed.
Lemma prune_step pre d post s1 : order = pre ++ d :: post -> files s1 = files s ->
  (forall q, q ∈ dirs s1 <-> q ∈ dirs s /\ (q ∉ pre \/ kept (files s) (dirs s) q)) ->
  has_entries s1 d || locked d = true <-> kept (files s) (dirs s) d.
Proof using Hwf Hbase.
  intros Ho Hf Hds. assert (Hd : d ∈ order) by (rewrite Ho; apply elem_of_app; right; left).
  apply in_order in Hd as [Hd Hdb]. rewrite orb_true_iff, has_entries_spec, Hf. split.
  - intros [(x & [Hx|Hx])|Hl]; [left; exists (d ++ [x]); split; [done|by exists x, []]| |right; exists d; auto].
    apply Hds in Hx as [Hx Hk]. assert (Hb : strictly_below d (d ++ [x])) by (by exists x, []). apply (kept_up _ _ _ _ Hb).
    destruct Hk as [Hk|Hk]; [|done]. exfalso. apply Hk. eapply order_below_first; [exact Ho| |done].
    apply in_order. split; [done|by eapply below_trans].
  - assert (Hgo : forall p, is_Some (files s !! p) \/ p ∈ dirs s /\ locked p = true -> strictly_below d p ->
      exists x, is_Some (files s !! (d ++ [x])) \/ d ++ [x] ∈ dirs s1).
    { intros p Hp (x & l & ->). exists x.
      destruct (first_step base s d x l Hwf (or_intror Hdb)) as [-> | Hx]; [by destruct Hp as [?|[? _]]; [left|right]| |].
      - destruct Hp as [Hp|[Hp Hl]]; [by left|]. right. apply Hds. split; [done|]. right. right. exists (d ++ [x]). auto.
      - destruct l as [|y l]; [destruct Hp as [Hp|[Hp Hl]]; [by left|]|]; right; apply Hds; (split; [done|]); right.
        + right. exists (d ++ [x]). auto.
        + eapply kept_child; [done|exact Hp|]. exists y, l. by rewrite <- app_assoc. }
    intros [(p & Hp & Hb)|(q & Hq & Hl & [-> | Hb])]; [left|by right|left]; eapply Hgo; eauto.
Qed.
Lemma prune_prefix pre post : order = pre ++ post ->
  let s' := foldl prune_dir s pre in
  files s' = files s /\ forall q, q ∈ dirs s' <-> q ∈ dirs s /\ (q ∉ pre \/ kept (files s) (dirs s) q).
Proof using Hwf Hbase.
  revert post. induction pre as [|d pre IH] using rev_ind; intros post Ho.
  - split; [done|]. intros q. split; [|by intros [? _]]. intros Hq. split; [done|]. left. by intros ?%elem_of_nil.
  - rewrite <- app_assoc in Ho. destruct (IH _ Ho) as [Hf Hds]. rewrite foldl_app. cbn [foldl].
    set (s1 := foldl prune_dir s pre) in *. clearbody s1. unfold prune_dir.
    pose proof (prune_step _ _ _ _ Ho Hf Hds) as Hk. destruct (has_entries _ d || locked d).
    + split; [done|]. intros q. rewrite Hds. split; intros [Hq Hor]; (split; [done|]).
      * destruct Hor as [Hor|Hor]; [|by right]. destruct (decide (q = d)) as [-> | Hne]; [right; by apply Hk|]. left.
        intros [H|H%list_elem_of_singleton]%elem_of_app; done.
      * destruct Hor as [Hor|Hor]; [left|by right]. intros H. apply Hor, elem_of_app. by left.
    + cbn [files dirs]. split; [done|]. intros q. rewrite elem_of_difference, elem_of_singleton, Hds. split.
      * intros [[Hq Hor] Hne]. split; [done|]. destruct Hor as [Hor|Hor]; [left|by right].
        intros [H|H%list_elem_of_singleton]%elem_of_app; done.
      * intros [Hq Hor]. assert (Hne : q <> d).
        { intros ->. destruct Hor as [Hor|Hor]; [apply Hor, elem_of_app; right; left|by apply Hk in Hor]. }
        split; [|done]. split; [done|]. destruct Hor as [Hor|Hor]; [left|by right]. intros H. apply Hor, elem_of_app. by left.
Qed.
End pass.

Lemma remove_files_wf base cutoff s : wf base s -> wf base (remove_files base cutoff s).
Proof using.
  intros [Hd Hf Hdir]. unfold remove_files. split; cbn.
  - intros p Hp. apply map_lookup_filter_None. left. by apply Hd.
  - intros p x [f [Hx _]%map_lookup_filter_Some] Hb. apply (Hf p x); eauto.
  - done.
Qed.
(** Nothing is below a root that is not there. *)
Lemma nothing_below base s p : wf base s -> base ∉ dirs s -> strictly_below base p -> p ∉ dirs s.
Proof using.
  intros Hwf Hb (x & l & ->) Hp. apply Hb. apply (wf_dir base s Hwf base x).
  - apply (closed_first _ _ _ l); [by apply wf_closed|done].
  - by exists x, [].
Qed.
Lemma sweep_dirs base s : wf base s ->
  let s' := foldl prune_dir s (List.rev (dirs_below base s)) in
  files s' = files s /\ forall d, d ∈ dirs s' <-> d ∈ dirs s /\ (strictly_below base d -> kept (files s) (dirs s) d).
Proof using.
  intros Hwf. cbv zeta. destruct (decide (base ∈ dirs s)) as [Hb|Hb].
  - destruct (prune_prefix base s Hwf Hb (List.rev (dirs_below base s)) []) as [Hf Hds]; [by rewrite app_nil_r|].
    split; [done|]. intros d. rewrite Hds, in_order by done. split; intros [Hd Hor]; (split; [done|]).
    + intros Hbd. destruct Hor as [Hor|Hor]; [by destruct Hor|done].
    + destruct (decide (below_b base d = true)) as [Hbd|Hbd]; [right; by apply Hor, below_spec|left].
      intros [_ H%below_spec]. done.
  - unfold dirs_below. rewrite bool_decide_eq_false_2 by done. cbn. split; [done|]. intros d. split; [|by intros []].
    intros Hd. split; [done|]. intros Hbd. by destruct (nothing_below base s d Hwf Hb Hbd).
Qed.
(** A sweep removes exactly the files below the root that are older than the limit, except
    those the system will not remove, then exactly the directories below the root with
    nothing left in them; the tree stays well formed, and what is outside is untouched. *)
Theorem sweep_exact j now s : wf (Path.Clean (j_root j)) s ->
  let base := Path.Clean (j_root j) in
  let s' := Sweep j now s in
  (forall p f, files s' !! p = Some f <-> files s !! p = Some f /\ ~ (strictly_below base p /\ modTime f < now - ttl j /\ locked p = false)) /\
  (forall d, d ∈ dirs s' <-> d ∈ dirs s /\ (strictly_below base d -> kept (files s') (dirs s) d)) /\
  wf base s'.
Proof using.
  intros Hwf base s'. set (s1 := remove_files base (now - ttl j) s).
  assert (Hwf1 : wf base s1) by (by apply remove_files_wf).
  destruct (sweep_dirs base s1 Hwf1) as [Hf Hds]. change (foldl prune_dir s1 (List.rev (dirs_below base s1))) with s' in Hf, Hds.
  rewrite <- Hf in Hds. split_and!.
  - intros p f. rewrite Hf. unfold s1, remove_files. cbn [files]. rewrite map_lookup_filter_Some. cbn. unfold expired.
    rewrite !andb_false_iff, negb_false_iff, Z.ltb_ge. split; intros [Hp H]; (split; [done|]).
    + intros (Hb & Hm & Hl). apply below_spec in Hb. rewrite Hl in H. rewrite Hb in H. destruct H as [[H|H]|H]; [done|lia|done].
    + destruct (below_b base p) eqn:Eb; [|by auto]. apply below_spec in Eb. destruct (locked p); [by auto|].
      destruct (Z.leb_spec (now - ttl j) (modTime f)); [by auto|]. destruct H; auto.
  - exact Hds.
  - destruct Hwf1 as [Hd1 Hf1 Hdir1]. split.
    + intros p [Hp _]%Hds. rewrite Hf. by apply Hd1.
    + intros p x Hp Hb. apply Hds. split; [rewrite Hf in Hp; by apply (Hf1 p x)|]. intros Hpb. left. exists (p ++ [x]).
      split; [done|by exists x, []].
    + intros p x [Hp Hk]%Hds Hb. apply Hds. split; [by apply (Hdir1 p x)|]. intros Hpb. apply (kept_up _ _ _ (p ++ [x])); [by exists x, []|]. auto.
Qed.
End sweep.

Definition up : LocalJanitor := NewLocalJanitor "/srv/up" 0 0.
Definition tree : fs :=
  mkFs (list_to_map [(["" : string; "srv"; "up"; "a"; "1"; "x.png"], mkFile "old" 5); (["" : string; "srv"; "up"; "a"; "2"; "y.png"], mkFile "new" (hours 30))])
       (list_to_set [["" : string]; ["" : string; "srv"]; ["" : string; "srv"; "up"]; ["" : string; "srv"; "up"; "a"]; ["" : string; "srv"; "up"; "a"; "1"];
                     ["" : string; "srv"; "up"; "a"; "2"]; ["" : string; "srv"; "up"; "b"]]).
(** Checking a tree: the three conditions on each of its elements. *)
Definition wf_b (base : Path.path) (s : fs) : bool :=
  forallb (fun p => negb (bool_decide (is_Some (files s !! p)))) (elements (dirs s)) &&
  forallb (fun p => negb (below_b base p) || bool_decide (parent p ∈ dirs s)) (elements (dom (files s)) ++ elements (dirs s)).
Lemma wf_b_sound base s : wf_b base s = true -> wf base s.
Proof.
  unfold wf_b. rewrite andb_true_iff, !forallb_forall. intros [H1 H2].
  assert (Hup : forall p x, is_Some (files s !! (p ++ [x])) \/ p ++ [x] ∈ dirs s -> strictly_below base (p ++ [x]) -> p ∈ dirs s).
  { intros p x Hp Hb. specialize (H2 (p ++ [x])). apply below_spec in Hb. rewrite Hb, parent_snoc in H2. cbn in H2.
    assert (Hin : p ++ [x] ∈ elements (dom (files s)) ++ elements (dirs s)) by (rewrite elem_of_app, !elem_of_elements, elem_of_dom; done).
    apply list_elem_of_In, H2 in Hin. by apply bool_decide_eq_true in Hin. }
  split; [|intros p x ? ?; apply (Hup p x); auto|intros p x ? ?; apply (Hup p x); auto].
  intros p Hp. specialize (H1 p (proj1 (list_elem_of_In _ _) (proj2 (elem_of_elements _ _) Hp))).
  apply negb_true_iff, bool_decide_eq_false in H1. destruct (files s !! p) eqn:E; [|done]. destruct H1. eauto.
Qed.
Lemma sweep_exact_witness :
  wf (Path.Clean (j_root up)) tree /\
  (["" : string; "srv"; "up"; "a"; "2"] ∈ dirs (Sweep (fun _ => false) up (hours 30) tree)) /\
  files (Sweep (fun _ => false) up (hours 30) tree) !! ["" : string; "srv"; "up"; "a"; "1"; "x.png"] = None.
Proof.
  assert (Hwf : wf (Path.Clean (j_root up)) tree) by (apply wf_b_sound; vm_compute; reflexivity).
  split; [exact Hwf|]. destruct (sweep_exact (fun _ => false) up (hours 30) tree Hwf) as (Hf & Hd & _). split.
  - apply Hd. split; [apply (bool_decide_unpack _); vm_compute; reflexivity|]. intros _. left. exists ["" : string; "srv"; "up"; "a"; "2"; "y.png"].
    split; [|by exists "y.png", []]. exists (mkFile "new" (hours 30)). apply Hf. split; [vm_compute; reflexivity|].
    intros (_ & H & _). by vm_compute in H.
  - destruct (files (Sweep _ _ _ tree) !! _) as [f|] eqn:E; [|reflexivity]. exfalso. apply Hf in E as [E H].
    assert (f = mkFile "old" 5) as ->. { vm_compute in E. congruence. }
    apply H. split_and!; [apply below_spec; vm_compute; reflexivity|vm_compute; reflexivity|reflexivity].
Defined.
Example sweep_ex :
  let s := Sweep (fun _ => false) up (hours 30) tree in
  List.length (elements (dirs s)) = 5%nat /\ List.length (map_to_list (files s)) = 1%nat.
Proof. vm_compute. split; reflexivity. Qed.
End Janitor.

(** ** Charts *)
Module Chart.

(** [chartNameRe]: groups of hexadecimal digits joined by dashes, then the extension. *)
Fixpoint hex_run (n : nat) (s : string) : option string :=
  match n, s with
  | O, _ => Some s
  | S n, String c s => if is_hex c then hex_run n s else None
  | S _, EmptyString => None
  end.
Definition expect (c0 : ascii) (s : string) : option string :=
  match s with String c s => if Ascii.eqb c c0 then Some s else None | EmptyString => None end.
Definition chartNameRe (name : string) : bool :=
  match (r ← hex_run 8 name; r ← expect "-" r; r ← hex_run 4 r; r ← expect "-" r; r ← hex_run 4 r; r ← expect "-" r;
         r ← hex_run 4 r; r ← expect "-" r; hex_run 12 r) with
  | Some r => String.eqb r ".png"
  | None => false
  end.

Definition quoted (s : string) : string := dquote +:+ s +:+ dquote.
Definition attr (name value : string) : string := " " +:+ name +:+ "=" +:+ quoted value.
Definition chartUnavailableSVG : string :=
  "<svg" +:+ attr "xmlns" "http://www.w3.org/2000/svg" +:+ attr "width" "320" +:+ attr "height" "180" +:+ attr "viewBox" "0 0 320 180"
  +:+ attr "role" "img" +:+ attr "aria-label" "Chart unavailable" +:+ "><rect" +:+ attr "width" "320" +:+ attr "height" "180" +:+ attr "rx" "8"
  +:+ attr "fill" "#f3f4f6" +:+ attr "stroke" "#d1d5db" +:+ "/><text" +:+ attr "x" "160" +:+ attr "y" "92" +:+ attr "font-family" "sans-serif"
  +:+ attr "font-size" "15" +:+ attr "fill" "#6b7280" +:+ attr "text-anchor" "middle" +:+ ">Chart unavailable</text></svg>".

(** The interface to the bucket, and its implementation over the two calls of the client. *)
Record ChartPresigner := mkPresigner { ChartExists : string -> res string bool; PresignChart : string -> res string string }.
Inductive head_result := Found | MissingObject | HeadFailed (e : string).
Definition newS3ChartPresigner (bucket : string) (load : res string unit) (head : string -> string -> head_result)
    (presign : string -> string -> res string string) : res string ChartPresigner :=
  if str_empty (trim_space bucket) then Err "aichatviewer: chart bucket name is empty"
  else match load with
       | Err e => Err ("aichatviewer: load aws config: " +:+ e)
       | Ok _ =>
           Ok (mkPresigner
                 (fun key => match head bucket key with Found => Ok true | MissingObject => Ok false | HeadFailed e => Err e end)
                 (fun key => match presign bucket key with
                             | Ok url => Ok url
                             | Err e => Err ("aichatviewer: presign " +:+ bucket +:+ "/" +:+ key +:+ ": " +:+ e)
                             end))
       end.

Inductive reply := NotFound | Image (svg : string) | Redirect (url : string).
(** The keys asked about and signed, and the reply. *)
Definition chartRedirectHandler (p : ChartPresigner) (name : string) : list string * list string * reply :=
  if negb (chartNameRe name) then ([], [], NotFound)
  else
    let key := "chart/" +:+ name in
    match ChartExists p key with
    | Err _ => ([key], [], NotFound)
    | Ok false => ([key], [], Image chartUnavailableSVG)
    | Ok true =>
        ([key], [key], match PresignChart p key with
                       | Err _ => NotFound
                       | Ok url => if str_empty url then NotFound else Redirect url
                       end)
    end.

Lemma hex_run_spec n s r : hex_run n s = Some r -> exists a, s = a +:+ r /\ String.length a = n /\ str_all is_hex a = true.
Proof.
  revert s. induction n as [|n IH]; intros s; [intros [= <-]; by exists ""|]. destruct s as [|c s]; [done|]. cbn.
  destruct (is_hex c) eqn:E; [|done]. intros (a & -> & Hl & Ha)%IH. exists (String c a). cbn. by rewrite Hl, E, Ha.
Qed.
Lemma expect_spec c0 s r : expect c0 s = Some r -> s = String c0 r.
Proof. destruct s as [|c s]; [done|]. cbn. destruct (Ascii.eqb_spec c c0) as [->|]; [|done]. by intros [= <-]. Qed.
Definition name_char (c : ascii) : bool := is_hex c || mem_str (String c "") ["-"; "."; "p"; "n"; "g"].
Lemma hex_name a : str_all is_hex a = true -> str_all name_char a = true.
Proof. apply SerpApi.str_all_impl. intros c Hc. unfold name_char. by rewrite Hc. Qed.
(** A name the redirect takes is the identifier and the extension, and nothing else. *)
Lemma chartNameRe_spec name : chartNameRe name = true -> str_all name_char name = true /\ String.length name = 40%nat.
Proof.
  unfold chartNameRe. intros H.
  destruct (hex_run 8 name) as [r|] eqn:E1; [|done]. cbn [mbind option_bind] in H.
  destruct (expect "-" r) as [r1|] eqn:F1; [|done]. cbn [mbind option_bind] in H.
  destruct (hex_run 4 r1) as [r2|] eqn:E2; [|done]. cbn [mbind option_bind] in H.
  destruct (expect "-" r2) as [r3|] eqn:F2; [|done]. cbn [mbind option_bind] in H.
  destruct (hex_run 4 r3) as [r4|] eqn:E3; [|done]. cbn [mbind option_bind] in H.
  destruct (expect "-" r4) as [r5|] eqn:F3; [|done]. cbn [mbind option_bind] in H.
  destruct (hex_run 4 r5) as [r6|] eqn:E4; [|done]. cbn [mbind option_bind] in H.
  destruct (expect "-" r6) as [r7|] eqn:F4; [|done]. cbn [mbind option_bind] in H.
  destruct (hex_run 12 r7) as [r8|] eqn:E5; [|done]. apply String.eqb_eq in H as ->.
  apply expect_spec in F1 as ->, F2 as ->, F3 as ->, F4 as ->.
  apply hex_run_spec in E1 as (a1 & -> & L1 & H1), E2 as (a2 & -> & L2 & H2), E3 as (a3 & -> & L3 & H3), E4 as (a4 & -> & L4 & H4), E5 as (a5 & -> & L5 & H5).
  apply hex_name in H1, H2, H3, H4, H5. split.
  - rewrite str_all_app, H1. cbn [str_all andb]. rewrite str_all_app, H2. cbn [str_all andb].
    rewrite str_all_app, H3. cbn [str_all andb]. rewrite str_all_app, H4. cbn [str_all andb].
    by rewrite str_all_app, H5.
  - rewrite str_length_app, L1. cbn [String.length]. rewrite str_length_app, L2. cbn [String.length].
    rewrite str_length_app, L3. cbn [String.length]. rewrite str_length_app, L4. cbn [String.length]. by rewrite str_length_app, L5.
Qed.
Lemma name_one_element name : chartNameRe name = true -> SerpApi.lacks "/" name.
Proof.
  intros [H _]%chartNameRe_spec. unfold SerpApi.lacks. eapply SerpApi.str_all_impl; [|exact H].
  intros c Hc. apply negb_true_iff, Ascii.eqb_neq. by intros ->.
Qed.
(** Whatever a browser asks for, the bucket is asked only about keys that are the chart
    prefix and one element of forty harmless characters, an address is signed only for an
    object that exists, and the browser is sent on only to an address signed for the key
    it named. *)
Theorem chart_key_safe p name :
  let '(asked, signed, r) := chartRedirectHandler p name in
  (forall key, key ∈ asked ++ signed -> key = "chart/" +:+ name /\ SerpApi.lacks "/" name /\ String.length name = 40%nat) /\
  (forall key, key ∈ signed -> ChartExists p key = Ok true) /\
  (forall url, r = Redirect url -> url <> "" /\ PresignChart p ("chart/" +:+ name) = Ok url /\ signed = ["chart/" +:+ name]).
Proof.
  unfold chartRedirectHandler. destruct (chartNameRe name) eqn:En; cbn [negb].
  2:{ split_and!; [by intros ? ?%elem_of_nil|by intros ? ?%elem_of_nil|done]. }
  pose proof (name_one_element _ En) as Hl. destruct (chartNameRe_spec _ En) as [_ Hn]. cbv zeta.
  assert (Hone : forall key, key ∈ ["chart/" +:+ name] -> key = "chart/" +:+ name /\ SerpApi.lacks "/" name /\ String.length name = 40%nat)
    by (by intros key ->%list_elem_of_singleton).
  destruct (ChartExists p ("chart/" +:+ name)) as [[|]|e] eqn:Ee.
  - split_and!.
    + intros key [H|H]%elem_of_app; by apply Hone.
    + by intros key ->%list_elem_of_singleton.
    + intros url. destruct (PresignChart p _) as [u|e]; [|done]. destruct (str_empty u) eqn:Eu; [done|]. intros [= <-].
      by apply str_empty_false in Eu.
  - split_and!; [intros key; rewrite app_nil_r; apply Hone|by intros ? ?%elem_of_nil|done].
  - split_and!; [intros key; rewrite app_nil_r; apply Hone|by intros ? ?%elem_of_nil|done].
Qed.

Lemma last_segment a b : SerpApi.lacks "/" b -> List.last (str_split "/" (a +:+ String "/" b)) "" = b.
Proof. intros Hb. rewrite Path.str_split_app, (SerpApi.str_split_one "/" b) by done. apply List.last_last. Qed.
Lemma Invoke_answer cfg post upload args posts ups v : QuickChart.Invoke cfg post upload args = (posts, ups, Answer v) ->
  exists png key url, ups = [png] /\ upload png = Ok (key, url) /\
    as_str (as_obj (Some v) !! "imageUrl") = QuickChart.chartImageURL (QuickChart.ChartURLPrefix cfg) key url.
Proof.
  unfold QuickChart.Invoke. destruct (QuickChart.dec_input args) as [i|]; [|done]. destruct (str_empty _); [done|].
  destruct (QuickChart.in_Data i) as [data|]; [|done]. destruct (QuickChart.ScanForPHI _ _) as [hit|]; [|done].
  destruct (negb _); [done|]. destruct (QuickChart.injectDefaultPalette data) as [data'| |]; [|done|done]. cbv zeta.
  destruct (post _ _) as [r|e]; [|done]. unfold QuickChart.rendered. destruct (negb _); [done|]. destruct (negb _); [done|].
  destruct (_ <? _); [done|]. destruct (_ <? _); [done|]. destruct (upload (QuickChart.Body r)) as [[key url]|e] eqn:Eu; [|done].
  intros [= <- <- <-]. exists (QuickChart.Body r), key, url. split_and!; [done|done|reflexivity].
Qed.
Section link.
Variable cfg : QuickChart.Config.
Variable post : string -> json -> res string QuickChart.response.
Variable put : S3Files.object -> option string.
Variable presign : string -> string -> res string string.
Variable u : S3Files.S3Uploader.
Variable id : string.
(** The uploader the chart tool is given: the service's bucket, with a fresh identifier. *)
Definition upload (png : string) : res string (string * string) :=
  match snd (S3Files.UploadChart put presign u id png) with Ok kv => Ok kv | Err _ => Err "upload failed" end.
(** The link a rendered chart is given, when short links are configured, leads the
    browser to the chart: its last element is a name the redirect takes, the key asked
    about is the one the image was written to, and while the object exists the browser is
    sent to its signed address. *)
Theorem chart_link_resolves p args posts ups v url :
  chartNameRe (id +:+ ".png") = true -> trim_space (QuickChart.ChartURLPrefix cfg) <> "" ->
  QuickChart.Invoke cfg post upload args = (posts, ups, Answer v) ->
  ChartExists p ("chart/" +:+ id +:+ ".png") = Ok true -> PresignChart p ("chart/" +:+ id +:+ ".png") = Ok url -> url <> "" ->
  exists link png, as_str (as_obj (Some v) !! "imageUrl") = link /\ ups = [png] /\
    let o := fst (S3Files.UploadChart put presign u id png) in
    S3Files.o_Body o = png /\ put o = None /\
    chartRedirectHandler p (List.last (str_split "/" link) "") = ([S3Files.o_Key o], [S3Files.o_Key o], Redirect url).
Proof using.
  intros Hid Hprefix Hinv Hex Hps Hurl. destruct (Invoke_answer _ _ _ _ _ _ _ Hinv) as (png & key & signed & -> & Hup & ->).
  eexists _, png. split; [reflexivity|]. split; [reflexivity|]. revert Hup. unfold upload, S3Files.UploadChart, S3Files.putAndPresign. cbn.
  destruct (put _) eqn:Ep; [done|]. destruct (presign _ _) as [s|]; [|done]. intros [= <- <-]. split_and!; [done|done|].
  unfold QuickChart.chartImageURL. apply str_empty_false in Hprefix. rewrite Hprefix.
  assert (Hlink : trim_right_of "/" (QuickChart.ChartURLPrefix cfg) +:+ "/" +:+ "chart/" +:+ id +:+ ".png" =
    (trim_right_of "/" (QuickChart.ChartURLPrefix cfg) +:+ "/chart") +:+ String "/" (id +:+ ".png")) by (by rewrite str_app_assoc).
  change (String "c" (String "h" (String "a" (String "r" (String "t" (String "/" (id +:+ ".png"))))))) with ("chart/" +:+ id +:+ ".png").
  rewrite Hlink, last_segment by (by apply name_one_element). unfold chartRedirectHandler. rewrite Hid. cbn [negb]. cbv zeta.
  rewrite Hex, Hps. apply str_empty_false in Hurl. by rewrite Hurl.
Qed.
End link.

Definition ex_cfg : QuickChart.Config :=
  QuickChart.mkConfig "https://quickchart.io" 600 400 "white" "png" 10 "surface-to-llm" "QuickChart" "draws charts" QuickChart.defaultPhiScrubFields "aichatviewer/".
Definition ex_image : string := String.concat "" (repeat "0123456789" 21).
Definition ex_post (_ : string) (_ : json) : res string QuickChart.response := Ok (QuickChart.mkResponse 200 "image/png" ex_image).
Definition ex_args : option json :=
  Some (jobj [("type", JStr "bar"); ("data", jobj [("labels", JArr [JStr "mon"]); ("datasets", JArr [jobj [("label", JStr "errors"); ("data", JArr [JNum 3])]])])]).
Definition ex_id : string := "123e4567-e89b-12d3-a456-426614174000".
Definition ex_uploader : S3Files.S3Uploader := S3Files.mkUploader "files" "us-east-1".
Definition ex_presigner : ChartPresigner := mkPresigner (fun _ => Ok true) (fun k => Ok ("https://s3/" +:+ k)).
Lemma chart_link_resolves_witness :
  exists posts v, QuickChart.Invoke ex_cfg ex_post (upload (fun _ => None) (fun _ k => Ok k) ex_uploader ex_id) ex_args = (posts, [ex_image], Answer v) /\
    as_str (as_obj (Some v) !! "imageUrl") = "aichatviewer/chart/123e4567-e89b-12d3-a456-426614174000.png" /\
    exists key, chartRedirectHandler ex_presigner (List.last (str_split "/" (as_str (as_obj (Some v) !! "imageUrl"))) "") =
      ([key], [key], Redirect "https://s3/chart/123e4567-e89b-12d3-a456-426614174000.png").
Proof.
  eexists _, _. split; [vm_compute; reflexivity|]. split; [vm_compute; reflexivity|].
  edestruct (chart_link_resolves ex_cfg ex_post (fun _ => None) (fun _ k => Ok k) ex_uploader ex_id ex_presigner ex_args) as (link & png & Hlink & _ & H);
    [vm_compute; reflexivity|vm_compute; discriminate|vm_compute; reflexivity|reflexivity|vm_compute; reflexivity|discriminate|].
  destruct H as (_ & _ & H). rewrite <- Hlink in H. eexists. exact H.
Defined.
Example names_ex :
  chartNameRe (ex_id +:+ ".png") = true /\ chartNameRe (ex_id +:+ ".png" +:+ String (ascii_of_nat 10) "") = false
  /\ chartNameRe "../uploads/x.png" = false /\ S3Files.sanitizeFilename "../my report (1).pdf" = "my_report_1_.pdf"
  /\ Upload.safeName "C:\docs\a.csv" = "a.csv" /\ Upload.mimeAllowed "image/png" ["image/*"] = true.
Proof. vm_compute. repeat split. Qed.
End Chart.

(** ** The routes *)
Module Mount.

Inductive handler :=
| IssueToken | ListWorkflows | PreUpgrade | StreamChat | RequireAccount | UploadRoute (c : Upload.UploadConfig) | LocalGetRoute | ChartRoute
| ServeUI.
Inductive verb := USE | GET | POST.
Record route := mkRoute { r_verb : verb; r_path : string; r_handler : handler }.
Inductive uploads := NoUploads | LocalUploads | OtherUploads.
Record Options := mkOptions {
  NATSChatPath : string;
  HasAuth : bool;
  Uploads : uploads;
  UploadCfg : option Upload.UploadConfig;
  Charts : option (res string unit);   (* whether building the presigner fails *)
  UI : bool;
  UIMountPath : string;
}.
Inductive mount_error := AuthRequired | PathRequired.
Definition core_routes : list route :=
  [mkRoute POST "/aichatviewer/token" IssueToken; mkRoute GET "/aichatviewer/workflows" ListWorkflows;
   mkRoute USE "/aichatviewer/stream" PreUpgrade; mkRoute GET "/aichatviewer/stream" StreamChat].
Definition upload_routes (o : Options) : list route :=
  let c := default Upload.defaultUploadConfig (UploadCfg o) in
  let upload := [mkRoute USE "/aichatviewer/upload" RequireAccount; mkRoute POST "/aichatviewer/upload" (UploadRoute c)] in
  match Uploads o with
  | NoUploads => []
  | OtherUploads => upload
  | LocalUploads =>
      upload ++ [mkRoute USE "/aichatviewer/upload-local/:id/:filename" RequireAccount; mkRoute GET "/aichatviewer/upload-local/:id/:filename" LocalGetRoute]
  end.
Definition chart_routes (o : Options) : list route :=
  match Charts o with
  | Some (Ok _) => [mkRoute USE "/aichatviewer/chart" RequireAccount; mkRoute GET "/aichatviewer/chart/:name" ChartRoute]
  | _ => []
  end.
Definition ui_routes (o : Options) : list route :=
  if UI o then [mkRoute USE (or_str (UIMountPath o) "/aichatviewer/ui") ServeUI] else [].
Definition Mount (o : Options) : res mount_error (list route) :=
  if negb (HasAuth o) then Err AuthRequired
  else if str_empty (NATSChatPath o) then Err PathRequired
  else Ok (core_routes ++ upload_routes o ++ chart_routes o ++ ui_routes o).

(** *** The account gate *)
Record Identity := mkIdentity { AccountID : string; UserID : string; UserName : string; TimeZone : string; SessionID : string }.
(** [GoFiberSessionAuth.Identify]: the host's account, the session, and the zone of the
    body when it is an object with one. *)
Definition Identify (resolve : res string (string * string * string)) (session : option string) (body : option json) : res string Identity :=
  match resolve with
  | Err e => Err e
  | Ok (account, user, name) =>
      Ok (mkIdentity account user name (default "" (m ← (v ← body; dec_struct (Some v)); str_field m "timeZone")) (default "" session))
  end.
Fixpoint idtPrefix (wire : string) : string :=
  match wire with
  | EmptyString => ""
  | String c s => if Ascii.eqb c "." then "" else String c (idtPrefix s)
  end.
(** [requireAccount]: refused, or passed on with the account and the user. *)
Definition requireAccount (id : res string Identity) : option (string * string) :=
  match id with
  | Ok i => if str_empty (AccountID i) then None else Some (AccountID i, UserID i)
  | Err _ => None
  end.

(** Routes that read or write files or charts, and those of them after a gate on their path. *)
Definition private (h : handler) : bool := match h with UploadRoute _ | LocalGetRoute | ChartRoute => true | _ => false end.
Fixpoint gated (before : list string) (l : list route) : bool :=
  match l with
  | [] => true
  | r :: l =>
      (negb (private (r_handler r)) || existsb (fun p => has_prefix p (r_path r)) before) &&
      gated (match r_handler r with RequireAccount => r_path r :: before | _ => before end) l
  end.
(** Every route to files or charts is registered after the account gate on its path, and
    behind the gate a handler sees the account of an identity that was resolved and is not
    empty, or is not reached at all. *)
Theorem files_behind_the_gate o routes : Mount o = Ok routes ->
  gated [] routes = true /\ HasAuth o = true /\
  forall id account user, requireAccount id = Some (account, user) -> account <> "" /\ exists i, id = Ok i /\ AccountID i = account /\ UserID i = user.
Proof.
  unfold Mount. destruct (HasAuth o); [|done]. destruct (str_empty (NATSChatPath o)); [done|]. intros [= <-]. split; [|split; [done|]].
  - unfold upload_routes, chart_routes, ui_routes. destruct (Uploads o), (Charts o) as [[]|], (UI o); vm_compute; reflexivity.
  - intros id account user. unfold requireAccount. destruct id as [i|]; [|done]. destruct (str_empty (AccountID i)) eqn:E; [done|].
    intros [= <- <-]. apply str_empty_false in E. eauto.
Qed.
Lemma files_behind_the_gate_witness :
  exists routes, Mount (mkOptions "chat" true LocalUploads None (Some (Ok tt)) true "") = Ok routes /\ gated [] routes = true /\ List.length routes = 11%nat.
Proof.
  eexists. split; [reflexivity|]. split; [|reflexivity].
  exact (proj1 (files_behind_the_gate (mkOptions "chat" true LocalUploads None (Some (Ok tt)) true "") _ eq_refl)).
Defined.
End Mount.

(** ** Examples *)
Module UploadsExamples.
Definition local : LocalStorage := mkLocal "/srv/up" "/aichatviewer/upload-local".
Definition at_noon : ambient := mkAmbient "7c9e" 100.
Definition form : Upload.formFile := Upload.mkFormFile 4 "image/png" "C:\pics\a b.png" (Ok "PNG!").
Definition cfg : Upload.UploadConfig := Upload.mkUploadConfig 10 ["image/*"].
Definition empty : Disk.fs := Disk.mkFs ∅ {[ [""]; [""; "srv"] ]}.
Definition type_of (_ : string) : string := "image/svg+xml".
Lemma upload_private_witness :
  exists s' r, Upload.UploadAttachment local cfg at_noon (Some "acct-1") (Some form) empty = (s', Upload.Stored r) /\
    r_URL r = "/aichatviewer/upload-local/7c9e/a b.png" /\
    exists ct, LocalGet.uploadLocalGet type_of local (Some "acct-1") "7c9e" "a b.png" s' = LocalGet.Served ct true "PNG!" /\ LocalGet.inert ct.
Proof.
  destruct (LocalGet.upload_private type_of local cfg at_noon "acct-1" form "PNG!" empty) as (s' & r & ct & H & Hf & _ & Hu & Hg & Hi & _).
  - discriminate.
  - by split_and!.
  - by split_and!.
  - by split_and!.
  - split; [intros q _; apply lookup_empty|]. apply (bool_decide_unpack _). vm_compute. reflexivity.
  - reflexivity.
  - right. vm_compute. discriminate.
  - reflexivity.
  - exists s', r. split; [exact H|]. rewrite Hu. rewrite Hf in *. split; [reflexivity|]. exists ct. split; [exact Hg|exact Hi].
Defined.
End UploadsExamples.
