(* ===== verification/Sessions.v ===== *)
(** * The browsers of one bridge process (webbridge: the handlers of bridge.go, nats_stream.go,
      auth_gofiber.go and models.go around the conversation of Bridge.v)

    - [Credentials]: the interface of the session library's credential registry, and the
      adapter over it;
    - [Connection]: the bus connection made once;
    - [Browsers]: the process: tokens handed out, sockets dialed, turns published and
      sockets closed, in any interleaving of any number of browsers;
    - [Reader]: the reader goroutine of one socket against the loop that serves it. *)

From S2P Require Import Prelude Json Tools Events Bridge Uploads.
From stdpp Require Import base tactics list strings gmap option relations.
From Stdlib Require Import ZArith Lia Ascii String.
Local Open Scope string_scope.
Local Open Scope list_scope.
Local Open Scope Z_scope.

(** ** The credential registry *)
Module Credentials.

Class Registry (R : Type) := {
  CaptureIDT : string -> string -> R -> R;     (* session, credential *)
  CurrentIDT : string -> R -> string;
  ForgetIDT : string -> R -> R;
}.
(** What the library documents: the latest credential captured for a session, none after it
    was forgotten; entries of other sessions may only age out. *)
Class RegistryOk (R : Type) `{Registry R} := {
  current_captured s i r : s <> "" -> i <> "" -> CurrentIDT s (CaptureIDT s i r) = i;
  capture_nothing s i r : s = "" \/ i = "" -> CaptureIDT s i r = r;
  capture_other s s' i r : s <> s' -> CurrentIDT s' (CaptureIDT s i r) = CurrentIDT s' r \/ CurrentIDT s' (CaptureIDT s i r) = "";
  current_forgotten s r : CurrentIDT s (ForgetIDT s r) = "";
  forget_other s s' r : s <> s' -> CurrentIDT s' (ForgetIDT s r) = CurrentIDT s' r;
}.

Section adapter.
Context {R : Type} `{RegistryOk R}.
(** [GoFiberSessionAuth]: the credential of a request's header, if any, is kept under its
    session; a turn takes the session's; the end of a socket drops it. *)
Definition WarmCredential (sessionID idt : string) (r : R) : R :=
  if str_empty sessionID then r else if str_empty idt then r else CaptureIDT sessionID idt r.
Definition OutboundMessage (sessionID : string) (r : R) : string := CurrentIDT sessionID r.
Definition Release (sessionID : string) (r : R) : R := ForgetIDT sessionID r.

(** No operation on one session gives another a credential. *)
Lemma warm_current s i r s' :
  OutboundMessage s' (WarmCredential s i r) = "" \/ OutboundMessage s' (WarmCredential s i r) = OutboundMessage s' r
  \/ (s' = s /\ s <> "" /\ OutboundMessage s' (WarmCredential s i r) = i).
Proof using Type*.
  unfold OutboundMessage, WarmCredential. destruct (str_empty s) eqn:Es; [auto|]. destruct (str_empty i) eqn:Ei; [auto|].
  apply str_empty_false in Es, Ei. destruct (decide (s' = s)) as [->|Hn]; [rewrite current_captured by done; auto|].
  destruct (capture_other s s' i r) as [->| ->]; auto.
Qed.
Lemma release_current s r s' :
  OutboundMessage s' (Release s r) = "" \/ OutboundMessage s' (Release s r) = OutboundMessage s' r.
Proof using Type*.
  unfold OutboundMessage, Release. destruct (decide (s' = s)) as [->|Hn]; [rewrite current_forgotten; auto|].
  rewrite forget_other by done. auto.
Qed.
End adapter.

(** A map is a registry. *)
#[export] Instance map_registry : Registry (gmap string string) := {|
  CaptureIDT s i m := if str_empty s || str_empty i then m else <[s := i]> m;
  CurrentIDT s m := default "" (m !! s);
  ForgetIDT s m := delete s m;
|}.
#[export] Instance map_registry_ok : RegistryOk (gmap string string).
Proof.
  split; cbn.
  - intros s i m Hs%str_empty_false Hi%str_empty_false. rewrite Hs, Hi. cbn. by rewrite lookup_insert_eq.
  - intros s i m [->| ->]; [done|by rewrite orb_true_r].
  - intros s s' i m Hn. destruct (_ || _); [auto|]. rewrite lookup_insert_ne by done. auto.
  - intros s m. by rewrite lookup_delete_eq.
  - intros s s' m Hn. by rewrite lookup_delete_ne.
Qed.
End Credentials.

(** ** nats_stream.go: [getNatsConn] *)
Module Connection.

Inductive conn_error := URLMissing | ConnectFailed (e : string).
(** The variables of [sync.Once]: what the one attempt gave. *)
Abbreviation once := (option (res conn_error unit)).
(** The options of the connection: the user's credentials when both are set, the name. *)
Record nats_options := mkNatsOptions { UserJWTAndSeed : option (string * string); Name : string }.
Definition natsConnName : string := "ai-agent-webbridge".
Definition setNatsConnName (name current : string) : string := if str_empty name then current else name.

Section conn.
Variable getenv : string -> string.
Variable name : string.
(** [nats.Connect], failing or not, at the moment it is called *)
Definition connect (Connect : string -> nats_options -> option string) : res conn_error unit :=
  let url := getenv "NATS_URL" in
  if str_empty url then Err URLMissing
  else
    let jwt := getenv "NATS_JWT" in
    let key := getenv "NATS_KEY" in
    let auth := if negb (str_empty jwt) && negb (str_empty key) then Some (jwt, key) else None in
    match Connect url (mkNatsOptions auth name) with Some e => Err (ConnectFailed e) | None => Ok tt end.
Definition getNatsConn (Connect : string -> nats_options -> option string) (st : once) : res conn_error unit * once :=
  let r := match st with Some r => r | None => connect Connect end in (r, Some r).

(** The calls of a process, each at a moment with its own answer of the bus. *)
Fixpoint conn_calls (bus : list (string -> nats_options -> option string)) (st : once) : list (res conn_error unit) :=
  match bus with
  | [] => []
  | Connect :: bus => let '(r, st) := getNatsConn Connect st in r :: conn_calls bus st
  end.
(** Every call of the process gives what the first gave: a connection is shared by all
    turns, and a first failure is final, whatever the bus would answer later. *)
Lemma conn_calls_first Connect bus :
  Forall (fun r => r = connect Connect) (conn_calls (Connect :: bus) None).
Proof using.
  cbn. constructor; [done|]. induction bus as [|c bus IH]; cbn; [constructor|]. by constructor.
Qed.
End conn.
End Connection.

(** ** The handlers, and the process they serve *)
Module Browsers.
Import Tokens Frames Pump Conversation Credentials Connection Mount.

Record reply := mkReply { status : Z; content : json }.
Definition unauthorized (code message : string) : reply :=
  mkReply 401 (jobj [("status", JNum 401); ("code", JStr code); ("message", JStr message)]).
Definition account_not_found : reply := unauthorized "error-account-not-found" "Account not found".
Definition bad_gateway (error : string) : reply := mkReply 502 (jobj [("error", JStr error)]).
(** The zone a body names, when it is an object with one. *)
Definition body_zone (body : option json) : string := default "" (m ← (v ← body; dec_struct (Some v)); str_field m "timeZone").
(** The caller of a request: refused, or known by an account. *)
Definition caller (id : res string Identity) : option Identity :=
  match id with Ok i => if str_empty (AccountID i) then None else Some i | Err _ => None end.
Definition entry (i : Identity) (body : option json) : tokenEntry :=
  mkToken (AccountID i) (UserID i) (UserName i) (body_zone body) (SessionID i).

Inductive upgrade := UpgradeRequired | Refused (r : reply) | Accepted (who : tokenEntry).
(** [preUpgrade] *)
Definition preUpgrade (websocket : bool) (token : string) (now : Z) (m : store) : upgrade * store :=
  if negb websocket then (UpgradeRequired, m)
  else match consumeToken token now m with
       | (None, m) => (Refused (unauthorized "invalid-token" "Invalid or expired token"), m)
       | (Some e, m) => (Accepted e, m)
       end.

(** A socket: upgraded, in a turn, or between turns; and the identity of its token. *)
Inductive phase := Dialed | Running (o : opening) | Waiting (o : opening).
Record sock := mkSock { who : tokenEntry; ph : phase }.
(** A message on the bus: the socket, the credential attached and the request. *)
Record published := mkPub { pb_sock : nat; pb_credential : string; pb_msg : outbound }.

Section browsers.
Context {R : Type} `{RegistryOk R}.
Variable natsBasePath : string.
Variable Authorize : string -> string -> string -> bool.
Variable getenv : string -> string.
Variable connName : string.

Record proc := mkProc {
  tokens : store;
  registry : R;
  conn : once;
  socks : gmap nat sock;
  out : list published;
  frames : list (nat * wsFrame);     (* error frames written by the handler itself *)
}.
Abbreviation bus := (string -> nats_options -> option string).

Inductive op :=
| PostToken (id : res string Identity) (idt : string) (body : option json) (token : string) (now sweep : Z)
| GetWorkflows (id : res string Identity) (Connect : bus) (answer : res string json)
| Upgrade (k : nat) (websocket : bool) (token : string) (now : Z)
| FirstMessage (k : nat) (raw : option json) (Connect : bus) (sent : bool)
| TurnEnds (k : nat) (session : string) (fatal : bool)
| NextMessage (k : nat) (f : ClientFrame) (Connect : bus) (sent : bool)
| Disconnect (k : nat).

Definition set_sock (k : nat) (s : sock) (p : proc) : proc :=
  mkProc (tokens p) (registry p) (conn p) (<[k := s]> (socks p)) (out p) (frames p).
Definition write_error (k : nat) (f : wsFrame) (p : proc) : proc :=
  mkProc (tokens p) (registry p) (conn p) (socks p) (out p) (frames p ++ [(k, f)]).
(** The end of [streamChat]: the session's credential is released. *)
Definition close_sock (k : nat) (s : sock) (p : proc) : proc :=
  mkProc (tokens p) (Release (sessionID (who s)) (registry p)) (conn p) (delete k (socks p)) (out p) (frames p).
(** [runOneTurn] up to the open stream; [sent]: the request could be published. *)
Definition open_turn (k : nat) (e : tokenEntry) (o : opening) (Connect : bus) (sent : bool) (p : proc) : proc :=
  let '(r, c) := getNatsConn getenv connName Connect (conn p) in
  let p := mkProc (tokens p) (registry p) c (socks p) (out p) (frames p) in
  match r, sent with
  | Ok _, true =>
      let m := mkPub k (OutboundMessage (sessionID e) (registry p)) (turn_request natsBasePath e o) in
      set_sock k (mkSock e (Running o)) (mkProc (tokens p) (registry p) (conn p) (socks p) (out p ++ [m]) (frames p))
  | _, _ => set_sock k (mkSock e (Waiting o)) (write_error k (wsErrorFrame "stream-open-failed" "Could not open AI stream") p)
  end.

Definition step (p : proc) (o : op) : proc * option reply :=
  match o with
  | PostToken id idt body token now sweep =>
      match caller id with
      | None => (p, Some account_not_found)
      | Some i =>
          (mkProc (issueToken token (entry i body) now sweep (tokens p)) (WarmCredential (SessionID i) idt (registry p))
             (conn p) (socks p) (out p) (frames p),
           Some (mkReply 200 (jobj [("token", JStr token)])))
      end
  | GetWorkflows id Connect answer =>
      match caller id with
      | None => (p, Some account_not_found)
      | Some _ =>
          let '(r, c) := getNatsConn getenv connName Connect (conn p) in
          (mkProc (tokens p) (registry p) c (socks p) (out p) (frames p),
           Some (match r, answer with
                 | Err _, _ => bad_gateway "nats unavailable"
                 | Ok _, Err _ => bad_gateway "workflow list unavailable"
                 | Ok _, Ok v => mkReply 200 v
                 end))
      end
  | Upgrade k websocket token now =>
      match socks p !! k with
      | Some _ => (p, None)
      | None =>
          let '(u, m) := preUpgrade websocket token now (tokens p) in
          let p := mkProc m (registry p) (conn p) (socks p) (out p) (frames p) in
          match u with
          | UpgradeRequired => (p, Some (mkReply 426 (JStr "Upgrade Required")))
          | Refused r => (p, Some r)
          | Accepted e => (set_sock k (mkSock e Dialed) p, None)
          end
      end
  | FirstMessage k raw Connect sent =>
      match socks p !! k with
      | Some (mkSock e Dialed as s) =>
          (match admission Authorize e raw with
           | Err f => close_sock k s (write_error k f p)
           | Ok o => open_turn k e o Connect sent p
           end, None)
      | _ => (p, None)
      end
  | TurnEnds k session fatal =>
      match socks p !! k with
      | Some (mkSock e (Running o) as s) =>
          (if fatal then close_sock k s p
           else set_sock k (mkSock e (Waiting (mkOpening (op_text o) (if str_empty session then op_session o else session)
                                                (op_workflow o) (op_index o) (op_tz o) (op_atts o)))) p, None)
      | _ => (p, None)
      end
  | NextMessage k f Connect sent =>
      match socks p !! k, f with
      | Some (mkSock e (Waiting o)), FrameUser d =>
          (open_turn k e (mkOpening (um_Text d) (op_session o) (op_workflow o) (op_index o)
                            (if str_empty (um_TimeZone d) then op_tz o else um_TimeZone d) (um_Attachments d)) Connect sent p, None)
      | _, _ => (p, None)
      end
  | Disconnect k =>
      match socks p !! k with Some s => (close_sock k s p, None) | None => (p, None) end
  end.
Definition start (r : R) : proc := mkProc ∅ r None ∅ [] [].
Definition run (r : R) (ops : list op) : proc := foldl (fun p o => (step p o).1) (start r) ops.

(** *** Properties *)

(** The entry of a token handed out to an authenticated caller. *)
Definition minted (ops : list op) (e : tokenEntry) : Prop :=
  exists i idt body token now sweep,
    PostToken (Ok i) idt body token now sweep ∈ ops /\ AccountID i <> "" /\ e = entry i body.
(** No credential, or one that came with a token request of the session. *)
Definition own_credential (ops : list op) (session c : string) : Prop :=
  c = "" \/ exists i body token now sweep, PostToken (Ok i) c body token now sweep ∈ ops /\ AccountID i <> "" /\ SessionID i = session.
Definition admitted (e : tokenEntry) (o : opening) : Prop :=
  op_workflow o <> "" /\ str_all workflow_char (op_workflow o) = true /\ Authorize (accountId e) (op_index o) (op_workflow o) = true.
Definition backed_message (ops : list op) (m : published) : Prop :=
  exists e o, minted ops e /\ admitted e o /\ pb_msg m = turn_request natsBasePath e o
  /\ own_credential ops (sessionID e) (pb_credential m).
Definition sock_ok (ops : list op) (s : sock) : Prop :=
  minted ops (who s) /\ match ph s with Dialed => True | Running o | Waiting o => admitted (who s) o end.

Record proc_ok (ops : list op) (p : proc) : Prop := {
  ok_tokens : forall t e x, tokens p !! t = Some (e, x) -> minted ops e;
  ok_registry : forall s, own_credential ops s (CurrentIDT s (registry p));
  ok_socks : forall k s, socks p !! k = Some s -> sock_ok ops s;
  ok_out : forall m, m ∈ out p -> backed_message ops m;
}.

Lemma minted_mono ops o e : minted ops e -> minted (ops ++ [o]) e.
Proof using. intros (i & idt & b & t & n & w & Hi & Hr). exists i, idt, b, t, n, w. split; [apply elem_of_app; by left|done]. Qed.
Lemma own_mono ops o s c : own_credential ops s c -> own_credential (ops ++ [o]) s c.
Proof using.
  intros [->|(i & b & t & n & w & Hi & Hr)]; [by left|right]. exists i, b, t, n, w. split; [apply elem_of_app; by left|done].
Qed.
Lemma proc_ok_mono ops o p : proc_ok ops p -> proc_ok (ops ++ [o]) p.
Proof using.
  intros [H1 H2 H3 H4]. split; [intros; eapply minted_mono, H1; eauto|intros; by apply own_mono| |].
  - intros k s Hs. destruct (H3 k s Hs) as [? ?]. split; [by apply minted_mono|done].
  - intros m Hm. destruct (H4 m Hm) as (e & o' & ? & ? & ? & ?). exists e, o'. split_and!; [by apply minted_mono|done|done|by apply own_mono].
Qed.

Lemma ok_set_sock ops k s p : proc_ok ops p -> sock_ok ops s -> proc_ok ops (set_sock k s p).
Proof using.
  intros [] Hs. split; cbn; try done. intros k' s' [[-> <-]|[_ ?]]%lookup_insert_Some; [done|eauto].
Qed.
Lemma ok_close ops k s p : proc_ok ops p -> proc_ok ops (close_sock k s p).
Proof using H0.
  intros [H1 H2 H3 H4]. split; cbn; try done.
  - intros s'. destruct (release_current (sessionID (who s)) (registry p) s') as [E|E]; unfold OutboundMessage in E; rewrite E; [by left|done].
  - intros k' s' [_ ?]%lookup_delete_Some. eauto.
Qed.
Lemma ok_open_turn ops k e o c sent p :
  proc_ok ops p -> minted ops e -> admitted e o -> proc_ok ops (open_turn k e o c sent p).
Proof using.
  intros Hp He Ho. unfold open_turn. destruct (getNatsConn _ _ _ _) as [r c'].
  assert (proc_ok ops (mkProc (tokens p) (registry p) c' (socks p) (out p) (frames p))) as [H1 H2 H3 H4] by (destruct Hp; by split).
  destruct r, sent; (apply ok_set_sock; [|by split]); split; try done.
  cbn. intros m [Hm| ->%list_elem_of_singleton]%elem_of_app; [by apply H4|]. exists e, o. by split_and!.
Qed.

Lemma ok_post ops p i idt body token now sweep :
  proc_ok ops p -> AccountID i <> "" -> PostToken (Ok i) idt body token now sweep ∈ ops ->
  proc_ok ops (mkProc (issueToken token (entry i body) now sweep (tokens p)) (WarmCredential (SessionID i) idt (registry p))
                 (conn p) (socks p) (out p) (frames p)).
Proof using H0.
  intros [H1 H2 H3 H4] Ha Hin. split; cbn; try done.
  - unfold issueToken. intros t e x [Hl _]%map_lookup_filter_Some. apply lookup_insert_Some in Hl as [[_ [= <- _]]|[_ Hl]]; [|eauto].
    unfold minted. eauto 10.
  - intros s. destruct (warm_current (SessionID i) idt (registry p) s) as [E|[E|(-> & _ & E)]]; unfold OutboundMessage in E; rewrite E;
      [by left|done|]. right. unfold own_credential. eauto 10.
Qed.

Lemma caller_some id i : caller id = Some i -> id = Ok i /\ AccountID i <> "".
Proof using. destruct id as [j|]; [|done]. cbn. destruct (str_empty (AccountID j)) eqn:E; [done|]. intros [= ->]. split; [done|by apply str_empty_false]. Qed.
Lemma ok_upgrade ops p token now e m :
  proc_ok ops p -> consumeToken token now (tokens p) = (e, m) ->
  proc_ok ops (mkProc m (registry p) (conn p) (socks p) (out p) (frames p)) /\ match e with Some e => minted ops e | None => True end.
Proof using.
  intros [H1 H2 H3 H4] Hc. unfold consumeToken in Hc. destruct (str_empty token); [injection Hc as <- <-; by split|].
  destruct (tokens p !! token) as [[e' x]|] eqn:El; [|injection Hc as <- <-; by split].
  assert (proc_ok ops (mkProc (delete token (tokens p)) (registry p) (conn p) (socks p) (out p) (frames p))) as Hp
    by (split; cbn; try done; intros t e0 x0 [_ ?]%lookup_delete_Some; eauto).
  destruct (x <? now); injection Hc as <- <-; split; eauto.
Qed.

Lemma step_ok ops p o : proc_ok ops p -> proc_ok (ops ++ [o]) (step p o).1.
Proof using H0.
  intros Hp%(proc_ok_mono _ o). destruct o as [id idt body token now sweep|id c answer|k ws token now|k raw c sent|k session fatal|k f c sent|k]; cbn [step].
  - destruct (caller id) as [i|] eqn:Ec; [|done]. apply caller_some in Ec as [-> Ha]. apply ok_post; [done|done|]. apply elem_of_app. right. by left.
  - destruct (caller id); [|done]. destruct (getNatsConn _ _ _ _). cbn. destruct Hp. by split.
  - destruct (socks p !! k); [done|]. unfold preUpgrade. destruct ws; [|destruct Hp; by split]. cbn [negb].
    destruct (consumeToken token now (tokens p)) as [e m] eqn:Ec. apply (ok_upgrade _ _ _ _ _ _ Hp) in Ec as [Hp' He].
    destruct e; [|done]. cbn. by apply ok_set_sock.
  - destruct (socks p !! k) as [[e [| |]]|] eqn:Es; try done. apply (ok_socks _ _ Hp) in Es as [He _].
    destruct (admission Authorize e raw) as [o1|f] eqn:Ea; cbn; [apply ok_open_turn; [done|done|by eapply admit_ok]|].
    apply ok_close. destruct Hp. by split.
  - destruct (socks p !! k) as [[e [|o1|]]|] eqn:Es; try done. apply (ok_socks _ _ Hp) in Es as [He Ho].
    destruct fatal; cbn; [by apply ok_close|by apply ok_set_sock].
  - destruct (socks p !! k) as [[e [| |o1]]|] eqn:Es; try done. apply (ok_socks _ _ Hp) in Es as [He Ho].
    destruct f; try done. cbn. by apply ok_open_turn.
  - destruct (socks p !! k); [by apply ok_close|done].
Qed.
Lemma run_ok r ops : (forall s, CurrentIDT s r = "") -> proc_ok ops (run r ops).
Proof using H0.
  intros Hr. unfold run. induction ops as [|o ops IH] using rev_ind; [|rewrite foldl_snoc; by apply step_ok].
  split; cbn; try (intros; by rewrite lookup_empty in *); [intros s; left; apply Hr|by intros m ?%elem_of_nil].
Qed.

(** *** Which token a socket was opened with *)

(** [e] is the entry a request for the token [t] was given, until [x]. *)
Definition minted_as (ops : list op) (t : string) (e : tokenEntry) (x : Z) : Prop :=
  exists i idt body now sweep,
    PostToken (Ok i) idt body t now sweep ∈ ops /\ AccountID i <> "" /\ e = entry i body /\ x = now + tokenTTL.
(** The socket [k] was opened as [e] with a token handed out before, in time, and has been
    open ever since. *)
Definition live (r : R) (ops : list op) (k : nat) (e : tokenEntry) : Prop :=
  exists pre token now mid x,
    ops = pre ++ Upgrade k true token now :: mid /\ socks (run r pre) !! k = None
    /\ minted_as pre token e x /\ now <= x
    /\ forall mid1 mid2, mid = mid1 ++ mid2 -> is_Some (socks (run r (pre ++ Upgrade k true token now :: mid1)) !! k).
Definition sent_by (r : R) (ops : list op) (m : published) : Prop :=
  exists ops1 o ops2 e o1, ops = ops1 ++ o :: ops2 /\ out (run r (ops1 ++ [o])) = out (run r ops1) ++ [m]
    /\ live r ops1 (pb_sock m) e /\ admitted e o1 /\ pb_msg m = turn_request natsBasePath e o1
    /\ own_credential ops1 (sessionID e) (pb_credential m).
Record traced (r : R) (ops : list op) : Prop := {
  tr_tokens : forall t e x, tokens (run r ops) !! t = Some (e, x) -> minted_as ops t e x;
  tr_socks : forall k s, socks (run r ops) !! k = Some s -> live r ops k (who s);
  tr_out : forall m, m ∈ out (run r ops) -> sent_by r ops m;
}.

Lemma run_snoc r ops o : run r (ops ++ [o]) = (step (run r ops) o).1.
Proof using. unfold run. by rewrite foldl_snoc. Qed.
Lemma open_turn_parts k e o c sent p : let p' := open_turn k e o c sent p in
  tokens p' = tokens p /\ (exists ph', socks p' = <[k := mkSock e ph']> (socks p))
  /\ (out p' = out p \/ out p' = out p ++ [mkPub k (OutboundMessage (sessionID e) (registry p)) (turn_request natsBasePath e o)]).
Proof using.
  unfold open_turn. destruct (getNatsConn _ _ _ _) as [r c']. destruct r, sent; cbn; (split; [done|split; [by eexists|auto]]).
Qed.

Lemma step_tokens p o t e x : tokens (step p o).1 !! t = Some (e, x) ->
  tokens p !! t = Some (e, x) \/ minted_as [o] t e x.
Proof using.
  destruct o as [id idt body token now sweep|id c answer|k ws token now|k raw c sent|k session fatal|k f c sent|k]; cbn [step].
  - destruct (caller id) as [i|] eqn:Ec; [|by left]. apply caller_some in Ec as [-> Ha]. cbn. unfold issueToken.
    intros [Hl _]%map_lookup_filter_Some. apply lookup_insert_Some in Hl as [[<- [= <- <-]]|[_ Hl]]; [|by left].
    right. exists i, idt, body, now, sweep. split_and!; [by left|done|done|done].
  - destruct (caller id); [|by left]. destruct (getNatsConn _ _ _ _). by left.
  - destruct (socks p !! k); [by left|]. unfold preUpgrade. destruct ws; [|by left]. cbn [negb].
    unfold consumeToken. destruct (str_empty token); [by left|]. destruct (tokens p !! token) as [[e' x']|] eqn:El; [|by left].
    destruct (x' <? now); cbn; intros [_ ?]%lookup_delete_Some; by left.
  - destruct (socks p !! k) as [[e' [| |]]|]; try by left. destruct (admission Authorize e' raw) as [o1|f]; cbn [fst]; [|by left].
    destruct (open_turn_parts k e' o1 c sent p) as (-> & _). by left.
  - destruct (socks p !! k) as [[e' [|o1|]]|]; try by left. destruct fatal; by left.
  - destruct (socks p !! k) as [[e' [| |o1]]|]; try by left. destruct f; try by left. cbn [fst].
    match goal with |- context [open_turn ?k ?e ?o ?c ?sent ?p] => destruct (open_turn_parts k e o c sent p) as (-> & _) end. by left.
  - destruct (socks p !! k); by left.
Qed.

(** A socket that is open after a step was open before, as the same entry, or has just
    been opened with a token that was in the store. *)
Lemma step_socks p o k s' : socks (step p o).1 !! k = Some s' ->
  (exists s, socks p !! k = Some s /\ who s = who s')
  \/ exists token now x, o = Upgrade k true token now /\ socks p !! k = None /\ tokens p !! token = Some (who s', x) /\ now <= x.
Proof using.
  assert (forall k0 s0 m, socks p !! k0 = Some s0 -> (forall s1, m = Some s1 -> who s1 = who s0) ->
    partial_alter (fun _ => m) k0 (socks p) !! k = Some s' -> exists s, socks p !! k = Some s /\ who s = who s') as Hset.
  { intros k0 s0 m H0' Hw. destruct (decide (k0 = k)) as [->|Hne].
    - rewrite lookup_partial_alter_eq. intros ->. exists s0. split; [done|]. symmetry. by apply Hw.
    - rewrite lookup_partial_alter_ne by done. intros ->. by exists s'. }
  assert (forall k0 e0 ph0 o1 c sent, socks p !! k0 = Some (mkSock e0 ph0) -> forall p1, socks p1 = socks p ->
    socks (open_turn k0 e0 o1 c sent p1) !! k = Some s' -> exists s, socks p !! k = Some s /\ who s = who s') as Hopen.
  { intros k0 e0 ph0 o1 c sent H0' p1 Hp1. destruct (open_turn_parts k0 e0 o1 c sent p1) as (_ & (ph' & ->) & _). rewrite Hp1.
    apply (Hset k0 (mkSock e0 ph0) (Some (mkSock e0 ph')) H0'). by intros s1 [= <-]. }
  assert (forall l : list nat, socks p !! k = Some s' -> exists s, socks p !! k = Some s /\ who s = who s') as Hsame by (intros _ ?; by exists s').
  destruct o as [id idt body token now sweep|id c answer|k0 ws token now|k0 raw c sent|k0 session fatal|k0 f c sent|k0]; cbn [step].
  - destruct (caller id); cbn; intros; left; by apply (Hsame []).
  - destruct (caller id); [|intros; left; by apply (Hsame [])]. destruct (getNatsConn _ _ _ _). cbn. intros; left; by apply (Hsame []).
  - destruct (socks p !! k0) eqn:Ek; [intros; left; by apply (Hsame [])|]. unfold preUpgrade. destruct ws; [|cbn; intros; left; by apply (Hsame [])].
    cbn [negb]. unfold consumeToken. destruct (str_empty token); [cbn; intros; left; by apply (Hsame [])|].
    destruct (tokens p !! token) as [[e x]|] eqn:El; [|cbn; intros; left; by apply (Hsame [])].
    destruct (Z.ltb_spec x now); cbn; [intros; left; by apply (Hsame [])|].
    intros [[-> <-]|[_ Hs]]%lookup_insert_Some; [|left; by apply (Hsame [])]. right. by exists token, now, x.
  - destruct (socks p !! k0) as [[e [| |]]|] eqn:Ek; try (cbn; intros; left; by apply (Hsame [])).
    destruct (admission Authorize e raw) as [o1|f]; cbn [fst]; intros Hs; left; [by eapply (Hopen k0 e Dialed)|].
    by apply (Hset k0 _ None Ek).
  - destruct (socks p !! k0) as [[e [|o1|]]|] eqn:Ek; try (cbn; intros; left; by apply (Hsame [])).
    destruct fatal; cbn; intros Hs; left; [by apply (Hset k0 _ None Ek)|].
    eapply (Hset k0 _ (Some _) Ek); [|exact Hs]. by intros s1 [= <-].
  - destruct (socks p !! k0) as [[e [| |o1]]|] eqn:Ek; try (cbn; intros; left; by apply (Hsame [])).
    destruct f; try (cbn; intros; left; by apply (Hsame [])). cbn [fst]. intros Hs. left. by eapply (Hopen k0 e (Waiting o1)).
  - destruct (socks p !! k0) eqn:Ek; cbn; intros Hs; left; [by apply (Hset k0 _ None Ek)|by apply (Hsame [])].
Qed.

(** What a step sends is sent by a socket that is open, as the entry it was opened as. *)
Lemma step_out ops p o : proc_ok ops p ->
  out (step p o).1 = out p
  \/ exists m s o1, out (step p o).1 = out p ++ [m] /\ socks p !! pb_sock m = Some s /\ admitted (who s) o1
       /\ pb_msg m = turn_request natsBasePath (who s) o1 /\ own_credential ops (sessionID (who s)) (pb_credential m).
Proof using.
  intros Hp. assert (forall k e ph0 o1 c sent, socks p !! k = Some (mkSock e ph0) -> admitted e o1 ->
    out (open_turn k e o1 c sent p) = out p
    \/ exists m s o2, out (open_turn k e o1 c sent p) = out p ++ [m] /\ socks p !! pb_sock m = Some s /\ admitted (who s) o2
       /\ pb_msg m = turn_request natsBasePath (who s) o2 /\ own_credential ops (sessionID (who s)) (pb_credential m)) as Hopen.
  { intros k e ph0 o1 c sent Hk Ha. destruct (open_turn_parts k e o1 c sent p) as (_ & _ & [E|E]); [by left|right].
    eexists _, _, o1. split; [exact E|]. split; [exact Hk|]. cbn [who pb_msg pb_credential]. split_and!; [done|done|]. apply (ok_registry _ _ Hp). }
  destruct o as [id idt body token now sweep|id c answer|k ws token now|k raw c sent|k session fatal|k f c sent|k]; cbn [step].
  - destruct (caller id); by left.
  - destruct (caller id); [|by left]. destruct (getNatsConn _ _ _ _). by left.
  - destruct (socks p !! k); [by left|]. destruct (preUpgrade _ _ _ _) as [[| |] m]; by left.
  - destruct (socks p !! k) as [[e [| |]]|] eqn:Es; try by left.
    destruct (admission Authorize e raw) as [o1|f] eqn:Ea; cbn [fst]; [|by left]. eapply Hopen; [done|by eapply admit_ok].
  - destruct (socks p !! k) as [[e [|o1|]]|]; try by left. destruct fatal; by left.
  - destruct (socks p !! k) as [[e [| |o1]]|] eqn:Es; try by left. destruct f; try by left. cbn [fst].
    apply (ok_socks _ _ Hp) in Es as Hs. destruct Hs as [_ Ho]. eapply Hopen; [done|]. exact Ho.
  - destruct (socks p !! k); by left.
Qed.

Lemma minted_as_more ops ops' t e x : ops ⊆ ops' -> minted_as ops t e x -> minted_as ops' t e x.
Proof using. intros Hs (i & idt & b & n & w & Hin & Hi). exists i, idt, b, n, w. split; [by apply Hs|done]. Qed.
Lemma live_step r ops o k e : live r ops k e -> is_Some (socks (run r (ops ++ [o])) !! k) -> live r (ops ++ [o]) k e.
Proof using.
  intros (pre & token & now & mid & x & -> & Hn & Hm & Hx & Hstay) Hs. exists pre, token, now, (mid ++ [o]), x.
  split; [by rewrite <- app_assoc|]. split_and!; [done|done|done|]. intros mid1 mid2 E.
  destruct mid2 as [|y mid2 _] using rev_ind.
  - rewrite app_nil_r in E. subst mid1. by rewrite <- app_assoc in Hs.
  - rewrite app_assoc in E. apply app_inj_tail in E as [E _]. by eapply Hstay.
Qed.

Lemma run_traced r ops : (forall s, CurrentIDT s r = "") -> traced r ops.
Proof using H0.
  intros Hr. induction ops as [|o ops [Ht Hs Ho]] using rev_ind.
  { split; cbn; try (intros; by rewrite lookup_empty in *). by intros m ?%elem_of_nil. }
  pose proof (run_ok r ops Hr) as Hok. split.
  - intros t e x. rewrite run_snoc. intros [Hx|Hx]%step_tokens.
    + eapply minted_as_more; [|by apply Ht]. intros y Hy. apply elem_of_app. by left.
    + eapply minted_as_more; [|exact Hx]. intros y Hy. apply elem_of_app. by right.
  - intros k s Hk. assert (is_Some (socks (run r (ops ++ [o])) !! k)) as Hsome by (rewrite Hk; by eexists).
    rewrite run_snoc in Hk. apply step_socks in Hk as [(s0 & Hk0 & <-)|(token & now & x & -> & Hnone & Htok & Hx)].
    + apply live_step; [by apply Hs|done].
    + exists ops, token, now, [], x. split_and!; [done|done|by apply Ht|done|]. intros mid1 mid2 E.
      symmetry in E. apply app_eq_nil in E as [-> ->]. done.
  - intros m. rewrite run_snoc. intros Hm. assert (m ∈ out (run r ops) -> sent_by r (ops ++ [o]) m) as Hold.
    { intros Hin. destruct (Ho m Hin) as (ops1 & o' & ops2 & e & o1 & -> & Hm'). exists ops1, o', (ops2 ++ [o]), e, o1.
      split; [|exact Hm']. by rewrite <- app_assoc. }
    destruct (step_out ops (run r ops) o Hok) as [E|(m' & s & o1 & E & Hk & Ha & Hmsg & Hown)]; rewrite E in Hm; [by apply Hold|].
    apply elem_of_app in Hm as [Hm| ->%list_elem_of_singleton]; [by apply Hold|].
    exists ops, o, [], (who s), o1. rewrite run_snoc. split_and!; [done|exact E|by apply Hs|done|done|done].
Qed.

(** C18: Whatever requests, sockets and frames come in whatever order: a message put on the bus
    was sent by a socket that was opened, and had been open since, with a token the host
    handed out no longer than its lifetime before; it carries the identity the host
    authenticated when that very token was asked for, goes to a workflow which its account
    was authorized for, and carries no credential or one that came with an earlier
    request of that very session; nothing the browser sends over the socket chooses any
    of these. *)
Theorem messages_backed r ops m :
  (forall s, CurrentIDT s r = "") -> m ∈ out (run r ops) ->
  exists pre token now mid o post i idt body now0 sweep,
  ops = (pre ++ Upgrade (pb_sock m) true token now :: mid) ++ o :: post
  /\ (let before := pre ++ Upgrade (pb_sock m) true token now :: mid in
     out (run r (before ++ [o])) = out (run r before) ++ [m] /\ own_credential before (SessionID i) (pb_credential m))
  /\ socks (run r pre) !! pb_sock m = None
  /\ (forall mid1 mid2, mid = mid1 ++ mid2 -> is_Some (socks (run r (pre ++ Upgrade (pb_sock m) true token now :: mid1)) !! pb_sock m))
  /\ PostToken (Ok i) idt body token now0 sweep ∈ pre /\ now <= now0 + tokenTTL /\ AccountID i <> ""
  /\ (exists wf index tz, wf <> "" /\ str_all workflow_char wf = true /\ Authorize (AccountID i) index wf = true
       /\ ob_subject (pb_msg m) = natsBasePath +:+ "." +:+ wf
       /\ ob_headers (pb_msg m) = [("X-Account-Id", AccountID i); ("X-User-Id", UserID i); ("X-User-Name", UserName i); ("X-Time-Zone", tz)]).
Proof using H0.
  intros Hr Hm. destruct (tr_out _ _ (run_traced r ops Hr) m Hm) as (ops1 & o & post & e & o1 & -> & Hout & Hlive & (Hw & Hc & Hau) & Hmsg & Hown).
  destruct Hlive as (pre & token & now & mid & x & -> & Hnone & (i & idt & body & now0 & sweep & Hin & Ha & -> & ->) & Hx & Hstay).
  exists pre, token, now, mid, o, post, i, idt, body, now0, sweep. split_and!; try done. rewrite Hmsg.
  by exists (op_workflow o1), (op_index o1), (op_tz o1).
Qed.

(** A turn takes the credential its session was last seen with. *)
Lemma turn_takes_latest p i idt body token now sweep k e o c :
  AccountID i <> "" -> SessionID i <> "" -> idt <> "" -> sessionID e = SessionID i ->
  (getNatsConn getenv connName c (conn p)).1 = Ok tt ->
  let p := (step p (PostToken (Ok i) idt body token now sweep)).1 in
  out (open_turn k e o c true p) = out p ++ [mkPub k idt (turn_request natsBasePath e o)].
Proof using H0.
  intros Ha Hs Hi He Hc. cbn [step]. unfold caller. rewrite (proj2 (str_empty_false _) Ha). cbn [fst].
  unfold open_turn. cbn [conn]. destruct (getNatsConn getenv connName c (conn p)) as [rc c']. cbn in Hc. subst rc.
  cbn. unfold OutboundMessage, WarmCredential. rewrite He, (proj2 (str_empty_false _) Hs), (proj2 (str_empty_false _) Hi).
  by rewrite current_captured.
Qed.
End browsers.
End Browsers.

(** ** The reader goroutine of [streamChat] and the loop it feeds *)
Module Reader.
Import Frames.

Inductive reader := Reading | Holding (f : ClientFrame) | Gone.      (* [Gone]: it has closed [closed] *)
Inductive server := InTurn | BetweenTurns | Returned.
Record state := mkState {
  rd : reader;
  srv : server;
  buffer : list ClientFrame;       (* clientFrames, capacity 4 *)
  was_read : list ClientFrame;     (* the frames of the socket that parsed *)
  handled : list ClientFrame;
}.
Definition init : state := mkState Reading InTurn [] [] [].
Definition capacity : nat := 4.

(** What the loop does next on a frame: in a turn ([pumpEvents]) a cancel ends it; between
    turns a user message begins one. *)
Definition on_frame (s : server) (f : ClientFrame) : server :=
  match s, f with
  | InTurn, FrameCancel => BetweenTurns
  | BetweenTurns, FrameUser _ => InTurn
  | _, _ => s
  end.

Inductive step : state -> state -> Prop :=
| read s b w h f : step (mkState Reading s b w h) (mkState (Holding f) s b (w ++ [f]) h)
| read_error s b w h : step (mkState Reading s b w h) (mkState Gone s b w h)
| send s b w h f :
    (List.length b < capacity)%nat -> step (mkState (Holding f) s b w h) (mkState Reading s (b ++ [f]) w h)
| take r s b w h f :
    s <> Returned -> step (mkState r s (f :: b) w h) (mkState r (on_frame s f) b w (h ++ [f]))
| turn_over r b w h : step (mkState r InTurn b w h) (mkState r BetweenTurns b w h)
| turn_fatal r b w h : step (mkState r InTurn b w h) (mkState r Returned b w h)
| closed_in_turn b w h : step (mkState Gone InTurn b w h) (mkState Gone BetweenTurns b w h)
| closed_between b w h : step (mkState Gone BetweenTurns b w h) (mkState Gone Returned b w h).
Definition reachable (s : state) : Prop := rtc step init s.

Definition held (r : reader) : list ClientFrame := match r with Holding f => [f] | _ => [] end.
Definition ok (s : state) : Prop :=
  was_read s = handled s ++ buffer s ++ held (rd s) /\ (List.length (buffer s) <= capacity)%nat.
Lemma reader_ok_step s s' : ok s -> step s s' -> ok s'.
Proof.
  intros [H1 H2] Hs. destruct Hs; unfold ok in *; cbn in *; subst; (split; [rewrite <- ?app_assoc; cbn; rewrite ?app_nil_r; done|]); try lia.
  rewrite length_app. cbn. unfold capacity in *. lia.
Qed.
Lemma reader_reachable_ok s : reachable s -> ok s.
Proof.
  intros H. assert (ok init) as H0 by (split; [done|cbn; unfold capacity; lia]). revert H0.
  induction H as [s|s s1 s2 Hs _ IH]; [done|]. intros H0. by eapply IH, reader_ok_step.
Qed.

(** With the loop running, both can always come to an end: a held frame is taken or
    buffered, the socket ends, and the loop sees that. *)
Definition ended (s : state) : Prop := rd s = Gone /\ srv s = Returned.
Lemma gone_ends s b w h : s <> Returned -> exists s', rtc step (mkState Gone s b w h) s' /\ ended s'.
Proof.
  intros Hs. exists (mkState Gone Returned b w h). split; [|done]. destruct s; [| |done].
  - eapply rtc_l; [apply closed_in_turn|]. eapply rtc_l; [apply closed_between|]. apply rtc_refl.
  - eapply rtc_l; [apply closed_between|]. apply rtc_refl.
Qed.
Lemma reading_ends s b w h : s <> Returned -> exists s', rtc step (mkState Reading s b w h) s' /\ ended s'.
Proof.
  intros Hs. destruct (gone_ends s b w h Hs) as (s' & Hr & He). exists s'. split; [|done]. eapply rtc_l; [apply read_error|done].
Qed.
Lemma on_frame_running s f : s <> Returned -> on_frame s f <> Returned.
Proof. by destruct s, f. Qed.
Lemma holding_ends f s b w h :
  (List.length b <= capacity)%nat -> s <> Returned -> exists s', rtc step (mkState (Holding f) s b w h) s' /\ ended s'.
Proof.
  intros Hb Hs. destruct b as [|f' b].
  - destruct (reading_ends s [f] w h Hs) as (s' & Hr & He). exists s'. split; [|done].
    eapply rtc_l; [apply send; cbn; unfold capacity; lia|done].
  - destruct (reading_ends (on_frame s f') (b ++ [f]) w (h ++ [f']) (on_frame_running s f' Hs)) as (s' & Hr & He). exists s'.
    split; [|done]. eapply rtc_l; [by apply take|]. eapply rtc_l; [apply send; cbn in Hb; lia|done].
Qed.

(** Under every interleaving of the reader and the loop no frame is lost or reordered on
    the way between them, and as long as the loop is running neither blocks the other: from
    every state both can end. *)
Theorem reader_in_order s : reachable s ->
  was_read s = handled s ++ buffer s ++ held (rd s) /\ (List.length (buffer s) <= capacity)%nat
  /\ (srv s <> Returned -> exists s', rtc step s s' /\ ended s').
Proof.
  intros [H1 H2]%reader_reachable_ok. split_and!; [done|done|]. destruct s as [[|f|] s b w h]; cbn in *;
    [apply reading_ends|by apply holding_ends|apply gone_ends].
Qed.

(** Once the loop has returned nobody takes frames any more: with a full buffer the reader
    is stuck at its send for good, for the channel it also waits on is closed by itself
    alone. *)
Lemma reader_can_leak : exists s, reachable s /\ srv s = Returned /\ rd s <> Gone /\ forall s', ~ step s s'.
Proof.
  set (fs := fun n => replicate n FrameCancel).
  assert (forall n, (n <= 4)%nat -> reachable (mkState Reading InTurn (fs n) (fs n) [])) as Hn.
  { induction n as [|n IH]; intros Hle; [apply rtc_refl|]. specialize (IH ltac:(lia)).
    eapply rtc_r; [eapply rtc_r; [exact IH|apply (read _ _ _ _ FrameCancel)]|].
    replace (fs (S n)) with (fs n ++ [FrameCancel]) by (unfold fs; by rewrite replicate_S_end).
    apply send. unfold fs. rewrite length_replicate. unfold capacity. lia. }
  exists (mkState (Holding FrameCancel) Returned (fs 4%nat) (fs 4%nat ++ [FrameCancel]) []). split_and!; [|done|done|].
  - eapply rtc_r; [eapply rtc_r; [apply (Hn 4%nat); lia|apply read]|]. apply turn_fatal.
  - intros s' Hs. inversion Hs; subst; [|done]. unfold capacity in *. cbn in *. lia.
Qed.

Lemma reader_in_order_witness :
  exists s', rtc step (mkState (Holding FrameCancel) InTurn [] [FrameCancel] []) s' /\ ended s'.
Proof.
  assert (reachable (mkState (Holding FrameCancel) InTurn [] [FrameCancel] [])) as H
    by (eapply rtc_l; [apply (read _ _ _ _ FrameCancel)|apply rtc_refl]).
  exact (proj2 (proj2 (reader_in_order _ H)) ltac:(discriminate)).
Defined.
End Reader.

(** ** Concrete browsers *)
Module SessionsExamples.
Import Tokens Frames Conversation Credentials Connection Mount Browsers.

Definition demo_id : Identity := mkIdentity "acc" "u1" "Ann" "" "sess".
Definition demo_env (n : string) : string := if String.eqb n "NATS_URL" then "nats://h" else "".
Definition up (_ : string) (_ : nats_options) : option string := None.
Definition down (_ : string) (_ : nats_options) : option string := Some "no servers".
Definition demo_first (wf : string) : option json :=
  Some (jobj [("event", JStr "user_message"); ("data", jobj [("text", JStr "hi"); ("workflowId", JStr wf); ("indexName", JStr "ix")])]).
Definition demo_user (text : string) : ClientFrame := FrameUser (mkUser text "" "" "" "" []).
Definition demo_run (ops : list op) : proc (R := gmap string string) :=
  Browsers.run "chat" (fun _ _ _ => true) demo_env natsConnName ∅ ops.
Definition open_tab (k : nat) (token : string) : list op :=
  [PostToken (Ok demo_id) "cred" None token 0 0; Upgrade k true token 1; FirstMessage k (demo_first "sales") up true; TurnEnds k "s1" false].
Definition credentials (p : proc (R := gmap string string)) : list (nat * string) := List.map (fun m => (pb_sock m, pb_credential m)) (out p).

Example tabs_ex :
  credentials (demo_run (open_tab 1 "a" ++ [NextMessage 1 (demo_user "more") up true])) = [(1%nat, "cred"); (1%nat, "cred")]
  /\ List.map (fun m => ob_session (pb_msg m)) (out (demo_run (open_tab 1 "a" ++ [NextMessage 1 (demo_user "more") up true]))) = [""; "s1"]
  /\ credentials (demo_run (open_tab 1 "a" ++ [Upgrade 2 true "a" 2; FirstMessage 2 (demo_first "sales") up true])) = [(1%nat, "cred")]
  /\ out (demo_run [PostToken (Err "no session") "cred" None "a" 0 0; Upgrade 1 true "a" 1; FirstMessage 1 (demo_first "sales") up true]) = [].
Proof. vm_compute. by split_and!. Qed.

(** Two tabs of one session: closing one takes the credential from the other, whose next
    turn goes out without it, though the session has not ended. *)
Lemma other_tab_loses_credential :
  credentials (demo_run (open_tab 1 "a" ++ open_tab 2 "b" ++ [Disconnect 1; NextMessage 2 (demo_user "more") up true]))
  = [(1%nat, "cred"); (2%nat, "cred"); (2%nat, "")].
Proof. vm_compute. reflexivity. Qed.

(** A bus that is down at the first turn is down for good. *)
Lemma late_bus_never_used :
  conn_calls demo_env natsConnName [down; up; up] None = [Err (ConnectFailed "no servers"); Err (ConnectFailed "no servers"); Err (ConnectFailed "no servers")].
Proof. vm_compute. reflexivity. Qed.

Lemma messages_backed_witness :
  let p := demo_run (open_tab 1 "a") in
  exists m, out p = [m] /\ pb_credential m = "cred"
    /\ exists i idt body token now0 sweep, PostToken (Ok i) idt body token now0 sweep ∈ open_tab 1 "a" /\ AccountID i <> "".
Proof.
  eexists. split; [vm_compute; reflexivity|]. split; [reflexivity|].
  edestruct (messages_backed (R := gmap string string) "chat" (fun _ _ _ => true) demo_env natsConnName ∅ (open_tab 1 "a"))
    as (pre & token & now & mid & o & post & i & idt & body & now0 & sweep & E & _ & _ & _ & Hin & _ & Ha & _);
    [intros s; cbn; by rewrite lookup_empty|vm_compute; left|].
  exists i, idt, body, token, now0, sweep. split; [|exact Ha]. rewrite E. apply elem_of_app. left. apply elem_of_app. by left.
Defined.
End SessionsExamples.
