(* ===== verification/Wiring.v ===== *)
(** * Starting the database tools (postgresquery/factory.go, mongoquery/factory.go and the
    [Init] and [Close] of their tool.go, mongoquery/adapter.go)

    - [Connections]: opening one resource per configured connection, and what is left
      open when one of them fails;
    - [PostgresNode], [MongoNode]: the configuration blocks, what is opened for a
      connection, [Invoke] on what was opened;
    - [Adapter]: the driver behind [MongoAPI].

    Parsing a connection string, opening a pool or a client, and the drivers are
    parameters. *)

From S2P Require Import Prelude Json Scan Retry Node Walk Queries Tools.
From stdpp Require Import base tactics list strings gmap option fin_maps.
From Stdlib Require Import ZArith Lia Ascii String.
Local Open Scope string_scope.
Local Open Scope list_scope.
Local Open Scope Z_scope.
Local Open Scope go_scope.

(** ** The loop over [cfg.Connections], shared by the two tools *)
Module Connections.
Section open.
Context {C R E : Type}.
Variable open : C -> res E R.

(** The fields [Init] fills: the resources by connection name, and all that were opened,
    in that order. *)
Record wired := mkWired { by_name : gmap string R; owned : list R }.

(** [Init]: one connection after the other, up to the first failure. *)
Fixpoint init_loop (t : wired) (conns : list (string * C)) : wired * option (string * E) :=
  match conns with
  | [] => (t, None)
  | (name, cc) :: conns =>
      match open cc with
      | Err e => (t, Some (name, e))
      | Ok r => init_loop (mkWired (<[name := r]> (by_name t)) (owned t ++ [r])) conns
      end
  end.
Definition init_all (conns : gmap string C) : wired * option (string * E) :=
  init_loop (mkWired ∅ []) (map_to_list conns).

Lemma init_loop_spec t l :
  NoDup l.*1 -> (forall name, name ∈ l.*1 -> by_name t !! name = None) ->
  let '(t', failure) := init_loop t l in
  match failure with
  | None =>
      (forall name r, by_name t' !! name = Some r <->
         by_name t !! name = Some r \/ exists cc, (name, cc) ∈ l /\ open cc = Ok r)
      /\ exists rs, owned t' = owned t ++ rs /\ Forall2 (fun kv r => open kv.2 = Ok r) l rs
  | Some (name, e) =>
      exists cc before rs, (name, cc) ∈ l /\ open cc = Err e
        /\ owned t' = owned t ++ rs /\ Forall2 (fun kv r => open kv.2 = Ok r) before rs
        /\ (forall kv, kv ∈ before -> kv ∈ l)
  end.
Proof.
  revert t. induction l as [|[name cc] l IH]; intros t Hnd Hfree; cbn [init_loop].
  { split; [intros name r; split; [by left|intros [?|(cc & []%elem_of_nil & _)]; done]|]. exists []. rewrite app_nil_r. by split. }
  apply NoDup_cons in Hnd as [Hnot Hnd]. destruct (open cc) as [r|e] eqn:Eo.
  2:{ exists cc, [], []. rewrite app_nil_r. split_and!; [by left|done|done|constructor|by intros ? ?%elem_of_nil]. }
  specialize (IH (mkWired (<[name := r]> (by_name t)) (owned t ++ [r])) Hnd).
  destruct (init_loop _ l) as [t' failure]. cbn [by_name owned] in IH.
  assert (forall n, n ∈ l.*1 -> <[name := r]> (by_name t) !! n = None) as Hf.
  { intros n Hn. rewrite lookup_insert_ne; [apply Hfree; by right|]. intros ->. done. }
  specialize (IH Hf). destruct failure as [[n e]|].
  - destruct IH as (cc' & before & rs & Hin & Ho & Hown & Hf2 & Hb).
    exists cc', ((name, cc) :: before), (r :: rs). rewrite Hown, <- app_assoc. split_and!; try done; [by right|by constructor|].
    intros kv [->|Hkv]%elem_of_cons; [by left|right; by apply Hb].
  - destruct IH as [Hmap (rs & Hown & Hf2)]. split.
    + intros n r'. rewrite Hmap. destruct (decide (n = name)) as [->|Hne].
      * rewrite lookup_insert_eq, (Hfree name) by (by left). split.
        -- intros [[= <-]|(cc' & Hin & Ho)]; right; [exists cc; by split; [left|]|exists cc'; by split; [right|]].
        -- intros [?|(cc' & [[= ->]|Hin]%elem_of_cons & Ho)]; [done|left; congruence|right; by exists cc'].
      * rewrite lookup_insert_ne by done. split; (intros [?|(cc' & Hin & Ho)]; [by left|right; exists cc'; split; [|done]]).
        -- by right.
        -- apply elem_of_cons in Hin as [[= -> ->]|Hin]; done.
    + exists (r :: rs). rewrite Hown, <- app_assoc. by split; [|constructor].
Qed.

(** A start that succeeds has opened every configured connection and nothing else, one
    resource each; one that fails names the connection it failed on. *)
Lemma init_all_spec conns :
  let '(t, failure) := init_all conns in
  match failure with
  | None =>
      (forall name r, by_name t !! name = Some r <-> exists cc, conns !! name = Some cc /\ open cc = Ok r)
      /\ (forall name, is_Some (by_name t !! name) <-> is_Some (conns !! name))
      /\ List.length (owned t) = size conns
  | Some (name, e) => exists cc, conns !! name = Some cc /\ open cc = Err e
  end.
Proof.
  unfold init_all. pose proof (init_loop_spec (mkWired ∅ []) (map_to_list conns) (NoDup_fst_map_to_list conns)) as H.
  specialize (H ltac:(intros; apply lookup_empty)). destruct (init_loop _ _) as [t failure]. destruct failure as [[n e]|].
  - destruct H as (cc & _ & _ & Hin & Ho & _). exists cc. by apply elem_of_map_to_list in Hin.
  - destruct H as [Hm (rs & Hown & Hf)]. cbn [by_name owned app] in *. rewrite Hown.
    assert (forall name r, by_name t !! name = Some r <-> exists cc, conns !! name = Some cc /\ open cc = Ok r) as Hm'.
    { intros name r. rewrite Hm, lookup_empty. split.
      - intros [?|(cc & Hin & Ho)]; [done|]. exists cc. by apply elem_of_map_to_list in Hin.
      - intros (cc & Hin & Ho). right. exists cc. by rewrite elem_of_map_to_list. }
    split_and!; [done| |by rewrite <- (Forall2_length _ _ _ Hf), length_map_to_list].
    intros name. split; intros [x Hx]; [apply Hm' in Hx as (cc & Hc & _); by eexists|].
    apply elem_of_map_to_list, list_elem_of_lookup in Hx as (i & Hi).
    destruct (Forall2_lookup_l _ _ _ _ _ Hf Hi) as (r & _ & Ho). exists r. apply Hm'. exists x. split; [|done].
    apply elem_of_map_to_list, list_elem_of_lookup. by exists i.
Qed.

(** [Close] closes all that was opened. *)
Definition Close (t : wired) : list R := owned t.
End open.
Arguments wired R : clear implicits.
End Connections.

(** ** postgresquery *)
Module PostgresNode.
Import Connections Queries.Postgres.

Record Config := mkConfig {
  Connections : gmap string ConnConfig;
  ToolName : string;
  ToolDescription : string;
  FailurePolicyValue : string;
}.
Inductive config_error := ConfigParse | DescriptionRequired.
Definition dec_conn (v : json) : option ConnConfig :=
  m ← dec_struct (Some v); host ← str_field m "host"; port ← str_field m "port"; db ← str_field m "database";
  user ← str_field m "user"; pw ← str_field m "passwordEnv"; n ← int_field m "maxRowsDefault";
  t ← int_field m "statementTimeoutMs"; ssl ← str_field m "sslMode"; Some (mkConn host port db user pw n t ssl).
Definition dec_config (v : json) : option Config :=
  m ← dec_struct (Some v); conns ← RabbitMQ.dec_map dec_conn (m !! "connections"); name ← str_field m "toolName";
  desc ← str_field m "toolDescription"; fp ← str_field m "failurePolicy"; Some (mkConfig conns name desc fp).
(** [Factory]; no configuration block at all is an empty one. *)
Definition Factory (raw : option json) : res config_error Config :=
  match (match raw with None => Some (mkConfig ∅ "" "" "") | Some v => dec_config v end) with
  | None => Err ConfigParse
  | Some c => if str_empty (ToolDescription c) then Err DescriptionRequired else Ok c
  end.

(** What a pool was opened with: the connection string, and the statement that every new
    connection runs first. *)
Record pool := mkPool { pool_dsn : string; AfterConnect : option string }.
Inductive init_error := SecretMissing (e : Env.env_error) | BadSSLMode (mode : string) | BadDSN (e : string) | PoolFailed (e : string).

Section node.
Variable env : Env.NodeEnv.
(** [pgxpool.ParseConfig] and [pgxpool.NewWithConfig] *)
Variable ParseConfig : string -> option string.
Variable NewWithConfig : pool -> option string.

Definition open_pool (cc : ConnConfig) : res init_error pool :=
  match Env.Secret env (PasswordEnv cc) with
  | Err e => Err (SecretMissing e)
  | Ok pw =>
      match buildDSN cc (Env.Reveal pw) with
      | Err mode => Err (BadSSLMode mode)
      | Ok dsn =>
          match ParseConfig dsn with
          | Some e => Err (BadDSN e)
          | None =>
              let p := mkPool dsn (if 0 <? StatementTimeoutMs cc
                                   then Some ("SET statement_timeout = " +:+ print_Z (StatementTimeoutMs cc)) else None) in
              match NewWithConfig p with Some e => Err (PoolFailed e) | None => Ok p end
          end
      end
  end.
Definition Init (cfg : Config) : wired pool * option (string * init_error) := init_all open_pool (Connections cfg).

(** [Invoke] on the pools that [Init] opened *)
Definition has_pool (t : wired pool) (name : string) : bool := bool_decide (is_Some (by_name t !! name)).
Definition run (cfg : Config) (t : wired pool) Query pg_code (args : json) : res error queryOutput :=
  Postgres.Invoke (Connections cfg) (has_pool t) Query pg_code args.

Definition no_pool : error := EPlain "connection has no pool wired in main.go".
Lemma Invoke_no_pool conns pools Query pg_code args :
  Postgres.Invoke conns pools Query pg_code args = Err no_pool -> exists name, is_Some (conns !! name) /\ pools name = false.
Proof using.
  unfold Postgres.Invoke. destruct (dec_input args) as [i|]; [|done]. destruct (isSelect _); [|done].
  destruct (conns !! qi_Database i) as [cc|] eqn:Ec; [|done]. destruct (pools (qi_Database i)) eqn:Ep; cbn [negb].
  - assert (forall e, classifyPgError pg_code e <> no_pool) as Hc.
    { intros e. unfold classifyPgError. repeat (case_match; try done). }
    destruct (Query _ _ _ _) as [c|e]; [|intros [= H]; by destruct (Hc e)].
    pose proof (read_rows_spec (max_rows cc) (cols c) (rows c) [] 0) as Hr.
    destruct (read_rows _ _ _ _ _) as [[[out n] tr]|e]; cbn [res_bind].
    + destruct (if tr then None else rows_err c) as [e|]; [intros [= H]; by destruct (Hc e)|done].
    + destruct Hr as (e' & -> & _). done.
  - intros _. exists (qi_Database i). by rewrite Ec.
Qed.

(** A Postgres tool that starts is wired: every configured connection has a pool whose
    connection string carries its own user, secret and TLS mode and whose sessions run
    under the configured statement timeout, nothing else is open, and no query can fail
    for want of a pool; a start that fails names a connection whose secret, TLS mode or
    pool is at fault. *)
Theorem postgres_wired cfg t failure :
  Init cfg = (t, failure) ->
  match failure with
  | Some (name, e) => exists cc, Connections cfg !! name = Some cc /\ open_pool cc = Err e
  | None =>
      (forall name p, by_name t !! name = Some p -> exists cc v dsn,
         Connections cfg !! name = Some cc /\ Env.env_lookup env (PasswordEnv cc) = Some v /\ v <> ""
         /\ buildDSN cc v = Ok dsn /\ pool_dsn p = dsn /\ userinfo_unescape (QueryEscape v) = Some (spaces_to_plus v)
         /\ (AfterConnect p = None <-> StatementTimeoutMs cc <= 0))
      /\ (forall name, is_Some (by_name t !! name) <-> is_Some (Connections cfg !! name))
      /\ List.length (Close t) = size (Connections cfg)
      /\ forall Query pg_code args, run cfg t Query pg_code args <> Err no_pool
  end.
Proof using.
  unfold Init. intros H. pose proof (init_all_spec open_pool (Connections cfg)) as Hs. rewrite H in Hs.
  destruct failure as [[name e]|]; [done|]. destruct Hs as (Hm & Hdom & Hlen).
  split_and!; [|done|done|].
  - intros name p Hp. apply Hm in Hp as (cc & Hc & Ho). unfold open_pool, Env.Secret in Ho.
    destruct (str_empty (PasswordEnv cc)); [done|]. destruct (Env.env_lookup env (PasswordEnv cc)) as [v|] eqn:Ev; [|done].
    destruct (str_empty v) eqn:Ee; [done|]. apply str_empty_false in Ee. cbn [Env.Reveal] in Ho.
    destruct (buildDSN cc v) as [dsn|] eqn:Ed; [|done]. destruct (ParseConfig dsn); [done|].
    destruct (NewWithConfig _); [done|]. injection Ho as <-. exists cc, v, dsn. cbn.
    split_and!; try done; [apply escaped_credentials|]. destruct (Z.ltb_spec 0 (StatementTimeoutMs cc)); split; (done || lia).
  - intros Query pg_code args Hr. apply Invoke_no_pool in Hr as (name & Hs & Hp). apply Hdom in Hs.
    unfold has_pool in Hp. by apply bool_decide_eq_false in Hp.
Qed.
End node.
End PostgresNode.

(** ** mongoquery/adapter.go *)
Module Adapter.
Import Queries.Mongo.

(** What [options.Find()] ends up carrying. *)
Record find_options := mkFind {
  SetProjection : option (gmap string json);
  SetSort : option (gmap string json);
  SetLimit : option Z;
}.
(** A driver's cursor: what decoding each of its documents gives, and the error it ends
    with. *)
Record cursor := mkCursor { decoded : list (res error doc); cursor_Err : option error }.

Section adapter.
Variable Collection_Find : string -> string -> gmap string doc -> find_options -> res error cursor.
Variable CountDocuments : string -> string -> gmap string doc -> res error Z.
Variable Collection_Aggregate : string -> string -> list (gmap string doc) -> res error cursor.

Definition non_empty (m : option (gmap string json)) : option (gmap string json) :=
  m ← m; if (0 <? size m)%nat then Some m else None.
(** The loop over the cursor. *)
Fixpoint read_docs (docs : list (res error doc)) (out : list doc) : res error (list doc) :=
  match docs with
  | [] => Ok out
  | Ok d :: docs => read_docs docs (out ++ [d])
  | Err e :: _ => Err e
  end.
Definition drain (c : res error cursor) : res error (option (list doc)) :=
  let! c := c in
  let! out := read_docs (decoded c) [] in
  match cursor_Err c with Some e => Err e | None => Ok (Some out) end.

Definition Find (db coll : string) (filter : gmap string doc) (projection sort : option (gmap string json)) (limit : Z)
    : res error (option (list doc)) :=
  drain (Collection_Find db coll filter
           (mkFind (non_empty projection) (non_empty sort) (if 0 <? limit then Some limit else None))).
Definition Count (db coll : string) (filter : gmap string doc) : res error Z := CountDocuments db coll filter.
Definition Aggregate (db coll : string) (pipeline : list (gmap string doc)) : res error (option (list doc)) :=
  drain (Collection_Aggregate db coll pipeline).

(** [MongoAPI] over the driver, the calls of [Mongo.Invoke]. *)
Definition api_docs (c : call) : res error (option (list doc)) :=
  match c with
  | CFind db coll filter projection sort limit => Find db coll filter projection sort limit
  | CAggregate db coll pipeline => Aggregate db coll pipeline
  | CCount _ _ _ => Err (EPlain "not a document call")
  end.
Definition api_count (c : call) : res error Z :=
  match c with CCount db coll filter => Count db coll filter | _ => Err (EPlain "not a count call") end.

Lemma read_docs_spec docs out l : read_docs docs out = Ok l <-> exists ds, docs = List.map Ok ds /\ l = out ++ ds.
Proof using.
  revert out. induction docs as [|[d|e] docs IH]; intros out; cbn [read_docs].
  - split; [intros [= <-]; exists []; by rewrite app_nil_r|]. intros (ds & H & ->). destruct ds; [by rewrite app_nil_r|done].
  - rewrite IH. split; intros (ds & H & ->); [exists (d :: ds); rewrite <- app_assoc; by rewrite H|].
    destruct ds as [|d' ds]; [done|]. injection H as -> ->. exists ds. by rewrite <- app_assoc.
  - split; [done|]. intros ([|d ds] & H & _); done.
Qed.

(** The adapter answers with every document of the cursor, in order, and only when all of
    them decoded and the cursor ended without an error; it never answers a partial list. *)
Lemma drain_spec c l : drain c = Ok l <-> exists ds, c = Ok (mkCursor (List.map Ok ds) None) /\ l = Some ds.
Proof using.
  unfold drain. destruct c as [[docs err]|e]; cbn [res_bind decoded cursor_Err]; [|split; [done|by intros (? & ? & _)]].
  destruct (read_docs docs []) as [out|e] eqn:E; cbn [res_bind].
  - apply read_docs_spec in E as (ds & -> & ->). cbn [app]. destruct err as [e|].
    + split; [done|]. by intros (ds' & [= _] & _).
    + split; [intros [= <-]; by exists ds|]. intros (ds' & [= H] & ->). do 2 f_equal. clear -H.
      revert ds' H. induction ds as [|d ds IH]; intros [|d' ds'] H; try done. cbn in H. injection H as -> H. f_equal. by apply IH.
  - split; [done|]. intros (ds & [= -> ->] & ->). specialize (proj2 (read_docs_spec (List.map Ok ds) [] ds)) as H. rewrite H in E; [done|by exists ds].
Qed.
End adapter.
End Adapter.

(** ** mongoquery *)
Module MongoNode.
Import Connections Queries.Mongo.

Record Config := mkConfig {
  Connections : gmap string ConnConfig;
  ToolName : string;
  ToolDescription : string;
  FailurePolicyValue : string;
}.
Inductive config_error := ConfigParse | DescriptionRequired.
Definition dec_conn (v : json) : option ConnConfig :=
  m ← dec_struct (Some v); uri ← str_field m "uriEnv"; dbs ← dec_list (fun x => dec_str (Some x)) (m !! "allowedDatabases");
  n ← int_field m "maxDocsDefault"; t ← int_field m "queryTimeoutMs"; Some (mkConn uri (default [] dbs) n t).
Definition dec_config (v : json) : option Config :=
  m ← dec_struct (Some v); conns ← RabbitMQ.dec_map dec_conn (m !! "connections"); name ← str_field m "toolName";
  desc ← str_field m "toolDescription"; fp ← str_field m "failurePolicy"; Some (mkConfig conns name desc fp).
(** [Factory]; no configuration block at all is an empty one. *)
Definition Factory (raw : option json) : res config_error Config :=
  match (match raw with None => Some (mkConfig ∅ "" "" "") | Some v => dec_config v end) with
  | None => Err ConfigParse
  | Some c => if str_empty (ToolDescription c) then Err DescriptionRequired else Ok c
  end.

Record client := mkClient { client_uri : string; client_default : string }.
Inductive init_error := SecretMissing (e : Env.env_error) | ConnectFailed (e : string).

Section node.
Variable env : Env.NodeEnv.
(** [mongo.Connect], and the path of a parsed URI *)
Variable Connect : string -> option string.
Variable path_of : string -> option string.

Definition open_client (cc : ConnConfig) : res init_error client :=
  match Env.Secret env (URIEnv cc) with
  | Err e => Err (SecretMissing e)
  | Ok uri =>
      match Connect (Env.Reveal uri) with
      | Some e => Err (ConnectFailed e)
      | None => Ok (mkClient (Env.Reveal uri) (uriDefaultDB path_of (Env.Reveal uri)))
      end
  end.
Definition Init (cfg : Config) : wired client * option (string * init_error) := init_all open_client (Connections cfg).

Definition has_client (t : wired client) (name : string) : bool := bool_decide (is_Some (by_name t !! name)).
Definition defaultDBs (t : wired client) : gmap string string := client_default <$> by_name t.

Section run.
Variable parse_time : string -> option Z.
Variable find : string -> Z -> call -> res error (option (list doc)).
Variable count : string -> Z -> call -> res error Z.
Variable IsTimeout : error -> bool.
(** [Invoke] on the clients that [Init] connected *)
Definition run (cfg : Config) (t : wired client) (args : json) : option call * res error output :=
  Mongo.Invoke parse_time (Connections cfg) (defaultDBs t) (has_client t) find count IsTimeout args.

Lemma Invoke_database conns dbs clients args c r :
  Mongo.Invoke parse_time conns dbs clients find count IsTimeout args = (Some c, r) ->
  exists i cc, dec_input args = Some i /\ conns !! mi_Connection i = Some cc /\ call_db c <> ""
    /\ match AllowedDatabases cc with [] => dbs !! mi_Connection i = Some (call_db c) | l => call_db c ∈ l end.
Proof using.
  unfold Mongo.Invoke. destruct (prepare _ _ _ _ _) as [[[[[[i db] filter] pipeline] limit] timeout]|] eqn:Ep; [|done].
  intros Hd. apply prepared in Ep as (Hi & _ & (cc & Hcc & Hdb & _ & _) & _). exists i, cc. apply database_ok in Hdb as [Hne Hdb].
  assert (call_db c = db) as ->; [|done].
  unfold dispatch in Hd. destruct (String.eqb (mi_Op i) "find"), (String.eqb (mi_Op i) "count"); by injection Hd as <- _.
Qed.

(** A Mongo tool that starts reads the right databases: every configured connection has a
    client on the address its own secret holds, and a query on a connection without a
    list of allowed databases reads the database which that address names, and no
    other; a query on one with a list reads a database of the list. *)
Theorem mongo_wired cfg t failure :
  Init cfg = (t, failure) ->
  match failure with
  | Some (name, e) => exists cc, Connections cfg !! name = Some cc /\ open_client cc = Err e
  | None =>
      (forall name, is_Some (by_name t !! name) <-> is_Some (Connections cfg !! name))
      /\ List.length (Close t) = size (Connections cfg)
      /\ forall args c r, run cfg t args = (Some c, r) -> exists i cc uri,
           dec_input args = Some i /\ Connections cfg !! mi_Connection i = Some cc
           /\ Env.env_lookup env (URIEnv cc) = Some uri /\ Connect uri = None
           /\ by_name t !! mi_Connection i = Some (mkClient uri (uriDefaultDB path_of uri))
           /\ call_db c <> ""
           /\ match AllowedDatabases cc with [] => call_db c = uriDefaultDB path_of uri | l => call_db c ∈ l end
  end.
Proof using.
  unfold Init. intros H. pose proof (init_all_spec open_client (Connections cfg)) as Hs. rewrite H in Hs.
  destruct failure as [[name e]|]; [done|]. destruct Hs as (Hm & Hdom & Hlen). split_and!; [done|done|].
  intros args c r Hr. apply Invoke_database in Hr as (i & cc & Hi & Hcc & Hne & Hdb).
  destruct (proj2 (Hdom (mi_Connection i)) ltac:(by eexists)) as [p Hp].
  pose proof (proj1 (Hm _ _) Hp) as (cc' & Hcc' & Ho). replace cc' with cc in * by congruence.
  unfold open_client, Env.Secret in Ho. destruct (str_empty (URIEnv cc)); [done|].
  destruct (Env.env_lookup env (URIEnv cc)) as [uri|] eqn:Eu; [|done]. destruct (str_empty uri); [done|]. cbn [Env.Reveal] in Ho.
  destruct (Connect uri) eqn:Ec; [done|]. injection Ho as <-. exists i, cc, uri. split_and!; try done.
  destruct (AllowedDatabases cc); [|done]. unfold defaultDBs in Hdb. rewrite lookup_fmap, Hp in Hdb. cbn in Hdb. congruence.
Qed.
End run.
End node.
End MongoNode.

Module WiringExamples.
Import Connections.

Definition env_of (lookup : string -> option string) : Env.NodeEnv := Env.newNodeEnv "wf" "db" ∅ lookup None.
Definition lookup (name : string) : option string :=
  if String.eqb name "PW" then Some "a/b@c" else if String.eqb name "MONGO" then Some "mongodb://h/claims" else None.
Definition accept {A} (_ : A) : option string := None.
Definition pg_json (mode : string) : json :=
  jobj [("toolDescription", JStr "reads claims");
        ("connections", jobj [("prod", jobj [("host", JStr "db"); ("database", JStr "claims"); ("user", JStr "ro");
           ("passwordEnv", JStr "PW"); ("statementTimeoutMs", JNum 1500); ("sslMode", JStr mode)])])].
Definition pg_cfg (mode : string) : PostgresNode.Config :=
  match PostgresNode.Factory (Some (pg_json mode)) with Ok c => c | Err _ => PostgresNode.mkConfig ∅ "" "" "" end.
Definition pg_init (mode : string) := PostgresNode.Init (env_of lookup) accept accept (pg_cfg mode).

Example pg_init_ex :
  by_name (pg_init "require").1 !! "prod" =
    Some (PostgresNode.mkPool "postgres://ro:a%2Fb%40c@db:5433/claims?sslmode=require" (Some "SET statement_timeout = 1500"))
  /\ (pg_init "none").2 = Some ("prod", PostgresNode.BadSSLMode "none").
Proof. vm_compute. by split. Qed.

Lemma postgres_wired_witness :
  (pg_init "require").2 = None
  /\ List.length (Close (pg_init "require").1) = 1%nat
  /\ is_Some (by_name (pg_init "require").1 !! "prod").
Proof.
  split; [vm_compute; reflexivity|].
  destruct (PostgresNode.postgres_wired (env_of lookup) accept accept (pg_cfg "require") (pg_init "require").1 None eq_refl)
    as (_ & Hdom & Hlen & _).
  split; [rewrite Hlen; vm_compute; reflexivity|]. apply Hdom. vm_compute. eexists. reflexivity.
Defined.

Definition mongo_json : json :=
  jobj [("toolDescription", JStr "reads claims"); ("connections", jobj [("prod", jobj [("uriEnv", JStr "MONGO")])])].
Definition mongo_cfg : MongoNode.Config :=
  match MongoNode.Factory (Some mongo_json) with Ok c => c | Err _ => MongoNode.mkConfig ∅ "" "" "" end.
Definition demo_path (uri : string) : option string := Some "/claims".
Definition mongo_init := MongoNode.Init (env_of lookup) accept demo_path mongo_cfg.
Definition one_doc (_ _ : string) (_ : gmap string Queries.Mongo.doc) (_ : Adapter.find_options) : res error Adapter.cursor :=
  Ok (Adapter.mkCursor [Ok (Queries.Mongo.DObj ∅)] None).
Definition one_aggregate (_ _ : string) (_ : list (gmap string Queries.Mongo.doc)) : res error Adapter.cursor := Ok (Adapter.mkCursor [] None).
Definition mongo_run (args : json) :=
  MongoNode.run (fun _ => None) (fun _ _ => Adapter.api_docs one_doc one_aggregate) (fun _ _ => Adapter.api_count (fun _ _ _ => Ok 1))
    (fun _ => false) mongo_cfg mongo_init.1 args.
Definition mongo_args : json := jobj [("connection", JStr "prod"); ("collection", JStr "c"); ("op", JStr "find")].
Definition mongo_call : Queries.Mongo.call := Queries.Mongo.CFind "claims" "c" ∅ None None 101.

Lemma mongo_wired_witness :
  mongo_run mongo_args = (Some mongo_call, Ok (Queries.Mongo.Docs "find" [Queries.Mongo.DObj ∅] false))
  /\ exists uri, lookup "MONGO" = Some uri /\ Queries.Mongo.call_db mongo_call = Queries.Mongo.uriDefaultDB demo_path uri.
Proof.
  split; [vm_compute; reflexivity|].
  destruct (MongoNode.mongo_wired (env_of lookup) accept demo_path (fun _ => None)
    (fun _ _ => Adapter.api_docs one_doc one_aggregate) (fun _ _ => Adapter.api_count (fun _ _ _ => Ok 1)) (fun _ => false)
    mongo_cfg mongo_init.1 None eq_refl) as (_ & _ & H).
  destruct (H mongo_args mongo_call (Ok (Queries.Mongo.Docs "find" [Queries.Mongo.DObj ∅] false)) ltac:(vm_compute; reflexivity))
    as (i & cc & uri & Hi & Hcc & Hu & _ & _ & _ & Hdb).
  vm_compute in Hi. injection Hi as <-. vm_compute in Hcc. injection Hcc as <-. exists uri. split; [exact Hu|exact Hdb].
Defined.
End WiringExamples.
