(* ===== verification/Specs.v ===== *)
(** * What the model is offered (the [ToolSpec] methods of the server-side tools)

    One definition per tool: the name, the description and the input schema that the
    agent passes to the model; the tools a browser answers have theirs in Tools.v.
    Then: every schema is well formed, names the arguments it requires, and documents
    every argument that the tool reads. *)

From S2P Require Import Prelude Json Scan Retry Agent Search Queries Fetch Tools Wiring.
From stdpp Require Import base tactics list strings gmap option fin_maps.
From Stdlib Require Import ZArith Lia Ascii String.
Local Open Scope string_scope.
Local Open Scope list_scope.
Local Open Scope Z_scope.
Import ClientUI.

Module ToolSpecs.

Record ToolSpec := mkToolSpec { Name : string; Description : string; InputSchema : json }.

Definition closed (required : list string) (props : list (string * json)) : json :=
  typed "object" [("required", strs required); ("additionalProperties", JBool false); ("properties", jobj props)].
Definition obj : json := typed "object" [].
Definition quoted (s : string) : string := dquote +:+ s +:+ dquote.

(** ** opensearch/factory.go *)
Definition opensearch (cfg : Search.Tool.Config) : ToolSpec :=
  mkToolSpec (Search.Tool.ToolName cfg) (Search.Tool.ToolDescription cfg)
    (closed ["indexPath"; "queryBody"]
      [("indexPath", described "string"
          ("Comma-separated index list, e.g. " +:+ quoted "prod.cpe-2026-04-30,prod.cpe-2026-04-29"
           +:+ ". Must be in the user's allowed-index set; the server will reject otherwise.") []);
       ("queryBody", described "object"
          ("OpenSearch bool clause WITHOUT a top-level wrapping. Use must/must_not/filter as needed. "
           +:+ "The server wraps your clause in a top-level bool, injects security constraints into must, and adds size/sort/aggs. "
           +:+ "Do NOT include size, _source, sort, aggregations, or top-level should-only constructs. "
           +:+ "Terms lookups (index/id/path) and more_like_this with a document are rejected: use a terms list of values or plain text.")
          [("properties", jobj [("must", typed "array" []); ("must_not", typed "array" []); ("filter", typed "array" [])]);
           ("additionalProperties", JBool false)]);
       ("size", typed "integer" [("minimum", JNum 0); ("maximum", JNum 10000)]);
       ("aggregations", described "object"
          ("Named OpenSearch aggregations, computed over your query's results, which always include the server's security scope. "
           +:+ "Allowed types: terms, multi_terms, rare_terms, date_histogram, auto_date_histogram, histogram, range, date_range, filter, "
           +:+ "filters, missing, composite, nested, avg, sum, min, max, stats, extended_stats, value_count, cardinality, percentiles, "
           +:+ "percentile_ranks, median_absolute_deviation, weighted_avg, top_hits, and bucket pipelines. "
           +:+ "global, significant_terms, significant_text, samplers and scripted_metric are rejected. "
           +:+ "Never try to widen or bypass the security scope.") []);
       ("sort", typed "array" [])]).

(** ** serpapi/factory.go *)
Definition serpapi (cfg : SerpApi.Config) : ToolSpec :=
  mkToolSpec (SerpApi.ToolName cfg) (SerpApi.ToolDescription cfg)
    (closed ["query"]
      [("query", typed "string" [("minLength", JNum 1); ("maxLength", JNum 500)]);
       ("num", typed "integer" [("minimum", JNum 1); ("maximum", JNum 10)]);
       ("hl", typed "string" []); ("gl", typed "string" [])]).

(** ** quickchart/factory.go *)
Definition quickchart (cfg : QuickChart.Config) : ToolSpec :=
  mkToolSpec (QuickChart.ToolName cfg) (QuickChart.ToolDescription cfg)
    (closed ["type"; "data"]
      [("type", jobj [("enum", strs ["bar"; "line"; "pie"; "doughnut"; "scatter"; "horizontalBar"])]);
       ("data", obj); ("options", obj)]).

(** ** webfetch/tool.go; the fallback description is for a node built without [Factory] *)
Definition web_fetch (cfg : Fetch.Tool.Config) : ToolSpec :=
  mkToolSpec (Fetch.Tool.tool_name cfg)
    (or_str (Fetch.Tool.ToolDescription cfg)
       "Fetch a known HTTPS URL and return its body stripped to plain text. Use after web_search to read a discovered page.")
    (object_of ["url"]
      [("url", described "string" "HTTPS URL to fetch" []);
       ("maxBytes", described "integer" "Override the default max-bytes cap for this call" [])]).

(** ** rabbitmqmanagement/tool.go *)
Definition rabbitmq (cfg : RabbitMQ.Config) : ToolSpec :=
  mkToolSpec (or_str (RabbitMQ.ToolName cfg) "rabbitmq_inspect")
    (or_str (RabbitMQ.ToolDescription cfg)
       ("Read-only RabbitMQ Management API. Primary exchanges in the batch processing cluster follow X12BatchProcessing.<Event> "
        +:+ "and routing keys follow {BATCH_TYPE}.{CONTENT_TYPE}.{SENDER}. "
        +:+ "Use this for queue-depth, DLQ-count, and exchange-binding questions."))
    (object_of ["connection"; "op"]
      [("connection", typed "string" []);
       ("op", typed "string" [("enum", strs ["overview"; "list_queues"; "queue_stats"; "list_exchanges"; "list_bindings";
                                             "list_consumers"; "list_connections"; "list_channels"; "dlq_summary"])]);
       ("args", obj)]).

(** ** postgresquery/tool.go *)
Definition postgres (cfg : PostgresNode.Config) : ToolSpec :=
  mkToolSpec (or_str (PostgresNode.ToolName cfg) "postgres_query") (PostgresNode.ToolDescription cfg)
    (object_of ["database"; "sql"]
      [("database", described "string" "Connection name (e.g. 'clearinghouse' or 'prod')." []);
       ("sql", described "string" "SELECT statement; placeholders use $1, $2, etc." []);
       ("params", described "array" "Positional parameters for the SQL placeholders." [("items", jobj [])])]).

(** ** mongoquery/tool.go *)
Definition mongo (cfg : MongoNode.Config) : ToolSpec :=
  mkToolSpec (or_str (MongoNode.ToolName cfg) "mongo_query") (MongoNode.ToolDescription cfg)
    (object_of ["connection"; "collection"; "op"]
      [("connection", typed "string" []);
       ("database", described "string" "Optional; defaults to the connection's own database. Omit unless the connection explicitly allows others." []);
       ("collection", typed "string" []);
       ("op", typed "string" [("enum", strs ["find"; "aggregate"; "count"])]);
       ("filter", obj); ("projection", obj); ("sort", obj); ("limit", typed "integer" []);
       ("pipeline", typed "array" [("items", obj)])]).

(** [FailurePolicy] of the tools that default it when asked *)
Definition FailurePolicy (configured : string) : string := or_str configured "surface-to-llm".

(** ** Well-formed schemas *)

(** As [ClientUI.wf_schema], but a schema may leave out its type and the items of its
    arrays, and its numeric bounds can be met. *)
Definition bounds_ok (m : gmap string json) (lo hi : string) : bool := number (m !! lo) 0 <=? number (m !! hi) (2 ^ 63 - 1).
Fixpoint wf (depth : nat) (v : json) : bool :=
  match depth, v with
  | S depth, JObj m =>
      match m !! "type" with
      | None => true
      | Some (JStr t) => mem_str t ["object"; "array"; "string"; "integer"; "number"; "boolean"]
      | _ => false
      end
      && match texts (m !! "required"), m !! "properties" with
         | Some req, Some (JObj ps) =>
             forallb (fun k => bool_decide (is_Some (ps !! k))) req && forallb (fun kv => wf depth kv.2) (map_to_list ps)
         | Some [], None => true
         | _, _ => false
         end
      && match m !! "items" with Some it => wf depth it | None => true end
      && bounds_ok m "minimum" "maximum" && bounds_ok m "minLength" "maxLength"
      && match texts (m !! "enum") with
         | Some [] => match m !! "enum" with None => true | Some _ => false end
         | Some _ => true
         | None => false
         end
  | _, _ => false
  end.
(** The arguments a schema documents. *)
Definition documented (schema : json) : list string := (map_to_list (as_obj (as_obj (Some schema) !! "properties"))).*1.

(** A computation on the arguments that looks at no key but the given ones. *)
Definition reads_only {A} (keys : list string) (f : json -> A) : Prop :=
  forall m m' : gmap string json, (forall k, k ∈ keys -> m !! k = m' !! k) -> f (JObj m) = f (JObj m').

Lemma reads_only_mono {A} keys keys' (f : json -> A) :
  reads_only keys f -> forallb (fun k => mem_str k keys') keys = true -> reads_only keys' f.
Proof.
  intros H Hs m m' Heq. apply H. intros k Hk. apply Heq. rewrite forallb_forall in Hs.
  apply mem_str_spec, Hs. by apply list_elem_of_In.
Qed.

Definition offered (s : ToolSpec) : Prop :=
  Name s <> "" /\ Description s <> "" /\ wf 6 (InputSchema s) = true
  /\ as_str (as_obj (Some (InputSchema s)) !! "type") = "object".

Lemma or_str_some s d : d <> "" -> or_str s d <> "".
Proof. unfold or_str. destruct (str_empty s) eqn:E; [done|by apply str_empty_false in E]. Qed.

(** Look up the keys of a decoder in both argument objects. *)
Ltac same_reads :=
  let m := fresh "m" in let m' := fresh "m'" in let H := fresh "H" in
  intros m m' H; cbn [dec_struct ok_or res_bind mbind option_bind];
  repeat match goal with
         | |- context [m !! ?k] => rewrite (H k) by (apply mem_str_spec; reflexivity)
         end; reflexivity.

Lemma opensearch_reads cfg re Resolve decode exchange who :
  reads_only ["indexPath"; "queryBody"; "size"; "aggregations"; "sort"] (Search.Tool.Invoke cfg re Resolve decode exchange who).
Proof. unfold Search.Tool.Invoke, Search.Tool.prepare. same_reads. Qed.
Lemma serpapi_reads : reads_only ["query"; "num"; "hl"; "gl"] (fun args => SerpApi.dec_input (Some args)).
Proof. unfold SerpApi.dec_input, str_field, int_field. same_reads. Qed.
Lemma quickchart_reads : reads_only ["type"; "data"; "options"] (fun args => QuickChart.dec_input (Some args)).
Proof. unfold QuickChart.dec_input, str_field. same_reads. Qed.
Lemma web_fetch_reads : reads_only ["url"; "maxBytes"] Fetch.Tool.dec_input.
Proof. unfold Fetch.Tool.dec_input. same_reads. Qed.
Lemma rabbitmq_reads : reads_only ["connection"; "op"; "args"] (fun args => RabbitMQ.dec_input (Some args)).
Proof. unfold RabbitMQ.dec_input, str_field. same_reads. Qed.
Lemma postgres_reads : reads_only ["database"; "sql"; "params"] Queries.Postgres.dec_input.
Proof. unfold Queries.Postgres.dec_input. same_reads. Qed.
Lemma mongo_reads :
  reads_only ["connection"; "database"; "collection"; "op"; "filter"; "projection"; "sort"; "limit"; "pipeline"] Queries.Mongo.dec_input.
Proof. unfold Queries.Mongo.dec_input. same_reads. Qed.

(** A schema that does not depend on the configuration is checked by evaluation. *)
Ltac schema_ok := split_and!; [|assumption || apply or_str_some; discriminate|vm_compute; reflexivity|vm_compute; reflexivity].

(** Each server-side tool that its factory accepts is offered under a name and a
    description that are not empty, with a well-formed object schema whose required
    arguments are declared, and it reads no argument that the schema does not document. *)
Theorem tools_offered :
  (forall raw cfg, Search.Tool.Factory raw = Ok cfg ->
     offered (opensearch cfg)
     /\ forall re Resolve decode exchange who,
          reads_only (documented (InputSchema (opensearch cfg))) (Search.Tool.Invoke cfg re Resolve decode exchange who))
  /\ (forall raw cfg, SerpApi.Factory raw = Ok cfg ->
       offered (serpapi cfg) /\ reads_only (documented (InputSchema (serpapi cfg))) (fun args => SerpApi.dec_input (Some args)))
  /\ (forall raw cfg, QuickChart.Factory raw = Ok cfg ->
       offered (quickchart cfg) /\ reads_only (documented (InputSchema (quickchart cfg))) (fun args => QuickChart.dec_input (Some args)))
  /\ (forall raw cfg, Fetch.Tool.Factory raw = Ok cfg ->
       offered (web_fetch cfg) /\ reads_only (documented (InputSchema (web_fetch cfg))) Fetch.Tool.dec_input)
  /\ (forall raw cfg, RabbitMQ.Factory raw = Ok cfg ->
       offered (rabbitmq cfg) /\ reads_only (documented (InputSchema (rabbitmq cfg))) (fun args => RabbitMQ.dec_input (Some args)))
  /\ (forall raw cfg, PostgresNode.Factory raw = Ok cfg ->
       offered (postgres cfg) /\ reads_only (documented (InputSchema (postgres cfg))) Queries.Postgres.dec_input)
  /\ (forall raw cfg, MongoNode.Factory raw = Ok cfg ->
       offered (mongo cfg) /\ reads_only (documented (InputSchema (mongo cfg))) Queries.Mongo.dec_input).
Proof.
  split_and!; intros raw cfg Hf.
  - split; [|intros; eapply reads_only_mono; [apply opensearch_reads|vm_compute; reflexivity]].
    unfold Search.Tool.Factory in Hf. destruct (Search.Tool.dec_config raw) as [c|]; [|done]. cbn [res_bind ok_or] in Hf.
    destruct (str_empty _); [done|]. destruct (_ || _); [done|]. destruct (str_empty (Search.Tool.ToolDescription c)) eqn:Ed; [done|].
    destruct (str_empty (Search.Tool.AllowedIndexPattern c)); [done|]. injection Hf as <-. apply str_empty_false in Ed.
    unfold offered. cbn [Name Description opensearch Search.Tool.ToolName Search.Tool.ToolDescription].
    schema_ok. apply (or_str_some _ "OpenSearchQuery"). discriminate.
  - split; [|eapply reads_only_mono; [apply serpapi_reads|vm_compute; reflexivity]].
    unfold SerpApi.Factory in Hf. destruct (SerpApi.dec_config raw) as [c|]; [|done]. destruct (str_empty _); [done|].
    destruct (str_empty (SerpApi.ToolDescription c)) eqn:Ed; [done|]. injection Hf as <-. apply str_empty_false in Ed. unfold offered.
    cbn [Name Description serpapi SerpApi.ToolName SerpApi.ToolDescription]. schema_ok. by apply or_str_some.
  - split; [|eapply reads_only_mono; [apply quickchart_reads|vm_compute; reflexivity]].
    unfold QuickChart.Factory in Hf. destruct (QuickChart.dec_config raw) as [c|]; [|done].
    destruct (str_empty _) eqn:Ed; [done|]. injection Hf as <-. apply str_empty_false in Ed. unfold offered.
    cbn [Name Description quickchart QuickChart.ToolName QuickChart.ToolDescription]. schema_ok. by apply or_str_some.
  - split; [|eapply reads_only_mono; [apply web_fetch_reads|vm_compute; reflexivity]].
    unfold offered. cbn [Name Description web_fetch]. schema_ok.
    unfold Fetch.Tool.tool_name. destruct (str_empty (Fetch.Tool.ToolName cfg)) eqn:E; [done|by apply str_empty_false in E].
  - split; [|eapply reads_only_mono; [apply rabbitmq_reads|vm_compute; reflexivity]].
    unfold offered. cbn [Name Description rabbitmq]. schema_ok. by apply or_str_some.
  - split; [|eapply reads_only_mono; [apply postgres_reads|vm_compute; reflexivity]].
    unfold PostgresNode.Factory in Hf. destruct (match raw with None => _ | Some _ => _ end) as [c|]; [|done].
    destruct (str_empty _) eqn:Ed; [done|]. injection Hf as <-. apply str_empty_false in Ed. unfold offered.
    cbn [Name Description postgres]. schema_ok. by apply or_str_some.
  - split; [|eapply reads_only_mono; [apply mongo_reads|vm_compute; reflexivity]].
    unfold MongoNode.Factory in Hf. destruct (match raw with None => _ | Some _ => _ end) as [c|]; [|done].
    destruct (str_empty _) eqn:Ed; [done|]. injection Hf as <-. apply str_empty_false in Ed. unfold offered.
    cbn [Name Description mongo]. schema_ok. by apply or_str_some.
Qed.
End ToolSpecs.
