(* ===== verification/Updates.v ===== *)
(** * The model updater in a running node (builtin/bedrock: the second half of
      autoupdate.go, and the request of gateway.go)

    Models.v has the decisions of one update cycle over a host that answers its questions;
    this file has the host of production, the loop around the cycles and the notices.

    - [Catalog]: paging through the inference profiles;
    - [Notify]: where a notice goes and what it says;
    - [Daily]: the host built from the gateway, the catalog and the test invocation, and
      the process: one cycle at the start, then one a day.

    The NATS request, the AWS calls, the random number and the clock are operations of the
    world. *)

From S2P Require Import Prelude Json JsonText Scan Retry Events Agent Models Bedrock Node.
From stdpp Require Import base tactics list strings gmap option.
From Stdlib Require Import ZArith Lia Ascii String.
Local Open Scope string_scope.
Local Open Scope list_scope.
Local Open Scope Z_scope.
Local Open Scope go_scope.

(** ** [listActiveProfileIDs] *)
Module Catalog.

Record profile := mkProfile { Active : bool; InferenceProfileId : option string }.
Record page := mkPage { Summaries : list profile; NextToken : option string }.
Inductive scan_error := CallFailed (e : string) | TooManyPages.
Definition maxProfilePages : Z := 50.
Definition active_ids (p : page) : list string := omap (fun s => if Active s then InferenceProfileId s else None) (Summaries p).

Section scan.
Context {W : Type}.
Variable ListInferenceProfiles : option string -> W -> res string page * W.

(** The loop; [None] when the fuel runs out, which [scan_terminates] excludes. *)
Fixpoint scan (fuel : nat) (n : Z) (token : option string) (ids : list string) (w : W)
    : option (res scan_error (list string)) * W :=
  match fuel with
  | O => (None, w)
  | S fuel =>
      let '(out, w) := ListInferenceProfiles token w in
      match out with
      | Err e => (Some (Err (CallFailed e)), w)
      | Ok p =>
          let ids := ids ++ active_ids p in
          match NextToken p with
          | None => (Some (Ok ids), w)
          | Some next =>
              if maxProfilePages <=? n then (Some (Err TooManyPages), w) else scan fuel (n + 1) (Some next) ids w
          end
      end
  end.
Definition listActiveProfileIDs (w : W) : option (res scan_error (list string)) * W :=
  scan (Z.to_nat maxProfilePages) 1 None [] w.

(** A complete listing from a token: the pages up to one without a next token. *)
Inductive listing : option string -> W -> list page -> W -> Prop :=
| listing_last t w p w' : ListInferenceProfiles t w = (Ok p, w') -> NextToken p = None -> listing t w [p] w'
| listing_next t w p w1 next ps w2 :
    ListInferenceProfiles t w = (Ok p, w1) -> NextToken p = Some next -> listing (Some next) w1 ps w2 -> listing t w (p :: ps) w2.

Lemma scan_terminates fuel n t ids w : maxProfilePages <= n + Z.of_nat fuel - 1 -> (0 < fuel)%nat -> (scan fuel n t ids w).1 <> None.
Proof using.
  revert n t ids w. induction fuel as [|fuel IH]; intros n t ids w Hn Hf; [lia|]. cbn [scan].
  destruct (ListInferenceProfiles t w) as [[p|e] w1]; [|done]. destruct (NextToken p); [|done].
  destruct (Z.leb_spec maxProfilePages n); [done|]. apply IH; lia.
Qed.
Lemma scan_ok fuel n t ids w l w' :
  scan fuel n t ids w = (Some (Ok l), w') ->
  exists ps, listing t w ps w' /\ l = ids ++ List.concat (List.map active_ids ps).
Proof using.
  revert n t ids w. induction fuel as [|fuel IH]; intros n t ids w H; [done|]. cbn [scan] in H.
  destruct (ListInferenceProfiles t w) as [[p|e] w1] eqn:El; [|done]. destruct (NextToken p) as [next|] eqn:En.
  - destruct (maxProfilePages <=? n); [done|]. apply IH in H as (ps & Hl & ->). exists (p :: ps).
    split; [by eapply listing_next|]. cbn. by rewrite <- app_assoc.
  - injection H as <- <-. exists [p]. split; [by constructor|]. cbn. by rewrite app_nil_r.
Qed.
Lemma scan_listing fuel n t ids w ps w' :
  listing t w ps w' -> (List.length ps <= fuel)%nat -> n + Z.of_nat (List.length ps) - 1 <= maxProfilePages ->
  scan fuel n t ids w = (Some (Ok (ids ++ List.concat (List.map active_ids ps))), w').
Proof using.
  intros H. revert fuel n ids. induction H as [t w p w' Hp Hn|t w p w1 next ps w2 Hp Hn Hl IH]; intros fuel n ids Hf Hm;
    (destruct fuel as [|fuel]; [cbn in Hf; lia|]); cbn [scan]; rewrite Hp, Hn.
  - cbn. by rewrite app_nil_r.
  - destruct (Z.leb_spec maxProfilePages n) as [Hle|]; [exfalso; destruct Hl; cbn [List.length] in Hm; lia|].
    cbn [List.length] in Hf, Hm. rewrite IH by lia. cbn. by rewrite <- app_assoc.
Qed.

(** The scan always ends; it answers with the ids of every active profile of a complete
    listing, in order, never with part of one, and it finds every listing of at most
    [maxProfilePages] pages. *)
Lemma listActiveProfileIDs_spec w :
  (exists r, (listActiveProfileIDs w).1 = Some r)
  /\ (forall ids w', listActiveProfileIDs w = (Some (Ok ids), w') ->
        exists ps, listing None w ps w' /\ ids = List.concat (List.map active_ids ps))
  /\ (forall ps w', listing None w ps w' -> Z.of_nat (List.length ps) <= maxProfilePages ->
        listActiveProfileIDs w = (Some (Ok (List.concat (List.map active_ids ps))), w')).
Proof using.
  assert (Z.of_nat (Z.to_nat maxProfilePages) = maxProfilePages) as Hz by done. split_and!.
  - pose proof (scan_terminates (Z.to_nat maxProfilePages) 1 None [] w ltac:(by vm_compute) ltac:(vm_compute; lia)) as H.
    unfold listActiveProfileIDs. destruct (scan _ _ _ _ _) as [[r|] w']; [by exists r|done].
  - intros ids w' H. apply (scan_ok _ _ _ _ _ _ _ H).
  - intros ps w' Hl Hn. by apply (scan_listing _ _ _ []); [done|lia|lia].
Qed.
End scan.
End Catalog.

(** ** [notify], [resolveNotify] *)
Module Notify.
Import Updater.

Definition event_text (e : event) : string :=
  match e with
  | EvUpgraded => "upgraded"
  | EvDeclined => "declined"
  | EvRecovered => "recovered"
  | EvHealthCheckFailed => "health-check-failed"
  end.
(** A field with [omitempty]. *)
Definition optional (k v : string) : list (string * json) := if str_empty v then [] else [(k, JStr v)].
(** The notice of an event, with the node's identity and the time of sending. *)
Definition note_body (workflowID nodeID timestamp : string) (n : noteEvent) : json :=
  jobj ([("event", JStr (event_text (ne_Event n))); ("workflowId", JStr workflowID); ("nodeId", JStr nodeID);
         ("from", JStr (ne_From n)); ("to", JStr (ne_To n)); ("attempts", JNum (ne_Attempts n)); ("timestamp", JStr timestamp)]
        ++ optional "error" (ne_Error n) ++ optional "resolver" (ne_Resolver n)).

Definition notifySubjectEnv : string := "MODEL_AUTOUPDATE_NOTIFY_SUBJECT".
Definition notifySubjectSuffix : string := ".modelAutoUpdate".
(** The subject, and why there is no publisher, if there is none. *)
Definition resolveNotify (getenv : string -> string) (env : Env.NodeEnv) : string * option string :=
  let subject :=
    let s := getenv notifySubjectEnv in
    if negb (str_empty s) then s
    else match Env.env_Host env "nats_basePath" with
         | Some (TextHost bp) => if str_empty bp then "" else bp +:+ notifySubjectSuffix
         | _ => ""
         end in
  if str_empty subject then ("", Some ("no subject (" +:+ notifySubjectEnv +:+ " unset and nats_basePath host missing)"))
  else match Env.env_Host env "nats" with
       | None => (subject, Some "nats host not registered")
       | Some (NatsHost true) => (subject, None)
       | Some _ => (subject, Some "nats host wrong type or no connection")
       end.

Inductive delivery := LogOnly (body : json) | Published (subject : string) (body : json) (failure : option string).
(** [notify]: a failed publish is only logged. *)
Definition notify (publish : string -> json -> option string) (target : string * option string)
    (workflowID nodeID timestamp : string) (n : noteEvent) : delivery :=
  let body := note_body workflowID nodeID timestamp n in
  match target.2 with
  | Some _ => LogOnly body
  | None => Published target.1 body (publish target.1 body)
  end.

(** Notices are published exactly when the node has a connected NATS host and a subject,
    the configured one or else the one below the service's base path; a published notice
    names the event, the node and both models. *)
Lemma notify_spec getenv env publish wf node ts n :
  let target := resolveNotify getenv env in
  match notify publish target wf node ts n with
  | LogOnly _ => target.2 <> None
  | Published subject body failure =>
      Env.env_Host env "nats" = Some (NatsHost true)
      /\ (subject = getenv notifySubjectEnv
          \/ getenv notifySubjectEnv = ""
             /\ exists bp, Env.env_Host env "nats_basePath" = Some (TextHost bp) /\ bp <> "" /\ subject = bp +:+ notifySubjectSuffix)
      /\ subject <> "" /\ failure = publish subject body
      /\ as_obj (Some body) !! "event" = Some (JStr (event_text (ne_Event n)))
      /\ as_obj (Some body) !! "workflowId" = Some (JStr wf) /\ as_obj (Some body) !! "nodeId" = Some (JStr node)
      /\ as_obj (Some body) !! "from" = Some (JStr (ne_From n)) /\ as_obj (Some body) !! "to" = Some (JStr (ne_To n))
  end.
Proof.
  unfold notify, resolveNotify. set (s := getenv notifySubjectEnv).
  set (subject := if negb (str_empty s) then s else _). destruct (str_empty subject) eqn:Es; [done|]. apply str_empty_false in Es.
  destruct (Env.env_Host env "nats") as [[[]| | | |]|]; try done. cbn [fst snd].
  split_and!; try done; try (unfold note_body, jobj, as_obj; cbn [app is_obj from_option id]; rewrite !Chunks.lookup_field; reflexivity).
  subst subject. destruct (str_empty s) eqn:E; cbn [negb] in *; [|by left]. right. apply str_empty_true in E. split; [done|].
  destruct (Env.env_Host env "nats_basePath") as [[|bp| | |]|]; try done. exists bp.
  destruct (str_empty bp) eqn:Eb; [done|]. apply str_empty_false in Eb. done.
Qed.
End Notify.

(** ** [startAutoUpdate], [run] *)
Module Daily.
Import ModelId Updater Bedrock.Stream.

(** What the updater asks of the world. *)
Record Ops {W : Type} := mkOps {
  ctx_done : W -> bool;
  now : W -> Z * W;
  rand_Int63n : Z -> W -> Z * W;
  timer : Z -> W -> bool * W;                             (* whether it fired before the context was done *)
  pause : Z -> W -> W;                                    (* [sleepCtx] *)
  RequestWithContext : string -> json -> W -> res string (string * string * option json) * W;  (* status, body, body decoded *)
  ListInferenceProfiles : option string -> W -> res string Catalog.page * W;
  InvokeModel : string -> json -> W -> res invoke_error opened * W;
}.
Arguments Ops : clear implicits.

Section daily.
Context {W : Type}.
Variable ops : Ops W.
Variable raw : string -> option json.
Variable getenv : string -> string.
Variable cfg : Bedrock.Node.Config.
Variable env : Env.NodeEnv.
#[local] Notation "'let*' x := m 'in' k" := (bind m (fun x => k)) (at level 200, x pattern, m at level 100, k at level 200).

(** *** The host *)
Definition natsConn : bool := match Env.env_Host env "nats" with Some (NatsHost connected) => connected | _ => false end.
Definition reply_text (e : Gateway.reply_error) : string :=
  match e with
  | Gateway.ReplyStatus status text => "gateway status " +:+ status +:+ ": " +:+ text
  | Gateway.ReplyNotJSON => "gateway reply not JSON"
  | Gateway.ReplyNoModel text => "gateway reply has no invokeId: " +:+ text
  end.
Definition resolveViaGateway (subject lab family : string) (w : W) : res string string * W :=
  let '(msg, w) := RequestWithContext ops subject (jobj [("lab", JStr lab); ("family", JStr family)]) w in
  (match msg with
   | Err e => Err ("gateway request " +:+ subject +:+ ": " +:+ e)
   | Ok (status, body, decoded) =>
       match Gateway.parseResolveReply status body decoded with Ok id => Ok id | Err e => Err (reply_text e) end
   end, w).
Definition newGatewayResolve (subject current : string) (w : W) : res string string * W :=
  match Gateway.deriveGatewayQuery current with
  | None => (Err ("ai/bedrock: model id " +:+ current +:+ " not parseable for auto-update"), w)
  | Some (lab, family) => resolveViaGateway subject lab family w
  end.
Definition scan_text (e : Catalog.scan_error) : string :=
  match e with
  | Catalog.CallFailed e => e
  | Catalog.TooManyPages => "ai/bedrock: inference profile pagination exceeded " +:+ print_Z Catalog.maxProfilePages +:+ " pages"
  end.
Definition list_profiles (w : W) : res string (list string) * W :=
  let '(r, w) := Catalog.listActiveProfileIDs (ListInferenceProfiles ops) w in
  (match r with Some (Ok ids) => Ok ids | Some (Err e) => Err (scan_text e) | None => Err "out of fuel" end, w).
Definition probe_schema : string := "{" +:+ dquote +:+ "type" +:+ dquote +:+ ":" +:+ dquote +:+ "object" +:+ dquote +:+ "," +:+ dquote
  +:+ "properties" +:+ dquote +:+ ":{" +:+ dquote +:+ "value" +:+ dquote +:+ ":{" +:+ dquote +:+ "type" +:+ dquote +:+ ":" +:+ dquote
  +:+ "string" +:+ dquote +:+ "}}," +:+ dquote +:+ "required" +:+ dquote +:+ ":[" +:+ dquote +:+ "value" +:+ dquote +:+ "]}".
(** The test invocation: one call, when its envelope can be built. *)
Definition validate_model (m : string) (w : W) : option probe_error * W :=
  (validateModel raw cfg (fun m p => (InvokeModel ops m p w).1) probe_schema m,
   match Bedrock.Payload.buildAnthropicPayload raw (probe_request probe_schema) cfg m with
   | None => w
   | Some p => (InvokeModel ops m p w).2
   end).
Definition host : Host (W := W) := {|
  u_done := ctx_done ops;
  u_resolve := if natsConn then Some (newGatewayResolve (Gateway.gatewaySubject (getenv "INFERENCE_GATEWAY_BASE_PATH"))) else None;
  u_list := list_profiles;
  u_validate := validate_model;
  u_sleep := pause ops |}.

(** *** The process *)
Definition productionJitter : W -> Z * W := rand_Int63n ops maxJitter.
(** A wait that ended in a cycle: when it was planned, for when, and what came of it. *)
Record day_run := mkDay { d_now : Z; d_next : Z; d_outcome : Updater.outcome }.
(** The loop, over as many days as are looked at. *)
Fixpoint daily (days : nat) : M (W := W) (list day_run) :=
  match days with
  | O => ret []
  | S days =>
      let* delay := with_world productionJitter in
      let* t := with_world (now ops) in
      let next := nextRunAt t + delay in
      let* t' := with_world (now ops) in
      let* fired := with_world (timer ops (next - t')) in
      if (fired : bool) then
        let* oc := runOnce host in
        let* rest := daily days in
        ret (mkDay t next oc :: rest)
      else ret []
  end.
Definition run (days : nat) : M (W := W) (Updater.outcome * list day_run) :=
  let* oc := runOnce host in
  let* rest := daily days in
  ret (oc, rest).

(** *** Properties *)

(** A model that was put to the test and passed it: the stream of its answer ended well
    and its first tool call was the one asked for, with JSON as its input. *)
Definition tested (m : string) : Prop :=
  exists p w r evs l t rest,
    Bedrock.Payload.buildAnthropicPayload raw (probe_request probe_schema) cfg m = Some p
    /\ (InvokeModel ops m p w).1 = Ok r /\ collectProbeEvents r = Ok evs
    /\ evs = l ++ LLMToolUseStop t :: rest /\ Forall (fun e => forall t, e <> LLMToolUseStop t) l
    /\ tu_Name t = probeToolName /\ is_Some (raw (tu_InputJSON t)).
Lemma validate_model_tested m w : (validate_model m w).1 = None -> tested m.
Proof using.
  unfold validate_model. cbn [fst]. intros H.
  assert (exists p, Bedrock.Payload.buildAnthropicPayload raw (probe_request probe_schema) cfg m = Some p) as [p Ep].
  { revert H. unfold validateModel. case (Bedrock.Payload.buildAnthropicPayload _ _ _ _); [eauto|done]. }
  destruct (proj1 (validateModel_spec _ _ _ _ _ _ Ep) H) as (r & evs & Hi & Hc & l & t & rest & -> & Hl & Hn & _ & Hj).
  exists p, w, r, (l ++ LLMToolUseStop t :: rest), l, t, rest. by split_and!.
Qed.

(** A model somebody proposed: the gateway in a reply it gave as a success, or the catalog
    in a complete listing, as an active profile. *)
Definition proposed (m : string) : Prop :=
  (natsConn = true /\ exists subject query w status body decoded,
     (RequestWithContext ops subject query w).1 = Ok (status, body, decoded) /\ Gateway.parseResolveReply status body decoded = Ok m)
  \/ exists w ps w', Catalog.listing (ListInferenceProfiles ops) None w ps w' /\ m ∈ List.concat (List.map Catalog.active_ids ps).
Lemma named_proposed m : named host m -> proposed m.
Proof using.
  intros [(resolve & cur & w & Hr & Hm)|(w & ids & Hl & Hm)]; [left|right].
  - cbn in Hr. destruct natsConn; [|done]. injection Hr as <-. split; [done|]. unfold newGatewayResolve in Hm.
    destruct (Gateway.deriveGatewayQuery cur) as [[lab family]|]; [|done]. unfold resolveViaGateway in Hm.
    destruct (RequestWithContext ops _ _ w) as [msg w1] eqn:Eq. cbn [fst] in Hm. destruct msg as [[[status body] decoded]|]; [|done].
    destruct (Gateway.parseResolveReply status body decoded) as [id|] eqn:Ep; [|done]. injection Hm as ->.
    eexists _, _, w, status, body, decoded. rewrite Eq. by split.
  - cbn in Hl. unfold list_profiles in Hl. destruct (Catalog.listActiveProfileIDs _ w) as [r w'] eqn:E. cbn [fst] in Hl.
    destruct r as [[l|]|]; try done. injection Hl as ->. apply Catalog.listActiveProfileIDs_spec in E as (ps & Hps & ->). by exists w, ps, w'.
Qed.

Lemma backed_spec l : backed host l ->
  (forall m, Probed m None ∈ l -> tested m) /\ (forall m, m ∈ swaps l -> proposed m).
Proof using.
  intros [H1 H2]. split; intros m Hm; [|by apply named_proposed, H2].
  apply H1 in Hm as [w Hw]. by eapply validate_model_tested.
Qed.

(** The schedule: planned for the first 07:00 UTC after the moment it was planned at, plus
    less than half an hour. *)
Definition on_time (d : day_run) : Prop :=
  exists seven delay, d_now d < seven /\ seven mod day = 7 * hour
  /\ (forall t, t mod day = 7 * hour -> d_now d < t -> seven <= t)
  /\ 0 <= delay < 1800 * second /\ d_next d = seven + delay.
Definition in_world_of (w : W) (st : state (W := W)) : state := mkState w (model st) (lastKnownGood st) (curUnhealthy st) (log st).
(** The days of a process, as they pass: after a clock reading a wait is planned and, at a
    second reading, a timer armed for the time that is left; if it fires a cycle runs,
    in the world the timer left; if the context ends first nothing more runs. *)
Inductive timeline : nat -> state (W := W) -> list day_run -> state (W := W) -> Prop :=
| all_days st : timeline O st [] st
| context_ended days st w1 t w2 next t' w3 w4 :
    now ops w1 = (t, w2) -> on_time (mkDay t next Declined) -> now ops w2 = (t', w3) ->
    timer ops (next - t') w3 = (false, w4) ->
    timeline (S days) st [] (in_world_of w4 st)
| day_passed days st w1 t w2 next t' w3 w4 oc st5 rest st' :
    now ops w1 = (t, w2) -> on_time (mkDay t next oc) -> now ops w2 = (t', w3) ->
    timer ops (next - t') w3 = (true, w4) ->
    runOnce host (in_world_of w4 st) = (oc, st5) -> timeline days st5 rest st' ->
    timeline (S days) st (mkDay t next oc :: rest) st'.

Lemma run_ok_world (st0 : state (W := W)) p0 ocs st w :
  run_ok st0 p0 ocs st -> run_ok st0 p0 ocs (mkState w (model st) (lastKnownGood st) (curUnhealthy st) (log st)).
Proof using. by intros []. Qed.

Hypothesis rand_range : forall n w, 0 < n -> 0 <= (rand_Int63n ops n w).1 < n.

Lemma daily_ok days (st0 : state (W := W)) p0 ocs st ds st' :
  run_ok st0 p0 ocs st -> backed host (log st) -> daily days st = (ds, st') ->
  run_ok st0 p0 (ocs ++ List.map d_outcome ds) st' /\ backed host (log st').
Proof using rand_range.
  revert ocs st ds. induction days as [|days IH]; intros ocs st ds Hr Hb H; cbn [daily] in H.
  { injection H as <- <-. cbn. by rewrite app_nil_r. }
  unfold bind, with_world in H. pose proof (rand_range maxJitter (world st) eq_refl) as Hj. unfold productionJitter in H.
  destruct (rand_Int63n ops maxJitter (world st)) as [delay w1]. cbn [world model lastKnownGood curUnhealthy log fst] in *.
  destruct (now ops w1) as [t w2]. cbn [world model lastKnownGood curUnhealthy log] in H.
  destruct (now ops w2) as [t' w3]. cbn [world model lastKnownGood curUnhealthy log] in H.
  destruct (timer ops _ w3) as [[] w4]; cbn [ret] in H.
  2:{ injection H as <- <-. cbn. rewrite app_nil_r. split_and!; [by apply run_ok_world|done]. }
  set (st4 := mkState w4 _ _ _ _) in H. pose proof (run_ok_world _ _ _ _ w4 Hr) as Hr4. fold st4 in Hr4.
  destruct (keeps_runOnce host st4 Hb) as [Hb5 _]. destruct (runOnce host st4) as [oc st5] eqn:Eo. cbn [snd] in Hb5.
  pose proof (run_ok_step _ _ _ _ _ _ _ Hr4 Eo) as Hr5. destruct (daily days st5) as [ds' st6] eqn:Ed. injection H as <- <-.
  destruct (IH _ _ _ Hr5 Hb5 Ed) as (Hr6 & Hb6). cbn [List.map d_outcome]. rewrite cons_middle, app_assoc. by split.
Qed.

Lemma planned t delay oc : 0 <= delay < maxJitter -> on_time (mkDay t (nextRunAt t + delay) oc).
Proof using.
  intros Hd. destruct (nextRunAt_spec t) as (H1 & H2 & H3). exists (nextRunAt t), delay. cbn. by destruct H1.
Qed.
Lemma daily_timeline days (st : state (W := W)) ds st' : daily days st = (ds, st') -> timeline days st ds st'.
Proof using rand_range.
  revert st ds. induction days as [|days IH]; intros st ds H; cbn [daily] in H; [injection H as <- <-; constructor|].
  unfold bind, with_world in H. pose proof (rand_range maxJitter (world st) eq_refl) as Hj. unfold productionJitter in H.
  destruct (rand_Int63n ops maxJitter (world st)) as [delay w1]. cbn [world model lastKnownGood curUnhealthy log fst] in *.
  destruct (now ops w1) as [t w2] eqn:E2. cbn [world model lastKnownGood curUnhealthy log] in H.
  destruct (now ops w2) as [t' w3] eqn:E3. cbn [world model lastKnownGood curUnhealthy log] in H.
  destruct (timer ops _ w3) as [[] w4] eqn:E4; cbn [ret] in H.
  2:{ injection H as <- <-. eapply (context_ended days st); [exact E2|by apply planned|exact E3|exact E4]. }
  destruct (runOnce host _) as [oc st5] eqn:Eo. destruct (daily days st5) as [ds' st6] eqn:Ed. injection H as <- <-.
  eapply day_passed; [exact E2|by apply planned|exact E3|exact E4|exact Eo|by apply IH].
Qed.

(** C32: However long the process runs, and whatever the gateway, the catalog, the models and
    the clock do: the model in use is the configured one or one that was proposed and then
    stood the test (its streamed answer called the tool it was told to call, with JSON as
    input); it is of the configured family; the fallback is another model that was in use;
    one cycle runs at the start, and one whenever the timer fires that was armed for what
    was left until a planned time, the first 07:00 UTC after it was planned and less than
    half an hour more. *)
Theorem updates_tested days (st : state (W := W)) p oc ds st' :
  parseModelID (model st) = Some p -> lastKnownGood st = "" -> log st = [] -> run days st = ((oc, ds), st') ->
  (model st' = model st \/ (proposed (model st') /\ tested (model st')))
  /\ (exists p', parseModelID (model st') = Some p' /\ family p' = family p)
  /\ lastKnownGood st' <> model st'
  /\ (lastKnownGood st' = "" \/ lastKnownGood st' = model st \/ (proposed (lastKnownGood st') /\ tested (lastKnownGood st')))
  /\ exists st1, runOnce host st = (oc, st1) /\ timeline days st1 ds st'.
Proof using rand_range.
  intros Hp Hl Hlog H. unfold run, bind in H. pose proof (run_ok_start st p Hp Hl Hlog) as Hr.
  assert (backed host (log st)) as Hb by (rewrite Hlog; split; [by intros ? ? ?%elem_of_nil|by intros ? ?%elem_of_nil]).
  destruct (keeps_runOnce host st Hb) as [Hb1 _]. destruct (runOnce host st) as [oc1 st1] eqn:Eo. cbn [snd] in Hb1.
  pose proof (run_ok_step _ _ _ _ _ _ _ Hr Eo) as Hr1. destruct (daily days st1) as [ds1 st2] eqn:Ed. injection H as <- <- <-.
  pose proof (daily_timeline _ _ _ _ Ed) as Htl.
  destruct (daily_ok _ _ _ _ _ _ _ Hr1 Hb1 Ed) as ([Hpar Hused Hval [Hne Hfb] _ _] & Hb2).
  destruct (backed_spec _ Hb2) as [Ht Hpr].
  assert (forall m, used st st2 m -> m = model st \/ (proposed m /\ tested m)) as Hgood.
  { intros m [->|Hm]; [by left|right]. split; [by apply Hpr|by apply Ht, Hval]. }
  split_and!; [by apply Hgood|done|done| |by exists st1]. destruct Hfb as [->|Hfb]; [by left|right; by apply Hgood].
Qed.
End daily.
End Daily.

(** ** A concrete process *)
Module UpdatesExamples.
Import ModelId Updater Daily Bedrock.Chunks.

(** A gateway that names version 4-8, a catalog of two pages with 4-9, and models that pass
    the test unless they are broken; the clock says the age of the world. *)
Definition demo_raw : string -> option json := JsonText.Text.parse.
Definition demo_cfg : Bedrock.Node.Config := Bedrock.Node.mkConfig "us.anthropic.claude-opus-4-7" "us-east-1" 4096 "bedrock-2023-05-31" None.
Definition demo_profile (active : bool) (id : string) : Catalog.profile := Catalog.mkProfile active (Some id).
Definition demo_pages (t : option string) : Catalog.page :=
  match t with
  | None => Catalog.mkPage [demo_profile true "us.anthropic.claude-opus-4-6"; demo_profile false "us.anthropic.claude-opus-5"] (Some "p2")
  | Some _ => Catalog.mkPage [demo_profile true "us.anthropic.claude-opus-4-9"] None
  end.
Definition demo_ops (gateway : res string string) (broken : list string) : Ops Z := {|
  ctx_done := fun _ => false;
  now := fun w => (w, w);
  rand_Int63n := fun _ w => (0, w);
  timer := fun d w => (true, w + d);
  pause := fun d w => w + d;
  RequestWithContext := fun _ _ w =>
    (match gateway with Ok id => Ok ("200", "", Some (jobj [("invokeId", JStr id)])) | Err e => Err e end, w);
  ListInferenceProfiles := fun t w => (Ok (demo_pages t), w);
  InvokeModel := fun m _ w =>
    (if mem_str m broken then Err (Bedrock.Stream.mkInvokeError "gone" (Some "ResourceNotFoundException"))
     else Ok (response 10 5 [STool "t1" "echo" ["{"; "}"]] "tool_use", None), w) |}.
Definition demo_env (connected : bool) : Env.NodeEnv :=
  Env.newNodeEnv "wf" "m" {["nats" := NatsHost connected; "nats_basePath" := TextHost "svc"]} (fun _ => None) None.
Definition demo_start : state (W := Z) := mkState 0 "us.anthropic.claude-opus-4-7" "" false [].
Definition demo_run (gateway : res string string) (broken : list string) (connected : bool) :=
  run (demo_ops gateway broken) demo_raw (fun _ => "") demo_cfg (demo_env connected) 2 demo_start.
Definition demo_summary (gateway : res string string) (broken : list string) (connected : bool) :=
  let '(oc, ds, st) := demo_run gateway broken connected in (oc, List.map d_outcome ds, model st, lastKnownGood st).

Example updates_ex :
  demo_summary (Ok "us.anthropic.claude-opus-4-8") [] true
    = (Upgraded, [AlreadyLatest; AlreadyLatest], "us.anthropic.claude-opus-4-8", "us.anthropic.claude-opus-4-7")
  /\ demo_summary (Err "no responders") [] false
    = (Upgraded, [AlreadyLatest; AlreadyLatest], "us.anthropic.claude-opus-4-9", "us.anthropic.claude-opus-4-7")
  /\ demo_summary (Ok "us.anthropic.claude-opus-4-8") ["us.anthropic.claude-opus-4-8"; "us.anthropic.claude-opus-4-9"] true
    = (Declined, [Declined; Declined], "us.anthropic.claude-opus-4-7", "")
  /\ Notify.resolveNotify (fun _ => "") (demo_env true) = ("svc.modelAutoUpdate", None)
  /\ (Notify.resolveNotify (fun _ => "") (demo_env false)).2 = Some "nats host wrong type or no connection".
Proof. vm_compute. by split_and!. Qed.

Lemma updates_tested_witness :
  let '(oc, ds, st') := demo_run (Ok "us.anthropic.claude-opus-4-8") [] true in
  oc = Upgraded /\ model st' = "us.anthropic.claude-opus-4-8"
  /\ tested (demo_ops (Ok "us.anthropic.claude-opus-4-8") []) demo_raw demo_cfg (model st').
Proof.
  destruct (demo_run (Ok "us.anthropic.claude-opus-4-8") [] true) as [[oc ds] st'] eqn:E.
  destruct (updates_tested (demo_ops (Ok "us.anthropic.claude-opus-4-8") []) demo_raw (fun _ => "") demo_cfg (demo_env true)
    ltac:(cbn; intros; lia) 2 demo_start (mkModel "us." "claude-opus" 4 7) oc ds st'
    ltac:(vm_compute; reflexivity) eq_refl eq_refl E) as (H & _).
  assert (oc = Upgraded /\ model st' = "us.anthropic.claude-opus-4-8") as [-> Hm].
  { assert (demo_summary (Ok "us.anthropic.claude-opus-4-8") [] true = (oc, List.map d_outcome ds, model st', lastKnownGood st')) as Hs
      by (unfold demo_summary; rewrite E; reflexivity).
    rewrite (proj1 updates_ex) in Hs. clear E H. injection Hs as <- _ <- _. split; reflexivity. }
  split; [reflexivity|]. split; [exact Hm|]. destruct H as [H|[_ H]]; [|exact H].
  exfalso. rewrite Hm in H. discriminate H.
Defined.
End UpdatesExamples.
