(* ===== verification/Builtin.v ===== *)
(** * The built-in nodes (pkg/workflow/builtin: register.go, the Spec and Init methods of
    each subpackage, natschat/trigger.go)

    - [World]: what starting a node asks of its surroundings;
    - one section per node: its [Spec], what its [Init] keeps, the node value that its
      factory builds for the engine;
    - [RegisterDefaults]: the registry of node types, and what it guarantees of every
      workflow that loads.

    A factory's refusal is its text without the library error it wraps. *)

From S2P Require Import Prelude Json Scan Retry Template Topo Validate Loader Agent Idt Chat Search Queries Bedrock.
From S2P Require Import Fetch Inference Dynamo Memory Prompts Tools Wiring.
From S2P Require Import Node.
From stdpp Require Import base tactics list strings gmap option fin_maps.
From Stdlib Require Import ZArith Lia Ascii String.
Local Open Scope string_scope.
Local Open Scope list_scope.
Local Open Scope Z_scope.
Local Open Scope go_scope.

Import Envelope.

(** ** Refusals *)
Class Refusal (E : Type) := refusal : E -> string.

#[export] Instance agent_refusal : Refusal agent_config_error := fun e =>
  match e with
  | CE_parse => "ai/agent: parse config"
  | CE_no_prompt => "ai/agent: systemMessageFixed (or legacy systemMessage) is required"
  | CE_iterations _ => "ai/agent: maxIterations must be between 1 and 50"
  end.
#[export] Instance bedrock_refusal : Refusal Bedrock.Node.config_error := fun e =>
  match e with
  | Bedrock.Node.ConfigParse => "ai/bedrock: parse config"
  | Bedrock.Node.ModelRequired => "ai/bedrock: model is required"
  end.
#[export] Instance gateway_refusal : Refusal Inference.Node.config_error := fun e =>
  match e with
  | Inference.Node.ConfigParse => "ai/inference-gateway: parse config"
  | Inference.Node.AliasRequired => "ai/inference-gateway: alias is required"
  | Inference.Node.AliasName alias =>
      "ai/inference-gateway: alias must match ^[A-Z][A-Z0-9_]{1,63}$, got " +:+ dquote +:+ alias +:+ dquote
  | Inference.Node.TimeoutsPositive => "ai/inference-gateway: timeouts must be positive"
  end.
#[export] Instance pgmemory_refusal : Refusal PgMemory.config_error := fun e =>
  match e with
  | PgMemory.ConfigParse => "memory/postgres: parse config"
  | PgMemory.DSNRequired => "memory/postgres: dsnEnv is required"
  | PgMemory.PrefixInvalid s => "memory/postgres: tablePrefix " +:+ dquote +:+ s +:+ dquote +:+ " must match ^[a-z][a-z0-9_]*$"
  end.
#[export] Instance dynamo_refusal : Refusal DynamoMemory.config_error := fun e =>
  match e with
  | DynamoMemory.ConfigParse => "memory/dynamodb: parse config"
  | DynamoMemory.TableNameRequired => "memory/dynamodb: tableName is required"
  | DynamoMemory.TableNameInvalid s =>
      "memory/dynamodb: tableName " +:+ dquote +:+ s +:+ dquote +:+ " invalid (must be 3-255 chars of [a-zA-Z0-9_.-])"
  | DynamoMemory.TTLInvalid n => "memory/dynamodb: ttlDays " +:+ print_Z n +:+ " invalid (must be >= 0)"
  end.
#[export] Instance opensearch_refusal : Refusal Search.Tool.config_error := fun e =>
  match e with
  | Search.Tool.ConfigParse => "tool/opensearch: parse config"
  | Search.Tool.HostRequired => "tool/opensearch: host is required"
  | Search.Tool.CredentialsRequired => "tool/opensearch: userEnv and passwordEnv are required"
  | Search.Tool.DescriptionRequired => "tool/opensearch: toolDescription is required"
  | Search.Tool.PatternRequired => "tool/opensearch: allowedIndexPattern is required"
  end.
#[export] Instance serpapi_refusal : Refusal SerpApi.config_error := fun e =>
  match e with
  | SerpApi.ConfigParse => "tool/serpapi: parse config"
  | SerpApi.KeyRequired => "tool/serpapi: apiKeyEnv is required"
  | SerpApi.DescriptionRequired => "tool/serpapi: toolDescription is required"
  end.
#[export] Instance quickchart_refusal : Refusal QuickChart.config_error := fun e =>
  match e with
  | QuickChart.ConfigParse => "tool/quickchart: parse config"
  | QuickChart.DescriptionRequired => "tool/quickchart: toolDescription is required"
  end.
#[export] Instance clientui_refusal : Refusal ClientUI.config_error := fun e =>
  match e with
  | ClientUI.EmptyConfig => "clientui: empty config"
  | ClientUI.ConfigParse => "clientui: parse config"
  | ClientUI.NameRequired => "clientui: toolName is required"
  | ClientUI.DescriptionRequired => "clientui: toolDescription is required"
  end.
#[export] Instance postgres_refusal : Refusal PostgresNode.config_error := fun e =>
  match e with
  | PostgresNode.ConfigParse => "tool/postgres-query config"
  | PostgresNode.DescriptionRequired => "tool/postgres-query: toolDescription is required"
  end.
#[export] Instance mongo_refusal : Refusal MongoNode.config_error := fun e =>
  match e with
  | MongoNode.ConfigParse => "tool/mongo-query config"
  | MongoNode.DescriptionRequired => "tool/mongo-query: toolDescription is required"
  end.
#[export] Instance rabbitmq_refusal : Refusal RabbitMQ.config_error := fun e =>
  match e with
  | RabbitMQ.ConfigParse => "tool/rabbitmq-management config"
  | RabbitMQ.DescriptionRequired => "tool/rabbitmq-management: toolDescription is required"
  end.
#[export] Instance fetch_refusal : Refusal Fetch.Tool.config_error := fun e =>
  match e with
  | Fetch.Tool.ErrDecode => "tool/web-fetch config"
  | Fetch.Tool.ErrToolDescription => "tool/web-fetch: toolDescription is required"
  end.
#[export] Instance chat_refusal : Refusal Chat.Config.config_error := fun e =>
  match e with
  | Chat.Config.CE_parse => "trigger/nats-chat: parse config"
  | Chat.Config.CE_mode => "trigger/nats-chat: responseMode must be " +:+ dquote +:+ "streaming" +:+ dquote +:+ " or " +:+ dquote +:+ "single" +:+ dquote
  end.

(** A factory from the decoding of a configuration and the node built on it. *)
Definition build_with {E C} `{Refusal E} (decode : option json -> res E C) (k : C -> Node) : Factory :=
  fun raw => match decode raw with Ok cfg => Ok (k cfg) | Err e => Err (refusal e) end.
(** [json.Unmarshal] of an absent block fails. *)
Definition present {E C} (parse : E) (f : json -> res E C) (raw : option json) : res E C :=
  match raw with None => Err parse | Some v => f v end.

(** ** Specs *)
Definition mkNodeSpec (ty role : string) (inputs : list PortSpec) : NodeSpec := mkSpec ty role inputs [] [].
Definition agent_Spec : NodeSpec :=
  mkSpec "ai/agent" RoleAgent
    [mkPort PortMain CardOne true ""; mkPort PortAILanguageModel CardOne true RoleLLM;
     mkPort PortAIMemory CardZeroOrOne false RoleMemory; mkPort PortAITool CardZeroOrMany false RoleTool]
    ["systemMessageFixed"; "systemMessageFlexible"; "systemMessage"] [flexibleField].
Definition bedrock_Spec : NodeSpec := mkNodeSpec "ai/bedrock" RoleLLM [].
Definition gateway_Spec : NodeSpec := mkNodeSpec "ai/inference-gateway" RoleLLM [].
Definition pgmemory_Spec : NodeSpec := mkNodeSpec "memory/postgres" RoleMemory [].
Definition dynamo_Spec : NodeSpec := mkNodeSpec "memory/dynamodb" RoleMemory [].
Definition opensearch_Spec : NodeSpec := mkNodeSpec "tool/opensearch" RoleTool [mkPort PortPolicy CardOne true RolePolicy].
Definition serpapi_Spec : NodeSpec := mkNodeSpec "tool/serpapi" RoleTool [].
Definition quickchart_Spec : NodeSpec := mkNodeSpec "tool/quickchart" RoleTool [].
Definition clientui_Spec (b : ClientUI.base) : NodeSpec := mkNodeSpec (ClientUI.nodeType b) RoleTool [].
Definition postgres_Spec : NodeSpec := mkNodeSpec "tool/postgres-query" RoleTool [].
Definition mongo_Spec : NodeSpec := mkNodeSpec "tool/mongo-query" RoleTool [].
Definition rabbitmq_Spec : NodeSpec := mkNodeSpec "tool/rabbitmq-management" RoleTool [].
Definition fetch_Spec : NodeSpec := mkNodeSpec "tool/web-fetch" RoleTool [].
Definition rewrite_Spec : NodeSpec := mkNodeSpec "admin/prompt-rewrite" RolePolicy [].
Definition chat_Spec : NodeSpec := mkNodeSpec "trigger/nats-chat" RoleTrigger [].

(** ** What starting a node asks of its surroundings *)

(** The answers of DynamoDB while a table is prepared, as in [Dynamo.Provision]. *)
Record TableWorld := mkTableWorld {
  tw_now : nat -> Z;
  tw_done : nat -> option string;
  tw_describe : res Provision.failure Provision.status;
  tw_create : option Provision.failure;
  tw_poll : nat -> res Provision.failure Provision.status;
  tw_ttl_describe : res string Provision.ttl_status;
  tw_ttl_update : option Provision.failure;
  tw_ttl_poll : nat -> res string Provision.ttl_status;
}.
(** The process's environment and the calls of libraries, each with what it fails with. *)
Record World := mkWorld {
  os_env : string -> option string;
  LoadDefaultConfig : string -> option string;          (* by region *)
  AddEndpoint : string -> option string;                (* [AddEndpointWithDocs], by path *)
  pgxpool_New : string -> option string;
  pgxpool_Ping : string -> option string;
  schema_version : option Z;                            (* of the chat history tables *)
  exec : string -> option string;
  pgx_ParseConfig : string -> option string;
  pgx_NewWithConfig : PostgresNode.pool -> option string;
  mongo_Connect : string -> option string;
  url_path : string -> option string;
  table : string -> TableWorld;
}.

Section nodes.
Variable world : World.
Definition getenv (name : string) : string := default "" (os_env world name).

(** ** agent/factory.go *)
Record AgentPeers := mkAgentPeers { llm : Peer; mem : option Peer; tools : list Peer }.
(** The loop over the tool peers. *)
Fixpoint tool_peers (ps : list Peer) : res string (list Peer) :=
  match ps with
  | [] => Ok []
  | p :: ps =>
      if peer_implements p RoleTool then let! rest := tool_peers ps in Ok (p :: rest)
      else Err "ai/agent: ai_tool peer must implement Tool"
  end.
Definition agent_Init (env : Env.NodeEnv) : res string AgentPeers :=
  match Env.env_Peer env PortAILanguageModel with
  | Err e => Err (Env.env_error_text e)
  | Ok [l] =>
      if negb (peer_implements l RoleLLM) then Err "ai/agent: ai_languageModel peer must implement LLMProvider"
      else
        let! m := match Env.env_Peer env PortAIMemory with
                  | Ok [m] => if peer_implements m RoleMemory then Ok (Some m) else Err "ai/agent: ai_memory peer must implement Memory"
                  | _ => Ok None
                  end in
        let! ts := match Env.env_Peer env PortAITool with Ok ps => tool_peers ps | Err _ => Ok [] end in
        Ok (mkAgentPeers l m ts)
  | Ok ps => Err ("ai/agent: exactly one ai_languageModel peer required, got " +:+ print_Z (Z.of_nat (List.length ps)))
  end.

(** ** bedrock/factory.go *)
Definition pinEnv : string := "AI_BEDROCK_MODEL_ID".
(** The model in use, and whether the daily check runs. *)
Definition bedrock_Init (cfg : Bedrock.Node.Config) (env : Env.NodeEnv) : res string (string * bool) :=
  match LoadDefaultConfig world (Bedrock.Node.Region cfg) with
  | Some e => Err ("ai/bedrock: load AWS config: " +:+ e)
  | None => Ok (Bedrock.Node.start cfg (getenv pinEnv))
  end.

(** ** inferencegateway/factory.go *)
Definition natsConn (env : Env.NodeEnv) : bool :=
  match Env.env_Host env "nats" with Some (NatsHost connected) => connected | _ => false end.
(** The subject of the calls. *)
Definition gateway_Init (cfg : Inference.Node.Config) (env : Env.NodeEnv) : res string string :=
  if negb (natsConn env) then Err "ai/inference-gateway: nats host not registered or not connected"
  else Ok (Inference.Node.invokeSubject (Inference.Node.BasePath cfg) (getenv "INFERENCE_GATEWAY_BASE_PATH")).

(** ** pgmemory/factory.go; the version of the schema after the migrations *)
Definition pgmemory_Init (cfg : PgMemory.Config) (env : Env.NodeEnv) : res string (option Z) :=
  match Env.Secret env (PgMemory.DSNEnv cfg) with
  | Err e => Err (Env.env_error_text e)
  | Ok dsn =>
      match pgxpool_New world (Env.Reveal dsn) with
      | Some e => Err ("memory/postgres: open pool: " +:+ e)
      | None =>
          match pgxpool_Ping world (Env.Reveal dsn) with
          | Some e => Err ("memory/postgres: ping: " +:+ e)
          | None =>
              let '(err, version, _) := PgMemory.applyMigrations (PgMemory.TablePrefix cfg) (exec world) (schema_version world) in
              match err with Some e => Err e | None => Ok version end
          end
      end
  end.

(** ** dynamomemory/factory.go *)
Definition provision (w : TableWorld) : option string :=
  match (Provision.ensureTable (tw_now w) (tw_done w) (tw_describe w) (tw_create w) (tw_poll w)).2 with
  | Some None =>
      match (Provision.ensureTTL (tw_now w) (tw_done w) (tw_ttl_describe w) (tw_ttl_update w) (tw_ttl_poll w)).2 with
      | Some None => None
      | _ => Some "memory/dynamodb: expiry is not enabled"
      end
  | _ => Some "memory/dynamodb: the table is not active"
  end.
Definition dynamo_Init (cfg : DynamoMemory.Config) (env : Env.NodeEnv) : option string :=
  match LoadDefaultConfig world (DynamoMemory.Region cfg) with
  | Some e => Some ("memory/dynamodb: load aws config: " +:+ e)
  | None => provision (table world (DynamoMemory.TableName cfg))
  end.

(** ** opensearch/factory.go *)
Record SearchReady := mkSearchReady {
  user : Env.Secret_String;
  pass : Env.Secret_String;
  http_timeout : Z;
  allowedRegexp : IndexPattern.index_regexp;
  search_policy : Peer;
}.
Definition seconds (n : Z) : Z := wrap64 (n * 1000000000).
Definition env_secret (env : Env.NodeEnv) (name : string) : res string Env.Secret_String :=
  match Env.Secret env name with Ok s => Ok s | Err e => Err (Env.env_error_text e) end.
Definition opensearch_Init (cfg : Search.Tool.Config) (env : Env.NodeEnv) : res string SearchReady :=
  let! u := env_secret env (Search.Tool.UserEnv cfg) in
  let! p := env_secret env (Search.Tool.PasswordEnv cfg) in
  match IndexPattern.compileIndexPattern (Search.Tool.AllowedIndexPattern cfg) with
  | Err _ => Err "tool/opensearch: allowed index pattern"
  | Ok re =>
      match Env.env_Peer env PortPolicy with
      | Err e => Err (Env.env_error_text e)
      | Ok [peer] =>
          if peer_implements peer RolePolicy
          then Ok (mkSearchReady u p (seconds (Search.Tool.RequestTimeoutSeconds cfg)) re peer)
          else Err "tool/opensearch: peer is not a Policy"
      | Ok ps => Err ("tool/opensearch: requires exactly one policy peer, got " +:+ print_Z (Z.of_nat (List.length ps)))
      end
  end.

(** ** serpapi/factory.go, quickchart/factory.go *)
Definition serpapi_Init (cfg : SerpApi.Config) (env : Env.NodeEnv) : res string (Env.Secret_String * Z) :=
  let! key := env_secret env (SerpApi.APIKeyEnv cfg) in Ok (key, seconds (SerpApi.RequestTimeoutSeconds cfg)).
Definition quickchart_Init (cfg : QuickChart.Config) (env : Env.NodeEnv) : res string Z :=
  match Env.env_Host env "s3files" with
  | None => Err ("tool/quickchart: host " +:+ dquote +:+ "s3files" +:+ dquote +:+ " is required (boot the binary with an S3 uploader)")
  | Some UploaderHost => Ok (seconds (QuickChart.RequestTimeoutSeconds cfg))
  | Some _ => Err ("tool/quickchart: host " +:+ dquote +:+ "s3files" +:+ dquote +:+ " has wrong type")
  end.

(** ** rabbitmqmanagement/tool.go: the configuration with its credentials *)
Definition rabbitmq_Init (cfg : RabbitMQ.Config) (env : Env.NodeEnv) : RabbitMQ.Config :=
  RabbitMQ.Init getenv (fun name => match Env.Secret env name with Ok s => Some (Env.Reveal s) | Err _ => None end) cfg.

(** ** promptrewrite/node.go, from the hosts *)
Definition rewrite_Init (cfg : Rewrite.Config) (env : Env.NodeEnv) : res Rewrite.init_error (string * string * bool) :=
  let region := Rewrite.envOr (os_env world) (Rewrite.defStr (Rewrite.RegionEnv cfg) "BEDROCK_REWRITE_REGION") "us-east-1" in
  Rewrite.Init cfg (os_env world)
    (match Env.env_Host env "nats" with None => None | Some (NatsHost _) => Some true | Some _ => Some false end)
    (match Env.env_Host env "nats_basePath" with Some (TextHost s) => Some s | _ => None end)
    (match Env.env_Host env "promptstore" with None => None | Some (StoreHost _) => Some true | Some _ => Some false end)
    (LoadDefaultConfig world region) (AddEndpoint world "PromptRewrite").
#[export] Instance rewrite_refusal : Refusal Rewrite.init_error := fun e =>
  match e with
  | Rewrite.NatsMissing => "admin/prompt-rewrite: nats host not registered"
  | Rewrite.NatsWrongType => "admin/prompt-rewrite: nats host has wrong type"
  | Rewrite.BasePathMissing => "admin/prompt-rewrite: nats_basePath missing"
  | Rewrite.AwsConfig e => "admin/prompt-rewrite: aws config: " +:+ e
  | Rewrite.RegisterFailed e => e
  end.

(** ** natschat/trigger.go *)

(** An endpoint as it is registered: its path and the documented headers and parameters
    with their required flag (descriptions and examples left out). *)
Record Endpoint := mkEndpoint {
  ep_path : string;
  ep_headers : list (string * bool);
  ep_parameters : list (string * bool);
}.
Record ChatReady := mkChatReady {
  chat_subject : string;
  chat_basePath : string;
  requestTimeout : Z;
  validator : Idt.Validator;
  endpoint : Endpoint;
}.
Definition chat_endpoint (cfg : Config.Config) (subject : string) : Endpoint :=
  let src := Config.Source cfg in
  mkEndpoint subject
    [(Config.AccountHeader src, Config.RequireAccount src); (Config.UserHeader src, Config.RequireUser src);
     (Config.UserNameHeader src, false); (Config.TimeZoneHeader src, false); (Config.NatsUserHeader src, false)]
    ([("message", true); ("sessionId", false)]
     ++ (if Config.AllowResponseModeOverride cfg then [("responseMode", false)] else [])).
Definition chat_Init (cfg : Config.Config) (env : Env.NodeEnv) : res string ChatReady :=
  match Env.env_Host env "nats" with
  | None => Err "trigger/nats-chat: nats host not registered"
  | Some (NatsHost connected) =>
      let basePath := match Env.env_Host env "nats_basePath" with Some (TextHost s) => s | _ => "" end in
      if str_empty basePath then Err "trigger/nats-chat: nats_basePath host entry missing or empty"
      else
        let subject := if str_empty (Config.Subject cfg) then Env.WorkflowID env else Config.Subject cfg in
        match Idt.NewFromEnv getenv connected with
        | Err _ => Err "trigger/nats-chat: IDT_VALIDATION requires APP_ID and APP_FUNCTION_ID"
        | Ok v =>
            match AddEndpoint world subject with
            | Some e => Err e
            | None => Ok (mkChatReady subject basePath (seconds (Config.RequestTimeoutSeconds cfg)) v (chat_endpoint cfg subject))
            end
        end
  | Some _ => Err "trigger/nats-chat: nats host has wrong type"
  end.
(** [ChatSubject], empty before [Init] has run *)
Definition ChatSubject (r : ChatReady) : string :=
  if str_empty (chat_basePath r) || str_empty (chat_subject r) then "" else chat_basePath r +:+ "." +:+ chat_subject r.

(** ** The nodes *)
Definition failure_of {A} (r : res string A) : option string := match r with Ok _ => None | Err e => Some e end.
(** A node without optional interfaces, implementing the interface of its role. *)
Definition plain_node (spec : NodeSpec) (init : Env.NodeEnv -> option string) : Node :=
  mkNode spec (String.eqb (spec_Role spec)) None None init None.

(** The engine sees of an agent its prompts, which an update replaces; [updates] bounds the
    hot updates that the node can still be given. *)
Fixpoint agent_node (updates : nat) (p : prompts) : Node :=
  mkNode agent_Spec (String.eqb RoleAgent) None None (fun env => failure_of (agent_Init env))
    (match updates with
     | O => None
     | S updates => Some (fun field value =>
         match Reconfigure field value p with Ok p => Ok (agent_node updates p) | Err e => Err e end)
     end).
Definition opensearch_node (cfg : Search.Tool.Config) : Node :=
  mkNode opensearch_Spec (String.eqb RoleTool) (Some (Search.Tool.AllowedIndexPattern cfg)) None
    (fun env => failure_of (opensearch_Init cfg env)) None.
(** [admin/prompt-rewrite] declares a role whose interface it does not implement. *)
Definition rewrite_node (cfg : Rewrite.Config) : Node :=
  mkNode rewrite_Spec (fun _ => false) None None
    (fun env => match rewrite_Init cfg env with Ok _ => None | Err e => Some (refusal e) end) None.

(** ** The factories *)
Variable updates : nat.

Definition agent_Factory : Factory :=
  build_with (Agent.Factory (os_env world)) (fun c => let '(_, _, _, p, _, _) := c in agent_node updates p).
Definition bedrock_Factory : Factory :=
  build_with (present Bedrock.Node.ConfigParse Bedrock.Node.Factory)
    (fun cfg => plain_node bedrock_Spec (fun env => failure_of (bedrock_Init cfg env))).
Definition gateway_Factory : Factory :=
  build_with Inference.Node.Factory (fun cfg => plain_node gateway_Spec (fun env => failure_of (gateway_Init cfg env))).
Definition pgmemory_Factory : Factory :=
  build_with (present PgMemory.ConfigParse PgMemory.Factory)
    (fun cfg => plain_node pgmemory_Spec (fun env => failure_of (pgmemory_Init cfg env))).
Definition dynamo_Factory : Factory :=
  build_with (present DynamoMemory.ConfigParse DynamoMemory.Factory) (fun cfg => plain_node dynamo_Spec (dynamo_Init cfg)).
Definition opensearch_Factory : Factory :=
  build_with (present Search.Tool.ConfigParse Search.Tool.Factory) opensearch_node.
Definition serpapi_Factory : Factory :=
  build_with (present SerpApi.ConfigParse SerpApi.Factory)
    (fun cfg => plain_node serpapi_Spec (fun env => failure_of (serpapi_Init cfg env))).
Definition quickchart_Factory : Factory :=
  build_with (present QuickChart.ConfigParse QuickChart.Factory)
    (fun cfg => plain_node quickchart_Spec (fun env => failure_of (quickchart_Init cfg env))).
(** The [Init] of the tools for the browser only keeps the retry policy. *)
Definition clientui_Factory (decode : option json -> res ClientUI.config_error ClientUI.base) : Factory :=
  build_with decode (fun b => plain_node (clientui_Spec b) (fun _ => None)).
Definition postgres_Factory : Factory :=
  build_with PostgresNode.Factory (fun cfg => plain_node postgres_Spec (fun env =>
    match (PostgresNode.Init env (pgx_ParseConfig world) (pgx_NewWithConfig world) cfg).2 with
    | None => None
    | Some (name, _) => Some ("postgres-query " +:+ name)
    end)).
Definition mongo_Factory : Factory :=
  build_with MongoNode.Factory (fun cfg => plain_node mongo_Spec (fun env =>
    match (MongoNode.Init env (mongo_Connect world) (url_path world) cfg).2 with
    | None => None
    | Some (name, _) => Some ("mongo-query " +:+ name)
    end)).
(** The [Init] of the RabbitMQ tool ([rabbitmq_Init]) and of the fetch tool cannot fail. *)
Definition rabbitmq_Factory : Factory := build_with RabbitMQ.Factory (fun _ => plain_node rabbitmq_Spec (fun _ => None)).
Definition fetch_Factory : Factory := build_with Fetch.Tool.Factory (fun _ => plain_node fetch_Spec (fun _ => None)).
Definition rewrite_Factory : Factory :=
  fun raw => match Rewrite.Factory raw with Some cfg => Ok (rewrite_node cfg) | None => Err "admin/prompt-rewrite config" end.
Definition chat_Factory : Factory :=
  build_with Config.Factory (fun cfg => plain_node chat_Spec (fun env => failure_of (chat_Init cfg env))).

(** ** register.go *)
Definition defaults : list (string * Factory) :=
  [("trigger/nats-chat", chat_Factory);
   ("ai/agent", agent_Factory);
   ("ai/bedrock", bedrock_Factory);
   ("ai/inference-gateway", gateway_Factory);
   ("memory/postgres", pgmemory_Factory);
   ("memory/dynamodb", dynamo_Factory);
   ("tool/opensearch", opensearch_Factory);
   ("tool/serpapi", serpapi_Factory);
   ("tool/quickchart", quickchart_Factory);
   ("tool/ui-confirm", clientui_Factory ClientUI.ConfirmFactory);
   ("tool/ui-pick-one", clientui_Factory ClientUI.PickOneFactory);
   ("tool/ui-human-input", clientui_Factory ClientUI.HumanInputFactory);
   ("tool/ui-pick-many", clientui_Factory ClientUI.PickManyFactory);
   ("tool/ui-ask-date", clientui_Factory ClientUI.AskDateFactory);
   ("tool/ui-ask-form", clientui_Factory ClientUI.AskFormFactory);
   ("tool/ui-pick-row", clientui_Factory ClientUI.PickRowFactory);
   ("tool/ui-ask-number", clientui_Factory ClientUI.AskNumberFactory);
   ("tool/ui-ask-long-text", clientui_Factory ClientUI.AskLongTextFactory);
   ("tool/postgres-query", postgres_Factory);
   ("tool/mongo-query", mongo_Factory);
   ("tool/rabbitmq-management", rabbitmq_Factory);
   ("tool/web-fetch", fetch_Factory);
   ("admin/prompt-rewrite", rewrite_Factory)].
(** Every registration is made; the errors are joined. *)
Definition register_step (st : Registry * list string) (kf : string * Factory) : Registry * list string :=
  match Register st.1 kf.1 kf.2 with
  | Ok reg => (reg, st.2)
  | Err taken => (st.1, st.2 ++ [taken])
  end.
Definition RegisterDefaults (reg : Registry) : Registry * list string := foldl register_step (reg, []) defaults.

(** agent/registry.go: the service's own factories replace the defaults. *)
Definition buildRegistry (extraFactories : gmap string Factory) : res (list string) Registry :=
  match RegisterDefaults NewRegistry with
  | (reg, []) => Ok (map_fold (fun typeKey f reg => Replace reg typeKey f) reg extraFactories)
  | (_, errs) => Err errs
  end.
End nodes.

(** ** The registry of defaults *)
Section registry.
Variable world : World.
Variable updates : nat.

Lemma register_all (l : list (string * Factory)) reg errs :
  NoDup l.*1 -> (forall k, k ∈ l.*1 -> reg !! k = None) ->
  foldl register_step (reg, errs) l = (list_to_map l ∪ reg, errs).
Proof using.
  revert reg. induction l as [|[k f] l IH]; intros reg Hnd Hfree; cbn [foldl list_to_map foldr].
  { by rewrite (left_id_L ∅ (∪)). }
  apply NoDup_cons in Hnd as [Hk Hnd]. unfold register_step at 2, Register. cbn [fst snd].
  rewrite (Hfree k) by (by left). rewrite IH; [|done|].
  - f_equal. rewrite <- insert_union_l, insert_union_r; [done|]. by apply not_elem_of_list_to_map_1.
  - intros k' Hk'. rewrite lookup_insert_ne; [apply Hfree; by right|by intros ->].
Qed.
Lemma defaults_nodup : NoDup (defaults world updates).*1.
Proof using. apply (bool_decide_unpack _). vm_compute. exact I. Qed.

(** The registry of the service: its own factory for a key when it has one, the default
    one otherwise; registering the defaults never fails. *)
Lemma buildRegistry_spec extra :
  exists reg, buildRegistry world updates extra = Ok reg
  /\ forall k, reg !! k = match extra !! k with
                          | Some f => Some f
                          | None => (list_to_map (defaults world updates) : Registry) !! k
                          end.
Proof using.
  unfold buildRegistry, RegisterDefaults. rewrite register_all by (apply defaults_nodup || intros; apply lookup_empty).
  eexists. split; [reflexivity|]. unfold Replace, NewRegistry. rewrite (right_id_L ∅ (∪)).
  set (base := list_to_map _). clearbody base. intros k.
  induction extra as [|k' f extra Hk' Hff IH] using map_first_key_ind; [by rewrite map_fold_empty, lookup_empty|].
  rewrite map_fold_insert_first_key by done. destruct (decide (k = k')) as [->|Hne].
  - by rewrite !lookup_insert_eq.
  - by rewrite !lookup_insert_ne.
Qed.

Lemma buildRegistry_lookup extra reg : buildRegistry world updates extra = Ok reg ->
  forall k, reg !! k = match extra !! k with
                       | Some f => Some f
                       | None => (list_to_map (defaults world updates) : Registry) !! k
                       end.
Proof using. intros Hr. destruct (buildRegistry_spec extra) as (reg' & Hr' & H). rewrite Hr' in Hr. injection Hr as <-. exact H. Qed.

Lemma default_lookup k f : (list_to_map (defaults world updates) : Registry) !! k = Some f <-> (k, f) ∈ defaults world updates.
Proof using. symmetry. apply elem_of_list_to_map, defaults_nodup. Qed.

(** *** Every default factory builds nodes of its own type *)
Definition typed_node (k : string) (n : Node) : Prop :=
  spec_Type (node_spec n) = k /\ known_role (spec_Role (node_spec n)) = true
  /\ (forall role, implements n role = String.eqb role (spec_Role (node_spec n)) && negb (String.eqb k "admin/prompt-rewrite"))
  /\ implements n RolePolicy = false /\ function_for n = None
  /\ (is_Some (index_pattern n) <-> k = "tool/opensearch").

Lemma plain_typed spec init k :
  spec_Type spec = k -> known_role (spec_Role spec) = true -> spec_Role spec <> RolePolicy -> k <> "admin/prompt-rewrite" -> k <> "tool/opensearch" ->
  typed_node k (plain_node spec init).
Proof using.
  intros Ht Hr Hp Hne Ho. unfold typed_node, plain_node. cbn.
  split_and!; try done.
  - intros role. rewrite String.eqb_sym. destruct (String.eqb_spec k "admin/prompt-rewrite"); [done|]. by rewrite andb_true_r.
  - by apply String.eqb_neq.
Qed.
Lemma built_with {E C} `{Refusal E} (decode : option json -> res E C) k raw n :
  build_with decode k raw = Ok n -> exists cfg, decode raw = Ok cfg /\ n = k cfg.
Proof using. unfold build_with. destruct (decode raw) as [c|]; [intros [= <-]; by exists c|done]. Qed.
Lemma clientui_typed ty schema raw n :
  ty <> "admin/prompt-rewrite" -> ty <> "tool/opensearch" ->
  clientui_Factory (ClientUI.build ty schema) raw = Ok n -> typed_node ty n.
Proof using.
  intros H1 H2 H. unfold clientui_Factory in H. apply built_with in H as (b & Hb & ->).
  destruct (ClientUI.build_spec _ _ _ _ Hb) as (Ht & _). apply plain_typed; done.
Qed.
Lemma agent_typed raw n : agent_Factory world updates raw = Ok n -> exists p, n = agent_node updates p.
Proof using.
  unfold agent_Factory. intros H. apply built_with in H as ([[[[[? ?] ?] p] ?] ?] & _ & ->). by exists p.
Qed.
Lemma agent_node_parts (u : nat) p :
  node_spec (agent_node u p) = agent_Spec /\ implements (agent_node u p) = String.eqb RoleAgent
  /\ Init (agent_node u p) = (fun env => failure_of (agent_Init env))
  /\ function_for (agent_node u p) = None /\ index_pattern (agent_node u p) = None.
Proof using. by destruct u. Qed.

Lemma default_node_typed k f raw n :
  (k, f) ∈ defaults world updates -> f raw = Ok n -> typed_node k n.
Proof using.
  intros Hin Hf. unfold defaults in Hin.
  repeat (apply elem_of_cons in Hin as [[= -> ->]|Hin];
    [ first [ eapply clientui_typed; [..|exact Hf]; discriminate
            | apply built_with in Hf as (cfg & _ & ->); apply plain_typed; try reflexivity; discriminate
            | idtac ] | ]); [..|by apply elem_of_nil in Hin].
  - apply agent_typed in Hf as [p ->]. destruct (agent_node_parts updates p) as (Hs & Hi & _ & Hff & Hip).
    unfold typed_node. rewrite Hs, Hi, Hff, Hip. split_and!; try done; try (by intros []).
    intros role. rewrite String.eqb_sym. cbn. by rewrite andb_true_r.
  - apply built_with in Hf as (cfg & _ & ->). unfold typed_node. cbn. split_and!; try done.
    intros role. rewrite String.eqb_sym. cbn. by rewrite andb_true_r.
  - unfold rewrite_Factory in Hf. destruct (Rewrite.Factory raw); [|done]. injection Hf as <-. unfold typed_node. cbn.
    split_and!; try done; try (by intros []). intros role. by rewrite andb_false_r.
Qed.
(** Whatever configuration a default factory accepts, the node it builds declares the
    type it is registered under and a known role, implements the interface of that role
    and of no other (except the prompt-rewriting node, which implements none), and only
    the search tool is tied to an index; in particular no default node is a policy. *)
Theorem defaults_typed k f raw n :
  (k, f) ∈ defaults world updates -> f raw = Ok n -> typed_node k n.
Proof using. apply default_node_typed. Qed.
End registry.

(** ** Loaded workflows *)
Section loaded.
Variable world : World.
Variable updates : nat.
Variable extra : gmap string Factory.
Variable reg : Registry.
(** What [buildRegistry_lookup] says of the registry of the service. *)
Hypothesis Hreg : forall k, reg !! k = match extra !! k with
                                       | Some f => Some f
                                       | None => (list_to_map (defaults world updates) : Registry) !! k
                                       end.
Variable validate_template : string -> option string.
Variable lookupEnv : string -> option string.
Variable hosts : gmap string Host.
Variable prompts : option (string -> string -> string -> res string (option string)).
#[local] Abbreviation load := (LoadOne validate_template lookupEnv reg hosts prompts).
#[local] Abbreviation ok := (loaded_ok validate_template lookupEnv reg hosts prompts).
#[local] Abbreviation env_of w r n :=
  (envForNode lookupEnv hosts (rw_ID w) (lr_RetryByNode r) (lr_Nodes r) (rw_Connections w) (rn_ID n)).

Lemma reg_default k f : extra !! k = None -> (k, f) ∈ defaults world updates -> reg !! k = Some f.
Proof using Hreg. intros He Hin. rewrite Hreg, He. by apply default_lookup. Qed.

(** A loaded node comes from the factory of its type, stored prompts or not. *)
Lemma loaded_node doc w r n : ok doc w r -> n ∈ rw_Nodes w ->
  exists (f : Factory) raw node, reg !! rn_Type n = Some f /\ f raw = Ok node /\ lr_Nodes r !! rn_ID n = Some node
    /\ Init node (env_of w r n) = None.
Proof using.
  intros Hok Hin. pose proof (lo_built _ _ _ _ _ _ _ _ Hok) as Hb. rewrite Forall_forall in Hb.
  destruct (Hb n Hin) as (f & inst & Hf & Hi & Hn). pose proof (lo_init _ _ _ _ _ _ _ _ Hok _ _ Hn) as Hinit.
  destruct (applyOverrides_spec validate_template lookupEnv reg prompts (rw_ID w) n inst) as [E|(l & f' & cfg & _ & Hf' & Hr & _)].
  - exists f, (rn_Config n), inst. rewrite E in Hn, Hinit. split_and!; assumption.
  - exists f', (Some (JObj cfg)), (applyOverrides validate_template lookupEnv reg prompts (rw_ID w) n inst). split_and!; assumption.
Qed.

(** The nodes wired to an input port, in the order of the connections. *)
Definition sources (conns : list RawConn) (id port : string) : list string :=
  omap (fun c => if String.eqb (dst c) id && String.eqb (ep_port (To_ c)) port then Some (src c) else None) conns.
Lemma resolver_ids nodes id conns port : peer_ID <$> makePeerResolver nodes id conns port = sources conns id port.
Proof using.
  unfold makePeerResolver, sources. induction conns as [|c conns IH]; [done|]. cbn.
  destruct (_ && _); [|done]. cbn. rewrite IH. f_equal. by destruct (nodes !! src c).
Qed.
Lemma resolver_implements nodes id conns port p role :
  p ∈ makePeerResolver nodes id conns port -> peer_implements p role = true ->
  exists n, nodes !! peer_ID p = Some n /\ implements n role = true.
Proof using.
  unfold makePeerResolver. rewrite list_elem_of_omap. intros (c & _ & Hc) Hp. destruct (_ && _); [|done].
  injection Hc as <-. destruct (nodes !! src c) as [n|] eqn:E; [|done]. exists n. cbn in *. by split.
Qed.
Lemma tool_peers_ok ps ts : tool_peers ps = Ok ts -> ts = ps /\ Forall (fun p => peer_implements p RoleTool = true) ps.
Proof using.
  revert ts. induction ps as [|p ps IH]; intros ts; cbn [tool_peers]; [intros [= <-]; by split; [|constructor]|].
  destruct (peer_implements p RoleTool) eqn:E; [|done]. destruct (tool_peers ps) as [rest|]; [|done]. cbn.
  intros [= <-]. destruct (IH rest eq_refl) as [-> Hf]. by split; [|constructor].
Qed.

(** A port of limited cardinality has at most one source. *)
Lemma sources_bounded doc w r id n p :
  ok doc w r -> lr_Nodes r !! id = Some n -> p ∈ InputPorts (node_spec n) -> port_Cardinality p <> CardZeroOrMany ->
  (List.length (sources (rw_Connections w) id (port_Name p)) <= 1)%nat.
Proof using.
  intros Hok Hn Hp Hc. destruct (lo_ports _ _ _ _ _ _ _ _ Hok _ _ _ Hn Hp) as (_ & Hlen & _). specialize (Hlen Hc).
  etransitivity; [|exact Hlen]. apply Nat.eq_le_incl.
  pose proof (lo_endpoints _ _ _ _ _ _ _ _ Hok) as Hends. revert Hends. generalize (rw_Connections w) as conns.
  induction conns as [|c conns IH]; intros Hends; [done|].
  destruct (Hends c ltac:(by left)) as (s & d & Hs & Hd & Hport).
  unfold incoming, sources in *. cbn. unfold conn_errs at 1. rewrite Hd, Hs, Hport.
  destruct (_ && _); cbn; rewrite IH by (intros c' Hc'; apply Hends; by right); done.
Qed.

(** The peers of an agent, in the nodes of the workflow. *)
Definition plays (nodes : gmap string Node) (role : string) (p : Peer) : Prop :=
  exists n, nodes !! peer_ID p = Some n /\ implements n role = true.
Lemma agent_Init_ok nodes conns id env peers :
  Env.peerResolver env = Some (makePeerResolver nodes id conns) -> agent_Init env = Ok peers ->
  sources conns id PortAILanguageModel = [peer_ID (llm peers)] /\ plays nodes RoleLLM (llm peers)
  /\ (forall m, mem peers = Some m -> sources conns id PortAIMemory = [peer_ID m] /\ plays nodes RoleMemory m)
  /\ (mem peers = None -> List.length (sources conns id PortAIMemory) <> 1%nat)
  /\ peer_ID <$> tools peers = sources conns id PortAITool /\ Forall (plays nodes RoleTool) (tools peers).
Proof using.
  intros He. unfold agent_Init, Env.env_Peer. rewrite He. rewrite <- !(resolver_ids nodes).
  pose proof (fun port p role => resolver_implements nodes id conns port p role) as Hres.
  destruct (makePeerResolver nodes id conns PortAILanguageModel) as [|l [|]] eqn:El; try done.
  destruct (peer_implements l RoleLLM) eqn:Eil; [|done]. cbn [negb].
  destruct (tool_peers (makePeerResolver nodes id conns PortAITool)) as [ts|] eqn:Et; [|by repeat case_match].
  apply tool_peers_ok in Et as [-> Hts].
  assert (Forall (plays nodes RoleTool) (makePeerResolver nodes id conns PortAITool)) as Hplay.
  { rewrite Forall_forall in *. intros p Hp. by eapply Hres; [|apply Hts]. }
  assert (plays nodes RoleLLM l) as Hl by (eapply (Hres PortAILanguageModel); [rewrite El; by left|done]).
  destruct (makePeerResolver nodes id conns PortAIMemory) as [|m [|m2 ms]] eqn:Em; cbn [res_bind].
  - intros [= <-]. cbn. by split_and!.
  - destruct (peer_implements m RoleMemory) eqn:Eim; [|done]. cbn [res_bind]. intros [= <-]. cbn.
    split_and!; try done. intros m' [= <-]. split; [done|]. eapply (Hres PortAIMemory); [rewrite Em; by left|done].
  - intros [= <-]. cbn. by split_and!.
Qed.

(** Every agent of a workflow that loads has been wired as its ports say: the one node on
    its model port is a language model, its memory, if a node is wired there, is one and
    is a memory, and its tools are exactly the nodes on the tool port, in order, each of
    them a tool. *)
Lemma agents_wired_in doc r :
  extra !! "ai/agent" = None -> load (Some doc) = Ok r ->
  exists w, dec_workflow (Envsubst.Resolve lookupEnv doc).1 = Some w
  /\ forall n, n ∈ rw_Nodes w -> rn_Type n = "ai/agent" ->
     let port := sources (rw_Connections w) (rn_ID n) in
     exists peers, agent_Init (env_of w r n) = Ok peers
     /\ port PortAILanguageModel = [peer_ID (llm peers)] /\ plays (lr_Nodes r) RoleLLM (llm peers)
     /\ port PortAIMemory = option_list (peer_ID <$> mem peers) /\ (forall m, mem peers = Some m -> plays (lr_Nodes r) RoleMemory m)
     /\ port PortAITool = peer_ID <$> tools peers /\ Forall (plays (lr_Nodes r) RoleTool) (tools peers).
Proof using Hreg.
  intros He Hload. destruct (load_one_loaded _ _ _ _ _ _ _ Hload) as [w Hok]. exists w.
  split; [apply (lo_decode _ _ _ _ _ _ _ _ Hok)|]. intros n Hn Hty. cbv zeta.
  destruct (loaded_node doc w r n Hok Hn) as (f & raw & node & Hf & Hraw & Hnode & Hinit).
  rewrite Hty, (reg_default "ai/agent" (agent_Factory world updates)) in Hf by (done || by (right; left)).
  injection Hf as <-. apply agent_typed in Hraw as [p ->]. destruct (agent_node_parts updates p) as (Hs & _ & Hi & _).
  rewrite Hi in Hinit. destruct (agent_Init _) as [peers|] eqn:Ei; [|done]. exists peers.
  destruct (agent_Init_ok (lr_Nodes r) (rw_Connections w) (rn_ID n) (env_of w r n) peers eq_refl Ei) as (H1 & H2 & H3 & H4 & H5 & H6). split_and!; try done.
  - destruct (mem peers) as [m|] eqn:Em; [apply (proj1 (H3 m eq_refl))|]. specialize (H4 eq_refl).
    pose proof (sources_bounded doc w r (rn_ID n) (agent_node updates p) (mkPort PortAIMemory CardZeroOrOne false RoleMemory) Hok Hnode) as Hb.
    rewrite Hs in Hb. specialize (Hb ltac:(right; right; left) ltac:(done)). cbn [port_Name] in Hb.
    destruct (sources _ _ PortAIMemory) as [|x [|]]; [done|by destruct H4|cbn in Hb; lia].
  - intros m Hm. apply (proj2 (H3 m Hm)).
Qed.

(** A secret that [Init] resolved is a variable that is set, to its value. *)
Lemma env_secret_ok env name s :
  env_secret env name = Ok s -> exists v, Env.env_lookup env name = Some v /\ v <> "" /\ s = Env.secret_New v.
Proof using.
  unfold env_secret, Env.Secret. destruct (str_empty name); [done|]. destruct (Env.env_lookup env name) as [v|]; [|done].
  destruct (str_empty v) eqn:E; [done|]. intros [= <-]. exists v. by apply str_empty_false in E.
Qed.
Lemma opensearch_Init_ok cfg nodes conns id env x :
  Env.peerResolver env = Some (makePeerResolver nodes id conns) -> opensearch_Init cfg env = Ok x ->
  sources conns id PortPolicy = [peer_ID (search_policy x)] /\ plays nodes RolePolicy (search_policy x)
  /\ IndexPattern.compileIndexPattern (Search.Tool.AllowedIndexPattern cfg) = Ok (allowedRegexp x)
  /\ Env.env_lookup env (Search.Tool.UserEnv cfg) = Some (Env.Reveal (user x)) /\ Env.Reveal (user x) <> ""
  /\ Env.env_lookup env (Search.Tool.PasswordEnv cfg) = Some (Env.Reveal (pass x)) /\ Env.Reveal (pass x) <> "".
Proof using.
  intros He. unfold opensearch_Init, Env.env_Peer. rewrite He. rewrite <- (resolver_ids nodes).
  destruct (env_secret env (Search.Tool.UserEnv cfg)) as [u|] eqn:Eu; [|done].
  destruct (env_secret env (Search.Tool.PasswordEnv cfg)) as [pw|] eqn:Ep; [|done]. cbn [res_bind].
  apply env_secret_ok in Eu as (vu & Hu & Hnu & ->). apply env_secret_ok in Ep as (vp & Hp & Hnp & ->).
  destruct (IndexPattern.compileIndexPattern _) as [re|]; [|done].
  destruct (makePeerResolver nodes id conns PortPolicy) as [|peer [|]] eqn:El; try done.
  destruct (peer_implements peer RolePolicy) eqn:Ei; [|done]. intros [= <-]. cbn. split_and!; try done.
  eapply resolver_implements; [rewrite El; by left|done].
Qed.

(** A node that implements the policy interface comes from the service's own factories. *)
Lemma policy_is_extra doc w r id n :
  ok doc w r -> lr_Nodes r !! id = Some n -> implements n RolePolicy = true ->
  exists rn, rn ∈ rw_Nodes w /\ rn_ID rn = id /\ is_Some (extra !! rn_Type rn).
Proof using Hreg.
  intros Hok Hn Hp. assert (id ∈ rn_ID <$> rw_Nodes w) as Hid by (apply (lo_domain _ _ _ _ _ _ _ _ Hok); by eexists).
  apply list_elem_of_fmap in Hid as (rn & -> & Hrn). exists rn. split_and!; [done|done|].
  destruct (loaded_node doc w r rn Hok Hrn) as (f & raw & node & Hf & Hraw & Hnode & _).
  rewrite Hn in Hnode. injection Hnode as <-. rewrite Hreg in Hf. destruct (extra !! rn_Type rn); [by eexists|].
  apply default_lookup in Hf. destruct (default_node_typed _ _ _ _ _ _ Hf Hraw) as (_ & _ & _ & Hnp & _). congruence.
Qed.

(** The configuration a search tool runs with is the one written at its node: none of its
    fields may be replaced by a stored prompt. *)
Definition own_config (n : rawNode) (cfg : Search.Tool.Config) : Prop :=
  exists raw, rn_Config n = Some raw /\ Search.Tool.Factory raw = Ok cfg
    /\ as_obj (Some raw) !! "userEnv" = Some (JStr (Search.Tool.UserEnv cfg))
    /\ as_obj (Some raw) !! "passwordEnv" = Some (JStr (Search.Tool.PasswordEnv cfg))
    /\ as_obj (Some raw) !! "allowedIndexPattern" = Some (JStr (Search.Tool.AllowedIndexPattern cfg)).

Lemma dec_str_set v s : dec_str v = Some s -> str_empty s = false -> v = Some (JStr s).
Proof using. unfold dec_str. destruct v as [[]|]; intros [= <-] H; done. Qed.

Lemma search_own_config n cfg :
  present Search.Tool.ConfigParse Search.Tool.Factory (rn_Config n) = Ok cfg -> own_config n cfg.
Proof using.
  unfold present. destruct (rn_Config n) as [raw|] eqn:En; [|done]. intros Hf. exists raw. split; [done|]. split; [exact Hf|].
  revert Hf. unfold Search.Tool.Factory. destruct (Search.Tool.dec_config raw) as [c0|] eqn:E; [|done]. cbn [ok_or res_bind].
  destruct (str_empty (Search.Tool.Host c0)); [done|]. destruct (str_empty (Search.Tool.UserEnv c0)) eqn:E1; [done|].
  destruct (str_empty (Search.Tool.PasswordEnv c0)) eqn:E2; [done|]. cbn [orb].
  destruct (str_empty (Search.Tool.ToolDescription c0)); [done|].
  destruct (str_empty (Search.Tool.AllowedIndexPattern c0)) eqn:E3; [done|]. intros [= <-].
  unfold Search.Tool.dec_config in E. apply bind_Some in E as (m & Hm & E).
  assert (as_obj (Some raw) = m) as -> by (unfold dec_struct in Hm; destruct raw; simplify_eq; reflexivity).
  apply bind_Some in E as (? & _ & E). apply bind_Some in E as (u & Hu & E). apply bind_Some in E as (pw & Hpw & E).
  apply bind_Some in E as (? & _ & E). apply bind_Some in E as (? & _ & E). apply bind_Some in E as (? & _ & E).
  apply bind_Some in E as (? & _ & E). apply bind_Some in E as (? & _ & E). apply bind_Some in E as (pat & Hpat & E).
  injection E as <-. cbn in *. split_and!; by apply dec_str_set.
Qed.

(** A search node is the one its configuration builds. *)
Lemma loaded_search doc w r n : ok doc w r -> extra !! "tool/opensearch" = None -> n ∈ rw_Nodes w ->
  rn_Type n = "tool/opensearch" ->
  exists cfg, own_config n cfg /\ lr_Nodes r !! rn_ID n = Some (opensearch_node cfg)
    /\ failure_of (opensearch_Init cfg (env_of w r n)) = None.
Proof using Hreg.
  intros Hok He Hin Hty. pose proof (lo_built _ _ _ _ _ _ _ _ Hok) as Hb. rewrite Forall_forall in Hb.
  destruct (Hb n Hin) as (f & inst & Hf & Hi & Hn). pose proof (lo_init _ _ _ _ _ _ _ _ Hok _ _ Hn) as Hinit.
  rewrite Hty in Hf.
  pose proof (reg_default "tool/opensearch" opensearch_Factory He ltac:(do 6 right; left)) as Hr.
  assert (Some f = Some opensearch_Factory) as [= ->] by exact (eq_trans (eq_sym Hf) Hr).
  apply built_with in Hi as (cfg & Hc & ->). exists cfg.
  assert (applyOverrides validate_template lookupEnv reg prompts (rw_ID w) n (opensearch_node cfg) = opensearch_node cfg) as E
    by (unfold applyOverrides; by destruct prompts).
  rewrite E in Hn, Hinit. split_and!; [by apply search_own_config|exact Hn|exact Hinit].
Qed.

Lemma search_guarded_in doc r :
  extra !! "tool/opensearch" = None -> load (Some doc) = Ok r ->
  exists w, dec_workflow (Envsubst.Resolve lookupEnv doc).1 = Some w
  /\ forall n, n ∈ rw_Nodes w -> rn_Type n = "tool/opensearch" ->
     exists cfg x pn, own_config n cfg /\ lr_Nodes r !! rn_ID n = Some (opensearch_node cfg)
     /\ opensearch_Init cfg (env_of w r n) = Ok x
     /\ sources (rw_Connections w) (rn_ID n) PortPolicy = [peer_ID (search_policy x)]
     /\ pn ∈ rw_Nodes w /\ rn_ID pn = peer_ID (search_policy x) /\ is_Some (extra !! rn_Type pn)
     /\ plays (lr_Nodes r) RolePolicy (search_policy x)
     /\ IndexPattern.compileIndexPattern (Search.Tool.AllowedIndexPattern cfg) = Ok (allowedRegexp x)
     /\ lookupEnv (Search.Tool.UserEnv cfg) = Some (Env.Reveal (user x)) /\ Env.Reveal (user x) <> ""
     /\ lookupEnv (Search.Tool.PasswordEnv cfg) = Some (Env.Reveal (pass x)) /\ Env.Reveal (pass x) <> "".
Proof using Hreg.
  intros He Hload. destruct (load_one_loaded _ _ _ _ _ _ _ Hload) as [w Hok]. exists w.
  split; [apply (lo_decode _ _ _ _ _ _ _ _ Hok)|]. intros n Hn Hty.
  destruct (loaded_search doc w r n Hok He Hn Hty) as (cfg & Hcfg & Hnode & Hinit).
  destruct (opensearch_Init cfg (env_of w r n)) as [x|] eqn:Ei; [|done].
  destruct (opensearch_Init_ok cfg (lr_Nodes r) (rw_Connections w) (rn_ID n) (env_of w r n) x eq_refl Ei) as (H1 & H2 & H3 & H4 & H5 & H6 & H7).
  destruct H2 as (pnode & Hp & Himp). destruct (policy_is_extra doc w r _ _ Hok Hp Himp) as (pn & Hpn & Hid & Hex).
  exists cfg, x, pn. split_and!; try assumption. by exists pnode.
Qed.
End loaded.

(** C13: Every agent of a workflow that loads has been wired as its ports say: the one node on
    its model port is a language model, its memory, if a node is wired there, is one and
    is a memory, and its tools are exactly the nodes on the tool port, in order, each of
    them a tool. *)
Theorem agents_wired world updates extra reg validate_template lookupEnv hosts prompts doc r :
  buildRegistry world updates extra = Ok reg -> extra !! "ai/agent" = None ->
  LoadOne validate_template lookupEnv reg hosts prompts (Some doc) = Ok r ->
  exists w, dec_workflow (Envsubst.Resolve lookupEnv doc).1 = Some w
  /\ forall n, n ∈ rw_Nodes w -> rn_Type n = "ai/agent" ->
     let port := sources (rw_Connections w) (rn_ID n) in
     exists peers,
       agent_Init (envForNode lookupEnv hosts (rw_ID w) (lr_RetryByNode r) (lr_Nodes r) (rw_Connections w) (rn_ID n)) = Ok peers
     /\ port PortAILanguageModel = [peer_ID (llm peers)] /\ plays (lr_Nodes r) RoleLLM (llm peers)
     /\ port PortAIMemory = option_list (peer_ID <$> mem peers) /\ (forall m, mem peers = Some m -> plays (lr_Nodes r) RoleMemory m)
     /\ port PortAITool = peer_ID <$> tools peers /\ Forall (plays (lr_Nodes r) RoleTool) (tools peers).
Proof. intros Hr He Hl. eapply agents_wired_in; [by apply buildRegistry_lookup|done|done]. Qed.

(** C6: The search tool is never unguarded: in a workflow that loads, each search tool runs with
    the configuration written at its node, the variables named there for its credentials
    are set and hold what it uses, the index pattern written there is compiled, and it has
    exactly one policy, a node that implements the policy interface and that the service's
    own factories built, for no built-in node is a policy; so a service without factories
    of its own loads no workflow with a search tool. *)
Theorem search_guarded world updates extra reg validate_template lookupEnv hosts prompts doc r :
  buildRegistry world updates extra = Ok reg -> extra !! "tool/opensearch" = None ->
  LoadOne validate_template lookupEnv reg hosts prompts (Some doc) = Ok r ->
  exists w, dec_workflow (Envsubst.Resolve lookupEnv doc).1 = Some w
  /\ (forall n, n ∈ rw_Nodes w -> rn_Type n = "tool/opensearch" ->
     exists cfg x pn, own_config n cfg /\ lr_Nodes r !! rn_ID n = Some (opensearch_node cfg)
     /\ opensearch_Init cfg (envForNode lookupEnv hosts (rw_ID w) (lr_RetryByNode r) (lr_Nodes r) (rw_Connections w) (rn_ID n)) = Ok x
     /\ sources (rw_Connections w) (rn_ID n) PortPolicy = [peer_ID (search_policy x)]
     /\ pn ∈ rw_Nodes w /\ rn_ID pn = peer_ID (search_policy x) /\ is_Some (extra !! rn_Type pn)
     /\ plays (lr_Nodes r) RolePolicy (search_policy x)
     /\ IndexPattern.compileIndexPattern (Search.Tool.AllowedIndexPattern cfg) = Ok (allowedRegexp x)
     /\ lookupEnv (Search.Tool.UserEnv cfg) = Some (Env.Reveal (user x)) /\ Env.Reveal (user x) <> ""
     /\ lookupEnv (Search.Tool.PasswordEnv cfg) = Some (Env.Reveal (pass x)) /\ Env.Reveal (pass x) <> "")
  /\ (extra = ∅ -> forall n, n ∈ rw_Nodes w -> rn_Type n <> "tool/opensearch").
Proof.
  intros Hr He Hl. destruct (search_guarded_in _ _ _ _ (buildRegistry_lookup _ _ _ _ Hr) _ _ _ _ _ _ He Hl) as (w & Hw & H).
  exists w. split_and!; [done|done|]. intros -> n Hn Hty. destruct (H n Hn Hty) as (_ & _ & pn & _ & _ & _ & _ & _ & _ & [f Hf] & _).
  by rewrite lookup_empty in Hf.
Qed.

(** ** A concrete service *)
Module BuiltinExamples.

Definition no_table : TableWorld :=
  mkTableWorld (fun _ => 0) (fun _ => None) (Ok Provision.TableActive) None (fun _ => Ok Provision.TableActive)
    (Ok (Provision.TTLEnabled "expires_at")) None (fun _ => Ok Provision.TTLOff).
Definition quiet {A} (_ : A) : option string := None.
Definition demo_world : World :=
  mkWorld quiet quiet quiet quiet quiet None quiet quiet quiet quiet (fun _ => Some "/") (fun _ => no_table).
Definition demo_hosts : gmap string Host := list_to_map [("nats", NatsHost true); ("nats_basePath", TextHost "svc")].
Definition demo_lookup (n : string) : option string :=
  if String.eqb n "OS_USER" then Some "reader" else if String.eqb n "OS_PASS" then Some "pw" else None.
(** A policy of the service's own. *)
Definition scope_Factory : Factory := fun _ =>
  Ok (mkNode (mkNodeSpec "policy/scope" RolePolicy []) (String.eqb RolePolicy) None None (fun _ => None) None).
Definition demo_extra : gmap string Factory := {["policy/scope" := scope_Factory]}.
Definition demo_reg (extra : gmap string Factory) : Registry :=
  match buildRegistry demo_world 1 extra with Ok reg => reg | Err _ => ∅ end.
Definition cfg_node (id ty : string) (cfg : list (string * json)) : json := demo_raw_node id ty [("config", jobj cfg)].
Definition demo_nodes : list json :=
  [cfg_node "a" "ai/agent" [("systemMessage", JStr "serve")];
   cfg_node "m" "ai/inference-gateway" [("alias", JStr "FAST")];
   cfg_node "p" "policy/scope" [];
   cfg_node "s" "tool/opensearch"
     [("host", JStr "https://os"); ("userEnv", JStr "OS_USER"); ("passwordEnv", JStr "OS_PASS");
      ("toolDescription", JStr "searches claims"); ("allowedIndexPattern", JStr "prod.cpe-*")];
   cfg_node "t" "trigger/nats-chat" [("responseMode", JStr "streaming")]].
Definition demo_doc (wires : list json) : json :=
  jobj [("id", JStr "wf"); ("version", JNum 1); ("trigger", JStr "t"); ("nodes", JArr demo_nodes); ("connections", JArr wires)].
Definition agent_wires : list json :=
  [demo_wire "t" "a" PortMain; demo_wire "m" "a" PortAILanguageModel; demo_wire "s" "a" PortAITool].
Definition demo_load (extra : gmap string Factory) (wires : list json) : res load_error LoadResult :=
  LoadOne (fun _ => None) demo_lookup (demo_reg extra) demo_hosts None (Some (demo_doc wires)).
Definition wires : list json := demo_wire "p" "s" PortPolicy :: agent_wires.

(** The search tool loads with a policy of the service's own, and not with a node that only
    declares the role. *)
Example load_ex :
  match demo_load demo_extra wires with Ok r => lr_TopoOrder r | Err _ => [] end = ["m"; "p"; "t"; "s"; "a"]
  /\ demo_load (<["policy/scope" := rewrite_Factory demo_world]> demo_extra) wires =
       Err (LE_init "s" "tool/opensearch: peer is not a Policy")
  /\ demo_load ∅ wires = Err (LE_unknown_type "p" "policy/scope")
  /\ demo_load demo_extra agent_wires = Err (LE_connections [CE_exactly_one "s" PortPolicy 0; CE_unwired "s" PortPolicy]).
Proof. vm_compute. by split_and!. Qed.

Lemma demo_reg_ok : buildRegistry demo_world 1 demo_extra = Ok (demo_reg demo_extra).
Proof. unfold demo_reg. destruct (buildRegistry_spec demo_world 1 demo_extra) as (reg & -> & _). reflexivity. Qed.

Definition demo_r : LoadResult :=
  match demo_load demo_extra wires with Ok r => r | Err _ => mkLoadResult "" "" None "" ∅ [] [] ∅ ∅ end.
Lemma demo_loads : LoadOne (fun _ => None) demo_lookup (demo_reg demo_extra) demo_hosts None (Some (demo_doc wires)) = Ok demo_r.
Proof.
  assert (is_ok (demo_load demo_extra wires) = true) as H by (vm_compute; reflexivity).
  unfold demo_r. unfold demo_load in *. by destruct (LoadOne _ _ _ _ _ _).
Qed.

Lemma agents_wired_witness :
  exists w, dec_workflow (Envsubst.Resolve demo_lookup (demo_doc wires)).1 = Some w
  /\ exists n peers, n ∈ rw_Nodes w /\ rn_Type n = "ai/agent"
     /\ sources (rw_Connections w) (rn_ID n) PortAILanguageModel = [peer_ID (llm peers)].
Proof.
  destruct (agents_wired demo_world 1 demo_extra (demo_reg demo_extra) (fun _ => None) demo_lookup demo_hosts None (demo_doc wires)
    demo_r demo_reg_ok eq_refl demo_loads) as (w & Hw & H).
  exists w. split; [exact Hw|].
  assert (exists n, n ∈ rw_Nodes w /\ rn_Type n = "ai/agent") as (n & Hn & Ht).
  { vm_compute in Hw. injection Hw as <-. eexists. split; [left|reflexivity]. }
  destruct (H n Hn Ht) as (peers & _ & Hp & _). exists n, peers. split; [exact Hn|]. split; [exact Ht|exact Hp].
Defined.

Lemma search_guarded_witness :
  exists w, dec_workflow (Envsubst.Resolve demo_lookup (demo_doc wires)).1 = Some w
  /\ exists n pn, n ∈ rw_Nodes w /\ rn_Type n = "tool/opensearch" /\ pn ∈ rw_Nodes w /\ is_Some (demo_extra !! rn_Type pn)
     /\ sources (rw_Connections w) (rn_ID n) PortPolicy = [rn_ID pn].
Proof.
  destruct (search_guarded demo_world 1 demo_extra (demo_reg demo_extra) (fun _ => None) demo_lookup demo_hosts None (demo_doc wires)
    demo_r demo_reg_ok eq_refl demo_loads) as (w & Hw & H & _).
  exists w. split; [exact Hw|].
  assert (exists n, n ∈ rw_Nodes w /\ rn_Type n = "tool/opensearch") as (n & Hn & Ht).
  { vm_compute in Hw. injection Hw as <-. eexists. split; [do 3 right; left|reflexivity]. }
  destruct (H n Hn Ht) as (cfg & x & pn & _ & _ & _ & Hs & Hpn & Hid & Hex & _). exists n, pn.
  rewrite Hid. split; [exact Hn|]. split; [exact Ht|]. split; [exact Hpn|]. split; [exact Hex|exact Hs].
Defined.

Lemma defaults_typed_witness :
  exists n, chat_Factory demo_world (Some (jobj [("responseMode", JStr "single")])) = Ok n /\ typed_node "trigger/nats-chat" n.
Proof.
  eexists. split; [vm_compute; reflexivity|].
  apply (defaults_typed demo_world 1 "trigger/nats-chat" (chat_Factory demo_world) (Some (jobj [("responseMode", JStr "single")])));
    [left|vm_compute; reflexivity].
Defined.
End BuiltinExamples.
