(* ===== verification/Service.v ===== *)
(** * The service as a whole (agent/, pkg/config, pkg/workflowlist, engine.New)

    - [Options]: the functional options of [NewService];
    - [Boot]: the settings read from the environment, and [Run]: what the service does
      from its first call to the end of its shutdown, as the ordered list of its actions
      and the error it ends with;
    - [WorkflowList]: the answer of the ListWorkflows endpoint.

    The calls of libraries are parameters: what each of them fails with.  [Run] blocks on
    a signal; the model continues after it. *)

From S2P Require Import Prelude Json Scan Retry Template Loader Engine Chat Assistant.
From S2P Require Import Node Builtin.
From stdpp Require Import base tactics list strings gmap option fin_maps sorting.
From Stdlib Require Import ZArith Lia Ascii String.
Local Open Scope string_scope.
Local Open Scope list_scope.
Local Open Scope Z_scope.

(** ** options.go *)
Module Options.

Record Service := mkService {
  workflowsDir : string;
  appName : string;
  repositoryURL : string;
  extraFactories : gmap string Factory;
  extraHosts : gmap string Host;
  logger : bool;                       (* whether a logger of the caller's is used *)
}.
Inductive Option_ :=
| WithWorkflowsDir (dir : string)
| WithNode (typeKey : string) (f : Factory)
| WithHost (key : string) (h : Host)
| WithAppName (name : string)
| WithRepositoryURL (url : string)
| WithLogger (l : bool).
Definition or_keep (s keep : string) : string := if str_empty s then keep else s.
Definition apply (s : Service) (o : Option_) : Service :=
  match o with
  | WithWorkflowsDir dir => mkService (or_keep dir (workflowsDir s)) (appName s) (repositoryURL s) (extraFactories s) (extraHosts s) (logger s)
  | WithNode k f => mkService (workflowsDir s) (appName s) (repositoryURL s) (<[k := f]> (extraFactories s)) (extraHosts s) (logger s)
  | WithHost k h => mkService (workflowsDir s) (appName s) (repositoryURL s) (extraFactories s) (<[k := h]> (extraHosts s)) (logger s)
  | WithAppName name => mkService (workflowsDir s) (or_keep name (appName s)) (repositoryURL s) (extraFactories s) (extraHosts s) (logger s)
  | WithRepositoryURL url => mkService (workflowsDir s) (appName s) (or_keep url (repositoryURL s)) (extraFactories s) (extraHosts s) (logger s)
  | WithLogger l => mkService (workflowsDir s) (appName s) (repositoryURL s) (extraFactories s) (extraHosts s) l
  end.
Definition defaultService : Service :=
  mkService "./workflows" "ai-agent-service" "https://github.com/transactrx/ai-agent-go-service" ∅ ∅ false.
Definition NewService (opts : list Option_) : Service := foldl apply defaultService opts.

(** The texts of a service are never empty, whatever the options. *)
Lemma NewService_texts opts :
  workflowsDir (NewService opts) <> "" /\ appName (NewService opts) <> "" /\ repositoryURL (NewService opts) <> "".
Proof.
  unfold NewService. induction opts as [|o opts IH] using rev_ind; [by split_and!|].
  rewrite foldl_snoc. destruct IH as (H1 & H2 & H3).
  destruct o; cbn [apply workflowsDir appName repositoryURL]; split_and!; try done; unfold or_keep;
    (destruct (str_empty _) eqn:E; [done|by apply str_empty_false]).
Qed.
End Options.

(** ** pkg/workflowlist *)
Module WorkflowList.
Import Engine.Loading.

Record WorkflowInfo := mkInfo { ID : string; Description : string }.
(** [sort.Slice] by id *)
Fixpoint insert_info (x : WorkflowInfo) (l : list WorkflowInfo) : list WorkflowInfo :=
  match l with
  | [] => [x]
  | y :: l' => if String.leb (ID x) (ID y) then x :: l else y :: insert_info x l'
  end.
Definition sort_infos (l : list WorkflowInfo) : list WorkflowInfo := foldr insert_info [] l.
Definition listWorkflows (e : Engine) : list WorkflowInfo :=
  sort_infos (omap (fun id => wf ← GetWorkflow e id; Some (mkInfo (wf_ID wf) (wf_Description wf))) (WorkflowIDs e)).
(** [handleList]: the body of the answer *)
Definition buildListBody (e : Engine) : json :=
  JArr (List.map (fun i => jobj [("id", JStr (ID i)); ("description", JStr (Description i))]) (listWorkflows e)).

Definition info_le (x y : WorkflowInfo) : Prop := String.leb (ID x) (ID y) = true.
Lemma insert_info_perm x l : insert_info x l ≡ₚ x :: l.
Proof. induction l as [|y l IH]; simpl; [done|]. destruct (String.leb _ _); [done|]. rewrite IH. constructor. Qed.
Lemma sort_infos_perm l : sort_infos l ≡ₚ l.
Proof. induction l as [|x l IH]; simpl; [done|]. by rewrite insert_info_perm, IH. Qed.
Lemma leb_total a b : String.leb a b = false -> String.leb b a = true.
Proof. destruct (String.leb_total a b) as [H|H]; [congruence|done]. Qed.
Lemma insert_info_sorted x l : Sorted info_le l -> Sorted info_le (insert_info x l).
Proof.
  induction 1 as [|y l Hs IH Hd]; simpl; [repeat constructor|].
  destruct (String.leb (ID x) (ID y)) eqn:E; [by repeat constructor|]. apply leb_total in E.
  constructor; [done|]. destruct Hd as [|z l Hz]; simpl; [by constructor|]. destruct (String.leb (ID x) (ID z)); by constructor.
Qed.
Lemma sort_infos_sorted l : Sorted info_le (sort_infos l).
Proof. induction l as [|x l IH]; simpl; [constructor|]. by apply insert_info_sorted. Qed.

(** The list names every loaded workflow with its description, once, and nothing else, in
    the order of the ids. *)
Lemma listWorkflows_spec e : (forall id wf, workflows e !! id = Some wf -> wf_ID wf = id) ->
  Sorted info_le (listWorkflows e) /\ NoDup (ID <$> listWorkflows e)
  /\ forall i, i ∈ listWorkflows e <-> exists wf, workflows e !! ID i = Some wf /\ wf_Description wf = Description i.
Proof.
  intros Hid. unfold listWorkflows. set (l := omap _ _). split; [apply sort_infos_sorted|].
  assert (l = (fun kv => mkInfo kv.1 (wf_Description kv.2)) <$> map_to_list (workflows e)) as E.
  { unfold l, WorkflowIDs, GetWorkflow.
    assert (forall kv, kv ∈ map_to_list (workflows e) -> workflows e !! kv.1 = Some kv.2) as Hl
      by (intros [k wf] H; by apply elem_of_map_to_list).
    revert Hl. generalize (map_to_list (workflows e)) as kvs. induction kvs as [|[k wf] kvs IH]; intros Hl; [done|].
    specialize (Hl (k, wf) ltac:(by left)) as Hk. cbn in Hk. cbn. rewrite Hk. cbn. rewrite (Hid _ _ Hk). f_equal.
    apply IH. intros kv Hkv. apply Hl. by right. }
  split.
  - assert (ID <$> sort_infos l ≡ₚ (ID <$> l)) as -> by (by rewrite sort_infos_perm). rewrite E, <- list_fmap_compose.
    apply NoDup_fst_map_to_list.
  - intros i. rewrite sort_infos_perm, E, list_elem_of_fmap. split.
    + intros ([k wf] & -> & H). apply elem_of_map_to_list in H. by exists wf.
    + intros (wf & Hw & Hd). exists (ID i, wf). split; [destruct i; cbn in *; by subst|]. by apply elem_of_map_to_list.
Qed.
End WorkflowList.

(** ** pkg/config, bucket.go, service.go *)
Module Boot.
Import Options Engine.Loading.

(** *** The settings *)
Record Config := mkConfig {
  NatsURL : string;
  NatsJWT : string;
  NatsKey : string;
  NatsQueueName : string;
  NatsBasePath : string;
  Region : string;
}.
Section env.
Variable getenv : string -> string.
(** [log.Panicf]: the error names the variable. *)
Definition getEnvOrPanic (key : string) : res string string :=
  let v := getenv key in if str_empty v then Err key else Ok v.
Definition getEnvOrDefault (key def : string) : string := let v := getenv key in if str_empty v then def else v.
#[local] Open Scope go_scope.
Definition Load : res string Config :=
  let! url := getEnvOrPanic "NATS_URL" in
  let jwt := getEnvOrDefault "NATS_JWT" "" in
  let key := getEnvOrDefault "NATS_KEY" "" in
  let! queue := getEnvOrPanic "NATS_QUEUE_NAME" in
  let! base := getEnvOrPanic "NATS_BASE_PATH" in
  Ok (mkConfig url jwt key queue base (getEnvOrDefault "AWS_REGION" "unknown")).

Definition resolveFilesBucket : string :=
  let b := trim_space (getenv "S3_FILES_BUCKET") in
  if negb (str_empty b) then b
  else
    let app := trim_space (getenv "APP_NAME") in
    let env := trim_space (getenv "ENVIRONMENT") in
    if str_empty app || str_empty env then ""
    else to_lower app +:+ "-assistant-files-" +:+ to_lower env.
(** The prompt store's table and region; no table disables the store. *)
Definition promptTable : string :=
  let t := trim_space (getenv "DYNAMODB_PROMPTS_TABLE") in
  if negb (str_empty t) then t
  else
    let app := trim_space (getenv "APP_NAME") in
    if str_empty app then "" else to_lower app +:+ "-assistant-prompts".
Definition promptRegion : string :=
  let r := trim_space (getenv "AWS_REGION_DYNAMODB") in if str_empty r then "us-east-1" else r.
End env.

(** *** Run *)
Inductive action :=
| NewNats (basePath queue url : string)
| NewUploader (bucket : string)
| NewStore (table region : string)
| Provision
| LoadWorkflows (ids : list string)
| AddEndpoints (paths : list string)
| SubscribeBroadcast (subject : string)
| StartNats
| PublishAgents (names : list string)
| AwaitSignal
| ShutdownAgents (names : list string)
| ShutdownEngine (closed : list (string * string))
| ShutdownNats.
Inductive boot_error :=
| MissingEnv (key : string)            (* a panic *)
| NatsInit (e : string)
| S3Init (e : string)
| RegistryFailed (taken : list string)
| SourceFailed (e : string)
| NoWorkflows
| NatsStart (e : string).

(** What the calls of libraries answer. *)
Record Calls := mkCalls {
  NewLowLevel : option string;
  nats_connected : bool;
  s3files_New : string -> option string;
  promptstore_New : string -> string -> res string (string -> string -> string -> res string (option string));
  store_Provision : option string;
  list_ids : res string (list string);
  load_raw : string -> res string (option json);
  validate_template : string -> option string;
  subscribe : string -> Node -> option string;
  access_aware : Node -> bool;
  AddEndpointWithDocs : list string -> option string;
  conn_Subscribe : option string;
  nats_Start : option string;
  chat_endpoint : Node -> option Publish.ChatEndpoint;
  client_only : Node -> bool;
  agent_New : Card.CardSpec -> string * string -> option string;
  agent_Start : Card.CardSpec -> option string;
  close : string -> string -> option string;
}.

(** A program that logs its actions and may end with an error. *)
Definition prog (A : Type) : Type := list action * res boot_error A.
Definition bind {A B} (m : prog A) (k : A -> prog B) : prog B :=
  match m with
  | (log, Ok x) => let '(log', r) := k x in (log ++ log', r)
  | (log, Err e) => (log, Err e)
  end.
Definition ret {A} (x : A) : prog A := ([], Ok x).
Definition raise {A} (e : boot_error) : prog A := ([], Err e).
Definition act (a : action) : prog unit := ([a], Ok tt).
(** A call whose failure ends the boot. *)
Definition must (a : action) (e : option string) (wrap : string -> boot_error) : prog unit :=
  ([a], match e with Some e => Err (wrap e) | None => Ok tt end).
#[local] Notation "'do!' x := m 'in' k" := (bind m (fun x => k)) (at level 200, x name, m at level 100, k at level 200).

Section run.
Variable world : World.
Variable updates : nat.
Variable c : Calls.
#[local] Abbreviation getenv := (getenv world).
#[local] Abbreviation lookupEnv := (os_env world).

(** The prompt store, when its table can be named, opened and prepared. *)
Definition openStore : prog (option Host) :=
  let table := promptTable getenv in
  let region := promptRegion getenv in
  if str_empty table then ret None
  else
    match promptstore_New c table region with
    | Err _ => ([NewStore table region], Ok None)
    | Ok latest =>
        ([NewStore table region; Provision],
         Ok (match store_Provision c with Some _ => None | None => Some (StoreHost latest) end))
    end.
Definition hosts_of (s : Service) (cfg : Config) (store : option Host) : gmap string Host :=
  let h := <["nats" := NatsHost (nats_connected c)]> (<["nats_basePath" := TextHost (NatsBasePath cfg)]>
             (<["s3files" := UploaderHost]> ∅)) in
  let h := match store with Some p => <["promptstore" := p]> h | None => h end in
  extraHosts s ∪ h.
(** [engine.New]: the loader's prompt overrides are those of the hosts. *)
Definition prompts_of (hosts : gmap string Host) : option (string -> string -> string -> res string (option string)) :=
  match hosts !! "promptstore" with Some (StoreHost latest) => Some latest | _ => None end.

Definition loadEngine (reg : Registry) (hosts : gmap string Host) : prog Engine :=
  match LoadAll (validate_template c) lookupEnv reg hosts (prompts_of hosts) (subscribe c) (access_aware c)
          (list_ids c) (load_raw c) New with
  | (Err e, _) => raise (SourceFailed e)
  | (Ok _, eng) =>
      let ids := WorkflowIDs eng in
      ([LoadWorkflows ids], match ids with [] => Err NoWorkflows | _ => Ok eng end)
  end.
(** [workflowlist.Register], [promptadmin.Register]: failures are logged and disable the
    feature. *)
Definition registerList : prog unit := act (AddEndpoints ["ListWorkflows"]).
Definition promptPaths : list string := ["PromptGet"; "PromptSave"; "PromptHistory"].
Definition registerAdmin (cfg : Config) (hosts : gmap string Host) : prog unit :=
  match hosts !! "promptstore" with
  | Some (StoreHost _) =>
      match AddEndpointWithDocs c promptPaths with
      | Some _ => act (AddEndpoints promptPaths)
      | None => ([AddEndpoints promptPaths; SubscribeBroadcast (NatsBasePath cfg +:+ ".promptChanged")], Ok tt)
      end
  | _ => ret tt
  end.
Definition publish (eng : Engine) : prog (option Publish.Runtime) :=
  if Assistant.Config.EnabledFromEnv lookupEnv then
    match Publish.Start (chat_endpoint c) (client_only c) (agent_New c) (agent_Start c) lookupEnv eng with
    | None => ret None
    | Some rt => ([PublishAgents (Publish.Names rt)], Ok (Some rt))
    end
  else ret None.
(** From the signal on: nothing fails any more. *)
Definition shutdown (eng : Engine) (rsa : option Publish.Runtime) : prog unit :=
  let '(_, eng') := Shutdown (close c) eng in
  ([AwaitSignal]
   ++ match rsa with Some rt => [ShutdownAgents (Publish.Names rt)] | None => [] end
   ++ [ShutdownEngine (closed eng'); ShutdownNats], Ok tt).

Definition Run (s : Service) : prog unit :=
  match Load getenv with
  | Err key => raise (MissingEnv key)
  | Ok cfg =>
      do! _ := must (NewNats (NatsBasePath cfg) (NatsQueueName cfg) (NatsURL cfg)) (NewLowLevel c) NatsInit in
      let bucket := resolveFilesBucket getenv in
      do! _ := must (NewUploader bucket) (s3files_New c bucket) S3Init in
      do! store := openStore in
      let hosts := hosts_of s cfg store in
      match buildRegistry world updates (extraFactories s) with
      | Err taken => raise (RegistryFailed taken)
      | Ok reg =>
          do! eng := loadEngine reg hosts in
          do! _ := registerList in
          do! _ := registerAdmin cfg hosts in
          do! _ := must StartNats (nats_Start c) NatsStart in
          do! rsa := publish eng in
          shutdown eng rsa
      end
  end.

(** *** Properties *)

Lemma registerOne_down vt lk reg hosts ps sub aware raw e :
  down (registerOne vt lk reg hosts ps sub aware raw e).2 = down e /\ closed (registerOne vt lk reg hosts ps sub aware raw e).2 = closed e.
Proof using.
  unfold registerOne. destruct (LoadOne _ _ _ _ _ _) as [r|]; [|done]. destruct (_ !! _); [|done].
  destruct (aware _); destruct (sub _ _); done.
Qed.
Lemma LoadAll_fresh vt lk reg hosts ps sub aware ids raw rep eng :
  LoadAll vt lk reg hosts ps sub aware ids raw New = (Ok rep, eng) -> down eng = false /\ closed eng = [].
Proof using.
  unfold LoadAll. destruct ids as [ids|]; [|done]. set (ix := index_all _ _). set (l := loadable _). clearbody l.
  assert (forall st, down st.2 = false /\ closed st.2 = [] ->
    down (foldl (load_one_id vt lk reg hosts ps sub aware ix) st l).2 = false
    /\ closed (foldl (load_one_id vt lk reg hosts ps sub aware ix) st l).2 = []) as H.
  { induction l as [|id l IH]; intros [rep' e] He; [done|]. cbn [foldl]. apply IH. unfold load_one_id.
    destruct (dupes ix !! id); [done|]. destruct (resolve_extends _ _) as [r|]; [|done].
    pose proof (registerOne_down vt lk reg hosts ps sub aware r e) as [H1 H2].
    destruct (registerOne _ _ _ _ _ _ _ r e) as [[[]|] e']; cbn in *; by rewrite H1, H2. }
  specialize (H (mkReport [] (unread ix), New) ltac:(done)). destruct (foldl _ _ _) as [rep' e']. by intros [= <- <-].
Qed.

(** A started engine serves at least one workflow and has closed nothing. *)
Lemma loadEngine_ok reg hosts log eng :
  loadEngine reg hosts = (log, Ok eng) -> log = [LoadWorkflows (WorkflowIDs eng)] /\ WorkflowIDs eng <> [] /\ down eng = false /\ closed eng = [].
Proof using.
  unfold loadEngine. destruct (LoadAll _ _ _ _ _ _ _ _ _ _) as [[rep|e] eng'] eqn:E; [|done].
  apply LoadAll_fresh in E. destruct (WorkflowIDs eng') as [|x l] eqn:Ei; [done|]. intros [= <- <-]. by rewrite Ei.
Qed.

(** The actions that serve or stop serving. *)
Definition preparatory (a : action) : bool :=
  match a with
  | NewNats _ _ _ | NewUploader _ | NewStore _ _ | Provision | LoadWorkflows _ | AddEndpoints _ | SubscribeBroadcast _ => true
  | _ => false
  end.
Lemma openStore_prep : exists log store, openStore = (log, Ok store) /\ forallb preparatory log = true.
Proof using.
  unfold openStore. destruct (str_empty _); [by eexists _, _|]. destruct (promptstore_New _ _ _); by eexists _, _.
Qed.
Lemma registerAdmin_prep cfg hosts : exists log, registerAdmin cfg hosts = (log, Ok tt) /\ forallb preparatory log = true.
Proof using.
  unfold registerAdmin. destruct (hosts !! _) as [[]|]; try (by eexists). destruct (AddEndpointWithDocs c promptPaths); by eexists.
Qed.
Lemma publish_log eng : exists rsa, publish eng = (match rsa with Some rt => [PublishAgents (Publish.Names rt)] | None => [] end, Ok rsa).
Proof using.
  unfold publish. destruct (Assistant.Config.EnabledFromEnv _); [|by exists None].
  destruct (Publish.Start _ _ _ _ _ _) as [rt|]; [by exists (Some rt)|by exists None].
Qed.

#[local] Opaque buildRegistry LoadAll.
(** What must hold for the service to serve. *)
Definition required (s : Service) (cfg : Config) (reg : Registry) (eng : Engine) : Prop :=
  Load getenv = Ok cfg /\ NewLowLevel c = None /\ s3files_New c (resolveFilesBucket getenv) = None
  /\ buildRegistry world updates (extraFactories s) = Ok reg
  /\ (exists log store, openStore = (log, Ok store) /\ (loadEngine reg (hosts_of s cfg store)).2 = Ok eng)
  /\ nats_Start c = None.

(** The boot up to and including the start of the endpoints, and what follows. *)
Lemma Run_cases s :
  (exists boot e, Run s = (boot, Err e) /\ forallb preparatory boot = true /\ ~ (exists cfg reg eng, required s cfg reg eng))
  \/ (exists boot e, Run s = (boot ++ [StartNats], Err (NatsStart e)) /\ forallb preparatory boot = true /\ nats_Start c = Some e)
  \/ (exists boot cfg reg eng rsa, required s cfg reg eng /\ forallb preparatory boot = true
       /\ LoadWorkflows (WorkflowIDs eng) ∈ boot /\ WorkflowIDs eng <> [] /\ down eng = false /\ closed eng = []
       /\ Run s = (boot ++ StartNats :: match rsa with Some rt => [PublishAgents (Publish.Names rt)] | None => [] end
                    ++ (shutdown eng rsa).1, Ok tt)).
Proof using.
  unfold Run, required. destruct (Load getenv) as [cfg|key] eqn:El.
  2:{ left. exists [], (MissingEnv key). split_and!; [done|done|]. by intros (? & ? & ? & ? & _). }
  unfold must at 1. destruct (NewLowLevel c) as [e|] eqn:En.
  { left. eexists _, _. split_and!; [reflexivity|done|]. by intros (? & ? & ? & _ & ? & _). }
  unfold must at 1. destruct (s3files_New c _) as [e|] eqn:Es; cbn [bind].
  { left. eexists _, _. split_and!; [reflexivity|done|]. by intros (? & ? & ? & _ & _ & ? & _). }
  destruct openStore_prep as (slog & store & Est & Hslog). rewrite Est. cbn [bind].
  destruct (buildRegistry world updates (extraFactories s)) as [reg|taken] eqn:Er.
  2:{ left. eexists _, _. split_and!; [reflexivity|cbn; by rewrite app_nil_r|]. by intros (? & ? & ? & _ & _ & _ & ? & _). }
  destruct (loadEngine reg (hosts_of s cfg store)) as [llog [eng|e]] eqn:Ee; cbn [bind].
  2:{ left. eexists _, _. split_and!; [reflexivity| |].
      - cbn. rewrite forallb_app, Hslog. unfold loadEngine in Ee.
        destruct (LoadAll _ _ _ _ _ _ _ _ _ _) as [[rep|e'] eng']; [|by injection Ee as <- _]. by destruct (WorkflowIDs eng'); injection Ee as <- ?.
      - intros (cfg' & reg' & eng' & [= <-] & _ & _ & [= <-] & (l & st & [= <- <-] & H) & _). rewrite Ee in H. done. }
  destruct (loadEngine_ok _ _ _ _ Ee) as (-> & Hne & Hd & Hc).
  destruct (registerAdmin_prep cfg (hosts_of s cfg store)) as (alog & -> & Halog).
  unfold must. destruct (nats_Start c) as [e|] eqn:Est'; cbn [bind registerList act].
  { right. left. exists (NewNats (NatsBasePath cfg) (NatsQueueName cfg) (NatsURL cfg) :: NewUploader (resolveFilesBucket getenv) :: slog
       ++ LoadWorkflows (WorkflowIDs eng) :: AddEndpoints ["ListWorkflows"] :: alog), e.
    cbn. rewrite forallb_app, Hslog. cbn. split_and!; [|done|done]. do 3 f_equal. by rewrite <- app_assoc. }
  destruct (publish_log eng) as (rsa & ->). destruct (shutdown eng rsa) as [dlog r] eqn:Ed.
  assert (r = Ok tt) as -> by (unfold shutdown in Ed; destruct (Shutdown _ _); by injection Ed as _ <-).
  right. right. exists (NewNats (NatsBasePath cfg) (NatsQueueName cfg) (NatsURL cfg) :: NewUploader (resolveFilesBucket getenv) :: slog
     ++ LoadWorkflows (WorkflowIDs eng) :: AddEndpoints ["ListWorkflows"] :: alog), cfg, reg, eng, rsa.
  split; [|split; [|split; [|split; [exact Hne|split; [exact Hd|split; [exact Hc|]]]]]].
  - split_and!; try assumption; try reflexivity. exists slog, store. split; [reflexivity|]. rewrite Ee. reflexivity.
  - cbn. by rewrite forallb_app, Hslog.
  - do 2 right. apply elem_of_app. right. by left.
  - cbn [bind]. rewrite Ed. cbn [app fst]. do 3 f_equal. by rewrite <- !app_assoc.
Qed.

Lemma shutdown_log eng rsa : down eng = false -> closed eng = [] ->
  exists ks, (shutdown eng rsa).1 = AwaitSignal :: match rsa with Some rt => [ShutdownAgents (Publish.Names rt)] | None => [] end
                                     ++ [ShutdownEngine ks; ShutdownNats]
  /\ NoDup ks /\ forall w id, (w, id) ∈ ks <-> exists wf, workflows eng !! w = Some wf /\ is_Some (wf_Nodes wf !! id).
Proof using.
  intros Hd Hc. unfold shutdown. pose proof (proj2 (Shutdown_once (close c) eng) Hd) as H.
  destruct (Shutdown (close c) eng) as [err eng']. destruct H as (ks & Hcl & Hnd & Hks & _). rewrite Hc in Hcl.
  exists ks. cbn in Hcl. by rewrite Hcl.
Qed.

Lemma boot_cases s log r : Run s = (log, r) ->
  match r with
  | Err e => forall a, a ∈ log -> preparatory a = true \/ (a = StartNats /\ exists m, e = NatsStart m)
  | Ok _ => exists boot eng rsa ks,
      log = boot ++ StartNats :: match rsa with Some rt => [PublishAgents (Publish.Names rt)] | None => [] end
              ++ AwaitSignal :: match rsa with Some rt => [ShutdownAgents (Publish.Names rt)] | None => [] end
              ++ [ShutdownEngine ks; ShutdownNats]
      /\ forallb preparatory boot = true /\ LoadWorkflows (WorkflowIDs eng) ∈ boot /\ WorkflowIDs eng <> []
      /\ NoDup ks /\ (forall w id, (w, id) ∈ ks <-> exists wf, workflows eng !! w = Some wf /\ is_Some (wf_Nodes wf !! id))
  end
  /\ (is_ok r = true <-> exists cfg reg eng, required s cfg reg eng).
Proof using.
  intros H. destruct (Run_cases s) as [(boot & e & Hr & Hp & Hno)|[(boot & e & Hr & Hp & Hn)|(boot & cfg & reg & eng & rsa & Hq & Hp & Hl & Hne & Hd & Hc & Hr)]];
    rewrite H in Hr; injection Hr as -> ->.
  - split; [|split; [done|intros Hq; by destruct Hno]]. intros a Ha. left. rewrite forallb_forall in Hp. by apply Hp, list_elem_of_In.
  - split; [|split; [done|intros (cfg & reg & eng & Hq); destruct Hq as (_ & _ & _ & _ & _ & Hq); congruence]].
    intros a [Ha|Ha]%elem_of_app; [left; rewrite forallb_forall in Hp; by apply Hp, list_elem_of_In|].
    apply list_elem_of_singleton in Ha as ->. right. eauto.
  - split; [|split; [intros _; by exists cfg, reg, eng|done]].
    destruct (shutdown_log eng rsa Hd Hc) as (ks & -> & Hnd & Hks). exists boot, eng, rsa, ks. by split_and!.
Qed.
End run.

(** Two worlds of calls that differ in the optional parts only: the endpoints for the
    prompts and their subscription, what is published of the agents and how, and how
    closing a node ends. *)
Definition same_required (c c' : Calls) : Prop :=
  NewLowLevel c' = NewLowLevel c /\ nats_connected c' = nats_connected c /\ s3files_New c' = s3files_New c
  /\ promptstore_New c' = promptstore_New c /\ store_Provision c' = store_Provision c
  /\ list_ids c' = list_ids c /\ load_raw c' = load_raw c /\ validate_template c' = validate_template c
  /\ subscribe c' = subscribe c /\ access_aware c' = access_aware c /\ nats_Start c' = nats_Start c.

Lemma required_same world updates c c' s cfg reg eng :
  same_required c c' -> required world updates c s cfg reg eng -> required world updates c' s cfg reg eng.
Proof.
  destruct c, c'. unfold same_required. cbn. intros (-> & -> & -> & -> & -> & -> & -> & -> & -> & -> & ->).
  unfold required, openStore, loadEngine, hosts_of. cbn. done.
Qed.

(** C14: A boot that fails has served nothing: it has prepared, at most tried to start the
    endpoints, and neither published an agent nor waited for a signal.  A boot that
    succeeds serves at least one workflow, starts the endpoints after all workflows are
    loaded, publishes agents only then, and on the signal stops the agents, closes every
    node of every workflow exactly once and stops NATS, in that order.  It succeeds
    exactly when the settings are there, the NATS and S3 clients and the registry are
    made, some workflow loads with the hosts at hand and NATS starts; a prompt store that
    does not open is a host the workflows do not have.  Registering the endpoints for the
    prompts, subscribing to their changes, publishing the agents and closing the nodes
    decide nothing: with any other outcomes of those calls the service serves as well. *)
Theorem service_lifecycle world updates c s log r : Run world updates c s = (log, r) ->
  match r with
  | Err e => forall a, a ∈ log -> preparatory a = true \/ (a = StartNats /\ exists m, e = NatsStart m)
  | Ok _ => exists boot eng rsa ks,
      log = boot ++ StartNats :: match rsa with Some rt => [PublishAgents (Publish.Names rt)] | None => [] end
              ++ AwaitSignal :: match rsa with Some rt => [ShutdownAgents (Publish.Names rt)] | None => [] end
              ++ [ShutdownEngine ks; ShutdownNats]
      /\ forallb preparatory boot = true /\ LoadWorkflows (WorkflowIDs eng) ∈ boot /\ WorkflowIDs eng <> []
      /\ NoDup ks /\ (forall w id, (w, id) ∈ ks <-> exists wf, workflows eng !! w = Some wf /\ is_Some (wf_Nodes wf !! id))
  end
  /\ (is_ok r = true <-> exists cfg reg eng, required world updates c s cfg reg eng)
  /\ (forall c', same_required c c' -> is_ok (Run world updates c' s).2 = is_ok r).
Proof.
  intros H. destruct (boot_cases _ _ _ _ _ _ H) as [H1 H2]. split; [exact H1|]. split; [exact H2|]. intros c' Hc.
  destruct (Run world updates c' s) as [log' r'] eqn:E. destruct (boot_cases _ _ _ _ _ _ E) as [_ H3]. cbn [snd].
  assert (same_required c' c) as Hc' by (unfold same_required in *; naive_solver).
  apply Bool.eq_iff_eq_true. rewrite H2, H3. split; intros (cfg & reg & eng & Hq); exists cfg, reg, eng.
  - by apply (required_same world updates c' c).
  - by apply (required_same world updates c c').
Qed.
End Boot.

(** ** A concrete service *)
Module ServiceExamples.
Import Options Boot Engine.Loading BuiltinExamples.

Definition vars : list (string * string) :=
  [("NATS_URL", "nats://h"); ("NATS_QUEUE_NAME", "q"); ("NATS_BASE_PATH", "svc"); ("APP_NAME", " MyApp "); ("ENVIRONMENT", "QA");
   ("OS_USER", "reader"); ("OS_PASS", "pw")].
Definition env (without : list string) (n : string) : option string :=
  if mem_str n without then None else snd <$> find_first (fun kv => String.eqb kv.1 n) vars.
Definition world (without : list string) : World :=
  mkWorld (env without) quiet quiet quiet quiet None quiet quiet quiet quiet (fun _ => Some "/") (fun _ => no_table).
Definition calls_with (store start : option string) : Calls :=
  mkCalls None true quiet (fun _ _ => Ok (fun _ _ _ => Ok None)) store (Ok ["wf"]) (fun _ => Ok (Some (demo_doc wires))) quiet
    (fun _ _ => None) (fun _ => true) quiet None start (fun _ => None) (fun _ => false) (fun _ _ => None) (fun _ => None) (fun _ _ => None).
Definition service : Service := NewService [WithNode "policy/scope" scope_Factory; WithAppName ""; WithWorkflowsDir "flows"].
Definition run (without : list string) (store start : option string) : prog unit := Run (world without) 1 (calls_with store start) service.

Example options_ex : workflowsDir service = "flows" /\ appName service = "ai-agent-service".
Proof. by split. Qed.
Definition prepared : list action :=
  [NewNats "svc" "q" "nats://h"; NewUploader "myapp-assistant-files-qa"; NewStore "myapp-assistant-prompts" "us-east-1"; Provision].
Definition full_log : list action :=
  prepared ++ [LoadWorkflows ["wf"]; AddEndpoints ["ListWorkflows"]; AddEndpoints promptPaths; SubscribeBroadcast "svc.promptChanged";
    StartNats; AwaitSignal; ShutdownEngine [("wf", "s"); ("wf", "m"); ("wf", "a"); ("wf", "t"); ("wf", "p")]; ShutdownNats].
Example run_ex :
  run [] None None = (full_log, Ok tt)
  /\ run ["OS_PASS"] None None = (prepared ++ [LoadWorkflows []], Err NoWorkflows)
  /\ run ["NATS_URL"] None None = ([], Err (MissingEnv "NATS_URL"))
  /\ run [] (Some "throttled") (Some "refused") =
       (prepared ++ [LoadWorkflows ["wf"]; AddEndpoints ["ListWorkflows"]; StartNats], Err (NatsStart "refused")).
Proof. vm_compute. by split_and!. Qed.

Lemma service_lifecycle_witness :
  run [] None None = (full_log, Ok tt) /\ exists cfg reg eng, required (world []) 1 (calls_with None None) service cfg reg eng.
Proof.
  assert (Run (world []) 1 (calls_with None None) service = (full_log, Ok tt)) as H by (vm_compute; reflexivity).
  split; [exact H|]. exact (proj1 (proj1 (proj2 (service_lifecycle (world []) 1 (calls_with None None) service full_log (Ok tt) H))) eq_refl).
Defined.
End ServiceExamples.
